(* ===== verification/_CoqProject ===== *)
-Q . S2P
Prelude.v
Text.v
Sha256.v
Json.v
Config.v
Registry.v
Load.v
Cache.v
Matcher.v
Erc20.v
TestChain.v
Events.v
Wire.v
Toml.v
Profiles.v
Health.v
Rpc.v
Telemetry.v
Store.v
Numeric.v
Sweep.v
Runtime.v
Sweeper.v
Source.v
Outbox.v
Target.v
Api.v
Sign.v
Webhook.v
TxSpec.v
Ledger.v
LedgerTx.v
SweepSpec.v
RegisterSpec.v
System.v
Stats.v
Metrics.v
OneChain.v
Leader.v
LeaderSpec.v
App.v
Dispatch.v
DispatchLive.v
SweeperSpec.v
Proxy.v
Sink.v
Tools.v
Debt.v
Durable.v
Payments.v
SweeperLive.v
Promise.v
SourceSpec.v
SourceRun.v
ApiSpec.v
Http.v
Harness.v
Devnet.v
Bench.v
UnitTests.v
StoreTests.v
Demo.v
DemoTasks.v
DemoLive.v
DemoPay.v
DemoKit.v
Findings.v
