(* ===== verification/Prelude.v ===== *)
(** * gum-indexer: a verification of the payment indexer

    ** The program

    gum-indexer watches EVM chains for ERC-20 transfers to registered payment addresses and posts
    signed webhooks. Any number of instances share one PostgreSQL database; per chain one of them
    leads. A client registers a watch (chain, token, address, threshold, webhook) through the HTTP
    API. The head path (subscriptions or polling) sees transfers as they appear and records them as
    pending; the sweeper, the only place where amounts are counted, scans the blocks up to the
    confirmation depth chunk by chunk and in one transaction per chunk confirms, orphans, counts,
    completes watches and advances the durable cursor. Every step writes its event to an outbox from
    which dispatchers deliver at least once, in order per watch.

    ** Files and the code they model

    - [Prelude]: results, machine integers, byte strings, sums, sorting, list lemmas. [Text]: the
      string functions of the standard library the code uses. [Json]: [serde_json::Value], what a
      [JSONB] column keeps of it, and codecs. [Sha256]: HMAC-SHA-256, for evaluating signatures.
    - [Config], [Load] ([src/config.rs]) and [Registry] ([src/registry.rs]): the configuration, how it
      is loaded (layers, defaults, environment), its validation, the tokens of a chain with their log
      emitter and unit conversion. [Registry.SpecOk] is the interface the rest relies on;
      [Registry.ChainSpec_new_ok] discharges it for every validated configuration and
      [Load.load_well_formed] for every one that loads. [Toml]: documents as lines, their merging and
      the decoding of [Config], an instance of what [Load.load] asks of figment. [Profiles]: the files
      of [config/].
    - [Cache] ([src/cache.rs]), [Matcher] ([src/ingest/matcher.rs], and the log builder of
      [src/testkit/logs.rs] as its inverse), [Events] and [Wire]
      ([src/events.rs]: the events and their JSON), [Health] ([src/ingest/health.rs]), [Rpc]
      ([src/rpc/errors.rs], [src/rpc/mod.rs]), [Telemetry] ([src/telemetry/]: the log limiter, the usage
      poller), [Metrics] (the recorder, and what sweeps, calls and logs count).
    - [Store] ([src/store/mod.rs], [migrations/]): the tables as finite maps, a transaction monad
      [Store.Tx] (reads the environment, threads the database, may fail; [Store.run_tx] keeps the
      old database on failure), registration, cancellation, expiry, statistics. [Numeric]: the
      column codecs and [connect], against a class [Numeric.Decimal] of the decimal library. [Sweep]
      ([src/store/sweep.rs]): [record_pending], [apply_sweep], [apply_backfill],
      [fast_forward_cursor], statement by statement. [Outbox] ([src/store/outbox.rs]).
    - [Runtime] ([src/ingest/mod.rs], [src/ingest/notify.rs]), [Sweeper] ([src/ingest/sweeper.rs]),
      [Source] ([src/ingest/source.rs]), [Target], [Sign], [Webhook] ([src/webhook/]), [Api] and
      [Http] ([src/api/mod.rs]: the handlers; the routes, the bodies and the service as a whole).
    - [TxSpec], [Ledger], [LedgerTx]: closed forms of the transactions; an abstract ledger
      ([Ledger.step], one constructor per elementary change) with its invariant [Ledger.Inv]; every
      transaction refines a sequence of ledger steps.
    - [System]: all instances, their runtimes and the database as one step relation [System.action];
      [SweepSpec], [RegisterSpec], [SweeperSpec], [SourceSpec], [ApiSpec]: the contracts of single
      operations and tasks. [OneChain]: the transactions of one chain leave the others' transfers
      alone. [Stats]: the statistics against the tables they summarise. [Durable] and [Payments]: the
      promise of the durable cursor, kept by what the leader of a chain does, and what a pass confirms.
      [Promise]: the promise as the sweeper's task keeps it, and from the block to the consumer.
    - [Leader] ([run_chain] and [lead] of [src/ingest/mod.rs]): the supervisors of any number of
      instances with the sessions and advisory locks of the server, as a step function
      ([Leader.cstep]) over a cluster, with the transactions of the tasks they run ([Leader.task_step]) and
      those still in flight when tasks are aborted ([Leader.strays]); [LeaderSpec] its theorems. [App] ([src/app.rs], [src/main.rs],
      the listener of [src/ingest/notify.rs]): what is started, awaited and heard.
    - The loops of the tasks: [Debt] (the whole pass of the sweeper returns), [SweeperLive] ([run] of
      [src/ingest/sweeper.rs]), [SourceRun] ([run] of [src/ingest/source.rs]), [Dispatch] ([run] of
      [src/webhook/mod.rs] with its permits and host slots), [DispatchLive] (it empties the outbox).
    - The test kit and the tools: [Proxy] ([src/testkit/proxy.rs]), [Sink] ([src/testkit/sink.rs]),
      [Erc20] ([contracts/MockERC20.sol]), [TestChain] ([src/testkit/chain.rs], over a class of nodes with
      laws), [Harness] ([src/testkit/harness.rs] and the waiting of the sink), [Tools] and [Bench]
      ([src/bin/gum-qn-probe.rs], [src/bin/gum-bench.rs]), [Devnet] ([src/bin/gum-devnet.rs]).
    - [UnitTests] and [StoreTests]: the repository's unit tests and its database tests
      ([tests/store.rs]), evaluated on the definitions.
    - [Demo], [DemoTasks], [DemoLive], [DemoPay], [DemoKit]: concrete runs at which the theorems are
      applied. [Findings]: runs in which the code departs from what its comments say.

    ** What is proved

    - Of every reachable state of the system, whatever the instances interleave: the code's
      database changes are ledger steps; what the watches of a target are credited is the sum of
      the confirmed transfers to it; a watch is completed exactly when its threshold is met;
      every confirmed payment is told by exactly one event, which carries it; event numbers are
      gap-free; a target has one active watch; [threshold.reached] is leased last;
      the statistics count what the tables hold.
    - The service's promise: while the node answers honestly about confirmed blocks and no other instance
      sweeps the chain, a pass that succeeds has confirmed every canonical payment to an active watch up
      to the confirmed block; the sweeper's task starts such a pass at the latest with the first tick
      after the safety interval and repeats it until it succeeds; an instance that takes over loads
      every active watch and starts from what its predecessor kept; and the event of each payment can
      reach its consumer ([Payments], [Promise]). The exceptions are named by labels
      ([Durable.Exceptions]): watches overtaken in the cache by a later registration, which the delta
      load does not repair ([Findings.LostNotification]), and watches once owed blocks behind the
      cursor, whose payments a sweep may have resolved before the backfill ([Findings.OrphanedBackfill]).
    - Of a sweep: it computes, watch by watch, the account of the new transfers of its chunk in
      order; it misses no transfer to a cached active watch; replaying blocks counts nothing twice; what
      it reports as metrics is what it changed. Of the sweeper: its chunk loop ends whatever the node and
      the other instances do, and the whole pass while nobody registers a lookback; the chunks partition
      the range, a provider's limit is learned once, a pass is a sequence of actions of the system, and
      a pending block waits for a sweep or a timer, unless the last pass found the cursor moved by
      somebody else, when it waits for the safety interval. Of the cursor: fast-forwarding skips nothing
      owed.
    - Of leadership: with live sessions one supervisor leads a chain, and the lock table says so;
      transfers change only by the tasks of a working leader of their chain or by a transaction an
      abort left in flight; the flag an instance reports is right; a cancelled supervisor stops by itself
      within ten steps; a lost leader is replaced. Two instances can still ingest one chain
      ([Findings.TwoIngesters]), and then the accounts are right only as far as their transactions do
      not interleave ([Findings.TornSweep]). Of starting: every configured chain gets its supervisor.
    - Of registration: no block falls between backfill and sweep; it is idempotent; the HTTP handler
      is all-or-nothing and announces what it did; [payments_since] reaches far enough. Of the service
      over HTTP: the client of the tests gets exactly what the handlers answer.
    - Of the head path: every watched recipient is subscribed, queued or announced, but those a failed
      sweep has loaded ([Findings.Unannounced]); resubscribing leaves no gap; a log is recorded and its
      sweep scheduled; modes do not flap; polling applies [handle_log] to every block's logs once and in
      order, unless an answer is refused for its size; an outage that lasts is polled through.
    - Of delivery: leases respect order and exclude each other, also while an attempt is running;
      an attempt ends in the outcome that what happened to it calls for, and leaves its row leased if
      that cannot be recorded; concurrency is bounded per dispatcher and per host; with consumers that
      answer the outbox drains, whatever the interleaving; failing hosts are parked; signatures verify;
      requests reach public addresses only; a delivery to the test kit's sink is recorded once, with the event that was written however the column and
      the body rendered it, and verifiable, or not counted as delivered.
    - Of the rest: a configuration that loads is typed, valid and yields well-formed chains; the
      shipped profile loads with any endpoints;
      validation is exactly its specification; token lookup inverts the index; unit conversion rounds
      down; amounts survive the [NUMERIC] codec; health refines a history of observations; RPC
      retries terminate and are bounded; the throttle keeps its rate; the log limiter accounts for
      every occurrence; lock keys and notification payloads are injective; the proxy's faults and
      range limits are exact and the sweeper learns the limit from one refusal; the probe suggests
      only what the provider accepted; the mock token keeps its books; a payment on the test chain is
      matched and a reorganization removes it; the waits of the tests end; every token of the
      development network can be paid; the benchmark pays whom it says.

    ** Modelling decisions

    Rust integers are [Z] with the width's wrap-around written out where arithmetic or a cast can
    leave it ([u64_add], [as_i64], ...); the release profile leaves overflow checks off. Addresses,
    hashes and UUIDs are [Z]. [NUMERIC(78,0)] cells are [Z] bounded by the column's precision.
    SQL statements are written out on the maps, with uniqueness and check constraints as failures;
    a transaction is one atomic step. Within one ingesting instance this is what the row locks make it (the
    cursor row for sweeps and registrations, the watch row for counting), since its sweeps and backfills
    follow one another in one task. Between two instances that ingest one chain it is an idealisation: a
    backfill takes no lock on the cursor, and [Findings.TornSweep] runs a sweep whose statements a
    backfill separates. So what [System] shows of any interleaving of instances is at the granularity
    of transactions. A commit whose follow-up in memory is lost is an action of its own; losing the
    database connection is modelled as far as the failures the transactions raise, the statements of the
    dispatcher that fail, and the sessions of [Leader]. What a call
    reads from outside (clock, UUIDs, replies of the node, other instances' commits between two
    awaits) is a parameter. A task's loop is a function of the branch each [select] took and of what
    its awaits returned, given as a list of events.

    Fuel: [Sweeper.sweep_chunks] and [Sweeper.backfill_fetch] loop while the node answers; the
    measure (blocks left times [max_log_range], plus the current span) strictly decreases, and fuel
    above it is proved enough ([SweeperSpec.sweep_chunks_cover],
    [SweeperSpec.backfill_fetch_complete]). The outer loop of [Sweeper.backfill] settles at least one
    debt per full batch; fuel above the number of watches owed blocks plus those measures is proved
    enough for the whole pass ([Debt.sweep_returns]) and, computed once from the debts at the start, for
    every pass of the task ([Promise.sweeper_keeps_promise]). [Rpc.run] recurses on the list of delays the
    backoff yields, [Text.show_digits] prints at most 20 digits, enough for [u64], and
    [Numeric.connect] takes one unit per attempt of the bounded number it makes.

    ** Not modelled

    Tracing and the exporter of the metrics, the text of JSON and TOML (values and lines instead; the
    printer and reader of bodies are parameters with the laws they need), the matching and the timeout
    layer of the HTTP framework beyond routes and methods, the internals of sqlx, alloy, reqwest, HMAC,
    figment and URL parsing (parameters where a result matters), overflow of [BIGINT] counters,
    aborting a task at an arbitrary instruction (but that a transaction may commit after an abort is), sockets and processes of the test kit, the figures the
    benchmark and the probe compute in floating point, the micro-benchmarks, and the end-to-end tests.

    ** Plan

    What could follow: registrations with a lookback while the loop of [Promise] runs (its fuel is
    computed from the debts at the start), the dispatcher and the sink as one system with several
    dispatchers at once, and an end-to-end scenario over [Http], [Sweeper], [TestChain] and [Sink]. *)

From Stdlib Require Import ZArith Lia Wellfounded.
From stdpp Require Export base gmap list strings sorting.

#[global] Open Scope Z_scope.

(** ** Results *)

Inductive result (E A : Type) : Type :=
  | Ok (a : A)
  | Err (e : E).
Arguments Ok {E A} a.
Arguments Err {E A} e.

Definition is_ok {E A} (r : result E A) : bool :=
  match r with Ok _ => true | Err _ => false end.

(** [Result::ok]. *)
Definition result_ok {E A} (r : result E A) : option A :=
  match r with Ok a => Some a | Err _ => None end.

(** [Option::ok_or]. *)
Definition ok_or {E A} (e : E) (o : option A) : result E A :=
  match o with Some a => Ok a | None => Err e end.

#[global] Instance result_ret {E} : MRet (result E) := fun A a => Ok a.
#[global] Instance result_bind {E} : MBind (result E) :=
  fun A B f r => match r with Ok a => f a | Err e => Err e end.

Lemma result_bind_Ok {E A B} (r : result E A) (f : A -> result E B) b :
  (r ≫= f) = Ok b -> exists a, r = Ok a /\ f a = Ok b.
Proof. destruct r as [a|e]; [exists a; done | done]. Qed.

(** ** Machine integers

    Every Rust integer is a [Z]; the casts and the arithmetic that can leave the width are
    written out. The release profile leaves [overflow-checks] at its default, so plain [+], [-]
    and [*] wrap. *)

Definition u64_max : Z := 2 ^ 64 - 1.
Definition u32_max : Z := 2 ^ 32 - 1.

Definition as_u64 (x : Z) : Z := x `mod` 2 ^ 64.
Definition as_u32 (x : Z) : Z := x `mod` 2 ^ 32.
Definition as_u8 (x : Z) : Z := x `mod` 2 ^ 8.
Definition as_i64 (x : Z) : Z := (x + 2 ^ 63) `mod` 2 ^ 64 - 2 ^ 63.

Definition u64_add (x y : Z) : Z := as_u64 (x + y).
Definition u64_sub (x y : Z) : Z := as_u64 (x - y).
Definition u64_mul (x y : Z) : Z := as_u64 (x * y).
Definition saturating_sub (x y : Z) : Z := Z.max 0 (x - y).
Definition u64_saturating_mul (x y : Z) : Z := Z.min u64_max (x * y).
Definition u32_saturating_add (x y : Z) : Z := Z.min u32_max (x + y).
Definition u256_add (x y : Z) : Z := (x + y) `mod` 2 ^ 256.

Definition in_u64 (x : Z) : Prop := 0 <= x < 2 ^ 64.
Definition in_i63 (x : Z) : Prop := 0 <= x < 2 ^ 63.
Definition in_u256 (x : Z) : Prop := 0 <= x < 2 ^ 256.

#[global] Instance in_u64_dec x : Decision (in_u64 x).
Proof. unfold in_u64. apply _. Defined.
#[global] Instance in_i63_dec x : Decision (in_i63 x).
Proof. unfold in_i63. apply _. Defined.
#[global] Instance in_u256_dec x : Decision (in_u256 x).
Proof. unfold in_u256. apply _. Defined.

Lemma pow_2_64 : 2 ^ 64 = 18446744073709551616. Proof. reflexivity. Qed.
Lemma pow_2_63 : 2 ^ 63 = 9223372036854775808. Proof. reflexivity. Qed.
Lemma pow_2_32 : 2 ^ 32 = 4294967296. Proof. reflexivity. Qed.

(** [int_lia] unfolds the integer vocabulary above and calls [lia] with the powers evaluated. *)
Ltac int_unfold :=
  unfold u64_add, u64_sub, u64_mul, u64_saturating_mul, u32_saturating_add, saturating_sub,
    as_u64, as_u32, as_i64, in_u64, in_i63, u64_max, u32_max in *;
  rewrite ?pow_2_64, ?pow_2_63, ?pow_2_32 in *.
Ltac int_lia := int_unfold; Z.to_euclidean_division_equations; lia.

Lemma as_u64_id x : in_u64 x -> as_u64 x = x.
Proof. apply Z.mod_small. Qed.

Lemma as_u64_range x : in_u64 (as_u64 x).
Proof. apply Z.mod_pos_bound. lia. Qed.

Lemma in_i63_u64 x : in_i63 x -> in_u64 x.
Proof. int_lia. Qed.

Lemma as_i64_id x : in_i63 x -> as_i64 x = x.
Proof. int_lia. Qed.

(** The column round trip [u64 -> BIGINT -> u64] is lossless on the whole of [u64]. *)
Lemma as_u64_as_i64 x : in_u64 x -> as_u64 (as_i64 x) = x.
Proof. int_lia. Qed.

Lemma as_i64_inj x y : in_u64 x -> in_u64 y -> as_i64 x = as_i64 y -> x = y.
Proof. intros Hx Hy H. rewrite <- (as_u64_as_i64 x Hx), <- (as_u64_as_i64 y Hy). by rewrite H. Qed.

Lemma u64_add_id x y : in_u64 (x + y) -> u64_add x y = x + y.
Proof. apply Z.mod_small. Qed.

Create HintDb gum.
Create Rewrite HintDb gum.
#[export] Hint Resolve as_u64_range in_i63_u64 : gum.
#[export] Hint Rewrite as_i64_id as_u64_id using (by auto with gum) : gum.

(** ** Big-endian byte strings *)

Definition byte_ok (b : Z) : Prop := 0 <= b < 256.

Definition be_value (bs : list Z) : Z := foldl (fun acc b => acc * 256 + b) 0 bs.

(** The [n] big-endian bytes of [v]; the inverse of [be_value] below [256 ^ n]. *)
Fixpoint be_bytes (n : nat) (v : Z) : list Z :=
  match n with
  | O => []
  | S n => be_bytes n (v `div` 256) ++ [v `mod` 256]
  end.

Lemma be_value_snoc bs b : be_value (bs ++ [b]) = be_value bs * 256 + b.
Proof. unfold be_value. by rewrite foldl_snoc. Qed.

Lemma length_be_bytes n v : length (be_bytes n v) = n.
Proof. revert v; induction n as [|n IH]; intros v; [done|]. simpl. rewrite length_app, IH. simpl. lia. Qed.

Lemma be_value_be_bytes n v : 0 <= v < 256 ^ Z.of_nat n -> be_value (be_bytes n v) = v.
Proof.
  revert v; induction n as [|n IH]; intros v Hv.
  { change (256 ^ Z.of_nat 0) with 1 in Hv. cbn. lia. }
  simpl be_bytes. rewrite be_value_snoc, IH.
  - pose proof (Z.div_mod v 256). lia.
  - rewrite Nat2Z.inj_succ, Z.pow_succ_r in Hv by lia.
    split; [apply Z.div_pos; lia|]. apply Z.div_lt_upper_bound; lia.
Qed.

Lemma be_value_bound bs :
  Forall byte_ok bs -> 0 <= be_value bs < 256 ^ Z.of_nat (length bs).
Proof.
  induction bs as [|b bs IH] using rev_ind; intros H; [done|].
  rewrite be_value_snoc, length_app, Nat2Z.inj_add, Z.pow_add_r by lia.
  change (256 ^ Z.of_nat (length [b])) with 256.
  apply Forall_app in H as [H1 H2]. inversion_clear H2 as [|? ? Hb _]. unfold byte_ok in Hb.
  specialize (IH H1). lia.
Qed.

(** ** Sums *)

Definition sumZ {A} (f : A -> Z) (l : list A) : Z := foldr (fun a acc => f a + acc) 0 l.

Lemma sumZ_app {A} (f : A -> Z) l1 l2 : sumZ f (l1 ++ l2) = sumZ f l1 + sumZ f l2.
Proof. induction l1 as [|a l1 IH]; simpl; lia. Qed.

#[global] Instance sumZ_Permutation {A} (f : A -> Z) : Proper ((≡ₚ) ==> (=)) (sumZ f).
Proof. induction 1; simpl; lia. Qed.

Lemma sumZ_ext {A} (f g : A -> Z) l : (forall a, a ∈ l -> f a = g a) -> sumZ f l = sumZ g l.
Proof.
  induction l as [|a l IH]; intros H; [done|]. simpl.
  rewrite (H a) by apply list_elem_of_here. rewrite IH; [done|].
  intros b Hb. apply H. by apply list_elem_of_further.
Qed.

(** Sum over a table: every row contributes [f key row]. *)
Definition map_sum {K V} `{Countable K} (f : K -> V -> Z) (m : gmap K V) : Z :=
  sumZ (uncurry f) (map_to_list m).

Section map_sum.
Context {K V : Type} `{Countable K} (f : K -> V -> Z).
Implicit Types m : gmap K V.

Lemma map_sum_empty : map_sum f ∅ = 0.
Proof. unfold map_sum. by rewrite map_to_list_empty. Qed.

Lemma map_sum_insert_new m i x : m !! i = None -> map_sum f (<[i:=x]> m) = f i x + map_sum f m.
Proof. intros Hi. unfold map_sum. by rewrite map_to_list_insert. Qed.

Lemma map_sum_delete m i x : m !! i = Some x -> map_sum f m = f i x + map_sum f (delete i m).
Proof.
  intros Hi. rewrite <- (insert_delete_id m i x Hi) at 1.
  apply map_sum_insert_new, lookup_delete_eq.
Qed.

Lemma map_sum_insert_upd m i x y :
  m !! i = Some x -> map_sum f (<[i:=y]> m) = map_sum f m - f i x + f i y.
Proof.
  intros Hi. rewrite <- insert_delete_eq.
  rewrite map_sum_insert_new by apply lookup_delete_eq.
  rewrite (map_sum_delete m i x Hi). lia.
Qed.

Lemma map_sum_ext (g : K -> V -> Z) m :
  (forall i x, m !! i = Some x -> f i x = g i x) -> map_sum f m = map_sum g m.
Proof.
  intros Hfg. apply sumZ_ext. intros [i x] Hin. apply elem_of_map_to_list in Hin. simpl. auto.
Qed.
End map_sum.

(** ** Sorting by key

    [sort_by_key f] is Rust's stable [sort_by_key] at a two-component integer key, and SQL's
    [ORDER BY a, b]. *)

Definition key_le (p q : Z * Z) : Prop := p.1 < q.1 \/ (p.1 = q.1 /\ p.2 <= q.2).

#[global] Instance key_le_dec : RelDecision key_le.
Proof. intros p q. unfold key_le. apply _. Defined.
#[global] Instance key_le_trans : Transitive key_le.
Proof. intros p q r. unfold key_le. lia. Qed.
#[global] Instance key_le_total : Total key_le.
Proof. intros p q. unfold key_le. lia. Qed.
#[global] Instance key_le_refl : Reflexive key_le.
Proof. intros p. unfold key_le. lia. Qed.

Definition on_key {A} (f : A -> Z * Z) (a b : A) : Prop := key_le (f a) (f b).

#[global] Instance on_key_dec {A} (f : A -> Z * Z) : RelDecision (on_key f).
Proof. intros a b. unfold on_key. apply _. Defined.
#[global] Instance on_key_total {A} (f : A -> Z * Z) : Total (on_key f).
Proof. intros a b. apply key_le_total. Qed.
#[global] Instance on_key_trans {A} (f : A -> Z * Z) : Transitive (on_key f).
Proof. intros a b c. apply key_le_trans. Qed.

Definition sort_by_key {A} (f : A -> Z * Z) (l : list A) : list A := merge_sort (on_key f) l.
Definition sort_by {A} (f : A -> Z) (l : list A) : list A := sort_by_key (fun a => (f a, 0)) l.

Lemma sort_by_key_perm {A} (f : A -> Z * Z) l : sort_by_key f l ≡ₚ l.
Proof. apply merge_sort_Permutation. Qed.

Lemma sort_by_key_sorted {A} (f : A -> Z * Z) l : StronglySorted (on_key f) (sort_by_key f l).
Proof. apply StronglySorted_merge_sort; apply _. Qed.

Lemma elem_of_sort_by_key {A} (f : A -> Z * Z) l x : x ∈ sort_by_key f l <-> x ∈ l.
Proof. by rewrite sort_by_key_perm. Qed.

Lemma sort_by_perm {A} (f : A -> Z) l : sort_by f l ≡ₚ l.
Proof. apply sort_by_key_perm. Qed.

Lemma elem_of_sort_by {A} (f : A -> Z) l x : x ∈ sort_by f l <-> x ∈ l.
Proof. apply elem_of_sort_by_key. Qed.

Lemma sort_by_sorted {A} (f : A -> Z) l : StronglySorted (fun a b => f a <= f b) (sort_by f l).
Proof.
  pose proof (sort_by_key_sorted (fun a => (f a, 0)) l) as H. unfold sort_by.
  induction H as [|a l' Hs IH Hall]; constructor; [done|].
  eapply Forall_impl; [exact Hall|]. intros b Hb. unfold on_key, key_le in Hb. simpl in Hb. lia.
Qed.

(** [sort_unstable] then [dedup] on a vector of integers. *)
Definition sort_dedup (l : list Z) : list Z := sort_by (fun a => a) (remove_dups l).

Lemma elem_of_sort_dedup l x : x ∈ sort_dedup l <-> x ∈ l.
Proof. unfold sort_dedup. by rewrite elem_of_sort_by, elem_of_remove_dups. Qed.

Lemma NoDup_sort_dedup l : NoDup (sort_dedup l).
Proof. unfold sort_dedup. rewrite sort_by_perm. apply NoDup_remove_dups. Qed.

(** ** Optional minima and maxima ([Iterator::min], [Iterator::max], SQL [min]) *)

Definition list_min (l : list Z) : option Z :=
  match l with [] => None | x :: l => Some (foldr Z.min x l) end.
Definition list_max (l : list Z) : option Z :=
  match l with [] => None | x :: l => Some (foldr Z.max x l) end.

Lemma foldr_min_le x l y : y = x \/ y ∈ l -> foldr Z.min x l <= y.
Proof.
  induction l as [|z l IH]; simpl; intros [->|Hy]; try lia.
  - by apply not_elem_of_nil in Hy.
  - apply elem_of_cons in Hy as [->|Hy]; [lia|]. specialize (IH (or_intror Hy)). lia.
Qed.

Lemma list_min_le l m y : list_min l = Some m -> y ∈ l -> m <= y.
Proof.
  destruct l as [|x l]; [done|]. intros [= <-] Hy%elem_of_cons.
  by apply foldr_min_le.
Qed.

Lemma foldr_max_ge x l y : y = x \/ y ∈ l -> y <= foldr Z.max x l.
Proof.
  induction l as [|z l IH]; simpl; intros [->|Hy]; try lia.
  - by apply not_elem_of_nil in Hy.
  - apply elem_of_cons in Hy as [->|Hy]; [lia|]. specialize (IH (or_intror Hy)). lia.
Qed.

Lemma foldr_max_acc a b l : foldr Z.max (Z.max a b) l = Z.max b (foldr Z.max a l).
Proof. induction l as [|z l IH]; cbn [foldr]; [|rewrite IH]; lia. Qed.

Lemma list_max_ge l m y : list_max l = Some m -> y ∈ l -> y <= m.
Proof.
  destruct l as [|x l]; [done|]. intros [= <-] Hy%elem_of_cons.
  by apply foldr_max_ge.
Qed.

Lemma list_min_elem l m : list_min l = Some m -> m ∈ l.
Proof.
  destruct l as [|x l]; [done|]. intros [= <-]. induction l as [|y l IH]; cbn [foldr]; [apply list_elem_of_here|].
  rewrite !elem_of_cons in *. destruct (Z.min_spec y (foldr Z.min x l)) as [[_ ->]|[_ ->]]; tauto.
Qed.

Lemma list_max_elem l m : list_max l = Some m -> m ∈ l.
Proof.
  destruct l as [|x l]; [done|]. intros [= <-]. induction l as [|y l IH]; cbn [foldr]; [apply list_elem_of_here|].
  rewrite !elem_of_cons in *. destruct (Z.max_spec y (foldr Z.max x l)) as [[_ ->]|[_ ->]]; tauto.
Qed.

Lemma list_min_None l : list_min l = None <-> l = [].
Proof. by destruct l. Qed.

(** ** Lists *)

(** Pairwise distinct images, one element at a time. *)
Lemma NoDup_fmap_cons {A B} (f : A -> B) x l :
  NoDup (f <$> x :: l) <-> (forall y, y ∈ l -> f y ≠ f x) /\ NoDup (f <$> l).
Proof.
  rewrite fmap_cons, NoDup_cons, list_elem_of_fmap. split; intros [H1 H2]; (split; [|done]).
  - intros y Hy Heq. apply H1. eauto.
  - intros (y & Heq & Hy). by apply (H1 y).
Qed.

Lemma NoDup_fmap_filter {A B} (f : A -> B) p l : NoDup (f <$> l) -> NoDup (f <$> List.filter p l).
Proof.
  induction l as [|a l IH]; intros Hnd; [done|]. apply NoDup_fmap_cons in Hnd as [H1 H2].
  cbn. destruct (p a); [|auto]. apply NoDup_fmap_cons. split; [|auto].
  intros y Hy%list_elem_of_In%List.filter_In. apply H1, list_elem_of_In, Hy.
Qed.

(** Partial images with pairwise distinct keys. *)
Lemma NoDup_omap_fst {A K V} (f : A -> option (K * V)) l :
  NoDup l -> (forall x y k v v', x ∈ l -> y ∈ l -> f x = Some (k, v) -> f y = Some (k, v') -> x = y) ->
  NoDup (omap f l).*1.
Proof.
  induction l as [|x l IH]; intros Hnd Hinj; [constructor|]. apply NoDup_cons in Hnd as [Hx Hnd]. cbn.
  assert (NoDup (omap f l).*1) as Hl.
  { apply IH; [done|]. intros y z k v v' Hy Hz. apply Hinj; by apply list_elem_of_further. }
  destruct (f x) as [[k v]|] eqn:Hf; [|done]. apply NoDup_cons. split; [|done].
  intros ([k' v'] & E & (y & Hy & Hfy)%list_elem_of_omap)%list_elem_of_fmap. cbn in E. subst k'.
  destruct Hx. rewrite (Hinj x y k v v'); [done|apply list_elem_of_here|by apply list_elem_of_further|done..].
Qed.

(** ** Folding an effectful step over a list ([for x in xs { f(x)?; }]) *)

Fixpoint mfold {M : Type -> Type} `{MRet M, MBind M} {A B : Type}
    (f : B -> A -> M A) (l : list B) (a : A) : M A :=
  match l with
  | [] => mret a
  | b :: l => f b a ≫= mfold f l
  end.
