(* ===== verification/Text.v ===== *)
(** * Text: the [str] operations the indexer uses

    Rust strings are modelled by [string] and the model's domain is ASCII text, on which a [char]
    is a byte. [to_uppercase], [to_ascii_lowercase], [eq_ignore_ascii_case], [trim], [find],
    [contains], [starts_with], [ends_with], [split], [splitn], [split_once], [chars().take(n)] and
    the integer parsers are the standard library's. *)

From S2P Require Import Prelude.
From Stdlib Require Import Ascii.

Definition is_upper (c : ascii) : bool :=
  let n := nat_of_ascii c in (65 <=? n)%nat && (n <=? 90)%nat.
Definition is_lower (c : ascii) : bool :=
  let n := nat_of_ascii c in (97 <=? n)%nat && (n <=? 122)%nat.
Definition lower_char (c : ascii) : ascii :=
  if is_upper c then ascii_of_nat (nat_of_ascii c + 32) else c.
Definition upper_char (c : ascii) : ascii :=
  if is_lower c then ascii_of_nat (nat_of_ascii c - 32) else c.

Fixpoint string_map (f : ascii -> ascii) (s : string) : string :=
  match s with
  | EmptyString => EmptyString
  | String c s => String (f c) (string_map f s)
  end.

Definition to_ascii_lowercase : string -> string := string_map lower_char.
Definition to_uppercase : string -> string := string_map upper_char.

Definition eq_ignore_ascii_case (a b : string) : bool :=
  String.eqb (to_ascii_lowercase a) (to_ascii_lowercase b).

Fixpoint strip_prefix (p s : string) : option string :=
  match p, s with
  | EmptyString, _ => Some s
  | String a p, String b s => if Ascii.eqb a b then strip_prefix p s else None
  | String _ _, EmptyString => None
  end.

Definition starts_with (s p : string) : bool := bool_decide (is_Some (strip_prefix p s)).

(** What follows the first occurrence of [p] in [s]: [&s[s.find(p)? + p.len()..]]. *)
Fixpoint after_first (p s : string) : option string :=
  match strip_prefix p s with
  | Some rest => Some rest
  | None => match s with EmptyString => None | String _ s => after_first p s end
  end.

Definition contains (s p : string) : bool := bool_decide (is_Some (after_first p s)).

Fixpoint ends_with (s p : string) : bool :=
  String.eqb s p || match s with EmptyString => false | String _ s => ends_with s p end.

Fixpoint skip_while (f : ascii -> bool) (s : string) : string :=
  match s with
  | EmptyString => EmptyString
  | String c s' => if f c then skip_while f s' else s
  end.
Fixpoint take_while (f : ascii -> bool) (s : string) : string :=
  match s with
  | EmptyString => EmptyString
  | String c s' => if f c then String c (take_while f s') else EmptyString
  end.
Fixpoint filter_chars (f : ascii -> bool) (s : string) : string :=
  match s with
  | EmptyString => EmptyString
  | String c s' => if f c then String c (filter_chars f s') else filter_chars f s'
  end.
Fixpoint take_chars (n : nat) (s : string) : string :=
  match n, s with
  | O, _ | _, EmptyString => EmptyString
  | S n, String c s => String c (take_chars n s)
  end.

Definition is_space (c : ascii) : bool :=
  let n := nat_of_ascii c in ((9 <=? n)%nat && (n <=? 13)%nat) || (n =? 32)%nat.

Fixpoint trim_end (s : string) : string :=
  match s with
  | EmptyString => EmptyString
  | String c s =>
      match trim_end s with
      | EmptyString => if is_space c then EmptyString else String c EmptyString
      | s' => String c s'
      end
  end.
Definition trim (s : string) : string := trim_end (skip_while is_space s).

(** [s.split(sep)]: always at least one piece. *)
Fixpoint split_on (sep : ascii) (s : string) : string * list string :=
  match s with
  | EmptyString => (EmptyString, [])
  | String c s =>
      let '(h, t) := split_on sep s in
      if Ascii.eqb c sep then (EmptyString, h :: t) else (String c h, t)
  end.
Definition split (sep : ascii) (s : string) : list string :=
  let '(h, t) := split_on sep s in h :: t.

(** [s.split_once(sep)]. *)
Fixpoint split_once (sep : ascii) (s : string) : option (string * string) :=
  match s with
  | EmptyString => None
  | String c s =>
      if Ascii.eqb c sep then Some (EmptyString, s)
      else (fun '(a, b) => (String c a, b)) <$> split_once sep s
  end.

(** ** Integer parsing *)

Definition digit (c : ascii) : option Z :=
  let n := nat_of_ascii c in
  if (48 <=? n)%nat && (n <=? 57)%nat then Some (Z.of_nat n - 48) else None.
Definition is_ascii_digit (c : ascii) : bool := bool_decide (is_Some (digit c)).

Fixpoint digits_value (acc : Z) (s : string) : option Z :=
  match s with
  | EmptyString => Some acc
  | String c s => d ← digit c; digits_value (acc * 10 + d) s
  end.

(** One or more digits, in range: the part of [str::parse] the integer types share. *)
Definition parse_digits (max : Z) (s : string) : option Z :=
  match s with
  | EmptyString => None
  | _ => v ← digits_value 0 s; if v <=? max then Some v else None
  end.

(** [str::parse::<u64>]: an optional [+] and digits, [None] on overflow. *)
Definition parse_u64 (s : string) : option Z :=
  match s with
  | String "+" s => parse_digits u64_max s
  | _ => parse_digits u64_max s
  end.

(** [str::parse::<i64>]: an optional sign and digits. *)
Definition parse_i64 (s : string) : option Z :=
  match s with
  | String "+" s => parse_digits (2 ^ 63 - 1) s
  | String "-" s => Z.opp <$> parse_digits (2 ^ 63) s
  | _ => parse_digits (2 ^ 63 - 1) s
  end.

(** Decimal rendering ([to_string] of the unsigned integers), for numbers below [10 ^ fuel]. *)
Definition digit_char (d : Z) : ascii := ascii_of_nat (Z.to_nat (48 + d)).
Fixpoint show_digits (fuel : nat) (n : Z) : string :=
  match fuel with
  | O => EmptyString
  | S fuel =>
      if n <? 10 then String (digit_char n) EmptyString
      else show_digits fuel (n `div` 10) +:+ String (digit_char (n `mod` 10)) EmptyString
  end.
Definition show_u64 (n : Z) : string := show_digits 20 n.

(** ** Lemmas *)

Lemma strip_prefix_app p s : strip_prefix p (p +:+ s) = Some s.
Proof. induction p as [|c p IH]; [done|]. simpl. by rewrite Ascii.eqb_refl. Qed.

Lemma strip_prefix_Some p s rest : strip_prefix p s = Some rest <-> s = p +:+ rest.
Proof.
  revert s; induction p as [|c p IH]; intros s; simpl; [naive_solver|].
  destruct s as [|d s]; [done|]. destruct (Ascii.eqb_spec c d) as [->|Hne].
  - rewrite IH. unfold String.app. simpl. naive_solver.
  - unfold String.app; simpl. naive_solver.
Qed.

Lemma eq_ignore_ascii_case_refl a : eq_ignore_ascii_case a a = true.
Proof. apply String.eqb_refl. Qed.

Lemma eq_ignore_ascii_case_sym a b : eq_ignore_ascii_case a b = eq_ignore_ascii_case b a.
Proof. apply String.eqb_sym. Qed.

Lemma lower_upper_char c : lower_char (upper_char c) = lower_char c.
Proof. destruct c as [[] [] [] [] [] [] [] []]; reflexivity. Qed.

Lemma to_uppercase_lowercase s : to_ascii_lowercase (to_uppercase s) = to_ascii_lowercase s.
Proof.
  unfold to_ascii_lowercase, to_uppercase.
  induction s as [|c s IH]; [done|]. simpl. by rewrite lower_upper_char, IH.
Qed.

Lemma upper_lower_char c : upper_char (lower_char c) = upper_char c.
Proof. destruct c as [[] [] [] [] [] [] [] []]; reflexivity. Qed.

Lemma to_lowercase_uppercase s : to_uppercase (to_ascii_lowercase s) = to_uppercase s.
Proof.
  unfold to_ascii_lowercase, to_uppercase.
  induction s as [|c s IH]; [done|]. simpl. by rewrite upper_lower_char, IH.
Qed.

(** Comparing case-insensitively is comparing the upper-cased strings. *)
Lemma eq_ignore_ascii_case_upper a b :
  eq_ignore_ascii_case a b = true <-> to_uppercase a = to_uppercase b.
Proof.
  unfold eq_ignore_ascii_case. rewrite String.eqb_eq. split; intros H.
  - by rewrite <- (to_lowercase_uppercase a), <- (to_lowercase_uppercase b), H.
  - by rewrite <- (to_uppercase_lowercase a), <- (to_uppercase_lowercase b), H.
Qed.

Lemma digit_range c d : digit c = Some d -> 0 <= d <= 9.
Proof.
  unfold digit. destruct ((48 <=? _)%nat && _) eqn:H; [|done]. intros [= <-].
  apply andb_prop in H as [H1%Nat.leb_le H2%Nat.leb_le]. lia.
Qed.

Lemma digits_value_nonneg s acc v : 0 <= acc -> digits_value acc s = Some v -> 0 <= v.
Proof.
  revert acc; induction s as [|c s IH]; intros acc Ha; simpl; [naive_solver|].
  destruct (digit c) as [d|] eqn:Hd; [|done]. simpl. apply IH.
  apply digit_range in Hd. lia.
Qed.

Lemma parse_digits_range max s v : parse_digits max s = Some v -> 0 <= v <= max.
Proof.
  unfold parse_digits. destruct s as [|c s]; [done|].
  destruct (digits_value 0 (String c s)) as [w|] eqn:H; [|done].
  cbn [mbind option_bind]. destruct (w <=? max) eqn:Hle; [|done]. intros [= <-].
  apply digits_value_nonneg in H; lia.
Qed.

Lemma parse_u64_range s v : parse_u64 s = Some v -> in_u64 v.
Proof.
  unfold parse_u64, in_u64. intros H.
  assert (exists s', parse_digits u64_max s' = Some v) as [s' H'] by (repeat case_match; eauto).
  apply parse_digits_range in H'. unfold u64_max in H'. lia.
Qed.

Lemma digit_digit_char d : 0 <= d <= 9 -> digit (digit_char d) = Some d.
Proof.
  intros H. assert (d = 0 \/ d = 1 \/ d = 2 \/ d = 3 \/ d = 4 \/ d = 5 \/ d = 6 \/ d = 7 \/ d = 8 \/ d = 9) as E by lia.
  repeat destruct E as [->|E]; try reflexivity. by subst.
Qed.

Lemma digits_value_app acc s t : digits_value acc (s +:+ t) = digits_value acc s ≫= fun v => digits_value v t.
Proof.
  revert acc. induction s as [|c s IH]; intros acc; [done|].
  change (String c s +:+ t) with (String c (s +:+ t)). cbn [digits_value].
  destruct (digit c); cbn [mbind option_bind]; [apply IH|done].
Qed.

Lemma digits_value_show fuel n :
  (0 < fuel)%nat -> 0 <= n < 10 ^ Z.of_nat fuel -> digits_value 0 (show_digits fuel n) = Some n.
Proof.
  revert n. induction fuel as [|fuel IH]; intros n Hf Hn; [lia|]. cbn [show_digits].
  destruct (Z.ltb_spec n 10) as [Hlt|Hge].
  { cbn. rewrite digit_digit_char by lia. done. }
  rewrite Nat2Z.inj_succ, Z.pow_succ_r in Hn by lia.
  assert (0 < fuel)%nat. { destruct fuel; [|lia]. change (10 ^ Z.of_nat 0) with 1 in Hn. lia. }
  rewrite digits_value_app, IH; [|done|].
  - cbn. pose proof (Z.mod_pos_bound n 10). rewrite digit_digit_char by lia. cbn.
    pose proof (Z.div_mod n 10). f_equal. lia.
  - split; [apply Z.div_pos; lia|]. apply Z.div_lt_upper_bound; lia.
Qed.

(** The rendering of a number is digits only, at least one of them. *)
Fixpoint all_chars (p : ascii -> bool) (s : string) : bool :=
  match s with EmptyString => true | String c s => p c && all_chars p s end.
Abbreviation all_digits := (all_chars is_ascii_digit).

Lemma digits_value_all_digits acc s v : digits_value acc s = Some v -> all_digits s = true.
Proof.
  revert acc. induction s as [|c s IH]; intros acc; [done|]. cbn. unfold is_ascii_digit.
  destruct (digit c) as [d|]; [|done]. cbn. apply IH.
Qed.

Lemma parse_show_u64 n : in_u64 n -> parse_u64 (show_u64 n) = Some n.
Proof.
  intros Hn. assert (Hv : digits_value 0 (show_u64 n) = Some n).
  { apply digits_value_show; [lia|]. unfold in_u64 in Hn. change (10 ^ Z.of_nat 20) with (10 ^ 20). lia. }
  pose proof (digits_value_all_digits _ _ _ Hv) as Hd.
  assert (Hp : parse_digits u64_max (show_u64 n) = Some n).
  { unfold parse_digits. destruct (show_u64 n) as [|c s] eqn:E.
    - injection Hv as <-. vm_compute in E. done.
    - rewrite Hv. cbn. unfold u64_max. destruct (Z.leb_spec n (2 ^ 64 - 1)); [done|]. unfold in_u64 in Hn. lia. }
  unfold parse_u64. destruct (show_u64 n) as [|c s]; [done|].
  destruct (decide (c = "+"%char)) as [->|Hc]; [by cbn in Hd|].
  rewrite <- Hp. clear - Hc. destruct c as [[] [] [] [] [] [] [] []]; done.
Qed.

(** Splitting at a separator that does not occur before it. *)
Lemma split_once_app sep s t :
  all_digits s = true -> digit sep = None -> split_once sep (s +:+ String sep t) = Some (s, t).
Proof.
  intros Hv Hs. induction s as [|c s IH].
  - change (EmptyString +:+ String sep t) with (String sep t). cbn [split_once]. by rewrite Ascii.eqb_refl.
  - change (String c s +:+ String sep t) with (String c (s +:+ String sep t)). cbn [split_once].
    cbn in Hv. apply andb_prop in Hv as [Hc Hv]. unfold is_ascii_digit in Hc. apply bool_decide_eq_true in Hc.
    destruct (Ascii.eqb_spec c sep) as [->|_]; [by rewrite Hs in Hc; destruct Hc|].
    by rewrite IH.
Qed.

(** ** Searching around a number *)

Lemma string_app_cons c s t : String c s +:+ t = String c (s +:+ t).
Proof. reflexivity. Qed.

Lemma string_app_assoc (a b c : string) : (a +:+ b) +:+ c = a +:+ (b +:+ c).
Proof. induction a as [|x a IH]; [done|]. rewrite !string_app_cons. by rewrite IH. Qed.

(** A pattern without the character [c] does not straddle it. *)
Lemma strip_prefix_straddle p a c b :
  all_chars (fun x => negb (Ascii.eqb x c)) p = true -> strip_prefix p a = None ->
  strip_prefix p (a +:+ String c b) = None.
Proof.
  revert a. induction p as [|x p IH]; intros a Hp Ha; [done|]. cbn in Hp. apply andb_prop in Hp as [Hx Hp].
  destruct a as [|y a].
  - change (strip_prefix (String x p) (String c b) = None). cbn. by destruct (Ascii.eqb x c).
  - rewrite string_app_cons. cbn in *. destruct (Ascii.eqb x y); [by apply IH|done].
Qed.

Lemma after_first_straddle p a c b :
  p ≠ EmptyString -> all_chars (fun x => negb (Ascii.eqb x c)) p = true ->
  after_first p a = None -> after_first p b = None -> after_first p (a +:+ String c b) = None.
Proof.
  intros Hne Hp. induction a as [|y a IH]; intros Ha Hb.
  - change (EmptyString +:+ String c b) with (String c b). cbn [after_first]. cbn in Ha.
    pose proof (strip_prefix_straddle p EmptyString c b Hp) as Hs. destruct p as [|x p]; [done|].
    change (EmptyString +:+ String c b) with (String c b) in Hs. by rewrite Hs.
  - rewrite string_app_cons. cbn [after_first] in *. destruct (strip_prefix p (String y a)) eqn:E; [done|].
    rewrite <- string_app_cons, (strip_prefix_straddle p (String y a) c b Hp E). by apply IH.
Qed.

Definition digit_free (p : string) : bool := all_chars (fun c => negb (is_ascii_digit c)) p.

Lemma digit_free_ne p c :
  digit_free p = true -> is_ascii_digit c = true -> all_chars (fun x => negb (Ascii.eqb x c)) p = true.
Proof.
  unfold digit_free. intros Hp Hc. induction p as [|x p IH]; [done|]. cbn in *. apply andb_prop in Hp as [Hx Hp].
  rewrite IH by done. destruct (Ascii.eqb_spec x c) as [->|]; [by rewrite Hc in Hx|done].
Qed.

(** A pattern without digits occurs in [a ++ digits ++ b] only within [a] or [b]. *)
Lemma contains_around p a d b :
  digit_free p = true -> p ≠ EmptyString -> all_digits d = true -> d ≠ EmptyString ->
  after_first p a = None -> after_first p b = None -> contains (a +:+ d +:+ b) p = false.
Proof.
  intros Hp Hne Hd Hd0 Ha Hb. unfold contains. apply bool_decide_eq_false_2. intros [r Hr].
  enough (after_first p (a +:+ d +:+ b) = None) by congruence. clear r Hr.
  revert a Ha. induction d as [|c d IH]; intros a Ha; [done|]. cbn in Hd. apply andb_prop in Hd as [Hc Hd].
  rewrite string_app_cons. apply after_first_straddle; [done|by apply digit_free_ne|done|].
  destruct d as [|c' d]; [done|].
  change (String c' d +:+ b) with (EmptyString +:+ (String c' d +:+ b)). apply IH; [done|done|by destruct p].
Qed.

Lemma skip_while_stop f c s : f c = false -> skip_while f (String c s) = String c s.
Proof. intros H. cbn. by rewrite H. Qed.

Lemma take_while_app f d c s :
  all_chars f d = true -> f c = false -> take_while f (d +:+ String c s) = d.
Proof.
  intros Hd Hc. induction d as [|x d IH].
  - change (EmptyString +:+ String c s) with (String c s). cbn. by rewrite Hc.
  - cbn in Hd. apply andb_prop in Hd as [Hx Hd]. rewrite string_app_cons. cbn. by rewrite Hx, IH.
Qed.

Lemma filter_chars_all f d : all_chars f d = true -> filter_chars f d = d.
Proof.
  induction d as [|x d IH]; [done|]. cbn. intros [Hx Hd]%andb_prop. by rewrite Hx, IH.
Qed.

Lemma all_chars_impl (f g : ascii -> bool) d :
  (forall c, f c = true -> g c = true) -> all_chars f d = true -> all_chars g d = true.
Proof.
  intros H. induction d as [|x d IH]; [done|]. cbn. intros [Hx Hd]%andb_prop. rewrite H by done. by apply IH.
Qed.

Lemma lower_digit c : is_ascii_digit c = true -> lower_char c = c.
Proof. destruct c as [[] [] [] [] [] [] [] []]; (reflexivity || discriminate). Qed.

Lemma lowercase_digits d s :
  all_digits d = true -> to_ascii_lowercase (d +:+ s) = d +:+ to_ascii_lowercase s.
Proof.
  intros Hd. induction d as [|x d IH]; [done|]. cbn in Hd. apply andb_prop in Hd as [Hx Hd].
  rewrite !string_app_cons. unfold to_ascii_lowercase. cbn. rewrite lower_digit by done. f_equal. by apply IH.
Qed.

Lemma show_u64_digits n : in_u64 n -> all_digits (show_u64 n) = true /\ show_u64 n ≠ EmptyString.
Proof.
  intros Hn. assert (Hv : digits_value 0 (show_u64 n) = Some n).
  { apply digits_value_show; [lia|]. unfold in_u64 in Hn. change (10 ^ Z.of_nat 20) with (10 ^ 20). lia. }
  split; [by eapply digits_value_all_digits|]. intros E. apply parse_show_u64 in Hn. by rewrite E in Hn.
Qed.
