(* ===== verification/Sha256.v ===== *)
(** * Sha256: HMAC-SHA-256

    The function behind the webhook signatures ([hmac] and [sha2], FIPS 180-4 and RFC 2104), so that the
    repository's own signature test can be evaluated. The theorems on signatures do not depend on it. *)

From S2P Require Import Prelude Text.
From Stdlib Require Import Ascii.

Definition w32 (x : Z) : Z := x `mod` 2 ^ 32.
Definition rotr (n x : Z) : Z := Z.lor (Z.shiftr x n) (w32 (Z.shiftl x (32 - n))).
Definition ch (x y z : Z) : Z := Z.lxor (Z.land x y) (Z.land (Z.lxor x (2 ^ 32 - 1)) z).
Definition maj (x y z : Z) : Z := Z.lxor (Z.lxor (Z.land x y) (Z.land x z)) (Z.land y z).
Definition big0 (x : Z) : Z := Z.lxor (Z.lxor (rotr 2 x) (rotr 13 x)) (rotr 22 x).
Definition big1 (x : Z) : Z := Z.lxor (Z.lxor (rotr 6 x) (rotr 11 x)) (rotr 25 x).
Definition small0 (x : Z) : Z := Z.lxor (Z.lxor (rotr 7 x) (rotr 18 x)) (Z.shiftr x 3).
Definition small1 (x : Z) : Z := Z.lxor (Z.lxor (rotr 17 x) (rotr 19 x)) (Z.shiftr x 10).

(** The constants: fractional parts of the cube and square roots of the first primes. *)
Definition is_prime (n : Z) : bool :=
  forallb (fun d => negb (n `mod` Z.of_nat d =? 0)) (seq 2 (Z.to_nat n - 2)).
Definition primes : list Z := List.filter is_prime (Z.of_nat <$> seq 2 310).
(** The largest number below [2 ^ n] above [acc] whose cube is at most [x]. *)
Fixpoint cube_root (n : nat) (acc x : Z) : Z :=
  match n with
  | O => acc
  | S n => let acc' := acc + 2 ^ Z.of_nat n in cube_root n (if acc' * acc' * acc' <=? x then acc' else acc) x
  end.
Definition K : list Z := Eval vm_compute in (fun p => w32 (cube_root 40 0 (p * 2 ^ 96))) <$> primes.
Definition H0 : list Z := Eval vm_compute in (fun p => w32 (Z.sqrt (p * 2 ^ 64))) <$> take 8 primes.

(** The schedule, newest word first. *)
Fixpoint schedule (n : nat) (ws : list Z) : list Z :=
  match n with
  | O => ws
  | S n =>
      let at_ i := nth i ws 0 in
      schedule n (w32 (small1 (at_ 1%nat) + at_ 6%nat + small0 (at_ 14%nat) + at_ 15%nat) :: ws)
  end.

Definition round (st : list Z) (kw : Z * Z) : list Z :=
  match st with
  | [a; b; c; d; e; f; g; h] =>
      let t1 := h + big1 e + ch e f g + kw.1 + kw.2 in
      let t2 := big0 a + maj a b c in
      [w32 (t1 + t2); a; b; c; w32 (d + t1); e; f; g]
  | _ => st
  end.

Fixpoint words (bs : list Z) : list Z :=
  match bs with
  | a :: b :: c :: d :: bs => be_value [a; b; c; d] :: words bs
  | _ => []
  end.

Definition compress (st block : list Z) : list Z :=
  let ws := reverse (schedule 48 (reverse (words block))) in
  zip_with (fun x y => w32 (x + y)) st (foldl round st (zip K ws)).

Fixpoint blocks (n : nat) (bs : list Z) : list (list Z) :=
  match n with O => [] | S n => take 64 bs :: blocks n (drop 64 bs) end.

Definition pad (bs : list Z) : list Z :=
  let len := Z.of_nat (length bs) in
  bs ++ [128] ++ replicate (Z.to_nat ((55 - len) `mod` 64)) 0 ++ be_bytes 8 (8 * len).

Definition sha256 (bs : list Z) : list Z :=
  let p := pad bs in foldl compress H0 (blocks (length p / 64) p) ≫= be_bytes 4.

Fixpoint bytes (s : string) : list Z :=
  match s with EmptyString => [] | String c s => Z.of_nat (nat_of_ascii c) :: bytes s end.

Definition hmac_sha256 (key msg : string) : list Z :=
  let k := bytes key in
  let k := if (64 <? length k)%nat then sha256 k else k in
  let k := k ++ replicate (64 - length k) 0 in
  sha256 (((fun b => Z.lxor b 0x5c) <$> k) ++ sha256 (((fun b => Z.lxor b 0x36) <$> k) ++ bytes msg)).

(** The digest of the empty message and of "abc" (FIPS 180-4). *)
Example sha256_empty : be_value (sha256 []) = 0xe3b0c44298fc1c149afbf4c8996fb92427ae41e4649b934ca495991b7852b855.
Proof. vm_compute. reflexivity. Qed.
Example sha256_abc : be_value (sha256 (bytes "abc")) = 0xba7816bf8f01cfea414140de5dae2223b00361a396177a9cb410ff61f20015ad.
Proof. vm_compute. reflexivity. Qed.
