(* ===== verification/Json.v ===== *)
(** * Json: values, columns and codecs

    [serde_json::Value], what a [JSONB] column gives back for a value, and codecs: an encoder and a
    decoder of a type, as [derive(Serialize, Deserialize)] produces them for the structs of the
    program. A codec is right when decoding undoes encoding even after the value has been stored in a
    column, which may reorder the fields of every object. *)

From S2P Require Import Prelude Text.

(** [serde_json::Value]; a number is an integer or the bits of a float. *)
Inductive Value :=
  | Null
  | Bool (b : bool)
  | Number (n : Z)
  | Float (bits : Z)
  | Str (s : string)
  | Array (l : list Value)
  | Object (m : list (string * Value)).

(** [Value::get] with a string key. *)
Definition value_get (key : string) (v : Value) : option Value :=
  match v with
  | Object m => snd <$> find (fun kv => String.eqb kv.1 key) m
  | _ => None
  end.

(** [Value::as_str] and [Value::as_u64]. *)
Definition value_as_str (v : Value) : option string := match v with Str s => Some s | _ => None end.
Definition value_as_u64 (v : Value) : option Z :=
  match v with Number n => if bool_decide (in_u64 n) then Some n else None | _ => None end.

(** ** Columns *)

(** [stored v v']: a [JSONB] column written with [v] may be read back as [v']. *)
Inductive stored : Value -> Value -> Prop :=
  | stored_null : stored Null Null
  | stored_bool b : stored (Bool b) (Bool b)
  | stored_number n : stored (Number n) (Number n)
  | stored_str s : stored (Str s) (Str s)
  | stored_array l l' : Forall2 stored l l' -> stored (Array l) (Array l')
  | stored_object m m1 m' :
      m ≡ₚ m1 -> Forall2 (fun a b => a.1 = b.1 /\ stored a.2 b.2) m1 m' -> stored (Object m) (Object m').

(** Values without floats. *)
Inductive exact : Value -> Prop :=
  | exact_null : exact Null
  | exact_bool b : exact (Bool b)
  | exact_number n : exact (Number n)
  | exact_str s : exact (Str s)
  | exact_array l : Forall exact l -> exact (Array l)
  | exact_object m : Forall (fun kv => exact kv.2) m -> exact (Object m).

(** The column may give back such a value as it is. *)
Lemma stored_same v : exact v -> stored v v.
Proof.
  revert v. fix IH 2. intros v [|b|n|s|l Hl|m Hm]; [constructor..| |].
  - constructor. induction Hl as [|x l Hx Hl IHl]; constructor; [by apply IH|done].
  - eapply stored_object; [reflexivity|]. induction Hm as [|x m Hx Hm IHm]; constructor; [|done]. split; [done|by apply IH].
Qed.

Definition same_field (R : Value -> Value -> Prop) (a b : string * Value) : Prop := a.1 = b.1 /\ R a.2 b.2.

(** Induction that reaches into arrays and objects. *)
Lemma stored_nested_ind (P : Value -> Value -> Prop) :
  P Null Null -> (forall b, P (Bool b) (Bool b)) -> (forall n, P (Number n) (Number n)) -> (forall s, P (Str s) (Str s)) ->
  (forall l l', Forall2 P l l' -> P (Array l) (Array l')) ->
  (forall m m1 m', m ≡ₚ m1 -> Forall2 (same_field P) m1 m' -> P (Object m) (Object m')) ->
  forall v v', stored v v' -> P v v'.
Proof.
  intros H1 H2 H3 H4 Ha Ho. fix IH 3. intros v v' [|b|n|s|l l' Hl|m m1 m' Hp Hm]; [done..| |].
  - apply Ha. induction Hl as [|x y l l' Hx _ IHl]; constructor; [by apply IH|done].
  - eapply Ho; [exact Hp|]. clear Hp. induction Hm as [|x y m1 m' [Hk Hx] _ IHm]; constructor; [|done].
    split; [done|by apply IH].
Qed.

(** Reading back and storing again. *)
#[global] Instance stored_trans : Transitive stored.
Proof.
  intros v1 v2 v3 H. revert v3. revert v1 v2 H. apply (stored_nested_ind (fun v1 v2 => forall v3, stored v2 v3 -> stored v1 v3)).
  1-4: by intros; assumption.
  - intros l l' Hl v3 H. inversion H as [| | | |? l2 H2|]; subst. constructor. clear H. revert l2 H2.
    induction Hl as [|x y l l' Hx _ IH]; intros l2 H2; inversion_clear H2; constructor; auto.
  - intros m m1 m' Hp Hm v3 H. inversion H as [| | | | |? m2 m3 Hp2 H2]; subst. clear H.
    apply Forall2_flip in Hm. destruct (Permutation_Forall2 Hp2 Hm) as (m4 & Hp4 & Hm4). apply Forall2_flip in Hm4.
    apply (stored_object m m4); [by etrans|]. clear - Hm4 H2. revert m3 H2.
    induction Hm4 as [|x y m4 m2 [Hk Hx] _ IH]; intros m3 H2; inversion_clear H2 as [|? z ? m5 [Hk2 Hx2] H3]; constructor; [|auto].
    split; [congruence|auto].
Qed.

(** A column holds no floats. *)
Lemma stored_exact v v' : stored v v' -> exact v'.
Proof.
  revert v v'. apply (stored_nested_ind (fun _ v' => exact v')); [constructor..| |].
  - intros l l' H. constructor. by induction H; constructor.
  - intros m m1 m' _ H. constructor. induction H as [|x y m1 m' [_ Hx] _ IH]; by constructor.
Qed.

(** ** Objects *)

(** The values under any of the names of a field. *)
Definition values_at (names : list string) (m : list (string * Value)) : list Value :=
  snd <$> List.filter (fun kv => existsb (String.eqb kv.1) names) m.

(** What the derived visitor finds for a field with its aliases: it refuses a duplicate. *)
Definition field (names : list string) (m : list (string * Value)) : result string (option Value) :=
  match values_at names m with
  | [] => Ok None
  | [v] => Ok (Some v)
  | _ => Err "duplicate field"%string
  end.

Lemma filter_Permutation {A} (f : A -> bool) l l' : l ≡ₚ l' -> List.filter f l ≡ₚ List.filter f l'.
Proof.
  induction 1 as [|x l l' _ IH|x y l|l l1 l2 _ IH1 _ IH2]; cbn; [done| | |by etrans].
  - destruct (f x); [by constructor|done].
  - destruct (f x), (f y); try done. constructor.
Qed.

Lemma values_at_stored names m m1 m' :
  m ≡ₚ m1 -> Forall2 (fun a b => a.1 = b.1 /\ stored a.2 b.2) m1 m' ->
  exists vs, values_at names m ≡ₚ vs /\ Forall2 stored vs (values_at names m').
Proof.
  intros Hp Hf. exists (values_at names m1). split.
  - unfold values_at. by apply fmap_Permutation, filter_Permutation.
  - unfold values_at. induction Hf as [|[k a] [k' b] m1 m' [Hk Hs] _ IH] in m, Hp |- *; [constructor|]. cbn in *. subst k'.
    destruct (existsb _ _); [|by eapply IH]. cbn. constructor; [done|by eapply IH].
Qed.

(** A column keeps what the visitor finds. *)
Lemma field_stored names m m' o :
  stored (Object m) (Object m') -> field names m = Ok o ->
  exists o', field names m' = Ok o' /\ option_Forall2 stored o o'.
Proof.
  intros Hs Hf. inversion Hs as [| | | | |? m1 ? Hp H2]; subst. destruct (values_at_stored names _ _ _ Hp H2) as (vs & Hvs & Hst).
  unfold field in *. destruct (values_at names m) as [|x [|y l]]; simplify_eq.
  - apply Permutation_nil_l in Hvs; subst vs. inversion Hst. eexists. split; [done|constructor].
  - apply Permutation_singleton_l in Hvs; subst vs. inversion Hst as [|? y ? l' Hxy Hn]; subst. inversion Hn. eexists.
    split; [done|by constructor].
Qed.

(** ** Codecs *)

Record Codec (A : Type) := mkCodec {
  enc : A -> Value;
  dec : Value -> option A;
  fits : A -> Prop;
}.
Arguments mkCodec {A} enc dec fits.
Arguments enc {A} c a.
Arguments dec {A} c v.
Arguments fits {A} c a.

Class CodecOk {A} (c : Codec A) : Prop := codec_back a v : fits c a -> stored (enc c a) v -> dec c v = Some a.

(** [i64]. *)
Definition in_i64 (x : Z) : Prop := - 2 ^ 63 <= x < 2 ^ 63.
#[global] Instance in_i64_dec x : Decision (in_i64 x).
Proof. unfold in_i64. apply _. Defined.

(** [u64], [i64] and [String]. *)
Definition u64_codec : Codec Z := mkCodec Number value_as_u64 in_u64.
Definition i64_codec : Codec Z :=
  mkCodec Number (fun v => match v with Number n => if bool_decide (in_i64 n) then Some n else None | _ => None end) in_i64.
Definition string_codec : Codec string := mkCodec Str value_as_str (fun _ => True).

(** A library type written as a string. *)
Definition text_codec {A} (show : A -> string) (read : string -> option A) (ok : A -> Prop) : Codec A :=
  mkCodec (Str ∘ show) (fun v => value_as_str v ≫= read) ok.

(** [Option<T>] and [Vec<T>]. *)
Definition option_codec {A} (c : Codec A) : Codec (option A) :=
  mkCodec (fun o => match o with Some a => enc c a | None => Null end)
    (fun v => match v with Null => Some None | _ => Some <$> dec c v end)
    (fun o => match o with Some a => fits c a /\ enc c a ≠ Null | None => True end).
Definition list_codec {A} (c : Codec A) : Codec (list A) :=
  mkCodec (fun l => Array (enc c <$> l)) (fun v => match v with Array l => mapM (dec c) l | _ => None end)
    (Forall (fits c)).

#[global] Instance u64_codec_ok : CodecOk u64_codec.
Proof. intros n v Hn Hs. inversion Hs; subst. cbn in *. by rewrite bool_decide_true. Qed.

#[global] Instance i64_codec_ok : CodecOk i64_codec.
Proof. intros n v Hn Hs. inversion Hs; subst. cbn in *. by rewrite bool_decide_true. Qed.

#[global] Instance string_codec_ok : CodecOk string_codec.
Proof. intros s v _ Hs. by inversion Hs. Qed.

Lemma text_codec_ok {A} (show : A -> string) read (ok : A -> Prop) :
  (forall a, ok a -> read (show a) = Some a) -> CodecOk (text_codec show read ok).
Proof. intros H a v Ha Hs. inversion Hs; subst. by apply H. Qed.

#[global] Instance option_codec_ok {A} (c : Codec A) : CodecOk c -> CodecOk (option_codec c).
Proof.
  intros Hc [a|] v Ha Hs; cbn in *; [|by inversion Hs]. destruct Ha as [Ha Hn].
  pose proof (codec_back a v Ha Hs) as Hd. destruct (enc c a) eqn:E; [done|..]; inversion Hs; subst; by rewrite Hd.
Qed.

#[global] Instance list_codec_ok {A} (c : Codec A) : CodecOk c -> CodecOk (list_codec c).
Proof.
  intros Hc l v Hl Hs. cbn in *. inversion Hs as [| | | |? l' H2|]; subst. apply mapM_Some.
  clear Hs. revert l' H2. induction Hl as [|a l Ha _ IH]; intros l' H2; inversion_clear H2; constructor; [by apply Hc|by apply IH].
Qed.

(** ** Structs *)

(** A field that must be there, and one that may be missing or null. *)
Definition required {A} (m : list (string * Value)) (names : list string) (c : Codec A) : option A :=
  match field names m with Ok (Some v) => dec c v | _ => None end.
Definition optional {A} (m : list (string * Value)) (names : list string) (c : Codec A) : option (option A) :=
  match field names m with
  | Ok (Some v) => dec (option_codec c) v
  | Ok None => Some None
  | Err _ => None
  end.

Definition as_object (v : Value) : option (list (string * Value)) :=
  match v with Object m => Some m | _ => None end.

Lemma stored_object_inv m v : stored (Object m) v -> exists m', v = Object m' /\ stored (Object m) (Object m').
Proof. intros H. inversion H; subst. by eexists. Qed.

Lemma required_stored {A} (c : Codec A) `{!CodecOk c} m m' names a :
  stored (Object m) (Object m') -> field names m = Ok (Some (enc c a)) -> fits c a -> required m' names c = Some a.
Proof.
  intros Hs Hf Ha. destruct (field_stored names m m' _ Hs Hf) as (o & E & Ho). unfold required. rewrite E.
  inversion Ho as [x y Hxy|]; subst. by apply codec_back.
Qed.

(** An optional field, omitted when there is nothing to say or written as null. *)
Lemma optional_stored {A} (c : Codec A) `{!CodecOk c} m m' names o :
  stored (Object m) (Object m') -> fits (option_codec c) o ->
  field names m = Ok (enc c <$> o) \/ field names m = Ok (Some (enc (option_codec c) o)) ->
  optional m' names c = Some o.
Proof.
  intros Hs Ho Hor. assert (Hf : (field names m = Ok None /\ o = None) \/ field names m = Ok (Some (enc (option_codec c) o))).
  { destruct Hor as [Hf|Hf]; [|by right]. destruct o; [by right|by left]. }
  destruct Hf as [[Hf ->]|Hf]; destruct (field_stored names m m' _ Hs Hf) as (o' & E & Hst); unfold optional; rewrite E.
  - by inversion Hst.
  - inversion Hst as [x y Hxy|]; subst. by apply codec_back.
Qed.

(** Decodes the required fields of a stored struct one after another. *)
Ltac decode_fields Hs :=
  repeat (erewrite (required_stored _ _ _ _ _ Hs); [|reflexivity|by eauto]; cbn [mbind option_bind]).
