(* ===== verification/Config.v ===== *)
(** * Config: [src/config.rs]

    The configuration the other components read, and [Config::validate], the gate every
    configuration passes before the service starts; [Load] models how a [Config] comes about. The [BTreeMap] of chains is the list of its entries in key order. Error
    messages are constructors carrying the values the message interpolates. *)

From S2P Require Import Prelude Text.

(** [src/config.rs:98-105 IngestMode] *)
Inductive IngestMode := Auto | WsTargeted | WsFirehose | PollMode.

#[global] Instance IngestMode_eq_dec : EqDecision IngestMode.
Proof. solve_decision. Defined.

(** [src/config.rs:195-213 TokenConfig] *)
Record TokenConfig := mkTokenConfig {
  tc_symbol : string;
  tc_address : Z;
  tc_decimals : Z;
  tc_issuance : string;
  tc_transfer_log_address : option Z;
  tc_transfer_log_decimals : option Z;
}.

(** [src/config.rs:216-218 TokenConfig::log_address] *)
Definition log_address (t : TokenConfig) : Z := default (tc_address t) (tc_transfer_log_address t).

(** [src/config.rs:220-222 TokenConfig::log_decimals] *)
Definition log_decimals (t : TokenConfig) : Z := default (tc_decimals t) (tc_transfer_log_decimals t).

(** [src/config.rs:107-150 ChainConfig] *)
Record ChainConfig := mkChainConfig {
  cc_enabled : bool;
  cc_chain_id : Z;
  cc_http_url : string;
  cc_ws_url : string;
  cc_ingest_mode : IngestMode;
  cc_large_scale_mode : IngestMode;
  cc_ws_bucket_size : Z;
  cc_ws_targeted_max : Z;
  cc_ws_coalesce_ms : Z;
  cc_ws_down_fallback_ms : Z;
  cc_ws_channel_size : Z;
  cc_ws_stall_ms : Z;
  cc_poll_interval_ms : Z;
  cc_safety_sweep_interval_ms : Z;
  cc_idle_probe_interval_ms : Z;
  cc_confirmations : Z;
  cc_expected_block_time_ms : Z;
  cc_max_log_range : Z;
  cc_head_stall_threshold_ms : Z;
  cc_rpc_timeout_ms : Z;
  cc_rpc_max_rps : Z;
  cc_rpc_max_retries : Z;
  cc_credits_per_call : Z;
  cc_tokens : list TokenConfig;
}.

(** [src/config.rs:187-189 ChainConfig::block_time] Milliseconds, never zero. *)
Definition block_time (c : ChainConfig) : Z := Z.max (cc_expected_block_time_ms c) 1.

(** [src/config.rs:184-186 ChainConfig::poll_interval] *)
Definition poll_interval (c : ChainConfig) : Z := cc_poll_interval_ms c.

(** [src/config.rs:190-192 ChainConfig::rpc_timeout] *)
Definition rpc_timeout (c : ChainConfig) : Z := cc_rpc_timeout_ms c.

(** [src/config.rs:58-80 WebhookConfig] *)
Record WebhookConfig := mkWebhookConfig {
  wc_secret : string;
  wc_connect_timeout_ms : Z;
  wc_request_timeout_ms : Z;
  wc_max_concurrency : Z;
  wc_max_per_host : Z;
  wc_retry_base_ms : Z;
  wc_retry_cap_ms : Z;
  wc_max_age_secs : Z;
  wc_host_failure_threshold : Z;
  wc_host_park_ms : Z;
  wc_allow_insecure_targets : bool;
  wc_host_allowlist : list string;
}.

(** [src/config.rs:20-56 Config] With the sections [server], [database], [watch] and [quicknode]
    flattened. *)
Record Config := mkConfig {
  cfg_profile : string;
  cfg_bind : string;
  cfg_port : Z;
  cfg_database_url : string;
  cfg_max_connections : Z;
  cfg_default_ttl_secs : Z;
  cfg_max_backfill_secs : Z;
  cfg_webhook : WebhookConfig;
  cfg_quicknode_api_key : string;
  cfg_chains : list (string * ChainConfig);
}.

(** [src/config.rs:255-257 Config::enabled_chains] *)
Definition enabled_chains (c : Config) : list (string * ChainConfig) :=
  List.filter (fun nc => cc_enabled nc.2) (cfg_chains c).

(** [src/config.rs:12-18 ConfigError] One constructor per [bad(...)] call of [validate]. *)
Inductive ConfigError :=
  | DatabaseUrlNotSet
  | NoChainEnabled
  | SharedChainId (other name : string) (chain_id : Z)
  | HttpUrlEmpty (name : string)
  | NeedsWsUrl (name : string)
  | BadLargeScaleMode (name : string)
  | NoTokens (name : string)
  | TooManyTokens (name : string)
  | ZeroLimit (name : string)
  | DuplicateToken (name symbol : string)
  | BadLogDecimals (name symbol : string) (log_dec dec : Z).

(** [src/config.rs:294-313 validate (token loop)] [syms], [addrs] and [log_addrs] are the sets
    built so far; [BTreeSet::insert] is false on a value already present. *)
Fixpoint validate_tokens (name : string) (ts : list TokenConfig)
    (syms : gset string) (addrs log_addrs : gset Z) : result ConfigError unit :=
  match ts with
  | [] => Ok tt
  | t :: ts =>
      if bool_decide (to_uppercase (tc_symbol t) ∈ syms)
         || bool_decide (tc_address t ∈ addrs)
         || bool_decide (log_address t ∈ log_addrs)
      then Err (DuplicateToken name (tc_symbol t))
      else if (log_decimals t <? tc_decimals t) || (60 <? log_decimals t - tc_decimals t)
      then Err (BadLogDecimals name (tc_symbol t) (log_decimals t) (tc_decimals t))
      else validate_tokens name ts ({[to_uppercase (tc_symbol t)]} ∪ syms)
             ({[tc_address t]} ∪ addrs) ({[log_address t]} ∪ log_addrs)
  end.

(** [src/config.rs:269-314 validate (loop body)] *)
Definition validate_chain (name : string) (c : ChainConfig) (seen_ids : gmap Z string)
    : result ConfigError unit :=
  match seen_ids !! cc_chain_id c with
  | Some other => Err (SharedChainId other name (cc_chain_id c))
  | None =>
      if bool_decide (cc_http_url c = EmptyString) then Err (HttpUrlEmpty name)
      else
        let needs_ws := bool_decide (cc_ingest_mode c ≠ PollMode) in
        if needs_ws && bool_decide (cc_ws_url c = EmptyString) then Err (NeedsWsUrl name)
        else if negb (bool_decide (cc_large_scale_mode c = WsFirehose)
                      || bool_decide (cc_large_scale_mode c = PollMode))
        then Err (BadLargeScaleMode name)
        else if bool_decide (cc_tokens c = []) then Err (NoTokens name)
        else if 255 <? Z.of_nat (length (cc_tokens c)) then Err (TooManyTokens name)
        else if (cc_max_log_range c =? 0) || (cc_ws_bucket_size c =? 0) || (cc_poll_interval_ms c =? 0)
        then Err (ZeroLimit name)
        else validate_tokens name (cc_tokens c) ∅ ∅ ∅
  end.

(** [src/config.rs:267-316 validate (chain loop)] *)
Fixpoint validate_chains (cs : list (string * ChainConfig)) (seen_ids : gmap Z string)
    : result ConfigError unit :=
  match cs with
  | [] => Ok tt
  | (name, c) :: cs =>
      _ ← validate_chain name c seen_ids;
      validate_chains cs (<[cc_chain_id c := name]> seen_ids)
  end.

(** [src/config.rs:259-316 Config::validate] *)
Definition validate (c : Config) : result ConfigError unit :=
  if bool_decide (cfg_database_url c = EmptyString) then Err DatabaseUrlNotSet
  else if bool_decide (enabled_chains c = []) then Err NoChainEnabled
  else validate_chains (enabled_chains c) ∅.

(** ** What a valid configuration is, without the loop *)

Record tokens_ok (ts : list TokenConfig) : Prop := {
  tk_symbols : NoDup ((fun t => to_uppercase (tc_symbol t)) <$> ts);
  tk_addresses : NoDup (tc_address <$> ts);
  tk_log_addresses : NoDup (log_address <$> ts);
  tk_decimals : Forall (fun t => tc_decimals t <= log_decimals t <= tc_decimals t + 60) ts;
}.

Record chain_ok (c : ChainConfig) : Prop := {
  ck_http_url : cc_http_url c ≠ EmptyString;
  ck_ws_url : cc_ingest_mode c = PollMode \/ cc_ws_url c ≠ EmptyString;
  ck_large : cc_large_scale_mode c = WsFirehose \/ cc_large_scale_mode c = PollMode;
  ck_tokens_nonempty : cc_tokens c ≠ [];
  ck_tokens_u8 : Z.of_nat (length (cc_tokens c)) <= 255;
  ck_range : cc_max_log_range c ≠ 0;
  ck_bucket : cc_ws_bucket_size c ≠ 0;
  ck_poll : cc_poll_interval_ms c ≠ 0;
  ck_tokens : tokens_ok (cc_tokens c);
}.

Record config_ok (c : Config) : Prop := {
  co_database : cfg_database_url c ≠ EmptyString;
  co_enabled : enabled_chains c ≠ [];
  co_ids : NoDup ((fun nc => cc_chain_id nc.2) <$> enabled_chains c);
  co_chains : Forall (fun nc => chain_ok nc.2) (enabled_chains c);
}.

(** ** Lemmas *)

Lemma validate_tokens_ok name ts syms addrs logs :
  validate_tokens name ts syms addrs logs = Ok tt <->
  tokens_ok ts
  /\ Forall (fun t => to_uppercase (tc_symbol t) ∉ syms) ts
  /\ Forall (fun t => tc_address t ∉ addrs) ts
  /\ Forall (fun t => log_address t ∉ logs) ts.
Proof.
  revert syms addrs logs; induction ts as [|t ts IH]; intros syms addrs logs; cbn [validate_tokens].
  { split; [|done]. intros _. repeat split; constructor. }
  rewrite !Forall_cons. case_match eqn:Hdup.
  { split; [done|]. intros (_ & [H1 _] & [H2 _] & [H3 _]).
    by rewrite !bool_decide_false in Hdup. }
  apply orb_false_elim in Hdup as [[H1%bool_decide_eq_false H2%bool_decide_eq_false]%orb_false_elim
    H3%bool_decide_eq_false].
  case_match eqn:Hdec.
  { split; [done|]. intros ([_ _ _ Hd] & _). apply Forall_cons in Hd as [Hd _].
    apply orb_true_iff in Hdec as [?%Z.ltb_lt|?%Z.ltb_lt]; lia. }
  apply orb_false_elim in Hdec as [H4%Z.ltb_ge H5%Z.ltb_ge].
  rewrite IH. split.
  - intros ([Ns Na Nl Nd] & Fs & Fa & Fl). rewrite Forall_forall in Fs, Fa, Fl.
    repeat split; simpl; rewrite ?NoDup_cons, ?Forall_cons, ?list_elem_of_fmap; try done;
      try (apply Forall_forall; set_solver); split; try done; try lia; set_solver.
  - intros ([Ns Na Nl Nd] & [_ Fs] & [_ Fa] & [_ Fl]).
    apply NoDup_fmap_cons in Ns as [Ns Ns'], Na as [Na Na'], Nl as [Nl Nl'].
    apply Forall_cons in Nd as [Nd Nd'].
    rewrite Forall_forall in Fs. rewrite Forall_forall in Fa. rewrite Forall_forall in Fl.
    repeat split; try done; apply Forall_forall; set_solver.
Qed.

Lemma validate_chain_ok name c seen :
  validate_chain name c seen = Ok tt <-> seen !! cc_chain_id c = None /\ chain_ok c.
Proof.
  unfold validate_chain. destruct (seen !! cc_chain_id c) as [o|] eqn:Hs; [by split; [|intros []]|].
  case_bool_decide as Hhttp; [by split; [|intros [_ []]]|].
  case_match eqn:Hws.
  { apply andb_prop in Hws as [H1%bool_decide_eq_true H2%bool_decide_eq_true].
    split; [done|]. intros [_ [_ [?|?]]]; done. }
  apply andb_false_iff in Hws. rewrite !bool_decide_eq_false in Hws.
  case_match eqn:Hlarge.
  { split; [done|]. intros [_ [_ _ H]]. exfalso.
    apply negb_true_iff, orb_false_elim in Hlarge as [?%bool_decide_eq_false ?%bool_decide_eq_false].
    tauto. }
  apply negb_false_iff, orb_true_iff in Hlarge. rewrite !bool_decide_eq_true in Hlarge.
  case_bool_decide as Htok; [by split; [|intros [_ []]]|].
  case_match eqn:Hmany; [split; [done|]; intros [_ []]; lia|].
  case_match eqn:Hzero.
  { split; [done|]. intros [_ []]. exfalso.
    apply orb_true_iff in Hzero as [[?%Z.eqb_eq|?%Z.eqb_eq]%orb_true_iff|?%Z.eqb_eq]; done. }
  apply orb_false_elim in Hzero as [[?%Z.eqb_neq ?%Z.eqb_neq]%orb_false_elim ?%Z.eqb_neq].
  rewrite validate_tokens_ok. split.
  - intros [Htoks _]. split; [done|]. constructor; try done; [|lia].
    destruct Hws as [Hm|Hm]; [left; by apply dec_stable|by right].
  - intros [_ []]. split_and!; [done|apply Forall_forall; set_solver..].
Qed.

Lemma validate_chains_ok cs seen :
  validate_chains cs seen = Ok tt <->
  NoDup ((fun nc => cc_chain_id nc.2) <$> cs)
  /\ Forall (fun nc => seen !! cc_chain_id nc.2 = None) cs
  /\ Forall (fun nc => chain_ok nc.2) cs.
Proof.
  revert seen; induction cs as [|[name c] cs IH]; intros seen; cbn [validate_chains].
  { split; [|done]. intros _. repeat split; constructor. }
  rewrite fmap_cons, NoDup_cons, !Forall_cons. simpl. split.
  - intros H. apply result_bind_Ok in H as ([] & Hc & Hrest).
    apply validate_chain_ok in Hc as [Hseen Hok]. apply IH in Hrest as (Hnd & Hs & Hf).
    rewrite Forall_forall in Hs. split_and!; try done.
    + intros ([n c'] & Heq & Hin)%list_elem_of_fmap. simpl in Heq.
      specialize (Hs (n, c') Hin). simpl in Hs. rewrite Heq, lookup_insert_eq in Hs. done.
    + apply Forall_forall. intros nc Hin. by apply Hs, lookup_insert_None in Hin as [? _].
  - intros ([Hni Hnd] & [Hs Hss] & [Hok Hoks]).
    replace (validate_chain name c seen) with (Ok (E := ConfigError) tt)
      by (symmetry; by apply validate_chain_ok).
    apply IH. split_and!; try done.
    apply Forall_forall. intros nc Hin. apply lookup_insert_None. rewrite Forall_forall in Hss.
    split; [by apply Hss|]. intros Heq. apply Hni, list_elem_of_fmap. eauto.
Qed.

Lemma validate_config_ok (c : Config) : validate c = Ok tt <-> config_ok c.
Proof.
  unfold validate.
  case_bool_decide; [by split; [|intros []]|].
  case_bool_decide; [by split; [|intros []]|].
  rewrite validate_chains_ok. split.
  - intros (H1 & _ & H3). by constructor.
  - intros []. split_and!; try done. apply Forall_forall. intros. apply lookup_empty.
Qed.

(** ** Properties *)

(** C37. [Config::validate] accepts exactly the configurations with a database URL, at least one
    enabled chain, pairwise distinct chain ids, and, on every enabled chain, the endpoints its mode
    needs, a large-scale mode, one to 255 tokens whose symbols, addresses and log emitters are
    pairwise distinct and whose log decimals exceed the token's by 0 to 60, and no zero limit. *)
Theorem validate_iff (c : Config) : validate c = Ok tt <-> config_ok c.
Proof. apply validate_config_ok. Qed.
