(* ===== verification/Registry.v ===== *)
(** * Registry: [src/registry.rs]

    The immutable view of chains and tokens resolved from a validated configuration. Addresses are
    the big-endian values of their 20 bytes; [leak] only changes a lifetime. Parsing an address
    from text ([alloy]'s [FromStr]) is the parameter [parse_address] of the functions that use it. *)

From S2P Require Import Prelude Text Config.

(** [src/registry.rs:9-22 TokenSpec] *)
Record TokenSpec := mkTokenSpec {
  t_idx : Z;
  t_symbol : string;
  t_address : Z;
  t_decimals : Z;
  t_issuance : string;
  t_log_address : Z;
  t_log_scale : option Z;
}.

(** [src/registry.rs:35-41 ChainSpec] *)
Record ChainSpec := mkChainSpec {
  ch_name : string;
  ch_chain_id : Z;
  ch_cfg : ChainConfig;
  ch_tokens : list TokenSpec;
}.

(** [src/registry.rs:27-32 TokenSpec::base_units] *)
Definition base_units (t : TokenSpec) (log_amount : Z) : Z :=
  match t_log_scale t with
  | Some scale => log_amount `div` scale
  | None => log_amount
  end.

(** [U256::from(10).pow(U256::from(e))], wrapping at 256 bits. *)
Definition u256_pow10 (e : Z) : Z := (10 ^ e) `mod` 2 ^ 256.

(** [src/registry.rs:49-58 ChainSpec::new (token closure)] *)
Definition token_spec (i : nat) (t : TokenConfig) : TokenSpec :=
  mkTokenSpec (as_u8 (Z.of_nat i)) (to_uppercase (tc_symbol t)) (tc_address t) (tc_decimals t)
    (tc_issuance t) (log_address t)
    (if tc_decimals t <? log_decimals t
     then Some (u256_pow10 (log_decimals t - tc_decimals t)) else None).

(** [src/registry.rs:44-61 ChainSpec::new] *)
Definition ChainSpec_new (name : string) (cfg : ChainConfig) : ChainSpec :=
  mkChainSpec name (cc_chain_id cfg) cfg (imap token_spec (cc_tokens cfg)).

(** [src/registry.rs:74-77 ChainSpec::token_by_address] *)
Definition token_by_address (c : ChainSpec) (address : Z) : option TokenSpec :=
  List.find (fun t => t_address t =? address) (ch_tokens c).

(** [src/registry.rs:81-83 ChainSpec::token_by_log_address] *)
Definition token_by_log_address (c : ChainSpec) (emitter : Z) : option TokenSpec :=
  List.find (fun t => t_log_address t =? emitter) (ch_tokens c).

(** [src/registry.rs:86-88 ChainSpec::log_addresses] *)
Definition log_addresses (c : ChainSpec) : list Z := t_log_address <$> ch_tokens c.

(** [src/registry.rs:65-71 ChainSpec::token] *)
Definition token (parse_address : string -> option Z) (c : ChainSpec) (symbol_or_address : string)
    : option TokenSpec :=
  let s := trim symbol_or_address in
  match parse_address s with
  | Some addr => token_by_address c addr
  | None => List.find (fun t => eq_ignore_ascii_case (t_symbol t) s) (ch_tokens c)
  end.

(** [src/registry.rs:97-100 Registry::from_config] *)
Definition from_config (cfg : Config) : list ChainSpec :=
  (fun nc => ChainSpec_new nc.1 nc.2) <$> enabled_chains cfg.

(** [src/registry.rs:107-111 Registry::chain] *)
Definition chain (r : list ChainSpec) (name_or_id : string) : option ChainSpec :=
  let s := trim name_or_id in
  let id := parse_u64 s in
  List.find (fun c => eq_ignore_ascii_case (ch_name c) s || bool_decide (Some (ch_chain_id c) = id)) r.

(** [src/registry.rs:113-115 Registry::chain_by_id] *)
Definition chain_by_id (r : list ChainSpec) (chain_id : Z) : option ChainSpec :=
  List.find (fun c => ch_chain_id c =? chain_id) r.

(** ** Lemmas *)

(** A search by a key that is injective on the list finds the element holding the key. *)
Lemma find_unique {A} (f : A -> Z) (l : list A) (x : A) :
  NoDup (f <$> l) -> x ∈ l -> List.find (fun y => f y =? f x) l = Some x.
Proof.
  induction l as [|y l IH]; intros Hnd Hx; [by apply not_elem_of_nil in Hx|].
  apply NoDup_fmap_cons in Hnd as [Hy Hnd]. simpl.
  apply elem_of_cons in Hx as [->|Hx]; [by rewrite Z.eqb_refl|].
  destruct (Z.eqb_spec (f y) (f x)) as [Heq|_]; [|by apply IH].
  by destruct (Hy x Hx).
Qed.

Lemma find_Some_elem {A} (p : A -> bool) (l : list A) (x : A) :
  List.find p l = Some x -> x ∈ l /\ p x = true.
Proof. intros [H1%list_elem_of_In H2]%List.find_some. done. Qed.

Lemma fmap_imap_same {A B C} (f : nat -> A -> B) (g : B -> C) (h : A -> C) (l : list A) :
  (forall i x, g (f i x) = h x) -> g <$> imap f l = h <$> l.
Proof.
  revert f; induction l as [|x l IH]; intros f Hf; [done|]. simpl.
  rewrite Hf, IH; [done|]. intros i y. apply Hf.
Qed.

Lemma ChainSpec_addresses name cfg :
  t_address <$> ch_tokens (ChainSpec_new name cfg) = tc_address <$> cc_tokens cfg.
Proof. by apply fmap_imap_same. Qed.

Lemma ChainSpec_log_addresses name cfg :
  t_log_address <$> ch_tokens (ChainSpec_new name cfg) = log_address <$> cc_tokens cfg.
Proof. by apply fmap_imap_same. Qed.

Lemma ChainSpec_lookup name cfg i t :
  ch_tokens (ChainSpec_new name cfg) !! i = Some t ->
  exists tc, cc_tokens cfg !! i = Some tc /\ t = token_spec i tc.
Proof.
  simpl. rewrite list_lookup_imap. intros (tc & Hi & ->)%fmap_Some. eauto.
Qed.

Lemma u256_pow10_exact e : 0 <= e <= 60 -> u256_pow10 e = 10 ^ e.
Proof.
  intros He. apply Z.mod_small. split; [lia|].
  apply Z.le_lt_trans with (10 ^ 60); [apply Z.pow_le_mono_r; lia|reflexivity].
Qed.

Lemma tokens_ok_decimals ts i tc :
  tokens_ok ts -> ts !! i = Some tc -> tc_decimals tc <= log_decimals tc <= tc_decimals tc + 60.
Proof. intros [_ _ _ H] Hi. rewrite Forall_lookup in H. eauto. Qed.

Lemma ChainSpec_token_index name cfg (Hok : chain_ok cfg) i t :
  ch_tokens (ChainSpec_new name cfg) !! i = Some t ->
  t_idx t = Z.of_nat i
  /\ token_by_address (ChainSpec_new name cfg) (t_address t) = Some t
  /\ token_by_log_address (ChainSpec_new name cfg) (t_log_address t) = Some t.
Proof.
  intros Hi. destruct Hok as [_ _ _ _ Hu8 _ _ _ [_ Ha Hl _]].
  pose proof (list_elem_of_lookup_2 _ _ _ Hi) as Hin. split_and!.
  - apply ChainSpec_lookup in Hi as (tc & Hi & ->). apply lookup_lt_Some in Hi.
    apply Z.mod_small. lia.
  - apply find_unique; [|done]. by rewrite ChainSpec_addresses.
  - apply find_unique; [|done]. by rewrite ChainSpec_log_addresses.
Qed.

(** ** What the registry promises the components that match logs

    Tokens are indexed by position, found by their contract and by their emitter, and amounts stay
    non-negative. Clients are proved against this class. *)
Class SpecOk (c : ChainSpec) : Prop := {
  spec_index : forall i t, ch_tokens c !! i = Some t -> t_idx t = Z.of_nat i;
  spec_by_address : forall t, t ∈ ch_tokens c -> token_by_address c (t_address t) = Some t;
  spec_by_emitter : forall t, t ∈ ch_tokens c -> token_by_log_address c (t_log_address t) = Some t;
  spec_units : forall t v, t ∈ ch_tokens c -> 0 <= v -> 0 <= base_units t v;
}.

Lemma base_units_nonneg i tc v : 0 <= v -> 0 <= base_units (token_spec i tc) v.
Proof.
  intros Hv. unfold base_units, token_spec. cbn. case_match; [|done].
  apply Z_div_nonneg_nonneg; [done|]. case_match; simplify_eq. apply Z.mod_pos_bound. lia.
Qed.

#[global] Instance ChainSpec_new_ok name cfg (Hok : chain_ok cfg) : SpecOk (ChainSpec_new name cfg).
Proof.
  split.
  - intros i t Hi. by apply ChainSpec_token_index in Hi as (? & _).
  - intros t [i Hi]%list_elem_of_lookup_1. by apply ChainSpec_token_index in Hi as (_ & ? & _).
  - intros t [i Hi]%list_elem_of_lookup_1. by apply ChainSpec_token_index in Hi as (_ & _ & ?).
  - intros t v [i Hi]%list_elem_of_lookup_1 Hv. apply ChainSpec_lookup in Hi as (tc & _ & ->).
    by apply base_units_nonneg.
Qed.

(** Two tokens with one index are one token. *)
Lemma spec_idx_inj c `{SpecOk c} t t' :
  t ∈ ch_tokens c -> t' ∈ ch_tokens c -> t_idx t = t_idx t' -> t = t'.
Proof.
  intros [i Hi]%list_elem_of_lookup_1 [j Hj]%list_elem_of_lookup_1 E.
  rewrite (spec_index _ _ Hi), (spec_index _ _ Hj) in E. apply Nat2Z.inj in E. congruence.
Qed.

(** ** Properties *)

Section validated.
Variables (name : string) (cfg : ChainConfig).
Hypothesis Hok : chain_ok cfg.
Let spec := ChainSpec_new name cfg.

(** On a validated chain the token list is a proper index: the token at position [i] carries
    [idx = i] (the [u8] cast loses nothing), and it is the one found by its contract address and
    the one found by its log emitter, so a [Transfer] log belongs to at most one token. *)
Theorem token_index (i : nat) (t : TokenSpec) :
  ch_tokens spec !! i = Some t ->
  t_idx t = Z.of_nat i
  /\ token_by_address spec (t_address t) = Some t
  /\ token_by_log_address spec (t_log_address t) = Some t.
Proof. apply ChainSpec_token_index, Hok. Qed.

(** On a validated chain amounts are scaled exactly: [base_units] is the log amount divided
    by ten to the difference of the decimals, rounded down; the divisor never wraps and is never
    zero, and no transfer grows by the conversion. *)
Theorem base_units_floor (i : nat) (t : TokenSpec) (tc : TokenConfig) (v : Z) :
  cc_tokens cfg !! i = Some tc -> ch_tokens spec !! i = Some t -> 0 <= v ->
  let scale := 10 ^ (log_decimals tc - tc_decimals tc) in
  base_units t v = v `div` scale /\ 0 < scale /\ 0 <= base_units t v <= v
  /\ base_units t v * scale <= v < (base_units t v + 1) * scale.
Proof.
  intros Htc Ht Hv scale. apply ChainSpec_lookup in Ht as (tc' & Htc' & ->).
  rewrite Htc in Htc'. injection Htc' as <-.
  pose proof (tokens_ok_decimals _ _ _ (ck_tokens _ Hok) Htc) as Hd.
  assert (0 < scale) as Hs by (apply Z.pow_pos_nonneg; lia).
  assert (base_units (token_spec i tc) v = v `div` scale) as Heq.
  { unfold base_units, token_spec, scale. simpl.
    destruct (Z.ltb_spec (tc_decimals tc) (log_decimals tc)).
    - rewrite u256_pow10_exact by lia. done.
    - replace (log_decimals tc - tc_decimals tc) with 0 by lia. rewrite Z.div_1_r. done. }
  rewrite Heq. pose proof (Z.div_mod v scale). pose proof (Z.mod_pos_bound v scale Hs).
  split_and!; try done; nia.
Qed.
End validated.

(** ** Concrete data shared by the witnesses

    The Base chain of [config/default.toml] and the Arc chain, whose USDC is read from the
    EIP-7708 system emitter at 18 decimals. *)

Module Sample.
Definition usdc_base : TokenConfig :=
  mkTokenConfig "USDC" 0x833589fCD6eDb6E08f4c7C32D4f71b54bdA02913 6 "native" None None.
Definition usdc_arc : TokenConfig :=
  mkTokenConfig "USDC" 0x3600000000000000000000000000000000000000 6 "native"
    (Some 0xfffffffffffffffffffffffffffffffffffffffe) (Some 18).
Definition chain_cfg (id conf : Z) (toks : list TokenConfig) : ChainConfig :=
  mkChainConfig true id "http://b" "ws://b" Auto PollMode 500 5000 500 5000 16384 60000
    2000 30000 60000 conf 2000 10000 30000 10000 25 4 20 toks.
Definition base_cfg : ChainConfig := chain_cfg 8453 3 [usdc_base].
Definition arc_cfg : ChainConfig := chain_cfg 5042 2 [usdc_arc].
Definition base : ChainSpec := ChainSpec_new "base" base_cfg.
Definition arc : ChainSpec := ChainSpec_new "arc" arc_cfg.
Definition webhook : WebhookConfig :=
  mkWebhookConfig "s3cret" 3000 10000 64 8 1000 3600000 86400 5 30000 false [].
Definition config : Config :=
  mkConfig "mainnet" "::" 8080 "postgres://x" 20 604800 3600 webhook EmptyString [("arc", arc_cfg); ("base", base_cfg)].

Lemma base_ok : chain_ok base_cfg.
Proof. apply (validate_chain_ok "base" base_cfg ∅). vm_compute. reflexivity. Qed.

Lemma arc_ok : chain_ok arc_cfg.
Proof. apply (validate_chain_ok "arc" arc_cfg ∅). vm_compute. reflexivity. Qed.
End Sample.

(** The Arc USDC token of the sample configuration. *)
Lemma token_index_witness :
  exists t, ch_tokens Sample.arc !! 0%nat = Some t
    /\ token_by_log_address Sample.arc 0xfffffffffffffffffffffffffffffffffffffffe = Some t.
Proof.
  eexists. split; [reflexivity|].
  exact (proj2 (proj2 (token_index "arc" Sample.arc_cfg Sample.arc_ok 0 _ eq_refl))).
Defined.

(** A native send of 2.5 USDC on Arc, logged at 18 decimals. *)
Lemma base_units_floor_witness :
  exists t, ch_tokens Sample.arc !! 0%nat = Some t
    /\ base_units t 2500000999999999999 = 2500000999999999999 `div` 10 ^ 12.
Proof.
  eexists. split; [reflexivity|].
  exact (proj1 (base_units_floor "arc" Sample.arc_cfg Sample.arc_ok 0 _ _ 2500000999999999999
    eq_refl eq_refl ltac:(lia))).
Defined.
