(* ===== verification/Load.v ===== *)
(** * Load: [Config::load] ([src/config.rs])

    How the configuration of a process comes about: the layers that are merged, the defaults of the
    fields they leave out, the environment's last word and the check. Figment's merging and serde's
    decoding are the parameter [extract], from the layers in order to the fields that were given; a
    field with [#[serde(default)]] is an [option]. *)

From S2P Require Import Prelude Text Config Registry.
From Stdlib Require Import Ascii.

(** ** Defaults *)

(** [src/config.rs:33-35 default_profile] *)
Definition default_profile : string := "mainnet".
(** [src/config.rs:152-154 yes] *)
Definition yes : bool := true.
(** [src/config.rs:155-157 d_bucket] *)
Definition d_bucket : Z := 500.
(** [src/config.rs:158-160 d_targeted_max] *)
Definition d_targeted_max : Z := 5000.
(** [src/config.rs:161-163 d_coalesce] *)
Definition d_coalesce : Z := 500.
(** [src/config.rs:164-166 d_ws_fallback] *)
Definition d_ws_fallback : Z := 5000.
(** [src/config.rs:167-169 d_channel] *)
Definition d_channel : Z := 16384.
(** [src/config.rs:170-172 d_ws_stall] *)
Definition d_ws_stall : Z := 60000.
(** [src/config.rs:173-175 d_rpc_timeout] *)
Definition d_rpc_timeout : Z := 10000.
(** [src/config.rs:176-178 d_rpc_rps] *)
Definition d_rpc_rps : Z := 25.
(** [src/config.rs:179-181 d_rpc_retries] *)
Definition d_rpc_retries : Z := 4.
(** [src/config.rs:319-321 default_max_per_host] *)
Definition default_max_per_host : Z := 8.
(** [src/config.rs:323-325 default_max_backfill_secs] *)
Definition default_max_backfill_secs : Z := 3600.

(** ** What the layers give *)

Record RawToken := mkRawToken {
  rk_symbol : string;
  rk_address : Z;
  rk_decimals : Z;
  rk_issuance : option string;
  rk_transfer_log_address : option Z;
  rk_transfer_log_decimals : option Z;
}.

Record RawChain := mkRawChain {
  rw_enabled : option bool;
  rw_chain_id : Z;
  rw_http_url : option string;
  rw_ws_url : option string;
  rw_ingest_mode : IngestMode;
  rw_large_scale_mode : IngestMode;
  rw_ws_bucket_size : option Z;
  rw_ws_targeted_max : option Z;
  rw_ws_coalesce_ms : option Z;
  rw_ws_down_fallback_ms : option Z;
  rw_ws_channel_size : option Z;
  rw_ws_stall_ms : option Z;
  rw_poll_interval_ms : Z;
  rw_safety_sweep_interval_ms : Z;
  rw_idle_probe_interval_ms : Z;
  rw_confirmations : Z;
  rw_expected_block_time_ms : Z;
  rw_max_log_range : Z;
  rw_head_stall_threshold_ms : Z;
  rw_rpc_timeout_ms : option Z;
  rw_rpc_max_rps : option Z;
  rw_rpc_max_retries : option Z;
  rw_credits_per_call : Z;
  rw_tokens : option (list RawToken);
}.

Record RawWebhook := mkRawWebhook {
  rh_secret : option string;
  rh_connect_timeout_ms : Z;
  rh_request_timeout_ms : Z;
  rh_max_concurrency : Z;
  rh_max_per_host : option Z;
  rh_retry_base_ms : Z;
  rh_retry_cap_ms : Z;
  rh_max_age_secs : Z;
  rh_host_failure_threshold : Z;
  rh_host_park_ms : Z;
  rh_allow_insecure_targets : bool;
  rh_host_allowlist : option (list string);
}.

Record RawConfig := mkRawConfig {
  ra_profile : option string;
  ra_bind : string;
  ra_port : Z;
  ra_database_url : option string;
  ra_max_connections : Z;
  ra_default_ttl_secs : Z;
  ra_max_backfill_secs : option Z;
  ra_webhook : RawWebhook;
  ra_quicknode_api_key : option string;
  ra_chains : list (string * RawChain);
}.

(** [src/config.rs:195-213 TokenConfig (serde defaults)] *)
Definition fill_token (t : RawToken) : TokenConfig :=
  mkTokenConfig (rk_symbol t) (rk_address t) (rk_decimals t) (default EmptyString (rk_issuance t))
    (rk_transfer_log_address t) (rk_transfer_log_decimals t).

(** [src/config.rs:107-150 ChainConfig (serde defaults)] *)
Definition fill_chain (c : RawChain) : ChainConfig :=
  mkChainConfig (default yes (rw_enabled c)) (rw_chain_id c) (default EmptyString (rw_http_url c))
    (default EmptyString (rw_ws_url c)) (rw_ingest_mode c) (rw_large_scale_mode c)
    (default d_bucket (rw_ws_bucket_size c)) (default d_targeted_max (rw_ws_targeted_max c))
    (default d_coalesce (rw_ws_coalesce_ms c)) (default d_ws_fallback (rw_ws_down_fallback_ms c))
    (default d_channel (rw_ws_channel_size c)) (default d_ws_stall (rw_ws_stall_ms c))
    (rw_poll_interval_ms c) (rw_safety_sweep_interval_ms c) (rw_idle_probe_interval_ms c) (rw_confirmations c)
    (rw_expected_block_time_ms c) (rw_max_log_range c) (rw_head_stall_threshold_ms c)
    (default d_rpc_timeout (rw_rpc_timeout_ms c)) (default d_rpc_rps (rw_rpc_max_rps c))
    (default d_rpc_retries (rw_rpc_max_retries c)) (rw_credits_per_call c)
    (fill_token <$> default [] (rw_tokens c)).

(** [src/config.rs:58-80 WebhookConfig (serde defaults)] *)
Definition fill_webhook (w : RawWebhook) : WebhookConfig :=
  mkWebhookConfig (default EmptyString (rh_secret w)) (rh_connect_timeout_ms w) (rh_request_timeout_ms w)
    (rh_max_concurrency w) (default default_max_per_host (rh_max_per_host w)) (rh_retry_base_ms w) (rh_retry_cap_ms w)
    (rh_max_age_secs w) (rh_host_failure_threshold w) (rh_host_park_ms w) (rh_allow_insecure_targets w)
    (default [] (rh_host_allowlist w)).

(** [src/config.rs:20-56 Config (serde defaults)] *)
Definition fill (r : RawConfig) : Config :=
  mkConfig (default default_profile (ra_profile r)) (ra_bind r) (ra_port r) (default EmptyString (ra_database_url r))
    (ra_max_connections r) (ra_default_ttl_secs r) (default default_max_backfill_secs (ra_max_backfill_secs r))
    (fill_webhook (ra_webhook r)) (default EmptyString (ra_quicknode_api_key r))
    ((fun nc => (nc.1, fill_chain nc.2)) <$> ra_chains r).

(** ** Loading *)

Inductive Layer :=
  | TomlFile (path : string)
  | TomlString (text : string)
  | EnvPrefixed (prefix split : string).

(** [src/config.rs:12-18 ConfigError] What figment reports, what [validate] reports, and [PORT]. *)
Inductive LoadError (E : Type) :=
  | Extract (e : E)
  | InvalidConfig (e : ConfigError)
  | BadPort (port : string).
Arguments Extract {E} e.
Arguments InvalidConfig {E} e.
Arguments BadPort {E} port.

(** [str::parse::<u16>] *)
Definition parse_u16 (s : string) : option Z :=
  match s with
  | String "+" s => parse_digits (2 ^ 16 - 1) s
  | _ => parse_digits (2 ^ 16 - 1) s
  end.

Section load.
Context {E : Type}.
Variable extract : list Layer -> result E RawConfig.
(** [dir.join(name)] *)
Variable join : string -> string -> string.

(** [src/config.rs:228-235 Config::load (layers)] Later layers win. *)
Definition layers (dir profile : string) : list Layer :=
  [TomlFile (join dir "default.toml")]
  ++ (if bool_decide (profile = "mainnet"%string) then []
      else [TomlFile (join dir (profile +:+ ".toml")); TomlFile (join dir (profile +:+ ".generated.toml"))])
  ++ [EnvPrefixed "GUM_" "__"].

(** [src/config.rs:237-237 Config::load (profile)] *)
Definition with_profile (profile : string) (c : Config) : Config :=
  mkConfig profile (cfg_bind c) (cfg_port c) (cfg_database_url c) (cfg_max_connections c) (cfg_default_ttl_secs c)
    (cfg_max_backfill_secs c) (cfg_webhook c) (cfg_quicknode_api_key c) (cfg_chains c).

(** [src/config.rs:238-240 Config::load (DATABASE_URL)] *)
Definition with_database_url (url : option string) (c : Config) : Config :=
  mkConfig (cfg_profile c) (cfg_bind c) (cfg_port c) (default (cfg_database_url c) url) (cfg_max_connections c)
    (cfg_default_ttl_secs c) (cfg_max_backfill_secs c) (cfg_webhook c) (cfg_quicknode_api_key c) (cfg_chains c).

(** [src/config.rs:241-244 Config::load (PORT)] *)
Definition with_port (port : option string) (c : Config) : result (LoadError E) Config :=
  match port with
  | None => Ok c
  | Some port =>
      n ← ok_or (BadPort port) (parse_u16 port);
      Ok (mkConfig (cfg_profile c) (cfg_bind c) n (cfg_database_url c) (cfg_max_connections c) (cfg_default_ttl_secs c)
            (cfg_max_backfill_secs c) (cfg_webhook c) (cfg_quicknode_api_key c) (cfg_chains c))
  end.

Definition map_err {E1 E2 A} (f : E1 -> E2) (r : result E1 A) : result E2 A :=
  match r with Ok a => Ok a | Err e => Err (f e) end.

(** [src/config.rs:227-247 Config::load] [env] is the process environment. *)
Definition load (env : string -> option string) (dir : string) : result (LoadError E) Config :=
  let profile := default default_profile (env "GUM_PROFILE") in
  raw ← map_err Extract (extract (layers dir profile));
  let cfg := with_database_url (env "DATABASE_URL") (with_profile profile (fill raw)) in
  cfg ← with_port (env "PORT") cfg;
  _ ← map_err InvalidConfig (validate cfg);
  Ok cfg.

(** [src/config.rs:249-253 Config::from_toml_str] *)
Definition from_toml_str (toml : string) : result (LoadError E) Config :=
  raw ← map_err Extract (extract [TomlString toml]);
  let cfg := fill raw in
  _ ← map_err InvalidConfig (validate cfg);
  Ok cfg.
End load.

(** ** The widths of the fields *)

Definition in_width (w x : Z) : Prop := 0 <= x < 2 ^ w.

Definition in_width_opt (w : Z) (o : option Z) : Prop := from_option (in_width w) True o.

Record token_typed (t : TokenConfig) : Prop := {
  tt_address : in_width 160 (tc_address t);
  tt_decimals : in_width 8 (tc_decimals t);
  tt_log_address : in_width_opt 160 (tc_transfer_log_address t);
  tt_log_decimals : in_width_opt 8 (tc_transfer_log_decimals t);
}.

Record chain_typed (c : ChainConfig) : Prop := {
  ct_u64 : Forall (in_width 64) [cc_chain_id c; cc_ws_coalesce_ms c; cc_ws_down_fallback_ms c; cc_ws_stall_ms c;
             cc_poll_interval_ms c; cc_safety_sweep_interval_ms c; cc_idle_probe_interval_ms c; cc_confirmations c;
             cc_expected_block_time_ms c; cc_max_log_range c; cc_head_stall_threshold_ms c; cc_rpc_timeout_ms c];
  ct_usize : Forall (in_width 64) [cc_ws_bucket_size c; cc_ws_targeted_max c; cc_ws_channel_size c; cc_rpc_max_retries c];
  ct_u32 : Forall (in_width 32) [cc_rpc_max_rps c; cc_credits_per_call c];
  ct_tokens : Forall token_typed (cc_tokens c);
}.

Record webhook_typed (w : WebhookConfig) : Prop := {
  wt_u64 : Forall (in_width 64) [wc_connect_timeout_ms w; wc_request_timeout_ms w; wc_retry_base_ms w; wc_retry_cap_ms w;
             wc_max_age_secs w; wc_host_park_ms w];
  wt_usize : Forall (in_width 64) [wc_max_concurrency w; wc_max_per_host w];
  wt_u32 : in_width 32 (wc_host_failure_threshold w);
}.

Record config_typed (c : Config) : Prop := {
  cy_port : in_width 16 (cfg_port c);
  cy_max_connections : in_width 32 (cfg_max_connections c);
  cy_u64 : Forall (in_width 64) [cfg_default_ttl_secs c; cfg_max_backfill_secs c];
  cy_webhook : webhook_typed (cfg_webhook c);
  cy_chains : Forall (fun nc => chain_typed nc.2) (cfg_chains c);
}.

(** What decoding guarantees: every field that was given is a value of its type. *)
Record raw_chain_typed (c : RawChain) : Prop := {
  rt_u64 : Forall (in_width 64) [rw_chain_id c; rw_poll_interval_ms c; rw_safety_sweep_interval_ms c;
             rw_idle_probe_interval_ms c; rw_confirmations c; rw_expected_block_time_ms c; rw_max_log_range c;
             rw_head_stall_threshold_ms c];
  rt_opt64 : Forall (in_width_opt 64) [rw_ws_bucket_size c; rw_ws_targeted_max c; rw_ws_coalesce_ms c;
               rw_ws_down_fallback_ms c; rw_ws_channel_size c; rw_ws_stall_ms c; rw_rpc_timeout_ms c;
               rw_rpc_max_retries c];
  rt_u32 : in_width_opt 32 (rw_rpc_max_rps c) /\ in_width 32 (rw_credits_per_call c);
  rt_tokens : Forall (fun t => token_typed (fill_token t)) (default [] (rw_tokens c));
}.

Record raw_typed (r : RawConfig) : Prop := {
  ry_port : in_width 16 (ra_port r);
  ry_max_connections : in_width 32 (ra_max_connections r);
  ry_ttl : in_width 64 (ra_default_ttl_secs r) /\ in_width_opt 64 (ra_max_backfill_secs r);
  ry_webhook : let w := ra_webhook r in
    Forall (in_width 64) [rh_connect_timeout_ms w; rh_request_timeout_ms w; rh_retry_base_ms w; rh_retry_cap_ms w;
      rh_max_age_secs w; rh_host_park_ms w; rh_max_concurrency w]
    /\ in_width_opt 64 (rh_max_per_host w) /\ in_width 32 (rh_host_failure_threshold w);
  ry_chains : Forall (fun nc => raw_chain_typed nc.2) (ra_chains r);
}.

Lemma default_width w d o : in_width w d -> in_width_opt w o -> in_width w (default d o).
Proof. by destruct o. Qed.

(** A list of fields, each given or defaulted. *)
Local Ltac widths :=
  cbn; repeat (apply List.Forall_cons; [first [tauto|apply default_width; [done|tauto]]|]); apply List.Forall_nil.

(** Defaults are values of their types, so a decoded configuration is typed throughout. *)
Lemma fill_chain_typed c : raw_chain_typed c -> chain_typed (fill_chain c).
Proof.
  intros [H64 Hopt [Hrps Hcred] Htok]. rewrite !Forall_cons in H64. rewrite !Forall_cons in Hopt.
  split; [widths..|by apply Forall_fmap].
Qed.

Lemma fill_typed r : raw_typed r -> config_typed (fill r).
Proof.
  intros [Hp Hm [Ht Hb] (Hw & Hh & Hf) Hc]. rewrite !Forall_cons in Hw. split; cbn; try done.
  - widths.
  - split; [widths..|done].
  - apply Forall_fmap. eapply Forall_impl; [exact Hc|]. intros [n c] Hn. by apply fill_chain_typed.
Qed.

Lemma parse_u16_width s n : parse_u16 s = Some n -> in_width 16 n.
Proof.
  intros H. assert (exists s', parse_digits (2 ^ 16 - 1) s' = Some n) as [s' H'].
  { unfold parse_u16 in H. repeat case_match; eauto. }
  apply parse_digits_range in H'. unfold in_width. lia.
Qed.

Lemma from_config_ok c : config_ok c -> Forall SpecOk (from_config c).
Proof.
  intros [_ _ _ Hc]. unfold from_config. apply Forall_fmap. eapply Forall_impl; [exact Hc|].
  intros [n cc] Hok. by apply ChainSpec_new_ok.
Qed.

Lemma from_config_ids c : config_ok c -> NoDup (ch_chain_id <$> from_config c).
Proof.
  intros [_ _ Hids _]. unfold from_config. rewrite <- list_fmap_compose. exact Hids.
Qed.

Section loaded.
Context {E : Type}.
Variable extract : list Layer -> result E RawConfig.
Variable join : string -> string -> string.
(** Decoding yields values of the declared types. *)
Hypothesis extract_typed : forall ls raw, extract ls = Ok raw -> raw_typed raw.

(** C35. A configuration that loads is well-formed: every field is a value of its machine type, its
    checks hold, its profile is the requested one, the environment's database and port win over the
    files, and the registry made from it is the one every theorem about the service assumes — chains
    that index their tokens properly, under pairwise distinct chain ids. *)
Theorem load_well_formed (env : string -> option string) (dir : string) (cfg : Config) :
  load extract join env dir = Ok cfg ->
  config_typed cfg /\ config_ok cfg
  /\ Forall SpecOk (from_config cfg) /\ NoDup (ch_chain_id <$> from_config cfg)
  /\ cfg_profile cfg = default "mainnet"%string (env "GUM_PROFILE")
  /\ (forall url, env "DATABASE_URL" = Some url -> cfg_database_url cfg = url)
  /\ (forall port, env "PORT" = Some port -> parse_u16 port = Some (cfg_port cfg)).
Proof.
  unfold load. intros H. apply result_bind_Ok in H as (raw & Hraw & H).
  destruct (extract _) as [raw'|e] eqn:Ex; [injection Hraw as ->|done]. apply extract_typed, fill_typed in Ex.
  apply result_bind_Ok in H as (c & Hport & H). apply result_bind_Ok in H as ([] & Hv & H). injection H as <-.
  destruct (validate c) as [[]|e] eqn:Hval; [|done]. apply validate_config_ok in Hval.
  split_and!; [|done|by apply from_config_ok|by apply from_config_ids|..]; unfold with_port in Hport;
    destruct (env "PORT") as [port|] eqn:Ep.
  - apply result_bind_Ok in Hport as (n & Hn & Hport). injection Hport as <-. destruct Ex. split; cbn; try done.
    destruct (parse_u16 port) eqn:Epp; [injection Hn as ->; by eapply parse_u16_width|done].
  - injection Hport as <-. destruct Ex. by split.
  - apply result_bind_Ok in Hport as (n & Hn & Hport). by injection Hport as <-.
  - by injection Hport as <-.
  - intros url Hu. rewrite Hu in Hport. apply result_bind_Ok in Hport as (n & Hn & Hport). by injection Hport as <-.
  - intros url Hu. rewrite Hu in Hport. by injection Hport as <-.
  - intros p [= <-]. apply result_bind_Ok in Hport as (n & Hn & Hport). injection Hport as <-.
    by destruct (parse_u16 port); [injection Hn as ->|].
  - done.
Qed.
End loaded.
