(* ===== verification/Cache.v ===== *)
(** * Cache: [src/cache.rs]

    The in-memory watchlist. The concurrent hash map is a [gmap]; each method is one atomic step
    on the pair of the map and the [last_seq] counter. *)

From S2P Require Import Prelude.

(** [src/cache.rs:11-14 WatchKey] *)
Record WatchKey := mkWatchKey {
  k_token_idx : Z;
  k_address : Z;
}.

#[global] Instance WatchKey_eq_dec : EqDecision WatchKey.
Proof. solve_decision. Defined.
#[global] Program Instance WatchKey_countable : Countable WatchKey :=
  inj_countable' (fun k => (k_token_idx k, k_address k)) (fun p => mkWatchKey p.1 p.2) _.
Next Obligation. by intros []. Qed.

(** [src/cache.rs:18-20 WatchKey::new] *)
Definition WatchKey_new (token_idx address : Z) : WatchKey := mkWatchKey token_idx address.

(** [src/cache.rs:24-28 WatchRef] *)
Record WatchRef := mkWatchRef {
  r_id : Z;
  r_seq : Z;
  r_start_block : Z;
}.

#[global] Instance WatchRef_eq_dec : EqDecision WatchRef.
Proof. solve_decision. Defined.

(** [src/cache.rs:32-36 WatchCache] *)
Record WatchCache := mkCache {
  c_map : gmap WatchKey WatchRef;
  c_last_seq : Z;
}.

(** [src/cache.rs:45-47 WatchCache::new] *)
Definition cache_new : WatchCache := mkCache ∅ 0.

(** [src/cache.rs:57-60 WatchCache::insert] The flag is true when the key was not present. *)
Definition cache_insert (c : WatchCache) (key : WatchKey) (watch : WatchRef) : bool * WatchCache :=
  (bool_decide (c_map c !! key = None),
   mkCache (<[key := watch]> (c_map c)) (Z.max (c_last_seq c) (r_seq watch))).

(** [src/cache.rs:63-65 WatchCache::get] *)
Definition cache_get (c : WatchCache) (key : WatchKey) : option WatchRef := c_map c !! key.

(** [src/cache.rs:68-70 WatchCache::remove] Removes the entry only if it still belongs to [id]. *)
Definition cache_remove (c : WatchCache) (key : WatchKey) (id : Z) : bool * WatchCache :=
  match c_map c !! key with
  | Some w => if r_id w =? id then (true, mkCache (delete key (c_map c)) (c_last_seq c)) else (false, c)
  | None => (false, c)
  end.

(** [src/cache.rs:72-74 WatchCache::len] *)
Definition cache_len (c : WatchCache) : nat := size (c_map c).

(** [src/cache.rs:76-78 WatchCache::is_empty] *)
Definition cache_is_empty (c : WatchCache) : bool := bool_decide (c_map c = ∅).

(** [src/cache.rs:80-82 WatchCache::last_seq] *)
Definition cache_last_seq (c : WatchCache) : Z := c_last_seq c.

(** [src/cache.rs:84-86 WatchCache::note_seq] *)
Definition cache_note_seq (c : WatchCache) (seq : Z) : WatchCache :=
  mkCache (c_map c) (Z.max (c_last_seq c) seq).

(** [src/cache.rs:89-91 WatchCache::addresses] *)
Definition cache_addresses (c : WatchCache) : list Z := (fun kw => k_address kw.1) <$> map_to_list (c_map c).

(** Several insertions in order, as every loader performs them. *)
Definition cache_insert_all (c : WatchCache) (es : list (WatchKey * WatchRef)) : WatchCache :=
  foldl (fun c e => (cache_insert c e.1 e.2).2) c es.

(** Several removals in order. *)
Definition cache_remove_all (c : WatchCache) (es : list (WatchKey * Z)) : WatchCache :=
  foldl (fun c e => (cache_remove c e.1 e.2).2) c es.

(** ** Lemmas *)

Arguments cache_insert : simpl never.
Arguments cache_remove : simpl never.

Lemma cache_get_insert c k w k' :
  cache_get (cache_insert c k w).2 k' = if decide (k = k') then Some w else cache_get c k'.
Proof. unfold cache_get. simpl. apply lookup_insert. Qed.

(** Removal evicts the entry of [id] under [key] and nothing else. *)
Lemma cache_get_remove c k id k' :
  cache_get (cache_remove c k id).2 k' =
  if decide (k = k' /\ r_id <$> cache_get c k = Some id) then None else cache_get c k'.
Proof.
  unfold cache_remove, cache_get. destruct (c_map c !! k) as [w|] eqn:Hk; simpl.
  - destruct (Z.eqb_spec (r_id w) id) as [Hid|Hid]; simpl; rewrite ?lookup_delete;
      repeat case_decide; naive_solver.
  - case_decide; naive_solver.
Qed.

Lemma cache_last_seq_insert c k w : c_last_seq (cache_insert c k w).2 = Z.max (c_last_seq c) (r_seq w).
Proof. done. Qed.

Lemma cache_last_seq_remove c k id : c_last_seq (cache_remove c k id).2 = c_last_seq c.
Proof. unfold cache_remove. repeat case_match; done. Qed.

Lemma cache_last_seq_remove_all c es : c_last_seq (cache_remove_all c es) = c_last_seq c.
Proof.
  unfold cache_remove_all. revert c; induction es as [|e es IH]; intros c; [done|]. simpl.
  by rewrite IH, cache_last_seq_remove.
Qed.

Lemma cache_get_remove_all c es k w :
  cache_get c k = Some w -> (k, r_id w) ∉ es -> cache_get (cache_remove_all c es) k = Some w.
Proof.
  unfold cache_remove_all. revert c; induction es as [|[k' id] es IH]; intros c Hk Hin; [done|].
  apply not_elem_of_cons in Hin as [Hne Hin]. simpl. apply IH; [|done].
  rewrite cache_get_remove. rewrite decide_False; [done|].
  intros [-> Heq]. rewrite Hk in Heq. simpl in Heq. congruence.
Qed.

Lemma cache_get_remove_all_inv c es k w :
  cache_get (cache_remove_all c es) k = Some w -> cache_get c k = Some w.
Proof.
  unfold cache_remove_all. revert c; induction es as [|[k' id] es IH]; intros c; [done|].
  simpl. intros H%IH. rewrite cache_get_remove in H. by case_decide.
Qed.

(** Loading entries with pairwise distinct keys makes each of them visible. *)
Lemma cache_insert_all_NoDup c es k w :
  NoDup es.*1 -> (k, w) ∈ es -> cache_get (cache_insert_all c es) k = Some w.
Proof.
  unfold cache_insert_all. revert c; induction es as [|[k' w'] es IH] using rev_ind; intros c Hnd Hin.
  { by apply not_elem_of_nil in Hin. }
  rewrite foldl_snoc, cache_get_insert. simpl. rewrite fmap_app in Hnd.
  apply NoDup_app in Hnd as (Hnd & Hdis & _).
  apply elem_of_app in Hin as [Hin|Hin].
  - rewrite decide_False; [by apply IH|]. intros ->.
    apply (Hdis k); [by apply (list_elem_of_fmap_2 fst _ (k, w))|set_solver].
  - apply list_elem_of_singleton in Hin. simplify_eq. by rewrite decide_True.
Qed.

Lemma cache_insert_all_other c es k :
  k ∉ es.*1 -> cache_get (cache_insert_all c es) k = cache_get c k.
Proof.
  unfold cache_insert_all. revert c; induction es as [|[k' w'] es IH]; intros c Hk; [done|].
  rewrite fmap_cons in Hk. apply not_elem_of_cons in Hk as [Hne Hk]. cbn [foldl]. rewrite IH by done.
  rewrite cache_get_insert. cbn [fst]. by rewrite decide_False.
Qed.

Lemma cache_insert_all_last_seq c es :
  c_last_seq (cache_insert_all c es) = foldr Z.max (c_last_seq c) ((fun e => r_seq e.2) <$> es).
Proof.
  unfold cache_insert_all. revert c; induction es as [|e es IH]; intros c; [done|].
  cbn [foldl]. rewrite IH, cache_last_seq_insert. apply foldr_max_acc.
Qed.
