(* ===== verification/Matcher.v ===== *)
(** * Matcher: [src/ingest/matcher.rs]

    The per-log hot path. A 32-byte word is a [Z] below [2 ^ 256]; [Address::from_word] keeps the
    low 20 bytes and [into_word] zero-extends; log data is a list of byte values. *)

From S2P Require Import Prelude Config Registry Cache.

(** [src/ingest/matcher.rs:15-15 TRANSFER_TOPIC] *)
Definition TRANSFER_TOPIC : Z :=
  0xddf252ad1be2c89b69c2b068fc378daa952ba7f163c4a11628f55a4df523b3ef.

Definition from_word (w : Z) : Z := w `mod` 2 ^ 160.
Definition into_word (a : Z) : Z := a.

(** The fields of an RPC log the indexer reads. *)
Record Log := mkLog {
  l_address : Z;
  l_topics : list Z;
  l_data : list Z;
  l_block_hash : option Z;
  l_block_number : option Z;
  l_block_timestamp : option Z;
  l_transaction_hash : option Z;
  l_log_index : option Z;
  l_removed : bool;
}.

(** [src/ingest/matcher.rs:18-29 MatchedTransfer] *)
Record MatchedTransfer := mkMatched {
  m_watch : WatchRef;
  m_token_idx : Z;
  m_from : Z;
  m_to : Z;
  m_amount : Z;
  m_block_number : Z;
  m_block_hash : Z;
  m_tx_hash : Z;
  m_log_index : Z;
  m_removed : bool;
}.

(** [src/ingest/matcher.rs:32-46 Skip] *)
Inductive Skip := Foreign | Malformed | Incomplete | ZeroValue | Unwatched | BeforeStart.

#[global] Instance Skip_eq_dec : EqDecision Skip.
Proof. solve_decision. Defined.

(** [src/ingest/matcher.rs:49-86 match_log] *)
Definition match_log (chain : ChainSpec) (cache : WatchCache) (log : Log) : result Skip MatchedTransfer :=
  let topics := l_topics log in
  if negb (bool_decide (head topics = Some TRANSFER_TOPIC)) then Err Foreign
  else match token_by_log_address chain (l_address log) with
  | None => Err Foreign
  | Some token =>
      let data := l_data log in
      if negb (length topics =? 3)%nat || negb (length data =? 32)%nat then Err Malformed
      else
        let to := from_word (nth 2 topics 0) in
        match cache_get cache (WatchKey_new (t_idx token) to) with
        | None => Err Unwatched
        | Some watch =>
            match l_block_number log, l_block_hash log, l_transaction_hash log, l_log_index log with
            | Some block_number, Some block_hash, Some tx_hash, Some log_index =>
                if block_number <? r_start_block watch then Err BeforeStart
                else
                  let amount := base_units token (be_value data) in
                  if amount =? 0 then Err ZeroValue
                  else Ok (mkMatched watch (t_idx token) (from_word (nth 1 topics 0)) to amount
                             block_number block_hash tx_hash log_index (l_removed log))
            | _, _, _, _ => Err Incomplete
            end
        end
  end.

(** ** Synthetic logs ([src/testkit/logs.rs])

    [keccak256] is a parameter: it only names blocks and transactions. *)

(** [src/testkit/logs.rs:24-29 block_hash] The seed is the eight bytes of the number and the fork. *)
Definition block_hash (keccak256 : list Z -> Z) (number fork : Z) : Z :=
  keccak256 (be_bytes 8 number ++ [fork]).

(** [src/testkit/logs.rs:35-62 transfer_log_on_fork] *)
Definition transfer_log_on_fork (keccak256 : list Z -> Z) (token from to amount block log_index fork : Z)
    : Log :=
  mkLog token [TRANSFER_TOPIC; into_word from; into_word to] (be_bytes 32 amount)
    (Some (block_hash keccak256 block fork)) (Some block) None
    (Some (keccak256 (be_bytes 8 block ++ be_bytes 8 log_index ++ [fork]))) (Some log_index) false.

(** [src/testkit/logs.rs:31-33 transfer_log] *)
Definition transfer_log (keccak256 : list Z -> Z) (token from to amount block log_index : Z) : Log :=
  transfer_log_on_fork keccak256 token from to amount block log_index 0.

(** ** Lemmas *)

Definition is_address (a : Z) : Prop := 0 <= a < 2 ^ 160.

Lemma from_into_word a : is_address a -> from_word (into_word a) = a.
Proof. apply Z.mod_small. Qed.

Lemma from_word_address w : is_address (from_word w).
Proof. apply Z.mod_pos_bound. lia. Qed.

(** Everything a match says about its log, its token and its watch. *)
Lemma match_log_inv chain cache log m :
  match_log chain cache log = Ok m ->
  exists token,
    token_by_log_address chain (l_address log) = Some token
    /\ cache_get cache (WatchKey_new (m_token_idx m) (m_to m)) = Some (m_watch m)
    /\ m_token_idx m = t_idx token
    /\ m_to m = from_word (nth 2 (l_topics log) 0)
    /\ m_amount m = base_units token (be_value (l_data log))
    /\ m_amount m ≠ 0
    /\ r_start_block (m_watch m) <= m_block_number m
    /\ l_block_number log = Some (m_block_number m)
    /\ l_block_hash log = Some (m_block_hash m)
    /\ l_transaction_hash log = Some (m_tx_hash m)
    /\ l_log_index log = Some (m_log_index m).
Proof.
  unfold match_log. intros H.
  case_match; [done|]. destruct (token_by_log_address _ _) as [token|] eqn:Htok; [|done].
  case_match; [done|]. destruct (cache_get _ _) as [watch|] eqn:Hget; [|done].
  destruct (l_block_number log) as [bn|]; [|done]. destruct (l_block_hash log) as [bh|]; [|done].
  destruct (l_transaction_hash log) as [th|]; [|done]. destruct (l_log_index log) as [li|]; [|done].
  case_match eqn:Hst; [done|]. case_match eqn:Hz; [done|].
  apply Z.ltb_ge in Hst. apply Z.eqb_neq in Hz. injection H as <-. simpl.
  exists token. done.
Qed.

(** The match depends on the cache only through the entry of its own key. *)
Lemma match_log_retarget chain cache cache' log m watch :
  match_log chain cache log = Ok m ->
  cache_get cache' (WatchKey_new (m_token_idx m) (m_to m)) = Some watch ->
  r_start_block watch <= m_block_number m ->
  match_log chain cache' log =
    Ok (mkMatched watch (m_token_idx m) (m_from m) (m_to m) (m_amount m) (m_block_number m)
          (m_block_hash m) (m_tx_hash m) (m_log_index m) (m_removed m)).
Proof.
  unfold match_log. intros H.
  case_match; [done|]. destruct (token_by_log_address _ _) as [token|] eqn:Htok; [|done].
  case_match; [done|]. destruct (cache_get cache _) as [watch0|] eqn:Hget; [|done].
  destruct (l_block_number log) as [bn|]; [|done]. destruct (l_block_hash log) as [bh|]; [|done].
  destruct (l_transaction_hash log) as [th|]; [|done]. destruct (l_log_index log) as [li|]; [|done].
  case_match eqn:Hst; [done|]. case_match eqn:Hz; [done|]. injection H as <-.
  cbn [m_token_idx m_to m_block_number]. intros -> Hle. apply Z.ltb_ge in Hle.
  by rewrite Hle.
Qed.

(** ** Properties *)

Section validated.
Variables (name : string) (cfg : ChainConfig).
Hypothesis Hok : chain_ok cfg.
Let spec := ChainSpec_new name cfg.

(** Encode and decode: the log an ERC-20 emits for a transfer of [amount] to a watched
    address, at or after the watch's start block, is matched to that watch with the sender, the
    recipient, the position and the amount in base units unchanged, whenever at least one base
    unit was transferred. *)
Lemma match_emitted (i : nat) (t : TokenSpec) (cache : WatchCache) (watch : WatchRef) (from to amount block bh tx log_index : Z)
    (ts : option Z) (removed : bool) :
  ch_tokens spec !! i = Some t ->
  is_address from -> is_address to -> in_u256 amount ->
  cache_get cache (WatchKey_new (Z.of_nat i) to) = Some watch ->
  r_start_block watch <= block -> base_units t amount ≠ 0 ->
  match_log spec cache (mkLog (t_log_address t) [TRANSFER_TOPIC; into_word from; into_word to] (be_bytes 32 amount)
    (Some bh) (Some block) ts (Some tx) (Some log_index) removed) =
    Ok (mkMatched watch (Z.of_nat i) from to (base_units t amount) block bh tx log_index removed).
Proof.
  intros Hi Hf Ht Ha Hc Hb Hz.
  pose proof (ChainSpec_token_index name cfg Hok i t Hi) as (Hidx & _ & Hlog).
  unfold match_log. cbn [l_topics l_address l_data head].
  rewrite bool_decide_true by done. cbn [negb]. unfold spec. rewrite Hlog.
  rewrite length_be_bytes. cbn [length Nat.eqb negb orb nth].
  rewrite !from_into_word by done. rewrite Hidx, Hc.
  cbn [l_block_number l_block_hash l_transaction_hash l_log_index l_removed].
  rewrite be_value_be_bytes by (change (256 ^ Z.of_nat 32) with (2 ^ 256); done).
  replace (block <? r_start_block watch) with false by (symmetry; by apply Z.ltb_ge).
  replace (base_units t amount =? 0) with false by (symmetry; by apply Z.eqb_neq). done.
Qed.

(** The same of the logs the test kit makes up. *)
Theorem match_log_transfer (keccak256 : list Z -> Z) (i : nat) (t : TokenSpec) (cache : WatchCache)
    (watch : WatchRef) (from to amount block log_index fork : Z) :
  ch_tokens spec !! i = Some t ->
  is_address from -> is_address to -> in_u256 amount ->
  cache_get cache (WatchKey_new (Z.of_nat i) to) = Some watch ->
  r_start_block watch <= block -> base_units t amount ≠ 0 ->
  let log := transfer_log_on_fork keccak256 (t_log_address t) from to amount block log_index fork in
  match_log spec cache log =
    Ok (mkMatched watch (Z.of_nat i) from to (base_units t amount) block
          (block_hash keccak256 block fork)
          (keccak256 (be_bytes 8 block ++ be_bytes 8 log_index ++ [fork])) log_index false).
Proof. intros. by apply match_emitted. Qed.

(** A log is counted at most once per token: when a token's transfers are read from another
    emitter (Arc USDC), the contract's own copy of the event is foreign, whatever is watched. *)
Lemma match_log_own_copy_foreign (i : nat) (t : TokenSpec) (cache : WatchCache) (log : Log) :
  ch_tokens spec !! i = Some t ->
  t_address t ∉ log_addresses spec ->
  l_address log = t_address t ->
  match_log spec cache log = Err Foreign.
Proof.
  intros Hi Hni Ha. unfold match_log. case_match; [done|].
  destruct (token_by_log_address _ _) as [t'|] eqn:Ht'; [|done].
  apply find_Some_elem in Ht' as [Hin Heq%Z.eqb_eq]. destruct Hni.
  apply list_elem_of_fmap. exists t'. rewrite Heq. done.
Qed.
End validated.
