(* ===== verification/Erc20.v ===== *)
(** * Erc20: [contracts/MockERC20.sol] and [src/testkit/chain.rs]

    The mock stablecoin of the tests as the contract is written: checked arithmetic reverts, [None] is a
    revert, the events are what the indexer reads. [TestChain] drives it on a local node; the node is
    Anvil's and a parameter ([Anvil]) with the documented behaviour the tests rely on ([AnvilOk]):
    every transaction is mined in a block of its own, [mine] adds empty blocks, [reorg] replaces the
    last blocks by empty ones. *)

From S2P Require Import Prelude Text Config Registry Cache Matcher.

Definition U256_MAX : Z := 2 ^ 256 - 1.

(** [contracts/MockERC20.sol:15-16 Transfer, Approval] *)
Inductive Event :=
  | Transfer (from to value : Z)
  | Approval (owner spender value : Z).

(** [contracts/MockERC20.sol:7-13 MockERC20 (storage)] *)
Record Erc20 := mkErc20 {
  e_name : string;
  e_symbol : string;
  e_decimals : Z;
  e_supply : Z;
  e_balances : gmap Z Z;
  e_allowances : gmap (Z * Z) Z;
}.

Definition balance_of (c : Erc20) (a : Z) : Z := default 0 (e_balances c !! a).
Definition allowance (c : Erc20) (owner spender : Z) : Z := default 0 (e_allowances c !! (owner, spender)).

Definition set_supply (s : Z) (c : Erc20) : Erc20 :=
  mkErc20 (e_name c) (e_symbol c) (e_decimals c) s (e_balances c) (e_allowances c).
Definition set_balance (a v : Z) (c : Erc20) : Erc20 :=
  mkErc20 (e_name c) (e_symbol c) (e_decimals c) (e_supply c) (<[a := v]> (e_balances c)) (e_allowances c).
Definition set_allowance (o s v : Z) (c : Erc20) : Erc20 :=
  mkErc20 (e_name c) (e_symbol c) (e_decimals c) (e_supply c) (e_balances c) (<[(o, s) := v]> (e_allowances c)).

(** [+=] and [*] of [uint256] in a checked block. *)
Definition checked (v : Z) : option Z := if v <=? U256_MAX then Some v else None.

(** [contracts/MockERC20.sol:18-22 constructor] *)
Definition erc20_new (name symbol : string) (decimals : Z) : Erc20 := mkErc20 name symbol decimals 0 ∅ ∅.

Definition credit (to value : Z) (c : Erc20) : option Erc20 :=
  b ← checked (balance_of c to + value); Some (set_balance to b c).

(** [contracts/MockERC20.sol:24-28 mint] *)
Definition mint (to value : Z) (c : Erc20) : option (Erc20 * list Event) :=
  s ← checked (e_supply c + value);
  c ← credit to value (set_supply s c);
  Some (c, [Transfer 0 to value]).

(** [contracts/MockERC20.sol:34-37 mintBatch (loop)] *)
Fixpoint mint_each (tos : list Z) (value : Z) (c : Erc20) : option (Erc20 * list Event) :=
  match tos with
  | [] => Some (c, [])
  | to :: tos =>
      c ← credit to value c;
      '(c, evs) ← mint_each tos value c;
      Some (c, Transfer 0 to value :: evs)
  end.

(** [contracts/MockERC20.sol:31-38 mintBatch] *)
Definition mint_batch (tos : list Z) (value : Z) (c : Erc20) : option (Erc20 * list Event) :=
  v ← checked (value * Z.of_nat (length tos));
  s ← checked (e_supply c + v);
  mint_each tos value (set_supply s c).

(** [contracts/MockERC20.sol:40-44 approve] *)
Definition approve (sender spender value : Z) (c : Erc20) : option (Erc20 * list Event) :=
  Some (set_allowance sender spender value c, [Approval sender spender value]).

(** [contracts/MockERC20.sol:61-68 _transfer] *)
Definition move (from to value : Z) (c : Erc20) : option (Erc20 * list Event) :=
  if value <=? balance_of c from then
    c ← credit to value (set_balance from (balance_of c from - value) c);
    Some (c, [Transfer from to value])
  else None.

(** [contracts/MockERC20.sol:46-49 transfer] *)
Definition transfer (sender to value : Z) (c : Erc20) : option (Erc20 * list Event) := move sender to value c.

(** [contracts/MockERC20.sol:51-59 transferFrom] *)
Definition transfer_from (sender from to value : Z) (c : Erc20) : option (Erc20 * list Event) :=
  let allowed := allowance c from sender in
  if allowed =? U256_MAX then move from to value c
  else if value <=? allowed then move from to value (set_allowance from sender (allowed - value) c)
  else None.

(** ** What the events say *)

Definition received (a : Z) (e : Event) : Z :=
  match e with Transfer _ to v => if bool_decide (to = a) then v else 0 | _ => 0 end.
Definition sent (a : Z) (e : Event) : Z :=
  match e with Transfer from _ v => if bool_decide (from = a) then v else 0 | _ => 0 end.

(** The calls of the contract, with their sender. *)
Inductive Call :=
  | Mint (to value : Z)
  | MintBatch (tos : list Z) (value : Z)
  | Approve (spender value : Z)
  | TransferTo (to value : Z)
  | TransferFrom (from to value : Z).

Definition execute (sender : Z) (call : Call) : Erc20 -> option (Erc20 * list Event) :=
  match call with
  | Mint to value => mint to value
  | MintBatch tos value => mint_batch tos value
  | Approve spender value => approve sender spender value
  | TransferTo to value => transfer sender to value
  | TransferFrom from to value => transfer_from sender from to value
  end.

Definition args_ok (sender : Z) (call : Call) : Prop :=
  sender ≠ 0 /\
  match call with
  | Mint _ v | Approve _ v | TransferTo _ v => 0 <= v
  | MintBatch _ v => 0 <= v
  | TransferFrom from _ v => from ≠ 0 /\ 0 <= v
  end.

(** The books of a contract after the events [evs], with [owed] minted and not yet handed out. *)
Record owing (owed : Z) (c : Erc20) (evs : list Event) : Prop := {
  bk_supply : e_supply c = map_sum (fun _ v => v) (e_balances c) + owed;
  bk_range : 0 <= e_supply c <= U256_MAX;
  bk_pos a : 0 <= balance_of c a;
  bk_events a : a ≠ 0 -> balance_of c a = sumZ (received a) evs - sumZ (sent a) evs;
}.
Definition books : Erc20 -> list Event -> Prop := owing 0.

Lemma map_sum_nonneg {K V} `{Countable K} (f : K -> V -> Z) (m : gmap K V) :
  (forall i x, m !! i = Some x -> 0 <= f i x) -> 0 <= map_sum f m.
Proof.
  intros Hf. unfold map_sum. assert (G : forall l, (forall p, p ∈ l -> 0 <= uncurry f p) -> 0 <= sumZ (uncurry f) l).
  { induction l as [|p l IH]; intros Hl; [done|]. change (0 <= uncurry f p + sumZ (uncurry f) l).
    specialize (IH ltac:(intros; apply Hl; by apply list_elem_of_further)). specialize (Hl p (list_elem_of_here _ _)). lia. }
  apply G. intros [i x] Hin%elem_of_map_to_list. by apply Hf.
Qed.

Lemma sum_set_balance c a v :
  map_sum (fun _ v => v) (<[a := v]> (e_balances c)) = map_sum (fun _ v => v) (e_balances c) + v - balance_of c a.
Proof.
  unfold balance_of. destruct (e_balances c !! a) as [u|] eqn:H; cbn.
  - rewrite (map_sum_insert_upd _ _ _ u v H). lia.
  - rewrite map_sum_insert_new by done. lia.
Qed.

Definition holdings (c : Erc20) : Z := map_sum (fun _ v => v) (e_balances c).

Lemma holdings_set a v c : holdings (set_balance a v c) = holdings c + v - balance_of c a.
Proof. apply sum_set_balance. Qed.

Lemma balance_set c a b v : balance_of (set_balance a v c) b = if bool_decide (a = b) then v else balance_of c b.
Proof. unfold balance_of. cbn. case_bool_decide; [subst; by rewrite lookup_insert_eq|by rewrite lookup_insert_ne]. Qed.

Lemma checked_Some v r : checked v = Some r <-> v <= U256_MAX /\ r = v.
Proof. unfold checked. destruct (Z.leb_spec v U256_MAX); split; intros H'; destruct_and?; simplify_eq; auto; lia. Qed.

Lemma credit_Some to value c c' :
  credit to value c = Some c' <-> balance_of c to + value <= U256_MAX /\ c' = set_balance to (balance_of c to + value) c.
Proof.
  unfold credit. destruct (checked _) as [b|] eqn:E; cbn.
  - apply checked_Some in E as [H ->]. split; [intros [= <-]; auto|by intros [_ ->]].
  - split; [done|]. intros [H _]. assert (checked (balance_of c to + value) = Some (balance_of c to + value)) by by apply checked_Some. congruence.
Qed.

(** No account holds more than there is. *)
Lemma balance_le_supply owed c evs a : 0 <= owed -> owing owed c evs -> balance_of c a + owed <= e_supply c.
Proof.
  intros Ho [Hs _ Hp _]. rewrite Hs.
  assert (Hn : forall m, (forall b w, m !! b = Some w -> e_balances c !! b = Some w) -> 0 <= map_sum (fun _ v => v) m).
  { intros m Hm. apply map_sum_nonneg. intros b w Hb%Hm. specialize (Hp b). unfold balance_of in Hp. by rewrite Hb in Hp. }
  unfold balance_of. destruct (e_balances c !! a) as [v|] eqn:Hv; cbn.
  - rewrite (map_sum_delete _ _ a v Hv). specialize (Hn (delete a (e_balances c))).
    assert (0 <= map_sum (fun _ v => v) (delete a (e_balances c))); [|lia]. apply Hn.
    by intros b w [_ Hb]%lookup_delete_Some.
  - specialize (Hn (e_balances c) ltac:(done)). lia.
Qed.

Lemma sum_snoc {A} (f : A -> Z) l x : sumZ f (l ++ [x]) = sumZ f l + f x.
Proof. rewrite sumZ_app. unfold sumZ. cbn. lia. Qed.

(** Handing out what was minted always succeeds. *)
Lemma credit_minted owed v to c evs :
  0 <= v <= owed -> owing owed c evs ->
  exists c', credit to v c = Some c' /\ owing (owed - v) c' (evs ++ [Transfer 0 to v])
    /\ e_supply c' = e_supply c.
Proof.
  intros Hv Hb. pose proof (balance_le_supply owed c evs to ltac:(lia) Hb). destruct Hb as [Hs Hr Hp He].
  eexists. split; [apply credit_Some; split; [lia|reflexivity]|]. split; [|done]. split.
  - cbn [set_balance e_supply e_balances]. rewrite sum_set_balance. lia.
  - done.
  - intros a. rewrite balance_set. pose proof (Hp to). case_bool_decide; [lia|apply Hp].
  - intros a Ha. rewrite balance_set, !sum_snoc. cbn. rewrite (bool_decide_false (0 = a)) by done.
    case_bool_decide; [subst; specialize (He a Ha)|specialize (He a Ha)]; lia.
Qed.

Lemma mint_each_minted tos v c evs owed :
  0 <= v -> v * Z.of_nat (length tos) <= owed -> owing owed c evs ->
  exists c' es, mint_each tos v c = Some (c', es) /\ owing (owed - v * Z.of_nat (length tos)) c' (evs ++ es)
    /\ es = (fun to => Transfer 0 to v) <$> tos /\ e_supply c' = e_supply c.
Proof.
  intros Hv. revert c evs owed. induction tos as [|to tos IH]; intros c evs owed Ho Hb.
  - exists c, []. rewrite app_nil_r. cbn [length]. by rewrite Z.mul_0_r, Z.sub_0_r.
  - cbn [length] in Ho. destruct (credit_minted owed v to c evs ltac:(nia) Hb) as (c1 & H1 & Hb1 & E1).
    destruct (IH c1 _ (owed - v) ltac:(nia) Hb1) as (c2 & es & H2 & Hb2 & Hes & E2).
    exists c2, (Transfer 0 to v :: es). cbn [mint_each]. rewrite H1. cbn. rewrite H2. cbn. split_and!; [done| | |congruence].
    + rewrite <- app_assoc in Hb2. cbn [length]. by replace (owed - v * Z.of_nat (S (length tos))) with (owed - v - v * Z.of_nat (length tos)) by lia.
    + by rewrite Hes.
Qed.

Lemma owing_supply owed x c evs :
  0 <= x -> e_supply c + x <= U256_MAX -> owing owed c evs -> owing (owed + x) (set_supply (e_supply c + x) c) evs.
Proof.
  intros Hx Hm [Hs Hr Hp He]. split; [cbn; lia|cbn; lia|done|done].
Qed.

Lemma move_books from to v c evs c' es :
  from ≠ 0 -> 0 <= v -> books c evs -> move from to v c = Some (c', es) ->
  books c' (evs ++ es) /\ es = [Transfer from to v].
Proof.
  intros Hf Hv Hb H. unfold move in H. destruct (Z.leb_spec v (balance_of c from)); [|done].
  destruct (credit to v _) as [c1|] eqn:Hc; cbn in H; [|done]. injection H as <- <-. split; [|done].
  apply credit_Some in Hc as [_ ->]. destruct Hb as [Hs Hr Hp He].
  assert (Hbal : forall a, balance_of (set_balance to (balance_of (set_balance from (balance_of c from - v) c) to + v)
      (set_balance from (balance_of c from - v) c)) a
    = balance_of c a + (if bool_decide (to = a) then v else 0) - (if bool_decide (from = a) then v else 0)).
  { intros a. rewrite !balance_set. repeat case_bool_decide; subst; try done; lia. }
  split.
  - change (e_supply c = holdings (set_balance to (balance_of (set_balance from (balance_of c from - v) c) to + v)
      (set_balance from (balance_of c from - v) c)) + 0). rewrite !holdings_set.  unfold holdings in *. lia.
  - done.
  - intros a. rewrite Hbal. specialize (Hp a). repeat case_bool_decide; subst; lia.
  - intros a Ha. rewrite Hbal, !sum_snoc. cbn. specialize (He a Ha). repeat case_bool_decide; lia.
Qed.

Lemma set_allowance_books o s v c evs : books c evs -> books (set_allowance o s v c) evs.
Proof. intros [Hs Hr Hp He]. by split. Qed.

Lemma mint_books to v c evs c' es :
  0 <= v -> books c evs -> mint to v c = Some (c', es) -> books c' (evs ++ es).
Proof.
  intros Hv Hb H. unfold mint in H. destruct (checked _) as [s|] eqn:Hs; cbn in H; [|done]. apply checked_Some in Hs as [Hs ->].
  destruct (credit_minted v v to _ evs ltac:(lia) (owing_supply 0 v c evs Hv Hs Hb)) as (c1 & E & Hb1 & _).
  rewrite E in H. cbn in H. injection H as <- <-. by rewrite Z.sub_diag in Hb1.
Qed.

Lemma mint_batch_books tos v c evs c' es :
  0 <= v -> books c evs -> mint_batch tos v c = Some (c', es) -> books c' (evs ++ es).
Proof.
  intros Hv Hb H. unfold mint_batch in H. destruct (checked (v * _)) as [t|] eqn:Ht; cbn in H; [|done].
  apply checked_Some in Ht as [Ht ->]. destruct (checked _) as [s|] eqn:Hs; cbn in H; [|done]. apply checked_Some in Hs as [Hs ->].
  assert (Ho : owing (0 + v * Z.of_nat (length tos)) (set_supply (e_supply c + v * Z.of_nat (length tos)) c) evs)
    by (apply owing_supply; [nia|done..]). rewrite Z.add_0_l in Ho.
  destruct (mint_each_minted tos v _ evs _ Hv (Z.le_refl _) Ho)
    as (c1 & es1 & E & Hb1 & _). rewrite E in H. injection H as <- <-. by rewrite Z.sub_diag in Hb1.
Qed.

(** The contract keeps its books: whatever is called, the supply is the sum of the balances, and the
    balance of an account is what the [Transfer] events say it received less what they say it sent. *)
Theorem execute_books sender call c evs c' es :
  args_ok sender call -> books c evs -> execute sender call c = Some (c', es) -> books c' (evs ++ es).
Proof.
  intros [Hs Ha] Hb H. destruct call as [to v|tos v|sp v|to v|from to v]; cbn in *.
  - by eapply mint_books.
  - by eapply mint_batch_books.
  - injection H as <- <-. destruct Hb as [H1 H2 H3 H4]. split; [done..|]. intros a Ha'. rewrite !sum_snoc. cbn. rewrite !Z.add_0_r. by apply H4.
  - by eapply move_books.
  - destruct Ha as [Hf Ha]. unfold transfer_from in H. destruct (_ =? _); [by eapply move_books|].
    destruct (_ <=? _); [|done]. eapply move_books; [done..| |done]. by apply set_allowance_books.
Qed.

Lemma new_books name symbol decimals : books (erc20_new name symbol decimals) [].
Proof.
  split; cbn; [by rewrite map_sum_empty|unfold U256_MAX; lia|intros a|intros a _]; unfold balance_of; cbn; by rewrite lookup_empty.
Qed.

(** A mint reverts exactly when the supply would not fit. *)
Lemma mint_reverts to v c evs : 0 <= v -> books c evs -> mint to v c = None <-> U256_MAX < e_supply c + v.
Proof.
  intros Hv Hb. unfold mint. destruct (checked (e_supply c + v)) as [s|] eqn:Hs; cbn.
  - apply checked_Some in Hs as [Hs ->].
    destruct (credit_minted v v to _ evs ltac:(lia) (owing_supply 0 v c evs Hv Hs Hb)) as (c1 & E & _).
    rewrite E. cbn. split; [done|lia].
  - split; [|done]. intros _. unfold checked in Hs. destruct (Z.leb_spec (e_supply c + v) U256_MAX); [done|lia].
Qed.

(** What a mint changes. *)
Lemma credit_balance to v c c' a :
  credit to v c = Some c' -> balance_of c' a = balance_of c a + (if bool_decide (to = a) then v else 0).
Proof. intros [_ ->]%credit_Some. rewrite balance_set. case_bool_decide; subst; lia. Qed.

Definition minted_to (tos : list Z) (v a : Z) : Z := sumZ (fun to => if bool_decide (to = a) then v else 0) tos.

Lemma mint_each_balance tos v c c' es a :
  mint_each tos v c = Some (c', es) -> balance_of c' a = balance_of c a + minted_to tos v a.
Proof.
  revert c es. induction tos as [|to tos IH]; intros c es H; cbn [mint_each] in H; [simplify_eq; cbn; lia|].
  destruct (credit to v c) as [c1|] eqn:Hc; cbn in H; [|done]. destruct (mint_each tos v c1) as [[c2 es2]|] eqn:Hm; cbn in H; [|done].
  simplify_eq. rewrite (IH _ _ Hm), (credit_balance _ _ _ _ a Hc). unfold minted_to, sumZ. cbn. lia.
Qed.

(** Mints that fit succeed. *)
Lemma mint_batch_fits tos v c evs :
  0 <= v -> books c evs -> e_supply c + v * Z.of_nat (length tos) <= U256_MAX ->
  exists c' es, mint_batch tos v c = Some (c', es) /\ books c' (evs ++ es)
    /\ e_supply c' = e_supply c + v * Z.of_nat (length tos)
    /\ forall a, balance_of c' a = balance_of c a + minted_to tos v a.
Proof.
  intros Hv Hb Hfit. pose proof (bk_range _ _ _ Hb).
  assert (Ho : owing (0 + v * Z.of_nat (length tos)) (set_supply (e_supply c + v * Z.of_nat (length tos)) c) evs)
    by (apply owing_supply; [nia|done..]). rewrite Z.add_0_l in Ho.
  destruct (mint_each_minted tos v _ evs _ Hv (Z.le_refl _) Ho) as (c1 & es & E & Hb1 & _ & Hs). rewrite Z.sub_diag in Hb1.
  exists c1, es. unfold mint_batch. rewrite (proj2 (checked_Some _ _) (conj (ltac:(lia) : v * Z.of_nat (length tos) <= U256_MAX) eq_refl)).
  cbn [mbind option_bind]. rewrite (proj2 (checked_Some _ _) (conj Hfit eq_refl)). cbn [mbind option_bind].
  split_and!; [done|done|done|]. intros a. by rewrite (mint_each_balance _ _ _ _ _ a E).
Qed.

Lemma mint_fits to v c evs :
  0 <= v -> books c evs -> e_supply c + v <= U256_MAX ->
  exists c' es, mint to v c = Some (c', es) /\ books c' (evs ++ es) /\ e_supply c' = e_supply c + v
    /\ forall a, balance_of c' a = balance_of c a + minted_to [to] v a.
Proof.
  intros Hv Hb Hfit.
  destruct (credit_minted v v to _ evs ltac:(lia) (owing_supply 0 v c evs Hv Hfit Hb)) as (c1 & E & Hb1 & Hs). rewrite Z.sub_diag in Hb1.
  exists c1, [Transfer 0 to v]. unfold mint. rewrite (proj2 (checked_Some _ _) (conj Hfit eq_refl)). cbn [mbind option_bind].
  rewrite E. split_and!; [done|done|done|]. intros a. rewrite (credit_balance _ _ _ _ a E). unfold minted_to. cbn. by rewrite Z.add_0_r.
Qed.

Lemma mint_batch_nil v c : e_supply c <= U256_MAX -> mint_batch [] v c = Some (c, []).
Proof.
  intros H. unfold mint_batch. cbn [length]. rewrite Z.mul_0_r, (proj2 (checked_Some 0 0)) by (unfold U256_MAX; lia).
  cbn [mbind option_bind]. rewrite Z.add_0_r, (proj2 (checked_Some _ _) (conj H eq_refl)). by destruct c.
Qed.
