(* ===== verification/TestChain.v ===== *)
(** * TestChain: [src/testkit/chain.rs]

    The wrapper the end-to-end tests drive a local chain with. The node (Anvil) and the client library
    are parameters: [Anvil] names what they offer, [AnvilOk] the documented behaviour the tests rely on,
    for a node that mines every transaction in a block of its own. A provider fills in nonces and
    remembers the next one. [None] is a panic of the test. *)

From S2P Require Import Prelude Text Config Registry Cache Matcher Erc20.

Definition APPROVAL_TOPIC : Z := 0x8c5be1e5ebec7d5bd14f71427d1e84f3dd0314c0f7b2291e5b200ac8c7c3b925.

(** The log of an event: indexed arguments are topics, the value is data. *)
Definition event_log (token block bh tx : Z) (index : nat) (e : Event) : Log :=
  let '(topics, data) := match e with
                         | Transfer from to v => ([TRANSFER_TOPIC; into_word from; into_word to], v)
                         | Approval owner spender v => ([APPROVAL_TOPIC; into_word owner; into_word spender], v)
                         end in
  mkLog token topics (be_bytes 32 data) (Some bh) (Some block) None (Some tx) (Some (Z.of_nat index)) false.

Record Receipt := mkReceipt { rp_tx : Z; rp_block_number : option Z; rp_block_hash : option Z }.

Class Anvil := mkAnvil {
  Node : Type;
  an_spawn : Z -> option Z -> option Z -> option Node;       (* chain id, block time, port *)
  an_account : Node -> Z;                                    (* of [keys()[0]] *)
  an_endpoint : Node -> string;
  an_ws_endpoint : Node -> string;
  an_port : Node -> Z;
  an_nonce : Node -> Z -> Z;
  an_deploy : Z -> Z -> string -> string -> Z -> Node -> option (Z * Node);
  an_send : Z -> Z -> Z -> Call -> option Z -> Node -> option (Z * Node);
  an_affords : Call -> option Z -> bool;                     (* the gas, or the estimate, is enough *)
  an_receipt : Z -> Node -> option Receipt;
  an_balance : Z -> Z -> Node -> option Z;
  an_mine : Z -> Node -> option Node;
  an_head : Node -> option Z;
  an_reorg : Z -> Node -> option Node;
  an_token : Node -> Z -> option Erc20;                      (* the contract at the head *)
  an_logs : Node -> Z -> list Log;                           (* the logs of a block *)
}.

Section chain.
Context `{AN : Anvil}.

(** [src/testkit/chain.rs:19-25 TestChain] The provider is the nonce it has cached. *)
Record TestChain := mkTestChain {
  tc_chain_id : Z;
  tc_deployer : Z;
  tc_provider : option Z;
  tc_node : Node;
}.

(** [src/testkit/chain.rs:28-32 Mined] *)
Record Mined := mkMined { mi_tx_hash : Z; mi_block_number : Z; mi_block_hash : Z }.

(** [src/testkit/chain.rs:58-60 TestChain::connect] *)
Definition connect : option Z := None.

(** [src/testkit/chain.rs:41-56 TestChain::start_on] *)
Definition start_on (chain_id : Z) (block_time port : option Z) : option TestChain :=
  n ← an_spawn chain_id block_time port;
  Some (mkTestChain chain_id (an_account n) connect n).

(** [src/testkit/chain.rs:36-38 TestChain::start] *)
Definition chain_start (chain_id : Z) (block_time : option Z) : option TestChain := start_on chain_id block_time None.

(** [src/testkit/chain.rs:66-76 TestChain::http_url] *)
Definition chain_urls (tc : TestChain) : string * string * Z :=
  (an_endpoint (tc_node tc), an_ws_endpoint (tc_node tc), an_port (tc_node tc)).

(** The nonce the provider fills in. *)
Definition next_nonce (tc : TestChain) : Z := default (an_nonce (tc_node tc) (tc_deployer tc)) (tc_provider tc).

Definition sent (nonce : Z) (n : Node) (tc : TestChain) : TestChain :=
  mkTestChain (tc_chain_id tc) (tc_deployer tc) (Some (nonce + 1)) n.

(** [src/testkit/chain.rs:82-87 TestChain::deploy_token_with_decimals] *)
Definition deploy_token_with_decimals (symbol : string) (decimals : Z) (tc : TestChain) : option (Z * TestChain) :=
  let nonce := next_nonce tc in
  '(a, n) ← an_deploy (tc_deployer tc) nonce ("Mock " +:+ symbol) symbol decimals (tc_node tc);
  Some (a, sent nonce n tc).

(** [src/testkit/chain.rs:78-80 TestChain::deploy_token] *)
Definition deploy_token (symbol : string) (tc : TestChain) : option (Z * TestChain) := deploy_token_with_decimals symbol 6 tc.

(** A call that is sent, and one whose receipt is awaited. *)
Definition send_call (token : Z) (call : Call) (gas : option Z) (tc : TestChain) : option (Z * TestChain) :=
  let nonce := next_nonce tc in
  '(tx, n) ← an_send (tc_deployer tc) nonce token call gas (tc_node tc);
  Some (tx, sent nonce n tc).
Definition mined_call (token : Z) (call : Call) (gas : option Z) (tc : TestChain) : option (Mined * TestChain) :=
  '(tx, tc) ← send_call token call gas tc;
  r ← an_receipt tx (tc_node tc);
  number ← rp_block_number r;
  bh ← rp_block_hash r;
  Some (mkMined (rp_tx r) number bh, tc).

(** [src/testkit/chain.rs:90-104 TestChain::mint] *)
Definition chain_mint (token to amount : Z) : TestChain -> option (Mined * TestChain) := mined_call token (Mint to amount) None.

(** [src/testkit/chain.rs:107-122 TestChain::mint_batch] *)
Definition chain_mint_batch (token : Z) (to : list Z) (amount : Z) : TestChain -> option (Mined * TestChain) :=
  mined_call token (MintBatch to amount) (Some 25000000).

(** [src/testkit/chain.rs:126-128 TestChain::mint_nowait] *)
Definition mint_nowait (token to amount : Z) : TestChain -> option (Z * TestChain) :=
  send_call token (Mint to amount) (Some 120000).

(** [src/testkit/chain.rs:130-138 TestChain::mint_batch_nowait] *)
Definition mint_batch_nowait (token : Z) (to : list Z) (amount : Z) : TestChain -> option (Z * TestChain) :=
  send_call token (MintBatch to amount) (Some 25000000).

(** [src/testkit/chain.rs:141-155 TestChain::transfer] *)
Definition chain_transfer (token to amount : Z) : TestChain -> option (Mined * TestChain) :=
  mined_call token (TransferTo to amount) None.

(** [src/testkit/chain.rs:157-159 TestChain::balance_of] *)
Definition chain_balance_of (token owner : Z) (tc : TestChain) : option Z := an_balance token owner (tc_node tc).

(** [src/testkit/chain.rs:161-163 TestChain::mine] *)
Definition mine (blocks : Z) (tc : TestChain) : option TestChain :=
  n ← an_mine blocks (tc_node tc); Some (mkTestChain (tc_chain_id tc) (tc_deployer tc) (tc_provider tc) n).

(** [src/testkit/chain.rs:165-167 TestChain::head] *)
Definition chain_head (tc : TestChain) : option Z := an_head (tc_node tc).

(** [src/testkit/chain.rs:170-174 TestChain::reorg] *)
Definition reorg (depth : Z) (tc : TestChain) : option TestChain :=
  n ← an_reorg depth (tc_node tc); Some (mkTestChain (tc_chain_id tc) (tc_deployer tc) connect n).

(** ** What the tests rely on *)

Class AnvilOk : Prop := {
  send_ok (n : Node) sender token call gas c c' evs h :
    an_affords call gas = true -> an_token n token = Some c -> execute sender call c = Some (c', evs) -> an_head n = Some h ->
    exists tx bh n', an_send sender (an_nonce n sender) token call gas n = Some (tx, n')
      /\ an_head n' = Some (h + 1) /\ an_nonce n' sender = an_nonce n sender + 1
      /\ an_receipt tx n' = Some (mkReceipt tx (Some (h + 1)) (Some bh)) /\ an_token n' token = Some c'
      /\ an_logs n' (h + 1) = imap (event_log token (h + 1) bh tx) evs
      /\ (forall b, b ≠ h + 1 -> an_logs n' b = an_logs n b);
  mine_ok (n : Node) k h :
    0 <= k -> an_head n = Some h ->
    exists n', an_mine k n = Some n' /\ an_head n' = Some (h + k) /\ (forall a, an_nonce n' a = an_nonce n a)
      /\ (forall t, an_token n' t = an_token n t) /\ (forall b, an_logs n' b = an_logs n b);
  reorg_ok (n : Node) d h :
    0 <= d <= h -> an_head n = Some h ->
    exists n', an_reorg d n = Some n' /\ an_head n' = Some h
      /\ (forall b, an_logs n' b = if b <=? h - d then an_logs n b else []);
}.

(** The provider's nonce is the account's. *)
Definition in_step (tc : TestChain) : Prop := next_nonce tc = an_nonce (tc_node tc) (tc_deployer tc).

Lemma send_call_ok `{HA : !AnvilOk} tc token call gas c c' evs h :
  an_affords call gas = true -> in_step tc -> an_token (tc_node tc) token = Some c -> execute (tc_deployer tc) call c = Some (c', evs) -> chain_head tc = Some h ->
  exists tx bh tc', send_call token call gas tc = Some (tx, tc')
    /\ an_receipt tx (tc_node tc') = Some (mkReceipt tx (Some (h + 1)) (Some bh))
    /\ chain_head tc' = Some (h + 1) /\ in_step tc' /\ tc_deployer tc' = tc_deployer tc
    /\ an_token (tc_node tc') token = Some c'
    /\ an_logs (tc_node tc') (h + 1) = imap (event_log token (h + 1) bh tx) evs
    /\ (forall b, b ≠ h + 1 -> an_logs (tc_node tc') b = an_logs (tc_node tc) b).
Proof.
  intros Hgas Hst Ht He Hh. unfold send_call. rewrite Hst.
  destruct (send_ok (tc_node tc) (tc_deployer tc) token call gas c c' evs h Hgas Ht He Hh)
    as (tx & bh & n' & E & Hh' & Hn & Hr & Ht' & Hl & Hlo). rewrite E. cbn.
  exists tx, bh, (sent (an_nonce (tc_node tc) (tc_deployer tc)) n' tc). by split_and!.
Qed.

Lemma mined_call_ok `{HA : !AnvilOk} tc token call gas c c' evs h :
  an_affords call gas = true -> in_step tc -> an_token (tc_node tc) token = Some c -> execute (tc_deployer tc) call c = Some (c', evs) -> chain_head tc = Some h ->
  exists m tc', mined_call token call gas tc = Some (m, tc')
    /\ mi_block_number m = h + 1 /\ chain_head tc' = Some (h + 1)
    /\ an_logs (tc_node tc') (h + 1) = imap (event_log token (h + 1) (mi_block_hash m) (mi_tx_hash m)) evs
    /\ (forall b, b ≠ h + 1 -> an_logs (tc_node tc') b = an_logs (tc_node tc) b).
Proof.
  intros Hgas Hst Ht He Hh. destruct (send_call_ok tc token call gas c c' evs h Hgas Hst Ht He Hh)
    as (tx & bh & tc' & E & Hr & Hh' & _ & _ & _ & Hl & Hlo). unfold mined_call. rewrite E. cbn. rewrite Hr. cbn.
  eexists _, _. split; [reflexivity|]. by split_and!.
Qed.

(** A payment on the test chain and its disappearance. A mint to an address puts exactly one log
    into the next block; the matcher gives it to the watch of the address with the minted amount.
    After any further blocks, a reorganization that replaces the block of the mint leaves no log
    from there on and the head where it was, with the provider's nonce the account's again, so that the
    next payment is accepted. *)
Theorem payment_and_reorg `{HA : !AnvilOk} (name : string) (cfg : ChainConfig) (i : nat) (t : TokenSpec) (cache : WatchCache)
    (watch : WatchRef) (tc : TestChain) (c c' : Erc20) (evs : list Event) (to amount k h : Z) :
  chain_ok cfg -> ch_tokens (ChainSpec_new name cfg) !! i = Some t -> t_log_address t = t_address t ->
  cache_get cache (WatchKey_new (Z.of_nat i) to) = Some watch -> r_start_block watch <= h + 1 ->
  is_address to -> in_u256 amount -> base_units t amount ≠ 0 ->
  in_step tc -> chain_head tc = Some h -> 0 <= h -> 0 <= k ->
  an_affords (Mint to amount) None = true -> an_token (tc_node tc) (t_address t) = Some c ->
  Erc20.mint to amount c = Some (c', evs) ->
  exists m tc1 tc2 tc3, chain_mint (t_address t) to amount tc = Some (m, tc1)
    /\ (exists log, an_logs (tc_node tc1) (mi_block_number m) = [log]
        /\ match_log (ChainSpec_new name cfg) cache log
           = Ok (mkMatched watch (Z.of_nat i) 0 to (base_units t amount) (mi_block_number m) (mi_block_hash m) (mi_tx_hash m) 0 false))
    /\ mine k tc1 = Some tc2 /\ reorg (k + 1) tc2 = Some tc3
    /\ chain_head tc3 = Some (mi_block_number m + k)
    /\ (forall b, an_logs (tc_node tc3) b = if b <? mi_block_number m then an_logs (tc_node tc) b else [])
    /\ in_step tc3.
Proof.
  intros Hcfg Hi Hsame Hc Hb Hto Ham Hbu Hst Hh Hh0 Hk Hgas Htok Hm.
  destruct (mined_call_ok tc (t_address t) (Mint to amount) None c c' evs h Hgas Hst Htok Hm Hh)
    as (m & tc1 & E & Hn & Hh1 & Hl & Hlo).
  destruct (mine_ok (tc_node tc1) k (h + 1) Hk Hh1) as (n2 & E2 & Hh2 & _ & _ & Hl2).
  destruct (reorg_ok n2 (k + 1) (h + 1 + k) ltac:(lia) Hh2) as (n3 & E3 & Hh3 & Hl3).
  assert (Hev : evs = [Transfer 0 to amount]).
  { unfold Erc20.mint in Hm. destruct (checked _); cbn in Hm; [|done]. destruct (credit _ _ _); cbn in Hm; [|done]. by simplify_eq. }
  exists m, tc1, (mkTestChain (tc_chain_id tc1) (tc_deployer tc1) (tc_provider tc1) n2),
    (mkTestChain (tc_chain_id tc1) (tc_deployer tc1) connect n3). rewrite Hn. split_and!.
  - exact E.
  - eexists. rewrite Hl, Hev. split; [reflexivity|]. cbn. rewrite <- Hsame.
    by apply match_emitted.
  - unfold mine. by rewrite E2.
  - unfold reorg. cbn. by rewrite E3.
  - exact Hh3.
  - intros b. cbn [tc_node]. rewrite Hl3, Hl2. replace (h + 1 + k - (k + 1)) with h by lia.
    destruct (Z.leb_spec b h), (Z.ltb_spec b (h + 1)); try lia; [|done]. apply Hlo. lia.
  - done.
Qed.
End chain.
