(* ===== verification/Events.v ===== *)
(** * Events: [src/events.rs]

    Webhook event types and payloads. Identifiers, addresses, hashes, amounts and timestamps are
    integers; their JSON is in [Wire]. *)

From S2P Require Import Prelude.

(** [src/events.rs:8-25 EventType] *)
Inductive EventType :=
  PaymentPending | PaymentConfirmed | PaymentOrphaned | ThresholdReached | WatchExpired.

#[global] Instance EventType_eq_dec : EqDecision EventType.
Proof. solve_decision. Defined.

(** [src/events.rs:28-36 EventType::as_str] *)
Definition as_str (e : EventType) : string :=
  match e with
  | PaymentPending => "payment.pending"
  | PaymentConfirmed => "payment.confirmed"
  | PaymentOrphaned => "payment.orphaned"
  | ThresholdReached => "threshold.reached"
  | WatchExpired => "watch.expired"
  end.

(** [migrations/0001_init.sql:22-23 watches.status] The values the CHECK constraint admits. *)
Inductive WatchStatus := Active | Completed | Cancelled | Expired.

#[global] Instance WatchStatus_eq_dec : EqDecision WatchStatus.
Proof. solve_decision. Defined.

(** [migrations/0001_init.sql:53-55 transfers.status] *)
Inductive TransferStatus := Pending | Confirmed | Orphaned | Ignored.

#[global] Instance TransferStatus_eq_dec : EqDecision TransferStatus.
Proof. solve_decision. Defined.

(** [src/events.rs:40-53 WatchView] *)
Record WatchView := mkWatchView {
  wv_id : Z;
  wv_chain : string;
  wv_chain_id : Z;
  wv_token : string;
  wv_token_address : Z;
  wv_payment_address : Z;
  wv_balance_threshold : Z;
  wv_confirmed_amount : Z;
  wv_status : WatchStatus;
}.

(** [src/events.rs:56-65 TransferView] *)
Record TransferView := mkTransferView {
  tv_tx_hash : Z;
  tv_log_index : Z;
  tv_block_number : Z;
  tv_block_hash : Z;
  tv_from : Z;
  tv_amount : Z;
  tv_status : TransferStatus;
}.

(** [src/events.rs:68-79 EventPayload] *)
Record EventPayload := mkPayload {
  p_id : Z;
  p_event_type : EventType;
  p_created_at : Z;
  p_sequence : Z;
  p_watch : WatchView;
  p_transfer : option TransferView;
}.

(** Distinct event types have distinct names on the wire. *)
Lemma as_str_inj e1 e2 : as_str e1 = as_str e2 -> e1 = e2.
Proof. by destruct e1, e2. Qed.
