(* ===== verification/Wire.v ===== *)
(** * Wire: the JSON of [src/events.rs]

    The codecs [derive(Serialize, Deserialize)] gives the events, and [u256_dec]. How a UUID, an
    address, a hash, a [U256] and a time are written as text is their libraries' affair: [Scalars]
    names the functions, [ScalarsOk] that reading undoes writing and that a UUID is a path segment. A struct is decoded from an object;
    the array of its fields in order, which serde's visitor also accepts, is not modelled, nor are
    statuses other than those the schema admits. *)

From S2P Require Import Prelude Text Json Events.
From Stdlib Require Import Ascii.

(** The text of the libraries' types ([Display], [FromStr] or their serde implementations). *)
Class Scalars := mkScalars {
  uuid_text : Z -> string;      uuid_parse : string -> option Z;
  address_text : Z -> string;   address_parse : string -> option Z;
  b256_text : Z -> string;      b256_parse : string -> option Z;
  u256_text : Z -> string;      u256_parse : string -> option Z;   (* [from_str_radix(_, 10)] *)
  time_text : Z -> string;      time_parse : string -> option Z;
}.

Definition uuid_ok (n : Z) : Prop := 0 <= n < 2 ^ 128.
Definition address_ok (n : Z) : Prop := 0 <= n < 2 ^ 160.
Definition b256_ok (n : Z) : Prop := 0 <= n < 2 ^ 256.
Definition u256_ok (n : Z) : Prop := 0 <= n < 2 ^ 256.
Definition time_ok (n : Z) : Prop := 0 <= n < 2 ^ 43.

Class ScalarsOk (S : Scalars) : Prop := {
  uuid_back n : uuid_ok n -> uuid_parse (uuid_text n) = Some n;
  address_back n : address_ok n -> address_parse (address_text n) = Some n;
  b256_back n : b256_ok n -> b256_parse (b256_text n) = Some n;
  u256_back n : u256_ok n -> u256_parse (u256_text n) = Some n;
  time_back n : time_ok n -> time_parse (time_text n) = Some n;
  uuid_segment n : uuid_ok n -> uuid_text n ≠ EmptyString /\ all_chars (fun c => negb (Ascii.eqb c "/"%char)) (uuid_text n) = true;
}.

Section wire.
Context `{HS : Scalars}.

Definition uuid : Codec Z := text_codec uuid_text uuid_parse uuid_ok.
Definition address : Codec Z := text_codec address_text address_parse address_ok.
Definition b256 : Codec Z := text_codec b256_text b256_parse b256_ok.
Definition datetime : Codec Z := text_codec time_text time_parse time_ok.

(** [src/events.rs:81-93 u256_dec] A decimal string: [collect_str] writes the [Display] text. *)
Definition u256_dec : Codec Z :=
  mkCodec (fun v => Str (u256_text v)) (fun d => s ← value_as_str d; u256_parse s) u256_ok.

(** The values of the status columns. *)
Definition status_name (s : WatchStatus) : string :=
  match s with Active => "active" | Completed => "completed" | Cancelled => "cancelled" | Expired => "expired" end.
Definition transfer_status_name (s : TransferStatus) : string :=
  match s with Pending => "pending" | Confirmed => "confirmed" | Orphaned => "orphaned" | Ignored => "ignored" end.
Definition by_name {A} (name : A -> string) (all : list A) (s : string) : option A :=
  find (fun a => String.eqb (name a) s) all.
Definition status : Codec WatchStatus :=
  text_codec status_name (by_name status_name [Active; Completed; Cancelled; Expired]) (fun _ => True).
Definition transfer_status : Codec TransferStatus :=
  text_codec transfer_status_name (by_name transfer_status_name [Pending; Confirmed; Orphaned; Ignored]) (fun _ => True).

(** [src/events.rs:8-25 EventType (serde(rename))] *)
Definition event_type_tag (e : EventType) : string :=
  match e with
  | PaymentPending => "payment.pending"
  | PaymentConfirmed => "payment.confirmed"
  | PaymentOrphaned => "payment.orphaned"
  | ThresholdReached => "threshold.reached"
  | WatchExpired => "watch.expired"
  end.
Definition event_type : Codec EventType :=
  text_codec event_type_tag
    (by_name event_type_tag [PaymentPending; PaymentConfirmed; PaymentOrphaned; ThresholdReached; WatchExpired])
    (fun _ => True).

(** [src/events.rs:39-53 WatchView (Serialize)] *)
Definition watch_view_fields (w : WatchView) : list (string * Value) :=
  [("id"%string, enc uuid (wv_id w)); ("chain"%string, enc string_codec (wv_chain w));
   ("chain_id"%string, enc u64_codec (wv_chain_id w)); ("token"%string, enc string_codec (wv_token w));
   ("token_address"%string, enc address (wv_token_address w));
   ("payment_address"%string, enc address (wv_payment_address w));
   ("balance_threshold"%string, enc u256_dec (wv_balance_threshold w));
   ("confirmed_amount"%string, enc u256_dec (wv_confirmed_amount w));
   ("status"%string, enc status (wv_status w))].

(** [src/events.rs:39-53 WatchView (Deserialize)] *)
Definition watch_view_of (v : Value) : option WatchView :=
  m ← as_object v;
  id ← required m ["id"%string] uuid;
  chain ← required m ["chain"%string] string_codec;
  chain_id ← required m ["chain_id"%string] u64_codec;
  token ← required m ["token"%string] string_codec;
  token_address ← required m ["token_address"%string] address;
  payment_address ← required m ["payment_address"%string] address;
  balance_threshold ← required m ["balance_threshold"%string] u256_dec;
  confirmed_amount ← required m ["confirmed_amount"%string] u256_dec;
  st ← required m ["status"%string] status;
  Some (mkWatchView id chain chain_id token token_address payment_address balance_threshold confirmed_amount st).

Definition watch_view_fits (w : WatchView) : Prop :=
  uuid_ok (wv_id w) /\ in_u64 (wv_chain_id w) /\ address_ok (wv_token_address w) /\ address_ok (wv_payment_address w)
  /\ u256_ok (wv_balance_threshold w) /\ u256_ok (wv_confirmed_amount w).
Definition watch_view_codec : Codec WatchView := mkCodec (Object ∘ watch_view_fields) watch_view_of watch_view_fits.

(** [src/events.rs:55-65 TransferView (Serialize)] *)
Definition transfer_view_fields (t : TransferView) : list (string * Value) :=
  [("tx_hash"%string, enc b256 (tv_tx_hash t)); ("log_index"%string, enc u64_codec (tv_log_index t));
   ("block_number"%string, enc u64_codec (tv_block_number t)); ("block_hash"%string, enc b256 (tv_block_hash t));
   ("from"%string, enc address (tv_from t)); ("amount"%string, enc u256_dec (tv_amount t));
   ("status"%string, enc transfer_status (tv_status t))].

(** [src/events.rs:55-65 TransferView (Deserialize)] *)
Definition transfer_view_of (v : Value) : option TransferView :=
  m ← as_object v;
  tx_hash ← required m ["tx_hash"%string] b256;
  log_index ← required m ["log_index"%string] u64_codec;
  block_number ← required m ["block_number"%string] u64_codec;
  block_hash ← required m ["block_hash"%string] b256;
  from ← required m ["from"%string] address;
  amount ← required m ["amount"%string] u256_dec;
  st ← required m ["status"%string] transfer_status;
  Some (mkTransferView tx_hash log_index block_number block_hash from amount st).

Definition transfer_view_fits (t : TransferView) : Prop :=
  b256_ok (tv_tx_hash t) /\ in_u64 (tv_log_index t) /\ in_u64 (tv_block_number t) /\ b256_ok (tv_block_hash t)
  /\ address_ok (tv_from t) /\ u256_ok (tv_amount t).
Definition transfer_view_codec : Codec TransferView :=
  mkCodec (Object ∘ transfer_view_fields) transfer_view_of transfer_view_fits.

(** [src/events.rs:67-79 EventPayload (Serialize)] [transfer] is skipped when there is none. *)
Definition payload_fields (p : EventPayload) : list (string * Value) :=
  [("id"%string, enc uuid (p_id p)); ("type"%string, enc event_type (p_event_type p));
   ("created_at"%string, enc datetime (p_created_at p)); ("sequence"%string, enc i64_codec (p_sequence p));
   ("watch"%string, enc watch_view_codec (p_watch p))]
  ++ match p_transfer p with
     | Some t => [("transfer"%string, enc transfer_view_codec t)]
     | None => []
     end.

(** [src/events.rs:67-79 EventPayload (Deserialize)] *)
Definition payload_of (v : Value) : option EventPayload :=
  m ← as_object v;
  id ← required m ["id"%string] uuid;
  ty ← required m ["type"%string] event_type;
  created_at ← required m ["created_at"%string] datetime;
  sequence ← required m ["sequence"%string] i64_codec;
  watch ← required m ["watch"%string] watch_view_codec;
  transfer ← optional m ["transfer"%string] transfer_view_codec;
  Some (mkPayload id ty created_at sequence watch transfer).

Definition payload_fits (p : EventPayload) : Prop :=
  uuid_ok (p_id p) /\ time_ok (p_created_at p) /\ in_i64 (p_sequence p) /\ watch_view_fits (p_watch p)
  /\ match p_transfer p with Some t => transfer_view_fits t | None => True end.
Definition payload_codec : Codec EventPayload := mkCodec (Object ∘ payload_fields) payload_of payload_fits.

(** An event holds no floats. *)
Lemma payload_exact p : exact (enc payload_codec p).
Proof.
  destruct p as [id ty at_ sq w [t|]]; repeat (constructor; cbn).
Qed.

(** ** Decoding undoes encoding *)

Context `{HSO : !ScalarsOk HS}.

#[global] Instance uuid_codec_ok : CodecOk uuid := text_codec_ok _ _ _ uuid_back.
#[global] Instance address_codec_ok : CodecOk address := text_codec_ok _ _ _ address_back.
#[global] Instance b256_codec_ok : CodecOk b256 := text_codec_ok _ _ _ b256_back.
#[global] Instance datetime_codec_ok : CodecOk datetime := text_codec_ok _ _ _ time_back.
#[global] Instance u256_dec_ok : CodecOk u256_dec := text_codec_ok _ _ _ u256_back.

#[global] Instance status_codec_ok : CodecOk status.
Proof. apply text_codec_ok. by intros [] _. Qed.

#[global] Instance transfer_status_codec_ok : CodecOk transfer_status.
Proof. apply text_codec_ok. by intros [] _. Qed.

#[global] Instance event_type_codec_ok : CodecOk event_type.
Proof. apply text_codec_ok. by intros [] _. Qed.

#[global] Instance watch_view_codec_ok : CodecOk watch_view_codec.
Proof.
  intros w v (H1 & H2 & H3 & H4 & H5 & H6) (m & -> & Hs)%stored_object_inv. cbn [dec watch_view_codec]. unfold watch_view_of.
  cbn [as_object mbind option_bind]. decode_fields Hs. by destruct w.
Qed.

#[global] Instance transfer_view_codec_ok : CodecOk transfer_view_codec.
Proof.
  intros t v (H1 & H2 & H3 & H4 & H5 & H6) (m & -> & Hs)%stored_object_inv. cbn [dec transfer_view_codec]. unfold transfer_view_of.
  cbn [as_object mbind option_bind]. decode_fields Hs. by destruct t.
Qed.

#[global] Instance payload_codec_ok : CodecOk payload_codec.
Proof.
  intros p v (H1 & H2 & H3 & H4 & H5) (m & -> & Hs)%stored_object_inv. cbn [dec payload_codec]. unfold payload_of.
  cbn [as_object mbind option_bind].
  destruct p as [id ty at_ sq w [t|]]; cbn [p_id p_created_at p_sequence p_watch p_transfer] in *; decode_fields Hs.
  - by rewrite (optional_stored transfer_view_codec _ _ _ (Some t) Hs); [|split|left].
  - by rewrite (optional_stored transfer_view_codec _ _ _ None Hs); [| |left].
Qed.

Lemma event_type_tag_as_str e : event_type_tag e = as_str e.
Proof. by destruct e. Qed.
End wire.
