(* ===== verification/Toml.v ===== *)
(** * Toml: configuration documents

    A TOML document as its lines: table headers, headers of arrays of tables and assignments. [document]
    gives the value a document stands for, [merge] is figment's [Figment::merge] (a later value wins,
    tables are merged key by key, an array replaces an array), [config_value] decodes the fields of
    [Config] and its parts as [derive(Deserialize)] does. Together they are a concrete [extract] for
    [Config::load] over files of lines. Tables keep their keys in order, as the [BTreeMap]s of figment
    and of [Config] do. A key assigned twice and unknown value syntax, which TOML rejects, are not
    written in lines. *)

From S2P Require Import Prelude Text Json Config Load Events Wire.

Inductive Line :=
  | Table (path : list string)
  | ArrayTable (path : list string)
  | Assign (key : string) (v : Value).

Definition Document : Type := list Line.

(** ** Tables *)

Definition fields (v : Value) : list (string * Value) := match v with Object m => m | _ => [] end.

Definition str_ltb (s t : string) : bool := match String.compare s t with Lt => true | _ => false end.

(** Insertion in key order; the value at an existing key is replaced. *)
Fixpoint set_key (k : string) (v : Value) (m : list (string * Value)) : list (string * Value) :=
  match m with
  | [] => [(k, v)]
  | (k', v') :: m =>
      if String.eqb k k' then (k, v) :: m
      else if str_ltb k k' then (k, v) :: (k', v') :: m
      else (k', v') :: set_key k v m
  end.

Definition get_key (k : string) (m : list (string * Value)) : option Value := value_get k (Object m).

(** A path through an array of tables goes through its last table. *)
Definition enter (f : Value -> Value) (v : Value) : Value :=
  match v with
  | Array l => match last l with Some x => Array (take (length l - 1) l ++ [f x]) | None => v end
  | _ => f v
  end.

Fixpoint update (path : list string) (f : Value -> Value) (v : Value) : Value :=
  match path with
  | [] => f v
  | k :: path =>
      enter (fun t => Object (set_key k (update path f (default (Object []) (get_key k (fields t)))) (fields t))) v
  end.

Definition push_table (v : Value) : Value :=
  match v with Array l => Array (l ++ [Object []]) | _ => Array [Object []] end.

(** One line: the table assignments go to, and the document so far. *)
Definition line_step (acc : list string * Value) (l : Line) : list string * Value :=
  match l with
  | Table path => (path, update path id acc.2)
  | ArrayTable path => (path, update path push_table acc.2)
  | Assign k v => (acc.1, update acc.1 (enter (fun t => Object (set_key k v (fields t)))) acc.2)
  end.

Definition document (d : Document) : Value := (foldl line_step ([], Object []) d).2.

(** ** Merging *)

Fixpoint merge (a b : Value) {struct b} : Value :=
  match b with
  | Object n =>
      match a with
      | Object m =>
          Object ((fix go (n m : list (string * Value)) {struct n} : list (string * Value) :=
                     match n with
                     | [] => m
                     | (k, v) :: n => go n (set_key k (match get_key k m with Some u => merge u v | None => v end) m)
                     end) n m)
      | _ => b
      end
  | _ => b
  end.

Definition merged (ds : list Document) : Value := foldl (fun v d => merge v (document d)) (Object []) ds.

(** ** Decoding *)

Definition uint_codec (w : Z) : Codec Z :=
  mkCodec Number (fun v => match v with Number n => if bool_decide (in_width w n) then Some n else None | _ => None end) (in_width w).
Definition bool_codec : Codec bool := mkCodec Bool (fun v => match v with Bool b => Some b | _ => None end) (fun _ => True).

Section decode.
Context `{HS : Scalars}.

(** [src/config.rs:97-104 IngestMode (serde)] *)
Definition mode_name (m : IngestMode) : string :=
  match m with Auto => "auto" | WsTargeted => "ws_targeted" | WsFirehose => "ws_firehose" | PollMode => "poll" end.
Definition mode_codec : Codec IngestMode :=
  text_codec mode_name (by_name mode_name [Auto; WsTargeted; WsFirehose; PollMode]) (fun _ => True).

(** [src/config.rs:195-213 TokenConfig (Deserialize)] *)
Definition token_value (v : Value) : option RawToken :=
  m ← as_object v;
  symbol ← required m ["symbol"]%string string_codec;
  addr ← required m ["address"]%string address;
  decimals ← required m ["decimals"]%string (uint_codec 8);
  issuance ← optional m ["issuance"]%string string_codec;
  log_address ← optional m ["transfer_log_address"]%string address;
  log_decimals ← optional m ["transfer_log_decimals"]%string (uint_codec 8);
  Some (mkRawToken symbol addr decimals issuance log_address log_decimals).

Definition tokens_value (v : Value) : option (list RawToken) :=
  match v with Array l => mapM token_value l | _ => None end.

(** A field decoded by a function, which may be missing. *)
Definition missing_ok {A} (m : list (string * Value)) (name : string) (read : Value -> option A) : option (option A) :=
  match get_key name m with Some v => Some <$> read v | None => Some None end.

(** [src/config.rs:106-150 ChainConfig (Deserialize)] *)
Definition chain_value (v : Value) : option RawChain :=
  m ← as_object v;
  enabled ← optional m ["enabled"]%string bool_codec;
  chain_id ← required m ["chain_id"]%string (uint_codec 64);
  http_url ← optional m ["http_url"]%string string_codec;
  ws_url ← optional m ["ws_url"]%string string_codec;
  ingest_mode ← required m ["ingest_mode"]%string mode_codec;
  large_scale_mode ← required m ["large_scale_mode"]%string mode_codec;
  bucket ← optional m ["ws_bucket_size"]%string (uint_codec 64);
  targeted_max ← optional m ["ws_targeted_max"]%string (uint_codec 64);
  coalesce ← optional m ["ws_coalesce_ms"]%string (uint_codec 64);
  fallback ← optional m ["ws_down_fallback_ms"]%string (uint_codec 64);
  channel ← optional m ["ws_channel_size"]%string (uint_codec 64);
  ws_stall ← optional m ["ws_stall_ms"]%string (uint_codec 64);
  poll ← required m ["poll_interval_ms"]%string (uint_codec 64);
  safety ← required m ["safety_sweep_interval_ms"]%string (uint_codec 64);
  idle ← required m ["idle_probe_interval_ms"]%string (uint_codec 64);
  confirmations ← required m ["confirmations"]%string (uint_codec 64);
  block_time ← required m ["expected_block_time_ms"]%string (uint_codec 64);
  range ← required m ["max_log_range"]%string (uint_codec 64);
  stall ← required m ["head_stall_threshold_ms"]%string (uint_codec 64);
  rpc_timeout ← optional m ["rpc_timeout_ms"]%string (uint_codec 64);
  rpc_rps ← optional m ["rpc_max_rps"]%string (uint_codec 32);
  rpc_retries ← optional m ["rpc_max_retries"]%string (uint_codec 64);
  credits ← required m ["credits_per_call"]%string (uint_codec 32);
  tokens ← missing_ok m "tokens" tokens_value;
  Some (mkRawChain enabled chain_id http_url ws_url ingest_mode large_scale_mode bucket targeted_max coalesce fallback
          channel ws_stall poll safety idle confirmations block_time range stall rpc_timeout rpc_rps rpc_retries credits
          tokens).

(** [src/config.rs:58-80 WebhookConfig (Deserialize)] *)
Definition webhook_value (v : Value) : option RawWebhook :=
  m ← as_object v;
  secret ← optional m ["secret"]%string string_codec;
  connect ← required m ["connect_timeout_ms"]%string (uint_codec 64);
  request ← required m ["request_timeout_ms"]%string (uint_codec 64);
  concurrency ← required m ["max_concurrency"]%string (uint_codec 64);
  per_host ← optional m ["max_per_host"]%string (uint_codec 64);
  base ← required m ["retry_base_ms"]%string (uint_codec 64);
  cap ← required m ["retry_cap_ms"]%string (uint_codec 64);
  max_age ← required m ["max_age_secs"]%string (uint_codec 64);
  failures ← required m ["host_failure_threshold"]%string (uint_codec 32);
  park ← required m ["host_park_ms"]%string (uint_codec 64);
  insecure ← required m ["allow_insecure_targets"]%string bool_codec;
  allowlist ← optional m ["host_allowlist"]%string (list_codec string_codec);
  Some (mkRawWebhook secret connect request concurrency per_host base cap max_age failures park insecure allowlist).

(** [src/config.rs:20-56 Config (Deserialize)] *)
Definition config_value (v : Value) : option RawConfig :=
  m ← as_object v;
  profile ← optional m ["profile"]%string string_codec;
  server ← get_key "server" m ≫= as_object;
  bind ← required server ["bind"]%string string_codec;
  port ← required server ["port"]%string (uint_codec 16);
  database ← get_key "database" m ≫= as_object;
  url ← optional database ["url"]%string string_codec;
  connections ← required database ["max_connections"]%string (uint_codec 32);
  watch ← get_key "watch" m ≫= as_object;
  ttl ← required watch ["default_ttl_secs"]%string (uint_codec 64);
  backfill ← optional watch ["max_backfill_secs"]%string (uint_codec 64);
  webhook ← get_key "webhook" m ≫= webhook_value;
  quicknode ← missing_ok m "quicknode" (fun v => q ← as_object v; optional q ["api_key"]%string string_codec);
  chains ← get_key "chains" m ≫= as_object;
  chains ← mapM (fun kc => c ← chain_value kc.2; Some (kc.1, c)) chains;
  Some (mkRawConfig profile bind port url connections ttl backfill webhook (mjoin quicknode) chains).

(** [Figment::extract] over documents, and over layers: [file] holds the lines of the files that exist,
    [env] the keys the process environment sets. *)
Definition extract_docs (ds : list Document) : result string RawConfig :=
  ok_or "cannot decode the configuration"%string (config_value (merged ds)).
Definition layer_docs (file : string -> option Document) (env : Document) (l : Layer) : list Document :=
  match l with
  | TomlFile p => from_option (fun d => [d]) [] (file p)
  | EnvPrefixed _ _ => [env]
  | TomlString _ => []
  end.
Definition extract_layers (file : string -> option Document) (env : Document) (ls : list Layer) : result string RawConfig :=
  extract_docs (ls ≫= layer_docs file env).
End decode.

(** ** Lemmas *)

Lemma str_eqb_spec (a b : string) : reflect (a = b) (String.eqb a b).
Proof. apply String.eqb_spec. Qed.

Lemma get_key_cons k k' v m : get_key k ((k', v) :: m) = if String.eqb k' k then Some v else get_key k m.
Proof. unfold get_key. cbn. by destruct (String.eqb k' k). Qed.

(** A table after an insertion. *)
Lemma get_set_key k k' v m : get_key k' (set_key k v m) = if String.eqb k k' then Some v else get_key k' m.
Proof.
  induction m as [|[k1 v1] m IH]; cbn [set_key]; [by rewrite get_key_cons|].
  destruct (str_eqb_spec k k1) as [->|Hne].
  - rewrite !get_key_cons. by destruct (str_eqb_spec k1 k').
  - destruct (str_ltb k k1); rewrite !get_key_cons; [done|]. rewrite IH.
    destruct (str_eqb_spec k1 k') as [->|], (str_eqb_spec k k') as [->|]; try done.
Qed.

(** [Figment::merge]: the key of a later layer wins, tables are merged. *)
Lemma merge_lookup m n k :
  NoDup n.*1 ->
  get_key k (fields (merge (Object m) (Object n)))
  = match get_key k n with
    | Some v => Some (match get_key k m with Some u => merge u v | None => v end)
    | None => get_key k m
    end.
Proof.
  intros Hnd. cbn [merge fields]. revert m. induction n as [|[k1 v1] n IH]; intros m; [done|].
  apply NoDup_cons in Hnd as [Hk1 Hnd]. rewrite IH, get_key_cons, get_set_key by done.
  destruct (str_eqb_spec k1 k) as [->|]; [|done].
  destruct (get_key k n) as [v|] eqn:Hv; [|done]. exfalso. apply Hk1.
  unfold get_key in Hv. cbn in Hv. destruct (find _ n) as [[k2 v2]|] eqn:Hf; [|done].
  apply find_some in Hf as [Hin E]. cbn in E. apply String.eqb_eq in E as ->. apply list_elem_of_fmap.
  exists (k, v2). split; [done|by apply list_elem_of_In].
Qed.
