(* ===== verification/Profiles.v ===== *)
(** * Profiles: the configuration files of the repository

    [config/default.toml] and [config/local.toml], line by line without their comments, and what
    [Config::load] makes of them. Addresses are read as hexadecimal. *)

From S2P Require Import Prelude Text Json Config Registry Load Events Wire Toml.
From Stdlib Require Import Ascii.

(** ** Hexadecimal addresses *)

Definition hex_value (c : ascii) : option Z :=
  let n := Z.of_nat (nat_of_ascii c) in
  if (48 <=? n) && (n <=? 57) then Some (n - 48)
  else if (97 <=? n) && (n <=? 102) then Some (n - 87)
  else if (65 <=? n) && (n <=? 70) then Some (n - 55) else None.
Fixpoint hex_digits (acc : Z) (s : string) : option Z :=
  match s with
  | EmptyString => Some acc
  | String c s => d ← hex_value c; hex_digits (16 * acc + d) s
  end.
Definition hex_parse (digits : nat) (s : string) : option Z :=
  match s with
  | String "0" (String "x" s) => if (String.length s =? digits)%nat then hex_digits 0 s else None
  | _ => None
  end.
Fixpoint hex_show (digits : nat) (n : Z) (acc : string) : string :=
  match digits with
  | O => acc
  | S k => let d := n `mod` 16 in
      hex_show k (n `div` 16) (String (ascii_of_nat (Z.to_nat (if d <? 10 then 48 + d else 87 + d))) acc)
  end.
Definition hex_text (digits : nat) (n : Z) : string := ("0x" +:+ hex_show digits n EmptyString)%string.

Definition hex_scalars : Scalars :=
  mkScalars (hex_text 32) (hex_parse 32) (hex_text 40) (hex_parse 40) (hex_text 64) (hex_parse 64)
    (hex_text 64) (hex_parse 64) (hex_text 16) (hex_parse 16).
#[local] Existing Instance hex_scalars.

(** ** The files *)

(** A token of a chain, as the files, the test kit and the development network write it. *)
Definition token_lines (chain symbol : string) (address : Value) (decimals : Z) (issuance : string) : Document :=
  [ArrayTable ["chains"; chain; "tokens"]; Assign "symbol" (Str symbol); Assign "address" address;
   Assign "decimals" (Number decimals); Assign "issuance" (Str issuance)]%string.

(** [config/default.toml:6-645 default.toml] The mainnet profile. *)
Definition default_toml : Document :=
  ([Table ["server"]%string; Assign "bind" (Str "::"); Assign "port" (Number 8080);
   Table ["database"]%string; Assign "max_connections" (Number 16);
   Table ["watch"]%string; Assign "default_ttl_secs" (Number 604800); Assign "max_backfill_secs" (Number 3600);
   Table ["webhook"]%string; Assign "connect_timeout_ms" (Number 3000); Assign "request_timeout_ms" (Number 10000);
   Assign "max_concurrency" (Number 64); Assign "max_per_host" (Number 8); Assign "retry_base_ms" (Number 1000);
   Assign "retry_cap_ms" (Number 3600000); Assign "max_age_secs" (Number 86400);
   Assign "host_failure_threshold" (Number 5); Assign "host_park_ms" (Number 30000);
   Assign "allow_insecure_targets" (Bool false); Assign "host_allowlist" (Array []);
   Table ["chains"; "monad"]%string; Assign "enabled" (Bool true); Assign "chain_id" (Number 143);
   Assign "ingest_mode" (Str "auto"); Assign "large_scale_mode" (Str "poll"); Assign "confirmations" (Number 3);
   Assign "expected_block_time_ms" (Number 300); Assign "max_log_range" (Number 100);
   Assign "poll_interval_ms" (Number 3000); Assign "safety_sweep_interval_ms" (Number 30000);
   Assign "idle_probe_interval_ms" (Number 60000); Assign "head_stall_threshold_ms" (Number 15000);
   Assign "credits_per_call" (Number 30)]
  ++ token_lines "monad" "USDC" (Str "0x754704Bc059F8C67012fEd69BC8A327a5aafb603") 6 "native"
  ++ token_lines "monad" "USDT" (Str "0xe7cd86e13AC4309349F30B3435a9d337750fC82D") 6 "usdt0"
  ++ token_lines "monad" "AUSD" (Str "0x00000000eFE302BEAA2b3e6e1b18d08D69a9012a") 6 "native"
  ++ [Table ["chains"; "arbitrum"]%string; Assign "enabled" (Bool true); Assign "chain_id" (Number 42161);
   Assign "ingest_mode" (Str "auto"); Assign "large_scale_mode" (Str "poll"); Assign "confirmations" (Number 12);
   Assign "expected_block_time_ms" (Number 250); Assign "max_log_range" (Number 2000);
   Assign "poll_interval_ms" (Number 2000); Assign "safety_sweep_interval_ms" (Number 30000);
   Assign "idle_probe_interval_ms" (Number 60000); Assign "head_stall_threshold_ms" (Number 15000);
   Assign "credits_per_call" (Number 20)]
  ++ token_lines "arbitrum" "USDC" (Str "0xaf88d065e77c8cC2239327C5EDb3A432268e5831") 6 "native"
  ++ token_lines "arbitrum" "USDT" (Str "0xFd086bC7CD5C481DCC9C85ebE478A1C0b69FCbb9") 6 "usdt0"
  ++ [Table ["chains"; "base"]%string; Assign "enabled" (Bool true); Assign "chain_id" (Number 8453);
   Assign "ingest_mode" (Str "auto"); Assign "large_scale_mode" (Str "poll"); Assign "confirmations" (Number 3);
   Assign "expected_block_time_ms" (Number 2000); Assign "max_log_range" (Number 2000);
   Assign "poll_interval_ms" (Number 2000); Assign "safety_sweep_interval_ms" (Number 30000);
   Assign "idle_probe_interval_ms" (Number 60000); Assign "head_stall_threshold_ms" (Number 30000);
   Assign "credits_per_call" (Number 20)]
  ++ token_lines "base" "USDC" (Str "0x833589fCD6eDb6E08f4c7C32D4f71b54bdA02913") 6 "native"
  ++ [Table ["chains"; "arc"]%string; Assign "enabled" (Bool false); Assign "chain_id" (Number 5042);
   Assign "ingest_mode" (Str "auto"); Assign "large_scale_mode" (Str "poll"); Assign "confirmations" (Number 2);
   Assign "expected_block_time_ms" (Number 500); Assign "max_log_range" (Number 1000);
   Assign "poll_interval_ms" (Number 2000); Assign "safety_sweep_interval_ms" (Number 30000);
   Assign "idle_probe_interval_ms" (Number 60000); Assign "head_stall_threshold_ms" (Number 15000);
   Assign "credits_per_call" (Number 20)]
  ++ token_lines "arc" "USDC" (Str "0x3600000000000000000000000000000000000000") 6 "native"
  ++ [Assign "transfer_log_address" (Str "0xfffffffffffffffffffffffffffffffffffffffe");
   Assign "transfer_log_decimals" (Number 18)]
  ++ token_lines "base" "SIRLOINUSDC" (Str "0xbeeff2490FEffa212faC2f6553682C219E6a8845") 18 "vault"
  ++ token_lines "base" "GTUSDCP-4B61" (Str "0xeE8F4eC5672F09119b96Ab6fB59C27E1b7e44b61") 18 "vault"
  ++ token_lines "base" "STEAKUSDC-73C9" (Str "0xbeef0e0834849aCC03f0089F01f4F1Eeb06873C9") 18 "vault"
  ++ token_lines "base" "SPARKUSDC" (Str "0x7BfA7C4f149E7415b73bdeDfe609237e29CBF34A") 18 "vault"
  ++ token_lines "base" "GTUSDCP-56F0" (Str "0x050cE30b927Da55177A4914EC73480238BAD56f0") 18 "vault"
  ++ token_lines "base" "STEAKUSDC-8183" (Str "0xbeeF010f9cb27031ad51e3333f9aF9C6B1228183") 18 "vault"
  ++ token_lines "base" "CSCBUSDC" (Str "0x91C056B6d4311a743614FBc03ac32d4E6A2d3a3c") 18 "vault"
  ++ token_lines "base" "ETHENAUSDC" (Str "0xBeEfF0be997Cca5B1c13A7433c2004637975739e") 18 "vault"
  ++ token_lines "base" "BBQUSDC-8100" (Str "0xbeeff7aE5E00Aae3Db302e4B0d8C883810a58100") 18 "vault"
  ++ token_lines "base" "STEAKUSDC-83B2" (Str "0xBEEFE94c8aD530842bfE7d8B397938fFc1cb83b2") 18 "vault"
  ++ token_lines "base" "PUSDC" (Str "0x1401d1271C47648AC70cBcdfA3776D4A87CE006B") 18 "vault"
  ++ token_lines "base" "CSCOREETH" (Str "0xBCA4E2E24A7cFa776E4282CC8Eb06f04738b71da") 18 "vault"
  ++ token_lines "base" "GTUSDCF-6765" (Str "0x1deEfABEe758AAbdC29a542B24ca3b75aFD56765") 18 "vault"
  ++ token_lines "base" "MWETH" (Str "0xa0E430870c4604CcfC7B38Ca7845B1FF653D0ff1") 18 "vault"
  ++ token_lines "base" "MWUSDC" (Str "0xc1256Ae5FF1cf2719D4937adb3bbCCab2E00A2Ca") 18 "vault"
  ++ token_lines "base" "K3USDC" (Str "0x0548A36028FFdc7D5aaA7A182f0d1FE0264F5A5C") 18 "vault"
  ++ token_lines "base" "NOONECOUSDC" (Str "0x8B12106a70FE2F8bB255F691f1CF9a9ccfB278AF") 18 "vault"
  ++ token_lines "base" "STEAKEURC-5DC1" (Str "0xbeef009F28cCf367444a9F79096862920e025DC1") 18 "vault"
  ++ token_lines "base" "STEAKETH-100E" (Str "0xbeef00f0A818894a2Cf111644A5098421611100E") 18 "vault"
  ++ token_lines "base" "GUSDCQ" (Str "0x1e9e47583f15D45a10Df48c0b1846E0492c795D7") 18 "vault"
  ++ token_lines "base" "GTWETHB" (Str "0xFeFeC33668E22677c4762d0853d56245a800ff08") 18 "vault"
  ++ token_lines "base" "KABUWETH" (Str "0x4D72Fed1b6cE42F8Dea811F7b6685EbE4Ec04E01") 18 "vault"
  ++ token_lines "base" "GTUSDCC" (Str "0xc0c5689e6f4D256E861F65465b691aeEcC0dEb12") 18 "vault"
  ++ token_lines "base" "YMVOG-USDC" (Str "0xef417a2512C5a41f69AE4e021648b69a7CdE5D03") 18 "vault"
  ++ token_lines "base" "MWCBBTC" (Str "0x543257eF2161176D7C8cD90BA65C2d4CaEF5a796") 18 "vault"
  ++ token_lines "base" "ARCHGV1USDC" (Str "0x8effa741061aaA2d8A5012a9B09A2d31d8B628d7") 18 "vault"
  ++ token_lines "base" "RE7USDC" (Str "0x618495ccC4e751178C4914b1E939C0fe0FB07b9b") 18 "vault"
  ++ token_lines "base" "BBQUSDC-878F" (Str "0xBEEFA7B88064FeEF0cEe02AAeBBd95D30df3878F") 18 "vault"
  ++ token_lines "base" "CSUSDC" (Str "0x1D3b1Cd0a0f242d598834b3F2d126dC6bd774657") 18 "vault"
  ++ token_lines "base" "MWEURC" (Str "0xf24608E0CCb972b0b0f4A6446a0BBf58c701a026") 18 "vault"
  ++ token_lines "base" "STEAKEURC-6AB5" (Str "0xBeEF086b8807Dc5E5A1740C5E3a7C4c366eA6ab5") 18 "vault"
  ++ token_lines "base" "KPK_USDC_YIELD" (Str "0x392B3CCf36C8adB8094F45573346B457414cD752") 18 "vault"
  ++ token_lines "base" "GTEURCB" (Str "0x94Af495DE1F56Aa5576dEB17986bDCeE5Dd9778D") 18 "vault"
  ++ token_lines "base" "YCSUSDC" (Str "0xE74c499fA461AF1844fCa84204490877787cED56") 18 "vault"
  ++ token_lines "base" "GTWETHC" (Str "0x6b13c060F13Af1fdB319F52315BbbF3fb1D88844") 18 "vault"
  ++ token_lines "base" "MPUSDC" (Str "0xAE4181CFB5aaA08bbE77d269c6B595672b9F9Edc") 18 "vault"
  ++ token_lines "base" "EXMWETH" (Str "0x5A32099837D89E3a794a44fb131CBbAD41f87a8C") 18 "vault"
  ++ token_lines "base" "EDGEUSDC" (Str "0x5435BC53f2C61298167cdB11Cdf0Db2BFa259ca0") 18 "vault"
  ++ token_lines "base" "YOG-USDC-V2" (Str "0xe7D0DBE3493830e2Ab62619211A2BfF0Fc60dB42") 18 "vault"
  ++ token_lines "base" "AVGUSDCCONSB" (Str "0xE34D43CA9152D198B60654868C8cD197196a492f") 18 "vault"
  ++ token_lines "base" "MWCBBTC " (Str "0xdbA76Bc542bb07538e046B40F2e8a215B409F7A8") 18 "vault"
  ++ token_lines "base" "BITUSDCP" (Str "0x39E18c066187c83e860801Befe45aE8ecd021575") 18 "vault"
  ++ token_lines "base" "GTCBBTCC" (Str "0x6770216aC60F634483Ec073cBABC4011c94307Cb") 18 "vault"
  ++ token_lines "base" "STEAKUSDCFARCASTER" (Str "0xBeEF00fc6e87dE086A0e29169A2f6e25cF5C11a9") 18 "vault"
  ++ token_lines "base" "BPRIME" (Str "0x5e03f8965e2957291B3c6990C6Cb9023c36d3d30") 18 "vault"
  ++ token_lines "base" "BHGROECO" (Str "0xb038cF3e233b78225F6D350AC8319bEC8457db4A") 18 "vault"
  ++ token_lines "base" "CSETH" (Str "0x09832347586E238841F49149C84d121Bc2191C53") 18 "vault"
  ++ token_lines "base" "CSCOREUSDC" (Str "0x116e1A65717A534B73EcB7d4F6543c65DBCd0E46") 18 "vault"
  ++ token_lines "base" "GTUSDCF-E890" (Str "0x236919F11ff9eA9550A4287696C2FC9e18E6e890") 18 "vault"
  ++ token_lines "base" "STEAKETH-443E" (Str "0xbEEf050a7485865A7a8d8Ca0CC5f7536b7a3443e") 18 "vault"
  ++ token_lines "monad" "HYPERUSDCA" (Str "0x78999cc96d2Ba0341588C60CcB0E91c6C33CF371") 18 "vault"
  ++ token_lines "monad" "AUGUSTUSDCV2" (Str "0x80017bF0f793EBbE9679Cd61ff0e395B62CAbB59") 18 "vault"
  ++ token_lines "monad" "SBAUSD-TORI-MON" (Str "0x790e4f829fe865d432c4Ea83B8B15F8871415B6c") 18 "vault"
  ++ token_lines "monad" "Y10KAUSD" (Str "0xA2fa4CeD4E2d448D084f5a15011b3564922119d6") 18 "vault"
  ++ token_lines "monad" "CSAAUSD" (Str "0xbe3E6d3F857812B4731677C88288D4F3afF8E9a1") 18 "vault"
  ++ token_lines "monad" "SATUSDC" (Str "0x75753e494e5e374C52E1d84fc04EB14B10F2C079") 18 "vault"
  ++ token_lines "monad" "SBAUSD-MROX" (Str "0x39f3380C2b139015F78542C5dF9B2c6eb8A262b1") 18 "vault"
  ++ token_lines "monad" "BBQUSDC" (Str "0xbeEFf443C3CbA3E369DA795002243BeaC311aB83") 18 "vault"
  ++ token_lines "monad" "URRWA" (Str "0x0ED3615ff949C8A34D15441970900E849A3409FC") 18 "vault"
  ++ token_lines "monad" "SBUSDC-HY-MON" (Str "0xf57E9898575fab80b0f2aCDe5443276BeC8C542D") 18 "vault"
  ++ token_lines "monad" "BBQAUSD" (Str "0xbeeffeA75cFC4128ebe10C8D7aE22016D215060D") 18 "vault"
  ++ token_lines "monad" "GROVE-BBQAUSD" (Str "0x32841A8511D5c2c5b253f45668780B99139e476D") 18 "vault"
  ++ token_lines "arc" "ARCUSDC" (Str "0x8E357432CC12ff425c36432F312968aEb16112AF") 18 "vault"
  ++ token_lines "arc" "KRUSDC" (Str "0x5bEfAb92a5A3D60F578Cb51EEb4e4FD50a1e3123") 18 "vault"
  ++ token_lines "arc" "PAPY" (Str "0x7610094B846657dCF166D59e42973db52c7015F9") 18 "vault"
  ++ token_lines "arc" "GTUSDCP" (Str "0xdECcd53BE5453215821184824B519E04C7e00bC7") 18 "vault"
  ++ token_lines "arc" "STEAKUSDC" (Str "0xbeef0016cb2Fd5C352ea7CA08a9f54739DFa7298") 18 "vault").

(** [config/local.toml:5-39 local.toml] The overrides of the local profile. *)
Definition local_toml : Document :=
  ([Table ["webhook"]%string; Assign "allow_insecure_targets" (Bool true); Assign "retry_base_ms" (Number 250);
   Assign "retry_cap_ms" (Number 5000);
   Table ["chains"; "monad"]%string; Assign "chain_id" (Number 143); Assign "http_url" (Str "http://127.0.0.1:18545");
   Assign "ws_url" (Str "ws://127.0.0.1:18545"); Assign "confirmations" (Number 3);
   Assign "expected_block_time_ms" (Number 1000); Assign "max_log_range" (Number 100);
   Assign "poll_interval_ms" (Number 500); Assign "safety_sweep_interval_ms" (Number 5000);
   Assign "idle_probe_interval_ms" (Number 5000);
   Table ["chains"; "arbitrum"]%string; Assign "chain_id" (Number 42161);
   Assign "http_url" (Str "http://127.0.0.1:18546"); Assign "ws_url" (Str "ws://127.0.0.1:18546");
   Assign "confirmations" (Number 4); Assign "expected_block_time_ms" (Number 1000);
   Assign "poll_interval_ms" (Number 500); Assign "safety_sweep_interval_ms" (Number 5000);
   Assign "idle_probe_interval_ms" (Number 5000);
   Table ["chains"; "base"]%string; Assign "chain_id" (Number 8453); Assign "http_url" (Str "http://127.0.0.1:18547");
   Assign "ws_url" (Str "ws://127.0.0.1:18547"); Assign "confirmations" (Number 2);
   Assign "expected_block_time_ms" (Number 2000); Assign "poll_interval_ms" (Number 500);
   Assign "safety_sweep_interval_ms" (Number 5000); Assign "idle_probe_interval_ms" (Number 5000)]).

(** [src/config.rs:339-351 tests::URLS] The endpoints a deployment sets, in a file or by its environment. *)
Definition URLS (db monad_http monad_ws arbitrum_http arbitrum_ws base_http base_ws : string) : Document :=
  [Table ["database"]%string; Assign "url" (Str db);
   Table ["chains"; "monad"]%string; Assign "http_url" (Str monad_http); Assign "ws_url" (Str monad_ws);
   Table ["chains"; "arbitrum"]%string; Assign "http_url" (Str arbitrum_http); Assign "ws_url" (Str arbitrum_ws);
   Table ["chains"; "base"]%string; Assign "http_url" (Str base_http); Assign "ws_url" (Str base_ws)].

Definition join (dir name : string) : string := dir +:+ "/" +:+ name.
Definition file (generated : Document) (path : string) : option Document :=
  if String.eqb path "config/default.toml" then Some default_toml
  else if String.eqb path "config/local.toml" then Some local_toml
  else if String.eqb path "config/local.generated.toml" then Some generated
  else None.
Definition no_env (name : string) : option string := None.

Definition symbols (c : ChainConfig) : list string := tc_symbol <$> cc_tokens c.
Definition stablecoins (c : ChainConfig) : list string :=
  tc_symbol <$> List.filter (fun t => negb (String.eqb (tc_issuance t) "vault")) (cc_tokens c).
Definition vaults (c : ChainConfig) : list TokenConfig :=
  List.filter (fun t => String.eqb (tc_issuance t) "vault") (cc_tokens c).
Definition chain_named (cfg : Config) (name : string) : option ChainConfig :=
  snd <$> find (fun nc => String.eqb nc.1 name) (cfg_chains cfg).

(** C36. The shipped configuration works: with any database URL and any endpoints for its three enabled chains
    the mainnet profile loads and passes the validation; it runs exactly Arbitrum, Base and Monad with
    their chain ids, each with its stablecoins, and Arc is present but off. *)
Theorem shipped_profile_loads (db monad_http monad_ws arbitrum_http arbitrum_ws base_http base_ws : string) :
  Forall (fun u => u ≠ EmptyString) [db; monad_http; monad_ws; arbitrum_http; arbitrum_ws; base_http; base_ws] ->
  exists cfg,
    load (extract_layers (file []) (URLS db monad_http monad_ws arbitrum_http arbitrum_ws base_http base_ws)) join no_env "config"
      = Ok cfg
    /\ ((fun nc => (nc.1, cc_chain_id nc.2, stablecoins nc.2)) <$> enabled_chains cfg)
       = [("arbitrum", 42161, ["USDC"; "USDT"]); ("base", 8453, ["USDC"]); ("monad", 143, ["USDC"; "USDT"; "AUSD"])]%string
    /\ (cc_enabled <$> chain_named cfg "arc") = Some false
    /\ Forall (fun nc => Forall (fun t => tc_decimals t = 18) (vaults nc.2)) (cfg_chains cfg).
Proof.
  intros H. repeat (apply Forall_cons in H as [? H]).
  destruct db, monad_http, monad_ws, arbitrum_http, arbitrum_ws, base_http, base_ws; try done.
  match goal with |- exists _, ?l = _ /\ _ => let r := eval vm_compute in l in match r with Ok ?cfg => exists cfg end end.
  split; [vm_compute; reflexivity|]. split; [vm_compute; reflexivity|]. split; [vm_compute; reflexivity|].
  vm_compute. repeat constructor.
Qed.
