(* ===== verification/Health.v ===== *)
(** * Health: [src/ingest/health.rs]

    The per-chain health state machine. The mutex makes each method one step on [Inner]; instants
    are milliseconds and enter as arguments. [update] returns, next to the new state, the
    transition it logs and counts, if any. *)

From S2P Require Import Prelude Text.

(** [src/ingest/health.rs:12-18 ChainStatus] *)
Inductive ChainStatus := Down | Degraded | Healthy.

#[global] Instance ChainStatus_eq_dec : EqDecision ChainStatus.
Proof. solve_decision. Defined.

(** [src/ingest/health.rs:20-20 DEGRADED_AFTER_FAILURES] *)
Definition DEGRADED_AFTER_FAILURES : Z := 2.
(** [src/ingest/health.rs:21-21 DOWN_AFTER_FAILURES] *)
Definition DOWN_AFTER_FAILURES : Z := 5.

(** [src/ingest/health.rs:24-39 Inner] *)
Record Inner := mkInner {
  h_status : ChainStatus;
  h_consecutive_failures : Z;
  h_last_error_kind : option string;
  h_last_error : option string;
  h_last_success_at : option Z;
  h_head : Z;
  h_head_changed_at : option Z;
  h_head_observed_at : option Z;
  h_ws_expected : bool;
  h_ws_connected : bool;
  h_mode : string;
  h_leader : bool;
  h_confirmed_block : Z;
  h_last_sweep_at : option Z;
}.

(** [src/ingest/health.rs:65-84 ChainHealth::new] *)
Definition health_new : Inner :=
  mkInner Healthy 0 None None None 0 None None false false "starting" false 0 None.

(** [src/ingest/health.rs:214-228 evaluate] *)
Definition evaluate (i : Inner) (stall : Z) : ChainStatus :=
  let stalled := match h_head_changed_at i, h_head_observed_at i with
                 | Some changed, Some observed => stall <? saturating_sub observed changed
                 | _, _ => false
                 end in
  if (DOWN_AFTER_FAILURES <=? h_consecutive_failures i) || stalled then Down
  else if (DEGRADED_AFTER_FAILURES <=? h_consecutive_failures i)
          || (h_ws_expected i && negb (h_ws_connected i)) then Degraded
  else Healthy.

Definition with_h_status (s : ChainStatus) (i : Inner) : Inner :=
  mkInner s (h_consecutive_failures i) (h_last_error_kind i) (h_last_error i) (h_last_success_at i)
    (h_head i) (h_head_changed_at i) (h_head_observed_at i) (h_ws_expected i) (h_ws_connected i)
    (h_mode i) (h_leader i) (h_confirmed_block i) (h_last_sweep_at i).

(** [src/ingest/health.rs:171-203 ChainHealth::update] *)
Definition health_update (stall : Z) (f : Inner -> Inner) (i : Inner) : Inner * option (ChainStatus * ChainStatus) :=
  let i := f i in
  let next := evaluate i stall in
  if bool_decide (next = h_status i) then (i, None)
  else (with_h_status next i, Some (h_status i, next)).

(** What the callers of [update] do to the state. *)
Inductive HealthOp :=
  | RpcOk (now : Z)
  | RpcErr (kind error : string)
  | ObserveHead (head now : Z)
  | ObserveSweep (confirmed_block now : Z)
  | SetWs (expected connected : bool)
  | SetMode (mode : string)
  | SetLeader (leader : bool).

(** [src/ingest/health.rs:86-91 ChainHealth::record_rpc_ok] *)
Definition record_rpc_ok (now : Z) (i : Inner) : Inner :=
  mkInner (h_status i) 0 (h_last_error_kind i) (h_last_error i) (Some now) (h_head i)
    (h_head_changed_at i) (h_head_observed_at i) (h_ws_expected i) (h_ws_connected i) (h_mode i)
    (h_leader i) (h_confirmed_block i) (h_last_sweep_at i).

(** [src/ingest/health.rs:93-99 ChainHealth::record_rpc_err] *)
Definition record_rpc_err (kind error : string) (i : Inner) : Inner :=
  mkInner (h_status i) (u32_saturating_add (h_consecutive_failures i) 1) (Some kind)
    (Some (take_chars 300 error)) (h_last_success_at i) (h_head i) (h_head_changed_at i)
    (h_head_observed_at i) (h_ws_expected i) (h_ws_connected i) (h_mode i) (h_leader i)
    (h_confirmed_block i) (h_last_sweep_at i).

(** [src/ingest/health.rs:101-114 ChainHealth::observe_head_at] *)
Definition observe_head_at (head now : Z) (i : Inner) : Inner :=
  let moved := (h_head i <? head) || bool_decide (h_head_changed_at i = None) in
  mkInner (h_status i) (h_consecutive_failures i) (h_last_error_kind i) (h_last_error i)
    (h_last_success_at i) (if moved then Z.max head (h_head i) else h_head i)
    (if moved then Some now else h_head_changed_at i) (Some now) (h_ws_expected i) (h_ws_connected i)
    (h_mode i) (h_leader i) (h_confirmed_block i) (h_last_sweep_at i).

(** [src/ingest/health.rs:116-122 ChainHealth::observe_sweep] *)
Definition observe_sweep (confirmed_block now : Z) (i : Inner) : Inner :=
  mkInner (h_status i) (h_consecutive_failures i) (h_last_error_kind i) (h_last_error i)
    (h_last_success_at i) (h_head i) (h_head_changed_at i) (h_head_observed_at i) (h_ws_expected i)
    (h_ws_connected i) (h_mode i) (h_leader i) confirmed_block (Some now).

(** [src/ingest/health.rs:124-130 ChainHealth::set_ws] *)
Definition set_ws (expected connected : bool) (i : Inner) : Inner :=
  mkInner (h_status i) (h_consecutive_failures i) (h_last_error_kind i) (h_last_error i)
    (h_last_success_at i) (h_head i) (h_head_changed_at i) (h_head_observed_at i) expected connected
    (h_mode i) (h_leader i) (h_confirmed_block i) (h_last_sweep_at i).

(** [src/ingest/health.rs:132-134 ChainHealth::set_mode] *)
Definition set_mode (mode : string) (i : Inner) : Inner :=
  mkInner (h_status i) (h_consecutive_failures i) (h_last_error_kind i) (h_last_error i)
    (h_last_success_at i) (h_head i) (h_head_changed_at i) (h_head_observed_at i) (h_ws_expected i)
    (h_ws_connected i) mode (h_leader i) (h_confirmed_block i) (h_last_sweep_at i).

(** [src/ingest/health.rs:136-139 ChainHealth::set_leader] *)
Definition set_leader (leader : bool) (i : Inner) : Inner :=
  mkInner (h_status i) (h_consecutive_failures i) (h_last_error_kind i) (h_last_error i)
    (h_last_success_at i) (h_head i) (h_head_changed_at i) (h_head_observed_at i) (h_ws_expected i)
    (h_ws_connected i) (h_mode i) leader (h_confirmed_block i) (h_last_sweep_at i).

Definition op_effect (op : HealthOp) : Inner -> Inner :=
  match op with
  | RpcOk now => record_rpc_ok now
  | RpcErr kind error => record_rpc_err kind error
  | ObserveHead head now => observe_head_at head now
  | ObserveSweep c now => observe_sweep c now
  | SetWs e c => set_ws e c
  | SetMode m => set_mode m
  | SetLeader l => set_leader l
  end.

(** [src/ingest/health.rs:206-212 status_label] *)
Definition status_label (s : ChainStatus) : string :=
  match s with Down => "down" | Degraded => "degraded" | Healthy => "healthy" end.

(** [src/ingest/health.rs:49-62 HealthSnapshot] *)
Record HealthSnapshot := mkSnapshot {
  sn_status : ChainStatus;
  sn_leader : bool;
  sn_ingest_mode : string;
  sn_ws_connected : bool;
  sn_head_block : Z;
  sn_head_age_ms : option Z;
  sn_confirmed_block : Z;
  sn_last_sweep_age_ms : option Z;
  sn_consecutive_rpc_failures : Z;
  sn_last_rpc_success_age_ms : option Z;
  sn_last_error_kind : option string;
  sn_last_error : option string;
}.

(** [src/ingest/health.rs:141-143 ChainHealth::head] *)
Definition health_head (i : Inner) : Z := h_head i.

(** [src/ingest/health.rs:145-147 ChainHealth::status] *)
Definition health_status (i : Inner) : ChainStatus := h_status i.

(** [src/ingest/health.rs:149-169 ChainHealth::snapshot] *)
Definition snapshot (now : Z) (i : Inner) : HealthSnapshot :=
  let age := fmap (fun t => as_u64 (saturating_sub now t)) in
  mkSnapshot (h_status i) (h_leader i) (h_mode i) (h_ws_connected i) (h_head i)
    (age (h_head_changed_at i)) (h_confirmed_block i) (age (h_last_sweep_at i))
    (h_consecutive_failures i) (age (h_last_success_at i)) (h_last_error_kind i) (h_last_error i).

(** ** Runs of the machine *)

(** The state and the logged transitions after a sequence of calls. *)
Fixpoint health_run (stall : Z) (ops : list HealthOp) (i : Inner) : Inner * list (ChainStatus * ChainStatus) :=
  match ops with
  | [] => (i, [])
  | op :: ops =>
      let '(i, t) := health_update stall (op_effect op) i in
      let '(i, ts) := health_run stall ops i in
      (i, match t with Some t => t :: ts | None => ts end)
  end.

(** The abstract view of a history, newest call first: failures since the last success, the best
    head, when it was first seen, when a head was last seen, and what is known of the socket. *)
Fixpoint failures (h : list HealthOp) : Z :=
  match h with
  | [] => 0
  | RpcOk _ :: _ => 0
  | RpcErr _ _ :: h => Z.min u32_max (failures h + 1)
  | _ :: h => failures h
  end.
Fixpoint best_head (h : list HealthOp) : Z :=
  match h with [] => 0 | ObserveHead n _ :: h => Z.max n (best_head h) | _ :: h => best_head h end.
Fixpoint seen_at (h : list HealthOp) : option Z :=
  match h with [] => None | ObserveHead _ t :: _ => Some t | _ :: h => seen_at h end.
Fixpoint moved_at (h : list HealthOp) : option Z :=
  match h with
  | [] => None
  | ObserveHead n t :: h => match moved_at h with
                            | Some t' => Some (if best_head h <? n then t else t')
                            | None => Some t
                            end
  | _ :: h => moved_at h
  end.
Fixpoint ws_lost (h : list HealthOp) : bool :=
  match h with [] => false | SetWs e c :: _ => e && negb c | _ :: h => ws_lost h end.

(** The status the documentation of [ChainStatus] promises for a history. *)
Definition promised (stall : Z) (h : list HealthOp) : ChainStatus :=
  let stalled := match moved_at h, seen_at h with
                 | Some t, Some t' => stall <? t' - t
                 | _, _ => false
                 end in
  if (5 <=? failures h) || stalled then Down
  else if (2 <=? failures h) || ws_lost h then Degraded else Healthy.

(** ** Lemmas *)

Lemma run_snoc stall ops op i :
  health_run stall (ops ++ [op]) i =
  let '(i1, ts) := health_run stall ops i in
  let '(i2, t) := health_update stall (op_effect op) i1 in
  (i2, ts ++ match t with Some t => [t] | None => [] end).
Proof.
  revert i. induction ops as [|o ops IH]; intros i; cbn.
  - destruct (health_update stall (op_effect op) i) as [i2 [t|]]; done.
  - destruct (health_update stall (op_effect o) i) as [i1 t1]. rewrite IH.
    destruct (health_run stall ops i1) as [i2 ts]. destruct (health_update stall (op_effect op) i2) as [i3 [t|]];
      destruct t1; done.
Qed.

(** The concrete state [i] represents the history [h]. *)
Record represents (stall : Z) (h : list HealthOp) (i : Inner) : Prop := {
  rp_failures : h_consecutive_failures i = failures h;
  rp_head : h_head i = best_head h;
  rp_moved : h_head_changed_at i = moved_at h;
  rp_seen : h_head_observed_at i = seen_at h;
  rp_ws : h_ws_expected i && negb (h_ws_connected i) = ws_lost h;
  rp_status : h_status i = promised stall h;
}.

Lemma evaluate_promised stall h i :
  0 <= stall -> h_consecutive_failures i = failures h -> h_head_changed_at i = moved_at h ->
  h_head_observed_at i = seen_at h -> h_ws_expected i && negb (h_ws_connected i) = ws_lost h ->
  evaluate i stall = promised stall h.
Proof.
  intros Hs Ef Em Es Ew. unfold evaluate, promised. rewrite Ef, Em, Es, Ew.
  unfold DOWN_AFTER_FAILURES, DEGRADED_AFTER_FAILURES.
  destruct (moved_at h) as [t|], (seen_at h) as [t'|]; try done.
  replace (stall <? saturating_sub t' t) with (stall <? t' - t); [done|].
  unfold saturating_sub. destruct (Z.ltb_spec stall (t' - t)), (Z.ltb_spec stall (Z.max 0 (t' - t))); lia || done.
Qed.

(** [update] establishes the status of the state it leaves and logs exactly a change. *)
Lemma update_status stall f i :
  let '(i', t) := health_update stall f i in
  h_status i' = evaluate i' stall
  /\ t = (if bool_decide (h_status i' = h_status (f i)) then None else Some (h_status (f i), h_status i')).
Proof.
  unfold health_update. case_bool_decide as E.
  - rewrite bool_decide_true by done. done.
  - cbn. rewrite bool_decide_false by done. split; [|done]. done.
Qed.

Lemma op_effect_status op i : h_status (op_effect op i) = h_status i.
Proof. by destruct op. Qed.

Lemma update_fields stall f i :
  let i' := (health_update stall f i).1 in
  h_consecutive_failures i' = h_consecutive_failures (f i) /\ h_head i' = h_head (f i)
  /\ h_head_changed_at i' = h_head_changed_at (f i) /\ h_head_observed_at i' = h_head_observed_at (f i)
  /\ h_ws_expected i' = h_ws_expected (f i) /\ h_ws_connected i' = h_ws_connected (f i).
Proof. cbv zeta. unfold health_update. by case_bool_decide. Qed.

Lemma op_represents stall h i op :
  0 <= stall -> represents stall h i -> represents stall (op :: h) (health_update stall (op_effect op) i).1.
Proof.
  intros Hs [Ef Eh Em Es Ew Est].
  pose proof (update_status stall (op_effect op) i) as Hst.
  destruct (update_fields stall (op_effect op) i) as (F1 & F2 & F3 & F4 & F5 & F6).
  destruct (health_update stall (op_effect op) i) as [i' t]. cbn [fst] in *. destruct Hst as [Hst _].
  assert (G : h_consecutive_failures i' = failures (op :: h) /\ h_head i' = best_head (op :: h)
    /\ h_head_changed_at i' = moved_at (op :: h) /\ h_head_observed_at i' = seen_at (op :: h)
    /\ h_ws_expected i' && negb (h_ws_connected i') = ws_lost (op :: h)).
  { rewrite F1, F2, F3, F4, F5, F6. destruct op; cbn; rewrite ?Ef, ?Eh, ?Em, ?Es, ?Ew; try done.
    destruct (moved_at h) as [t0|] eqn:Hm; cbn.
    - rewrite orb_false_r. destruct (Z.ltb_spec (best_head h) head); split_and!; try done; lia.
    - rewrite orb_true_r. done. }
  destruct G as (G1 & G2 & G3 & G4 & G5). split; try done. by rewrite Hst, (evaluate_promised stall (op :: h)).
Qed.

(** Each logged transition starts where the previous one ended and is a change. *)
Fixpoint transitions_from (s : ChainStatus) (ts : list (ChainStatus * ChainStatus)) (s' : ChainStatus) : Prop :=
  match ts with
  | [] => s = s'
  | (a, b) :: ts => a = s /\ a ≠ b /\ transitions_from b ts s'
  end.

Lemma transitions_snoc s ts s' s'' :
  transitions_from s ts s' -> s' ≠ s'' -> transitions_from s (ts ++ [(s', s'')]) s''.
Proof.
  revert s. induction ts as [|[a b] ts IH]; intros s; cbn; [by intros ->|].
  intros (-> & ? & H) Hne. auto.
Qed.

(** ** Properties *)

(** C32. The health state machine implements its documentation: after any sequence of calls the
    status is the one promised for the history — [Down] from five failures in a row or a head seen
    unmoved for longer than the threshold, [Degraded] from two failures or a lost socket,
    [Healthy] otherwise — the head is the best one observed, and the logged transitions are
    exactly the changes of status, chained from [Healthy] to the current one. *)
Theorem health_refines_history (stall : Z) (ops : list HealthOp) :
  0 <= stall ->
  let '(i, ts) := health_run stall ops health_new in
  h_status i = promised stall (rev ops) /\ h_head i = best_head (rev ops)
  /\ h_consecutive_failures i = failures (rev ops) /\ transitions_from Healthy ts (h_status i).
Proof.
  intros Hs. assert (H : represents stall (rev ops) (health_run stall ops health_new).1
    /\ transitions_from Healthy (health_run stall ops health_new).2 (h_status (health_run stall ops health_new).1)).
  2:{ destruct (health_run stall ops health_new) as [i ts]. cbn in H. destruct H as [[] ?]. done. }
  induction ops as [|op ops [IH1 IH2]] using rev_ind; [by split|].
  rewrite run_snoc, rev_app_distr. cbn [rev app].
  destruct (health_run stall ops health_new) as [i1 ts]. cbn [fst snd] in *.
  pose proof (op_represents stall (rev ops) i1 op Hs IH1) as Hr.
  pose proof (update_status stall (op_effect op) i1) as Hst. rewrite op_effect_status in Hst.
  destruct (health_update stall (op_effect op) i1) as [i2 t]. cbn [fst snd] in *. destruct Hst as [_ ->].
  split; [done|]. case_bool_decide as E.
  - rewrite app_nil_r, E. done.
  - apply transitions_snoc; [done|]. congruence.
Qed.

Lemma health_refines_history_witness :
  let ops := [ObserveHead 100 0; RpcErr "rpc_transient" "boom"; RpcErr "rpc_transient" "boom"; RpcOk 4;
              ObserveHead 100 11000; ObserveHead 101 12000] in
  health_run 10000 ops health_new =
    ((health_run 10000 ops health_new).1, [(Healthy, Degraded); (Degraded, Healthy); (Healthy, Down); (Down, Healthy)])
  /\ h_status (health_run 10000 ops health_new).1 = promised 10000 (rev ops).
Proof.
  intros ops. split; [vm_compute; reflexivity|].
  assert (H : 0 <= 10000) by lia. pose proof (health_refines_history 10000 ops H) as Hr.
  destruct (health_run 10000 ops health_new) as [i ts]. cbn [fst]. apply Hr.
Defined.
