(* ===== verification/Rpc.v ===== *)
(** * Rpc: [src/rpc/errors.rs] and [src/rpc/mod.rs]

    Classification of RPC failures, the request throttle and the retry loop every call goes
    through. A call is a function from the attempt number to what the transport returned; the
    delays the exponential backoff yields are a list of at most [max_retries] elements; the text a
    transport error renders to is the parameter [render]. *)

From S2P Require Import Prelude Text Health.

(** ** Classification *)

(** [src/rpc/errors.rs:7-22 RpcErrorClass] *)
Inductive RpcErrorClass :=
  RateLimited | RateLimitedLong | Transient | RangeTooLarge | AheadOfHead | Auth | Invalid.

#[global] Instance RpcErrorClass_eq_dec : EqDecision RpcErrorClass.
Proof. solve_decision. Defined.

(** [src/rpc/errors.rs:25-27 RpcErrorClass::is_retryable] *)
Definition is_retryable (c : RpcErrorClass) : bool :=
  match c with RateLimited | RateLimitedLong | Transient => true | _ => false end.

(** [src/rpc/errors.rs:30-40 RpcErrorClass::kind] *)
Definition class_kind (c : RpcErrorClass) : string :=
  match c with
  | RateLimited => "rpc_rate_limited"
  | RateLimitedLong => "rpc_rate_limited_minute"
  | Transient => "rpc_transient"
  | RangeTooLarge => "rpc_range_too_large"
  | AheadOfHead => "rpc_node_behind"
  | Auth => "rpc_auth"
  | Invalid => "rpc_invalid_request"
  end.

(** The transport errors [classify] tells apart. *)
Inductive TransportError :=
  | ErrorResp (code : Z) (message : string)
  | HttpError (status : Z) (body : string)
  | OtherTransport
  | NullResp
  | DeserError
  | SerError
  | UnsupportedFeature
  | LocalUsageError.

(** [src/rpc/errors.rs:85-91 AHEAD] *)
Definition AHEAD : list string :=
  ["beyond current head"; "greater than toblock"; "invalid block range"; "fromblock is greater";
   "block range is invalid"].

(** [src/rpc/errors.rs:92-102 TOO_LARGE] *)
Definition TOO_LARGE : list string :=
  ["limited to a"; "block range"; "exceeds limit"; "exceeds the limit"; "too large"; "more than 10000";
   "response size"; "too many results"; "range is too"].

(** [src/rpc/errors.rs:83-110 classify_message] *)
Definition classify_message (message : string) : option RpcErrorClass :=
  let m := to_ascii_lowercase message in
  if existsb (contains m) AHEAD then Some AheadOfHead
  else if existsb (contains m) TOO_LARGE then Some RangeTooLarge
  else None.

(** [src/rpc/errors.rs:68-81 classify_code] *)
Definition classify_code (code : Z) (message : string) : RpcErrorClass :=
  match classify_message message with
  | Some class => class
  | None =>
      if (code =? -32007) || (code =? -32011) || (code =? 429) then RateLimited
      else if code =? -32008 then RateLimitedLong
      else if code =? -32005 then RateLimited
      else if code =? -32616 then RangeTooLarge
      else if (-32002 <=? code) && (code <=? -32000) then Transient
      else if ((-32603 <=? code) && (code <=? -32600)) || (code =? -32611) || (code =? -32700) then Invalid
      else Transient
  end.

(** [src/rpc/errors.rs:54-66 classify_http] *)
Definition classify_http (status : Z) (body : string) : RpcErrorClass :=
  if status =? 429 then RateLimited
  else if (status =? 401) || (status =? 403) then Auth
  else if status =? 413 then RangeTooLarge
  else if (500 <=? status) && (status <=? 599) then Transient
  else if status =? 408 then Transient
  else match classify_message body with Some class => class | None => Invalid end.

(** [src/rpc/errors.rs:43-52 classify] *)
Definition classify (err : TransportError) : RpcErrorClass :=
  match err with
  | ErrorResp code message => classify_code code message
  | HttpError status body => classify_http status body
  | OtherTransport | NullResp | DeserError => Transient
  | SerError | UnsupportedFeature | LocalUsageError => Invalid
  end.

(** ** Failures *)

(** [src/rpc/mod.rs:24-32 RpcFailure] *)
Inductive RpcFailure :=
  | RpcErrorF (method : string) (class : RpcErrorClass) (message : string)
  | Timeout (method : string) (after : Z)
  | BadUrl (chain message : string).

(** [src/rpc/mod.rs:35-41 RpcFailure::class] *)
Definition failure_class (f : RpcFailure) : RpcErrorClass :=
  match f with
  | RpcErrorF _ class _ => class
  | Timeout _ _ => Transient
  | BadUrl _ _ => Invalid
  end.

(** [src/rpc/mod.rs:43-49 RpcFailure::kind] *)
Definition failure_kind (f : RpcFailure) : string :=
  match f with
  | Timeout _ _ => "rpc_timeout"
  | BadUrl _ _ => "rpc_bad_url"
  | RpcErrorF _ class _ => class_kind class
  end.

(** The derived [Debug] of the class. *)
Definition class_debug (c : RpcErrorClass) : string :=
  match c with
  | RateLimited => "RateLimited"
  | RateLimitedLong => "RateLimitedLong"
  | Transient => "Transient"
  | RangeTooLarge => "RangeTooLarge"
  | AheadOfHead => "AheadOfHead"
  | Auth => "Auth"
  | Invalid => "Invalid"
  end.

(** [src/rpc/mod.rs:26-31 RpcFailure (Display)] [debug_duration] is the [Debug] of a [Duration]. *)
Definition failure_display (debug_duration : Z -> string) (f : RpcFailure) : string :=
  match f with
  | RpcErrorF method class message => method +:+ ": " +:+ class_debug class +:+ ": " +:+ message
  | Timeout method after => method +:+ ": timed out after " +:+ debug_duration after
  | BadUrl chain message => "invalid RPC url for chain " +:+ chain +:+ ": " +:+ message
  end.

(** ** Throttle *)

(** [src/rpc/mod.rs:54-57 Throttle] Nanoseconds. *)
Record Throttle := mkThrottle { th_gap : Z; th_next_slot : Z }.

(** [src/rpc/mod.rs:60-62 Throttle::new] *)
Definition throttle_new (max_rps now : Z) : Throttle := mkThrottle (10 ^ 9 `div` Z.max max_rps 1) now.

(** [src/rpc/mod.rs:64-72 Throttle::acquire] The instant the caller sleeps until. *)
Definition acquire (now : Z) (t : Throttle) : Z * Throttle :=
  let at_ := Z.max (th_next_slot t) now in
  (at_, mkThrottle (th_gap t) (at_ + th_gap t)).

(** ** The retry loop *)

Inductive CallResult (T : Type) :=
  | CallOk (v : T)
  | CallErr (e : TransportError)
  | CallTimeout.
Arguments CallOk {T} v.
Arguments CallErr {T} e.
Arguments CallTimeout {T}.

(** What one call did besides returning: attempts made, calls billed, delays slept, health calls. *)
Record CallTrace := mkTrace {
  ct_attempts : nat;
  ct_billed : nat;
  ct_sleeps : list Z;
  ct_health : list HealthOp;
}.

Section run.
Context {T : Type}.
Variable render : TransportError -> string.
Variable display : RpcFailure -> string.
Variables (method : string) (timeout : Z).
Variable call : nat -> CallResult T.
Variable clock : nat -> Z.

(** [src/rpc/mod.rs:144-152 RpcClient::run (match result)] *)
Definition attempt (n : nat) : result RpcFailure T :=
  match call n with
  | CallOk v => Ok v
  | CallErr e => Err (RpcErrorF method (classify e) (render e))
  | CallTimeout => Err (Timeout method timeout)
  end.

(** [src/rpc/mod.rs:155-155 RpcClient::run (billed)] *)
Definition billed (f : RpcFailure) : bool :=
  match f with
  | RpcErrorF _ class _ => negb (bool_decide (class = Auth))
  | _ => false
  end.

Definition trace_add (b : bool) (sleep : option Z) (h : HealthOp) (t : CallTrace) : CallTrace :=
  mkTrace (S (ct_attempts t)) (if b then S (ct_billed t) else ct_billed t)
    (match sleep with Some d => d :: ct_sleeps t | None => ct_sleeps t end) (h :: ct_health t).

(** [src/rpc/mod.rs:125-192 RpcClient::run] [n] counts attempts; [backoff] is what is left of the
    iterator. *)
Fixpoint run (n : nat) (backoff : list Z) : result RpcFailure T * CallTrace :=
  let stop b h r := (r, trace_add b None h (mkTrace 0 0 [] [])) in
  match attempt n with
  | Ok v => stop true (RpcOk (clock n)) (Ok v)
  | Err failure =>
      match failure_class failure with
      | RangeTooLarge | AheadOfHead => stop (billed failure) (RpcOk (clock n)) (Err failure)
      | Auth | Invalid =>
          stop (billed failure) (RpcErr (failure_kind failure) (display failure)) (Err failure)
      | RateLimited | RateLimitedLong | Transient =>
          let h := RpcErr (failure_kind failure) (display failure) in
          match backoff with
          | [] => stop (billed failure) h (Err failure)
          | delay :: backoff =>
              let delay := if bool_decide (failure_class failure = RateLimitedLong) then 60000 else delay in
              let '(r, t) := run (S n) backoff in
              (r, trace_add (billed failure) (Some delay) h t)
          end
      end
  end.
End run.

(** [src/rpc/mod.rs:118-123 RpcClient::token_decimals] The decoding of the returned bytes. *)
Definition decode_decimals (out : list Z) : option Z :=
  if (length out =? 32)%nat && forallb (fun b => b =? 0) (take 31 out) then Some (nth 31 out 0) else None.

(** ** Lemmas *)

Lemma attempt_retryable {T} (r : result RpcFailure T) :
  {exists v, r = Ok v} + {exists f, r = Err f /\ is_retryable (failure_class f) = true}
  + {exists f, r = Err f /\ is_retryable (failure_class f) = false}.
Proof.
  destruct r as [v|f]; [left; left; eauto|].
  destruct (is_retryable (failure_class f)) eqn:E; [left; right|right]; eauto.
Qed.

(** The retry loop one step at a time: stop, or sleep and go on. *)
Lemma run_step {T} render display method timeout (call : nat -> CallResult T) clock n backoff :
  let a := attempt render method timeout call in
  (forall f delay backoff', a n = Err f -> is_retryable (failure_class f) = true -> backoff = delay :: backoff' ->
     let '(r, t) := run render display method timeout call clock (S n) backoff' in
     exists t', run render display method timeout call clock n backoff = (r, t')
       /\ ct_attempts t' = S (ct_attempts t)
       /\ ct_sleeps t' = (if bool_decide (failure_class f = RateLimitedLong) then 60000 else delay) :: ct_sleeps t
       /\ ct_health t' = RpcErr (failure_kind f) (display f) :: ct_health t)
  /\ ((forall f, a n = Err f -> is_retryable (failure_class f) = false \/ backoff = []) ->
      exists t', run render display method timeout call clock n backoff = (a n, t')
       /\ ct_attempts t' = 1%nat /\ ct_sleeps t' = []).
Proof.
  cbv zeta. split.
  - intros f delay backoff' Ha Hr ->. cbn [run]. rewrite Ha.
    destruct (run render display method timeout call clock (S n) backoff') as [r t] eqn:Hrun.
    destruct (failure_class f); try done; eexists; done.
  - intros H. destruct backoff as [|delay backoff]; cbn [run];
      destruct (attempt render method timeout call n) as [v|f] eqn:Ha; try (by eexists);
      destruct (failure_class f) eqn:Ef; try (by eexists);
      destruct (H f eq_refl) as [E|E]; try done; by rewrite Ef in E.
Qed.

(** ** Properties *)

(** Every RPC call ends after at most one attempt more than the backoff allows. It returns what
    its last attempt produced; every earlier attempt failed in a way worth retrying; it gives up on
    such a failure only when the backoff is exhausted, so an authentication failure, a malformed
    request or a range signal is never retried; and it sleeps exactly between attempts. *)
Theorem run_retries {T} (render : TransportError -> string) (display : RpcFailure -> string) (method : string)
    (timeout : Z) (call : nat -> CallResult T) (clock : nat -> Z) (backoff : list Z) :
  let a := attempt render method timeout call in
  let '(r, t) := run render display method timeout call clock 0 backoff in
  (1 <= ct_attempts t <= S (length backoff))%nat
  /\ length (ct_sleeps t) = pred (ct_attempts t)
  /\ r = a (pred (ct_attempts t))
  /\ (forall k, (k < pred (ct_attempts t))%nat ->
        exists f, a k = Err f /\ is_retryable (failure_class f) = true)
  /\ (forall f, r = Err f -> is_retryable (failure_class f) = true -> ct_attempts t = S (length backoff)).
Proof.
  cbv zeta.
  assert (H : forall n, let '(r, t) := run render display method timeout call clock n backoff in
    (1 <= ct_attempts t <= S (length backoff))%nat
    /\ length (ct_sleeps t) = pred (ct_attempts t)
    /\ r = attempt render method timeout call (n + pred (ct_attempts t))
    /\ (forall k, (k < pred (ct_attempts t))%nat -> exists f,
          attempt render method timeout call (n + k) = Err f /\ is_retryable (failure_class f) = true)
    /\ (forall f, r = Err f -> is_retryable (failure_class f) = true -> ct_attempts t = S (length backoff))).
  2:{ exact (H 0%nat). }
  induction backoff as [|delay backoff IH]; intros n.
  { destruct (run_step render display method timeout call clock n []) as [_ Hnil]. destruct Hnil as (t & -> & E1 & E2); [by right|]. rewrite E1, E2. cbn. rewrite Nat.add_0_r.
    split_and!; try done; try lia. }
  destruct (attempt_retryable (attempt render method timeout call n)) as [[[v Hv]|(f & Hf & Hr)]|(f & Hf & Hr)];
    destruct (run_step render display method timeout call clock n (delay :: backoff)) as [Hgo Hstop].
  - destruct Hstop as (t & -> & E1 & E2); [by intros f; rewrite Hv|]. rewrite E1, E2, Hv. cbn.
    rewrite Nat.add_0_r. split_and!; try done; try lia.
  - specialize (Hgo f delay backoff Hf Hr eq_refl). specialize (IH (S n)).
    destruct (run render display method timeout call clock (S n) backoff) as [r t].
    destruct Hgo as (t' & -> & E1 & E2 & _). destruct IH as (I1 & I2 & I3 & I4 & I5).
    rewrite E1, E2. cbn [length pred]. split_and!; try lia.
    + rewrite I3. f_equal. lia.
    + intros [|k] Hk; [rewrite Nat.add_0_r; eauto|]. replace (n + S k)%nat with (S n + k)%nat by lia.
      apply I4. lia.
    + intros f' Hf' Hr'. by rewrite (I5 f' Hf' Hr').
  - destruct Hstop as (t & -> & E1 & E2); [intros f'; rewrite Hf; intros [= <-]; by left|].
    rewrite E1, E2, Hf. cbn. rewrite Nat.add_0_r. split_and!; try done; try lia.
    intros f' [= <-]. by rewrite Hr.
Qed.

(** The instants granted to a sequence of callers arriving at [nows]. *)
Fixpoint acquire_all (nows : list Z) (t : Throttle) : list Z :=
  match nows with
  | [] => []
  | now :: nows => let '(at_, t) := acquire now t in at_ :: acquire_all nows t
  end.

Lemma acquire_all_spaced nows t i a :
  0 <= th_gap t -> acquire_all nows t !! i = Some a -> th_next_slot t + Z.of_nat i * th_gap t <= a.
Proof.
  revert t i. induction nows as [|now nows IH]; intros t i Hg; [done|]. cbn.
  destruct i as [|i]; cbn; [intros [= <-]; lia|]. intros H. apply IH in H; [|done]. cbn in H. lia.
Qed.

(** The throttle keeps the plan's rate: the calls admitted are spaced by at least the gap, so
    the one admitted [k] calls after another goes out at least [k] gaps later, and none goes out
    before it was asked for. *)
Theorem throttle_rate (nows : list Z) (t : Throttle) (i k : nat) (a b : Z) :
  0 <= th_gap t ->
  acquire_all nows t !! i = Some a -> acquire_all nows t !! (i + k)%nat = Some b ->
  a + Z.of_nat k * th_gap t <= b /\ (forall now, nows !! i = Some now -> now <= a).
Proof.
  revert t i. induction nows as [|now nows IH]; intros t i Hg; [done|]. cbn.
  destruct i as [|i]; cbn.
  - intros [= <-] Hb. split; [|intros ? [= <-]; lia]. destruct k as [|k]; cbn in Hb; [simplify_eq; lia|].
    apply acquire_all_spaced in Hb; [|done]. cbn in Hb. lia.
  - intros Ha Hb. by apply (IH (mkThrottle (th_gap t) (Z.max (th_next_slot t) now + th_gap t)) i).
Qed.

Lemma throttle_rate_witness :
  let t := throttle_new 4 0 in
  acquire_all [0; 0; 10; 900000000] t = [0; 250000000; 500000000; 900000000]
  /\ 0 + Z.of_nat 3 * th_gap t <= 900000000.
Proof.
  intros t. split; [vm_compute; reflexivity|].
  apply (throttle_rate [0; 0; 10; 900000000] t 0 3 0 900000000); vm_compute; congruence.
Defined.
