(* ===== verification/Telemetry.v ===== *)
(** * Telemetry: [src/telemetry/mod.rs] and [src/telemetry/quicknode_usage.rs]

    The log subscriber, the limiter that repeating log lines go through, the task that polls the
    provider's usage API and the recorder's upkeep. Instants are nanoseconds of one monotonic clock; a limiter's counter is a [u64]. A line is
    written exactly when [check] returns [Some]. The recorder of the metrics is in [Metrics]; formatting
    is left to the libraries that do it. *)

From S2P Require Import Prelude Text.

(** ** The log limiter *)

(** [src/telemetry/mod.rs:108-111 LogLimiter] Per key: when it last logged, and what it kept quiet. *)
Record LogLimiter := mkLimiter { ll_interval : Z; ll_state : gmap string (Z * Z) }.

(** [src/telemetry/mod.rs:114-116 LogLimiter::new] *)
Definition limiter_new (interval : Z) : LogLimiter := mkLimiter interval ∅.

(** [src/telemetry/mod.rs:119-141 LogLimiter::check] With the instant [check_at] is given. *)
Definition check_at (key : string) (now : Z) (l : LogLimiter) : option Z * LogLimiter :=
  let put v := mkLimiter (ll_interval l) (<[key := v]> (ll_state l)) in
  match ll_state l !! key with
  | None => (Some 0, put (now, 0))
  | Some (last, suppressed) =>
      if ll_interval l <=? saturating_sub now last then (Some suppressed, put (now, 0))
      else (None, put (last, u64_add suppressed 1))
  end.

(** A sequence of checks, and what each answered. *)
Fixpoint check_all (calls : list (string * Z)) (l : LogLimiter) : list (option Z) * LogLimiter :=
  match calls with
  | [] => ([], l)
  | (key, now) :: calls =>
      let '(out, l) := check_at key now l in
      let '(outs, l) := check_all calls l in (out :: outs, l)
  end.

(** ** The subscriber *)

(** The process's log subscriber: its filter and whether lines are JSON. *)
Record Subscriber := mkSubscriber { sb_filter : string; sb_json : bool }.

(** [src/telemetry/mod.rs:19-29 init_logging] [from_env] is the environment's filter, if it has a valid
    one; the first subscriber of the process stays. *)
Definition init_logging (from_env : option string) (json : bool) (global : option Subscriber) : option Subscriber :=
  let filter := default "info,sqlx=warn,alloy=warn,hyper=warn"%string from_env in
  match global with Some s => Some s | None => Some (mkSubscriber filter json) end.

Lemma init_logging_once env env' json json' global :
  init_logging env' json' (init_logging env json global) = init_logging env json global.
Proof. by destruct global. Qed.

(** ** The periodic tasks *)

(** A periodic task's [select]: cancelled, or the tick with what its body read. *)
Inductive Ticked (A : Type) := TickCancelled | TickedWith (a : A).
Arguments TickCancelled {A}.
Arguments TickedWith {A} a.

Section usage.
(** [f64] readings, and the errors of the HTTP client. *)
Context {F E : Type}.

(** [src/telemetry/quicknode_usage.rs:13-17 Usage] *)
Record Usage := mkUsage { us_credits_used : option F; us_credits_remaining : option F }.

(** The two gauges, the flag of the loop, and the lines it wrote ([true]: recovered). *)
Record UsageTask := mkUsageTask {
  ut_used : option F;
  ut_remaining : option F;
  ut_failing : bool;
  ut_lines : list bool;
}.

Definition set_gauge (reading gauge : option F) : option F := from_option Some gauge reading.

(** [src/telemetry/quicknode_usage.rs:20-32 spawn (start)] No task without a key or a client. *)
Definition usage_spawn (api_key : string) (client_builds : bool) : option UsageTask :=
  if bool_decide (api_key = EmptyString) then None
  else if client_builds then Some (mkUsageTask None None false []) else None.

(** [src/telemetry/quicknode_usage.rs:48-66 spawn (match res)] *)
Definition usage_poll (res : result E Usage) (u : UsageTask) : UsageTask :=
  match res with
  | Ok env =>
      mkUsageTask (set_gauge (us_credits_used env) (ut_used u))
        (set_gauge (us_credits_remaining env) (ut_remaining u)) false
        (if ut_failing u then ut_lines u ++ [true] else ut_lines u)
  | Err _ =>
      if ut_failing u then u else mkUsageTask (ut_used u) (ut_remaining u) true (ut_lines u ++ [false])
  end.

(** [src/telemetry/quicknode_usage.rs:33-67 spawn (loop)] The state, and whether the task has ended. *)
Fixpoint usage_loop (evs : list (Ticked (result E Usage))) (u : UsageTask) : UsageTask * bool :=
  match evs with
  | [] => (u, false)
  | TickCancelled :: _ => (u, true)
  | TickedWith res :: evs => usage_loop evs (usage_poll res u)
  end.

Definition usage_polls (rs : list (result E Usage)) (u : UsageTask) : UsageTask :=
  foldl (fun u r => usage_poll r u) u rs.

(** The points at which a sequence of outcomes changes, starting from [prev]. *)
Fixpoint edges (prev : bool) (l : list bool) : list bool :=
  match l with
  | [] => []
  | b :: l => if Bool.eqb b prev then edges prev l else b :: edges b l
  end.

(** The task writes one line per change: a warning when an outage begins, a notice when it ends. *)
Lemma usage_lines_edges rs u :
  ut_lines (usage_polls rs u) = ut_lines u ++ edges (negb (ut_failing u)) (is_ok <$> rs).
Proof.
  revert u. induction rs as [|r rs IH]; intros u; cbn; [by rewrite app_nil_r|].
  change (ut_lines (usage_polls rs (usage_poll r u)) = ut_lines u
    ++ edges (negb (ut_failing u)) (is_ok r :: (is_ok <$> rs))).
  rewrite IH. destruct r as [env|e]; cbn; destruct (ut_failing u) eqn:Ef; cbn; rewrite ?Ef;
    by rewrite <- ?app_assoc.
Qed.

(** The readings before the cancellation, which is the last thing the task sees. *)
Fixpoint before_cancel {A} (evs : list (Ticked A)) : list A :=
  match evs with TickedWith a :: evs => a :: before_cancel evs | _ => [] end.

Definition last_ok (f : Usage -> option F) (rs : list (result E Usage)) (gauge : option F) : option F :=
  foldl (fun g r => match r with Ok env => set_gauge (f env) g | Err _ => g end) gauge rs.

(** The loop ends with the cancellation and only with it, polls once per tick before it, and the gauges
    show the last value the API gave, through any outages. *)
Lemma usage_loop_polls evs u :
  let rs := before_cancel evs in
  let '(u', ended) := usage_loop evs u in
  u' = usage_polls rs u /\ (ended = false <-> length rs = length evs)
  /\ ut_used u' = last_ok us_credits_used rs (ut_used u)
  /\ ut_remaining u' = last_ok us_credits_remaining rs (ut_remaining u).
Proof.
  cbv zeta. revert u. induction evs as [|[|res] evs IH]; intros u; [done|done|]. cbn [usage_loop before_cancel].
  specialize (IH (usage_poll res u)). destruct (usage_loop evs (usage_poll res u)) as [u' ended].
  destruct IH as (-> & Hl & Hu & Hr). split_and!; [done|cbn [length]; rewrite Hl; lia|rewrite Hu|rewrite Hr];
    unfold last_ok; cbn [foldl]; destruct res; cbn; by destruct (ut_failing u).
Qed.
End usage.

(** [src/telemetry/mod.rs:51-61 spawn_upkeep] What happens to the recorder's handle until the task is
    cancelled; the upkeep itself is the exporter's. *)
Fixpoint upkeep_loop {H} (run_upkeep : H -> H) (evs : list (Ticked unit)) (handle : H) : H * bool :=
  match evs with
  | [] => (handle, false)
  | TickCancelled :: _ => (handle, true)
  | TickedWith _ :: evs => upkeep_loop run_upkeep evs (run_upkeep handle)
  end.

(** ** Properties of the limiter *)

(** Of the calls for [key], how many there were, and what the lines written account for: one
    occurrence each, plus those they report as suppressed. *)
Definition occurrences (key : string) (calls : list (string * Z)) : Z :=
  sumZ (fun c => if bool_decide (c.1 = key) then 1 else 0) calls.
Definition accounted (key : string) (calls : list (string * Z)) (outs : list (option Z)) : Z :=
  sumZ (fun co => if bool_decide (co.1.1 = key) then from_option (fun n => n + 1) 0 co.2 else 0) (zip calls outs).
Definition suppressed_of (key : string) (l : LogLimiter) : Z := from_option snd 0 (ll_state l !! key).

Lemma check_at_accounts key now l key' :
  0 <= suppressed_of key' l -> suppressed_of key' l + 1 < 2 ^ 64 ->
  let '(out, l') := check_at key now l in
  suppressed_of key' l' + (if bool_decide (key = key') then from_option (fun n => n + 1) 0 out else 0)
    = suppressed_of key' l + (if bool_decide (key = key') then 1 else 0).
Proof.
  intros Hge Hlt. unfold check_at, suppressed_of in *. case_bool_decide as Hk.
  - subst key'. destruct (ll_state l !! key) as [[last n]|] eqn:E; cbn in *.
    + destruct (_ <=? _); cbn; rewrite lookup_insert_eq; cbn; [lia|]. rewrite u64_add_id; unfold in_u64; lia.
    + by rewrite lookup_insert_eq.
  - destruct (ll_state l !! key) as [[last n]|] eqn:E; cbn;
      [destruct (_ <=? _)|]; cbn; rewrite lookup_insert_ne by done; done.
Qed.

Lemma check_all_accounts calls key l :
  0 <= suppressed_of key l -> suppressed_of key l + Z.of_nat (length calls) < 2 ^ 64 ->
  let '(outs, l') := check_all calls l in
  accounted key calls outs + suppressed_of key l' = occurrences key calls + suppressed_of key l
  /\ 0 <= suppressed_of key l'.
Proof.
  revert l. induction calls as [|[k now] calls IH]; intros l Hge Hlt; [cbn; lia|].
  cbn [check_all length] in *. pose proof (check_at_accounts k now l key Hge ltac:(lia)) as Hc.
  destruct (check_at k now l) as [out l1] eqn:E.
  assert (Hge1 : 0 <= suppressed_of key l1 /\ suppressed_of key l1 + Z.of_nat (length calls) < 2 ^ 64).
  { revert E. unfold check_at. destruct (decide (k = key)) as [->|Hne].
    - unfold suppressed_of in *. destruct (ll_state l !! key) as [[last n]|]; cbn in *;
        [destruct (_ <=? _)|]; intros [= <- <-]; cbn in *; rewrite lookup_insert_eq; cbn; try lia.
      rewrite u64_add_id; unfold in_u64; lia.
    - rewrite bool_decide_eq_false_2 in Hc by done. lia. }
  specialize (IH l1 ltac:(lia) ltac:(lia)). destruct (check_all calls l1) as [outs l2].
  unfold accounted, occurrences, sumZ in *. cbn. cbn in Hc. lia.
Qed.

Lemma check_all_snoc calls key now l :
  check_all (calls ++ [(key, now)]) l =
  let '(outs, l1) := check_all calls l in
  let '(out, l2) := check_at key now l1 in (outs ++ [out], l2).
Proof.
  revert l. induction calls as [|[k t] calls IH]; intros l; cbn [check_all app].
  { by destruct (check_at key now l). }
  destruct (check_at k t l) as [out l1]. rewrite IH. destruct (check_all calls l1) as [outs l2].
  by destruct (check_at key now l2).
Qed.

Lemma check_all_length calls l : length (check_all calls l).1 = length calls.
Proof.
  revert l. induction calls as [|[k t] calls IH]; intros l; [done|]. cbn [check_all].
  destruct (check_at k t l) as [out l1]. specialize (IH l1). destruct (check_all calls l1). cbn in *. by rewrite IH.
Qed.

(** What the limiter answered, call by call: key, instant, answer. *)
Definition History := list (string * Z * option Z).

(** The limiter's memory of a key is the last line written for it. *)
Definition remembers (h : History) (l : LogLimiter) : Prop := forall key,
  match ll_state l !! key with
  | Some (last, _) => (exists i n, h !! i = Some (key, last, Some n))
      /\ (forall i t n, h !! i = Some (key, t, Some n) -> t <= last)
  | None => forall i t out, h !! i ≠ Some (key, t, out)
  end.

Definition spaced (interval : Z) (h : History) : Prop := forall i j key t t' n n', (i < j)%nat ->
  h !! i = Some (key, t, Some n) -> h !! j = Some (key, t', Some n') -> interval <= t' - t.

Definition quiet_after_line (interval : Z) (h : History) : Prop := forall j key t',
  h !! j = Some (key, t', None) -> exists i t n, (i < j)%nat /\ h !! i = Some (key, t, Some n) /\ t' - t < interval.

Lemma lookup_snoc {A} (l : list A) x i y :
  (l ++ [x]) !! i = Some y <-> l !! i = Some y \/ (i = length l /\ y = x).
Proof.
  rewrite lookup_snoc_Some. split; [intros [[? ?]|[-> ->]]; eauto|].
  intros [H|[-> ->]]; [left; split; [by eapply lookup_lt_Some|done]|by right].
Qed.

Definition put (key : string) (v : Z * Z) (l : LogLimiter) : LogLimiter :=
  mkLimiter (ll_interval l) (<[key := v]> (ll_state l)).

(** What the history says of a limiter: its memory, the spacing of the lines, why it was quiet. *)
Record history_ok (h : History) (l : LogLimiter) : Prop := {
  ho_remembers : remembers h l;
  ho_spaced : spaced (ll_interval l) h;
  ho_quiet : quiet_after_line (ll_interval l) h;
}.

Lemma quiet_snoc interval h e :
  quiet_after_line interval h -> (forall key t', e = (key, t', None) ->
    exists i t n, h !! i = Some (key, t, Some n) /\ t' - t < interval) ->
  quiet_after_line interval (h ++ [e]).
Proof.
  intros Hq He j key t' Hj. apply lookup_snoc in Hj as [Hj|[-> <-]].
  - destruct (Hq j key t' Hj) as (i & t & n & Hi & Hl & Ht). exists i, t, n. rewrite lookup_snoc. eauto.
  - destruct (He key t' eq_refl) as (i & t & n & Hl & Ht). exists i, t, n. rewrite lookup_snoc.
    split_and!; [by eapply lookup_lt_Some|eauto|done].
Qed.

Lemma remembers_other h l key now out v :
  remembers h l -> forall key', key' ≠ key ->
  match ll_state (put key v l) !! key' with
  | Some (last, _) => (exists i n, (h ++ [(key, now, out)]) !! i = Some (key', last, Some n))
      /\ (forall i t n, (h ++ [(key, now, out)]) !! i = Some (key', t, Some n) -> t <= last)
  | None => forall i t out', (h ++ [(key, now, out)]) !! i ≠ Some (key', t, out')
  end.
Proof.
  intros Hrem key' Hne. cbn. rewrite lookup_insert_ne by done. specialize (Hrem key').
  destruct (ll_state l !! key') as [[last n]|].
  - destruct Hrem as [(i & m & Hi) Hle]. split; [exists i, m; rewrite lookup_snoc; by left|].
    intros j t m'. rewrite lookup_snoc. intros [H|[_ [=]]]; [by eapply Hle|done].
  - intros i t out'. rewrite lookup_snoc. intros [H|[_ [=]]]; [by eapply Hrem|done].
Qed.

(** A line written: the key's earlier lines are an interval old. *)
Lemma line_history h l key now m :
  history_ok h l -> (forall i k t out, h !! i = Some (k, t, out) -> t <= now) ->
  (forall i t n, h !! i = Some (key, t, Some n) -> ll_interval l <= now - t) ->
  history_ok (h ++ [(key, now, Some m)]) (put key (now, 0) l).
Proof.
  intros [Hrem Hsp Hq] Hmono Hold. split.
  - intros key'. destruct (decide (key' = key)) as [->|Hne]; [|by apply remembers_other].
    cbn. rewrite lookup_insert_eq. split; [exists (length h), m; rewrite lookup_snoc; by right|].
    intros i t n. rewrite lookup_snoc. intros [H|[_ [= -> _]]]; [by eapply Hmono|done].
  - intros i j k t t' n n' Hij Hi Hj. apply lookup_snoc in Hi as [Hi|[-> _]]; apply lookup_snoc in Hj as [Hj|[-> [= -> -> _]]].
    + by eapply Hsp.
    + by eapply Hold.
    + apply lookup_lt_Some in Hj. lia.
    + lia.
  - by apply quiet_snoc.
Qed.

(** A line kept back: the key's last line is younger than the interval. *)
Lemma quiet_history h l key now last n n' :
  history_ok h l -> ll_state l !! key = Some (last, n) -> now - last < ll_interval l ->
  history_ok (h ++ [(key, now, None)]) (put key (last, n') l).
Proof.
  intros [Hrem Hsp Hq] E Hlt. pose proof (Hrem key) as Hk. rewrite E in Hk. destruct Hk as [(i0 & m & Hi0) Hle]. split.
  - intros key'. destruct (decide (key' = key)) as [->|Hne]; [|by apply remembers_other].
    cbn. rewrite lookup_insert_eq. split; [exists i0, m; rewrite lookup_snoc; by left|].
    intros i t m'. rewrite lookup_snoc. intros [H|[_ [=]]]. by eapply Hle.
  - intros i j k t t' m1 m2 Hij Hi Hj. apply lookup_snoc in Hi as [Hi|[_ [=]]]. apply lookup_snoc in Hj as [Hj|[_ [=]]].
    by eapply Hsp.
  - apply quiet_snoc; [done|]. intros k t' [= <- <-]. eauto.
Qed.

Lemma check_at_history h l key now :
  0 <= ll_interval l -> (forall i k t out, h !! i = Some (k, t, out) -> t <= now) -> history_ok h l ->
  let '(out, l') := check_at key now l in
  ll_interval l' = ll_interval l /\ history_ok (h ++ [(key, now, out)]) l'.
Proof.
  intros Hint Hmono Hok. pose proof (ho_remembers _ _ Hok key) as Hk. unfold check_at.
  destruct (ll_state l !! key) as [[last n]|] eqn:E.
  - destruct Hk as [(i0 & m & Hi0) Hle]. pose proof (Hmono _ _ _ _ Hi0).
    destruct (Z.leb_spec (ll_interval l) (saturating_sub now last)) as [Hge|Hlt]; unfold saturating_sub in *; split; try done.
    + apply (line_history h l key now n Hok Hmono). intros i t m' Hi. specialize (Hle i t m' Hi). lia.
    + apply (quiet_history h l key now last n _ Hok E). lia.
  - split; [done|]. apply (line_history h l key now 0 Hok Hmono). intros i t m Hi. by destruct (Hk i t (Some m)).
Qed.

Lemma check_all_history calls interval :
  0 <= interval -> StronglySorted Z.le (snd <$> calls) ->
  let '(outs, l) := check_all calls (limiter_new interval) in
  ll_interval l = interval /\ history_ok (zip calls outs) l.
Proof.
  intros Hint. induction calls as [|[key now] calls IH] using rev_ind; intros Hs.
  { split; [done|]. split; [intros key; cbn; rewrite lookup_empty; by intros|by intros i j key t t' n n' _|by intros j key t']. }
  rewrite check_all_snoc. pose proof (check_all_length calls (limiter_new interval)) as Hl.
  destruct (check_all calls (limiter_new interval)) as [outs l1]. cbn in Hl.
  rewrite fmap_app in Hs. cbn in Hs.
  destruct IH as [Ei Hok]. { by apply StronglySorted_app_1_l in Hs. }
  pose proof (check_at_history (zip calls outs) l1 key now) as Hstep. rewrite Ei in Hstep.
  specialize (Hstep Hint). destruct (check_at key now l1) as [out l2].
  rewrite zip_with_app by done. apply Hstep; [|done].
  intros i k t o Hi. apply lookup_zip_with_Some in Hi as (x & y & [= <-] & Hx & _).
  eapply (StronglySorted_app_1_elem_of _ _ _ _ _ Hs); [|by apply list_elem_of_singleton].
  apply list_elem_of_fmap. exists (k, t). split; [done|]. by eapply list_elem_of_lookup_2.
Qed.

(** The log limiter loses no occurrence and never floods: over any sequence of checks at
    non-decreasing instants, the lines written for a key account, with the suppressed counts they
    print, for every occurrence of it except those still counted; two lines of a key are an
    interval apart; and a check is quiet only within an interval of an earlier line of its key. *)
Theorem limiter_accounts (interval : Z) (calls : list (string * Z)) :
  0 <= interval -> StronglySorted Z.le (snd <$> calls) -> Z.of_nat (length calls) < 2 ^ 64 ->
  let '(outs, l) := check_all calls (limiter_new interval) in
  (forall key, accounted key calls outs + suppressed_of key l = occurrences key calls)
  /\ spaced interval (zip calls outs) /\ quiet_after_line interval (zip calls outs).
Proof.
  intros Hint Hs Hlen. pose proof (check_all_history calls interval Hint Hs) as Hh.
  pose proof (fun key => check_all_accounts calls key (limiter_new interval)) as Ha.
  destruct (check_all calls (limiter_new interval)) as [outs l]. destruct Hh as [<- [_ Hsp Hq]].
  split_and!; [|done..]. intros key. destruct (Ha key) as [-> _];
    unfold suppressed_of; cbn [ll_state limiter_new]; rewrite lookup_empty; cbn; lia.
Qed.

Lemma limiter_accounts_witness :
  let calls := [("a", 0); ("a", 5); ("b", 7); ("a", 9); ("a", 31)] in
  (check_all calls (limiter_new 30)).1 = [Some 0; None; Some 0; None; Some 2]
  /\ spaced 30 (zip calls [Some 0; None; Some 0; None; Some 2]).
Proof.
  intros calls. split; [vm_compute; reflexivity|].
  apply (limiter_accounts 30 calls); [lia| |cbn; lia].
  cbn. repeat (apply SSorted_cons; [|repeat (apply List.Forall_cons; [lia|]); apply List.Forall_nil]). apply SSorted_nil.
Defined.
