(* ===== verification/Store.v ===== *)
(** * Store: [src/store/mod.rs] and the schema of [migrations/]

    The database as a value and one definition per statement group. A table is a finite map from
    its primary key (for [transfers], whose [id] only serves to address a row the same transaction
    has selected, from its unique key) to its row. A transaction is a state transformer that fails
    with a [StoreError]; [run_tx] commits, rolls back or fails, so a failed transaction leaves the
    database as it was. Integer columns hold the signed 64-bit value the code binds and are cast
    back on the way out; [NUMERIC(78,0)] columns hold integers. What the process supplies from
    outside — the transaction's [now()], fresh UUIDs and the clock — is an [Env]. Isolation: the
    transactions that matter take the row locks named in the source, so each one is modelled as an
    atomic step. *)

From S2P Require Import Prelude Config Registry Cache Matcher Events.

(** ** Errors *)

(** The [sqlx::Error] cases the code tells apart, the constraint violations of the schema, and the
    statement that found no row. *)
Inductive DbError :=
  | PoolTimedOut
  | Io
  | Database (constraint : string)
  | RowNotFound.

(** [src/store/mod.rs:31-40 StoreError] *)
Inductive StoreError :=
  | Db (e : DbError)
  | Migrate
  | Corrupt (what : string)
  | MissingCursor (chain_id : Z).

(** [src/store/mod.rs:44-54 StoreError::kind] *)
Definition store_error_kind (e : StoreError) : string :=
  match e with
  | Db PoolTimedOut => "db_pool_timeout"
  | Db Io => "db_io"
  | Db (Database _) => "db_query"
  | Db _ => "db_other"
  | Migrate => "db_migrate"
  | Corrupt _ => "db_corrupt_row"
  | MissingCursor _ => "db_missing_cursor"
  end.

(** ** Rows *)

(** [src/store/mod.rs:123-140 WatchRow] The table row and, after [from_row], the struct. *)
Record WatchRow := mkWatch {
  w_id : Z;
  w_seq : Z;
  w_chain_id : Z;
  w_token_address : Z;
  w_payment_address : Z;
  w_threshold : Z;
  w_confirmed_amount : Z;
  w_webhook_url : string;
  w_status : WatchStatus;
  w_start_block : Z;
  w_backfill_to : option Z;
  w_next_event_seq : Z;
  w_created_at : Z;
  w_completed_at : option Z;
  w_expires_at : option Z;
}.

(** The unique key of [transfers]: (chain_id, block_hash, log_index). *)
Abbreviation TransferKey := (Z * Z * Z)%type.

(** [migrations/0001_init.sql:43-60 transfers] The columns outside the key. *)
Record TransferRec := mkTransfer {
  x_block_number : Z;
  x_tx_hash : Z;
  x_watch_id : Z;
  x_from_address : Z;
  x_amount : Z;
  x_status : TransferStatus;
  x_seen_at : Z;
  x_confirmed_at : option Z;
}.

(** [migrations/0001_init.sql:73-73 webhook_outbox.status] *)
Inductive OutboxStatus := OPending | ODelivered | ODead.
#[global] Instance OutboxStatus_eq_dec : EqDecision OutboxStatus.
Proof. solve_decision. Defined.

(** [migrations/0001_init.sql:66-81 webhook_outbox] *)
Record OutboxRec := mkOutbox {
  o_watch_id : Z;
  o_seq : Z;
  o_event_type : EventType;
  o_url : string;
  o_payload : EventPayload;
  o_status : OutboxStatus;
  o_attempts : Z;
  o_next_attempt_at : Z;
  o_last_status : option Z;
  o_last_error : option string;
  o_created_at : Z;
  o_delivered_at : option Z;
}.

(** [migrations/0001_init.sql:88-96 stats_rollup] *)
Record StatsRec := mkStats {
  s_confirmed_count : Z;
  s_orphaned_count : Z;
  s_confirmed_volume : Z;
  s_thresholds_reached : Z;
}.

Record DB := mkDB {
  d_cursors : gmap Z Z;
  d_watches : gmap Z WatchRow;
  d_transfers : gmap TransferKey TransferRec;
  d_outbox : gmap Z OutboxRec;
  d_stats : gmap (Z * Z) StatsRec;
  d_watch_seq : Z;
}.

Definition db_empty : DB := mkDB ∅ ∅ ∅ ∅ ∅ 0.

Definition set_cursors (f : gmap Z Z -> gmap Z Z) (d : DB) : DB :=
  mkDB (f (d_cursors d)) (d_watches d) (d_transfers d) (d_outbox d) (d_stats d) (d_watch_seq d).
Definition set_watches (f : gmap Z WatchRow -> gmap Z WatchRow) (d : DB) : DB :=
  mkDB (d_cursors d) (f (d_watches d)) (d_transfers d) (d_outbox d) (d_stats d) (d_watch_seq d).
Definition set_transfers (f : gmap TransferKey TransferRec -> gmap TransferKey TransferRec) (d : DB) : DB :=
  mkDB (d_cursors d) (d_watches d) (f (d_transfers d)) (d_outbox d) (d_stats d) (d_watch_seq d).
Definition set_outbox (f : gmap Z OutboxRec -> gmap Z OutboxRec) (d : DB) : DB :=
  mkDB (d_cursors d) (d_watches d) (d_transfers d) (f (d_outbox d)) (d_stats d) (d_watch_seq d).
Definition set_stats (f : gmap (Z * Z) StatsRec -> gmap (Z * Z) StatsRec) (d : DB) : DB :=
  mkDB (d_cursors d) (d_watches d) (d_transfers d) (d_outbox d) (f (d_stats d)) (d_watch_seq d).

(** Column updates of a watch row. *)
Definition with_next_event_seq (n : Z) (w : WatchRow) : WatchRow :=
  mkWatch (w_id w) (w_seq w) (w_chain_id w) (w_token_address w) (w_payment_address w) (w_threshold w)
    (w_confirmed_amount w) (w_webhook_url w) (w_status w) (w_start_block w) (w_backfill_to w) n
    (w_created_at w) (w_completed_at w) (w_expires_at w).
Definition with_confirmed_amount (a : Z) (w : WatchRow) : WatchRow :=
  mkWatch (w_id w) (w_seq w) (w_chain_id w) (w_token_address w) (w_payment_address w) (w_threshold w)
    a (w_webhook_url w) (w_status w) (w_start_block w) (w_backfill_to w) (w_next_event_seq w)
    (w_created_at w) (w_completed_at w) (w_expires_at w).
Definition with_status (st : WatchStatus) (at_ : Z) (w : WatchRow) : WatchRow :=
  mkWatch (w_id w) (w_seq w) (w_chain_id w) (w_token_address w) (w_payment_address w) (w_threshold w)
    (w_confirmed_amount w) (w_webhook_url w) st (w_start_block w) (w_backfill_to w) (w_next_event_seq w)
    (w_created_at w) (Some at_) (w_expires_at w).
Definition with_backfill_to (b : option Z) (w : WatchRow) : WatchRow :=
  mkWatch (w_id w) (w_seq w) (w_chain_id w) (w_token_address w) (w_payment_address w) (w_threshold w)
    (w_confirmed_amount w) (w_webhook_url w) (w_status w) (w_start_block w) b (w_next_event_seq w)
    (w_created_at w) (w_completed_at w) (w_expires_at w).

(** ** Transactions *)

Record Env := mkEnv {
  e_now : Z;            (* now(): the transaction's timestamp *)
  e_ids : nat -> Z;     (* successive results of Uuid::now_v7() *)
  e_clock : nat -> Z;   (* successive results of Utc::now() *)
}.

(** A transaction reads the environment, threads the database and the number of UUIDs drawn, and
    may fail. *)
Definition Tx (A : Type) : Type := Env -> DB * nat -> result StoreError (A * (DB * nat)).

#[global] Instance Tx_ret : MRet Tx := fun A a env s => Ok (a, s).
#[global] Instance Tx_bind : MBind Tx := fun A B f t env s =>
  match t env s with Ok (a, s') => f a env s' | Err e => Err e end.

Definition tx_fail {A} (e : StoreError) : Tx A := fun env s => Err e.
Definition tx_get : Tx DB := fun env s => Ok (s.1, s).
Definition tx_mod (f : DB -> DB) : Tx unit := fun env s => Ok (tt, (f s.1, s.2)).
Definition tx_now : Tx Z := fun env s => Ok (e_now env, s).
Definition tx_lift {A} (r : result StoreError A) : Tx A := fun env s =>
  match r with Ok a => Ok (a, s) | Err e => Err e end.

(** How a transaction body ends: [tx.commit()], or the transaction dropped. *)
Inductive tx_end (A : Type) := Commit (a : A) | Rollback (a : A).
Arguments Commit {A} a.
Arguments Rollback {A} a.

Definition run_tx {A} (env : Env) (db : DB) (t : Tx (tx_end A)) : result StoreError A * DB :=
  match t env (db, 0%nat) with
  | Ok (Commit a, s) => (Ok a, s.1)
  | Ok (Rollback a, _) => (Ok a, db)
  | Err e => (Err e, db)
  end.

(** ** Reading rows *)

(** [src/store/mod.rs:114-116 amount] A [NUMERIC(78,0)] cell read as [U256]; see [Numeric]. *)
Definition amount (cell : Z) : result StoreError Z :=
  if decide (in_u256 cell) then Ok cell else Err (Corrupt "NUMERIC value is not a uint256").

(** [src/store/mod.rs:143-161 WatchRow::from_row] *)
Definition from_row (r : WatchRow) : result StoreError WatchRow :=
  threshold ← amount (w_threshold r);
  confirmed ← amount (w_confirmed_amount r);
  Ok (mkWatch (w_id r) (w_seq r) (as_u64 (w_chain_id r)) (w_token_address r) (w_payment_address r)
        threshold confirmed (w_webhook_url r) (w_status r) (as_u64 (w_start_block r))
        (as_u64 <$> w_backfill_to r) (w_next_event_seq r) (w_created_at r) (w_completed_at r)
        (w_expires_at r)).

(** [src/store/mod.rs:163-176 WatchRow::view] *)
Definition watch_view (w : WatchRow) (chain : ChainSpec) : WatchView :=
  let token := from_option t_symbol "UNKNOWN" (token_by_address chain (w_token_address w)) in
  mkWatchView (w_id w) (ch_name chain) (ch_chain_id chain) token (w_token_address w)
    (w_payment_address w) (w_threshold w) (w_confirmed_amount w) (w_status w).

(** [src/store/mod.rs:178-184 WatchRow::cache_entry] *)
Definition cache_entry (w : WatchRow) (chain : ChainSpec) : option (WatchKey * WatchRef) :=
  token ← token_by_address chain (w_token_address w);
  Some (WatchKey_new (t_idx token) (w_payment_address w),
        mkWatchRef (w_id w) (w_seq w) (w_start_block w)).

(** [src/store/mod.rs:376-388 slim_entry] On a table row. A token removed from the configuration
    leaves its watches dormant. *)
Definition slim_entry (chain : ChainSpec) (r : WatchRow) : option (WatchKey * WatchRef) :=
  token ← token_by_address chain (w_token_address r);
  Some (WatchKey_new (t_idx token) (w_payment_address r),
        mkWatchRef (w_id r) (w_seq r) (as_u64 (w_start_block r))).

(** ** Statements on [watches] *)

(** [UPDATE watches SET ... WHERE id = $1 AND <guard> RETURNING *]: the new row, if one matched. *)
Definition update_watch (id : Z) (guard : WatchRow -> bool) (f : WatchRow -> WatchRow) : Tx (option WatchRow) :=
  d ← tx_get;
  match d_watches d !! id with
  | Some w =>
      if guard w then _ ← tx_mod (set_watches (<[id := f w]>)); mret (Some (f w))
      else mret None
  | None => mret None
  end.

Definition is_active (w : WatchRow) : bool := bool_decide (w_status w = Active).

(** [.fetch_one]: no row is an error. *)
Definition fetch_one {A} (o : option A) : Tx A := tx_lift (ok_or (Db RowNotFound) o).

(** [row.as_ref().map(WatchRow::from_row).transpose()] *)
Definition transpose_row (o : option WatchRow) : Tx (option WatchRow) :=
  match o with
  | Some r => w ← tx_lift (from_row r); mret (Some w)
  | None => mret None
  end.

(** The rows of a chain that satisfy a condition, [ORDER BY seq]. *)
Definition select_watches (d : DB) (p : WatchRow -> bool) : list WatchRow :=
  sort_by w_seq (List.filter p ((map_to_list (d_watches d)).*2)).

(** ** Outbox insert *)

(** [src/store/mod.rs:551-580 insert_event] Fails on a duplicate id, a duplicate (watch, sequence)
    or an unknown watch, as the constraints of [webhook_outbox] do. *)
Definition insert_event (chain : ChainSpec) (watch : WatchRow) (event_type : EventType)
    (transfer : option TransferView) : Tx Z := fun env s =>
  let '(d, k) := s in
  let id := e_ids env k in
  let payload := mkPayload id event_type (e_clock env k) (w_next_event_seq watch)
                   (watch_view watch chain) transfer in
  if bool_decide (is_Some (d_outbox d !! id)) then Err (Db (Database "webhook_outbox_pkey"))
  else if existsb (fun o => (o_watch_id o =? w_id watch) && (o_seq o =? w_next_event_seq watch))
            ((map_to_list (d_outbox d)).*2)
  then Err (Db (Database "webhook_outbox_watch_id_seq_key"))
  else if bool_decide (d_watches d !! w_id watch = None)
  then Err (Db (Database "webhook_outbox_watch_id_fkey"))
  else
    let row := mkOutbox (w_id watch) (w_next_event_seq watch) event_type (w_webhook_url watch) payload
                 OPending 0 (e_now env) None None (e_now env) None in
    Ok (id, (set_outbox (<[id := row]>) d, S k)).

(** ** Cursors *)

(** [src/store/mod.rs:211-222 ensure_cursor] *)
Definition ensure_cursor (db : DB) (chain_id head : Z) : Z * DB :=
  match d_cursors db !! as_i64 chain_id with
  | Some c => (as_u64 c, db)
  | None => (as_u64 (as_i64 head), set_cursors (<[as_i64 chain_id := as_i64 head]>) db)
  end.

(** [src/store/mod.rs:224-231 cursor] *)
Definition cursor (db : DB) (chain_id : Z) : result StoreError Z :=
  match d_cursors db !! as_i64 chain_id with
  | Some c => Ok (as_u64 c)
  | None => Err (MissingCursor chain_id)
  end.

(** The cursor row read under its lock inside a transaction. *)
Definition tx_cursor (chain_id : Z) : Tx Z :=
  d ← tx_get; tx_lift (cursor d chain_id).

(** ** Registration *)

(** [src/store/mod.rs:188-199 NewWatch] *)
Record NewWatch := mkNewWatch {
  n_chain_id : Z;
  n_token_address : Z;
  n_payment_address : Z;
  n_threshold : Z;
  n_webhook_url : string;
  n_expires_at : option Z;
  n_head_estimate : Z;
  n_lookback_blocks : Z;
}.

(** [src/store/mod.rs:202-208 CreateOutcome] *)
Inductive CreateOutcome :=
  | Created (w : WatchRow)
  | Existing (w : WatchRow)
  | Conflict (w : WatchRow).

(** [src/store/mod.rs:297-300 start_block] *)
Definition start_block (cursor head_estimate lookback : Z) : Z :=
  let base := Z.max cursor head_estimate in
  if lookback =? 0 then u64_add base 1
  else Z.min (u64_add base 1) (Z.max (saturating_sub base lookback) 1).

(** Same chain, token and address: the columns of the partial unique index. *)
Definition same_target (cid tok addr : Z) (w : WatchRow) : bool :=
  (w_chain_id w =? cid) && (w_token_address w =? tok) && (w_payment_address w =? addr).

(** The active watch on a target, if any: the conflict probe of the partial unique index. *)
Definition active_on (d : DB) (cid tok addr : Z) : option WatchRow :=
  List.find (fun w => same_target cid tok addr w && is_active w) ((map_to_list (d_watches d)).*2).

(** [INSERT INTO watches ... ON CONFLICT ... WHERE status = 'active' DO NOTHING RETURNING *]. The
    sequence number is drawn whether or not the row is inserted. *)
Definition insert_watch (row : Z -> WatchRow) : Tx (option WatchRow) := fun env s =>
  let '(d, k) := s in
  let r := row (d_watch_seq d + 1) in
  let d := mkDB (d_cursors d) (d_watches d) (d_transfers d) (d_outbox d) (d_stats d) (d_watch_seq d + 1) in
  if w_threshold r <=? 0 then Err (Db (Database "watches_threshold_check"))
  else match active_on d (w_chain_id r) (w_token_address r) (w_payment_address r) with
  | Some _ => Ok (None, (d, k))
  | None =>
      if bool_decide (is_Some (d_watches d !! w_id r)) then Err (Db (Database "watches_pkey"))
      else Ok (Some r, (set_watches (<[w_id r := r]>) d, k))
  end.

(** [Uuid::now_v7()] inside a transaction. *)
Definition tx_uuid : Tx Z := fun env s => Ok (e_ids env s.2, (s.1, S s.2)).

(** [src/store/mod.rs:242-293 create_watch] *)
Definition create_watch_tx (new : NewWatch) : Tx (tx_end CreateOutcome) :=
  cursor ← tx_cursor (n_chain_id new);
  let start := start_block cursor (n_head_estimate new) (n_lookback_blocks new) in
  let backfill_to := if start <=? cursor then Some cursor else None in
  id ← tx_uuid;
  now ← tx_now;
  inserted ← insert_watch (fun seq =>
    mkWatch id seq (as_i64 (n_chain_id new)) (n_token_address new) (n_payment_address new)
      (n_threshold new) 0 (n_webhook_url new) Active (as_i64 start) (as_i64 <$> backfill_to) 0
      now None (n_expires_at new));
  outcome ← match inserted with
    | Some row => w ← tx_lift (from_row row); mret (Created w)
    | None =>
        d ← tx_get;
        row ← fetch_one (active_on d (as_i64 (n_chain_id new)) (n_token_address new) (n_payment_address new));
        existing ← tx_lift (from_row row);
        mret (if (w_threshold existing =? n_threshold new)
                 && String.eqb (w_webhook_url existing) (n_webhook_url new)
              then Existing existing else Conflict existing)
    end;
  mret (Commit outcome).

(** [src/store/mod.rs:242-293 create_watch (committed)] *)
Definition create_watch (env : Env) (db : DB) (new : NewWatch) : result StoreError CreateOutcome * DB :=
  run_tx env db (create_watch_tx new).

(** [src/store/mod.rs:302-305 get_watch] *)
Definition get_watch (db : DB) (id : Z) : result StoreError (option WatchRow) :=
  match d_watches db !! id with
  | Some r => w ← from_row r; Ok (Some w)
  | None => Ok None
  end.

(** [src/store/mod.rs:308-316 cancel_watch] One statement outside a transaction; a row that does
    not decode is reported after the update has committed. *)
Definition cancel_watch (env : Env) (db : DB) (id : Z) : result StoreError (option WatchRow) * DB :=
  match d_watches db !! id with
  | Some w =>
      if is_active w then
        let w' := with_status Cancelled (e_now env) w in
        ((w'' ← from_row w'; Ok (Some w'')), set_watches (<[id := w']>) db)
      else (Ok None, db)
  | None => (Ok None, db)
  end.

(** ** Expiry *)

Definition overdue (cid now : Z) (w : WatchRow) : bool :=
  (w_chain_id w =? cid) && is_active w
  && match w_expires_at w with Some t => t <=? now | None => false end.

(** The ids the sub-select of [expire_watches] picks. *)
Definition overdue_ids (d : DB) (cid now limit : Z) : list Z :=
  w_id <$> take (Z.to_nat limit)
    (sort_by (fun w => default 0 (w_expires_at w))
       (List.filter (overdue cid now) ((map_to_list (d_watches d)).*2))).

(** [src/store/mod.rs:319-341 expire_watches] *)
Definition expire_watches_tx (chain : ChainSpec) (limit : Z) : Tx (tx_end (list WatchRow)) :=
  d ← tx_get;
  now ← tx_now;
  rows ← mfold (fun id acc =>
      o ← update_watch id (fun _ => true)
            (fun w => with_next_event_seq (w_next_event_seq w + 1) (with_status Expired now w));
      row ← fetch_one o;
      mret (acc ++ [row]))
    (overdue_ids d (as_i64 (ch_chain_id chain)) now limit) [];
  expired ← mfold (fun row acc =>
      watch ← tx_lift (from_row row);
      _ ← insert_event chain watch WatchExpired None;
      mret (acc ++ [watch])) rows [];
  mret (Commit expired).

(** [src/store/mod.rs:319-341 expire_watches (committed)] *)
Definition expire_watches (env : Env) (db : DB) (chain : ChainSpec) (limit : Z)
    : result StoreError (list WatchRow) * DB :=
  run_tx env db (expire_watches_tx chain limit).

(** ** Loading the watchlist *)

Definition active_on_chain (cid : Z) (w : WatchRow) : bool := (w_chain_id w =? cid) && is_active w.

(** [src/store/mod.rs:344-359 hydrate] The entries handed to the sink, in order. *)
Definition hydrate (db : DB) (chain : ChainSpec) : list (WatchKey * WatchRef) :=
  omap (slim_entry chain) (select_watches db (active_on_chain (as_i64 (ch_chain_id chain)))).

(** [src/store/mod.rs:361-374 load_watch_entry] *)
Definition load_watch_entry (db : DB) (chain : ChainSpec) (id : Z) : option (WatchKey * WatchRef) :=
  r ← d_watches db !! id;
  if active_on_chain (as_i64 (ch_chain_id chain)) r then slim_entry chain r else None.

(** [src/store/mod.rs:390-396 active_watch_count] *)
Definition active_watch_count (db : DB) (chain_id : Z) : Z :=
  Z.of_nat (length (List.filter (active_on_chain (as_i64 chain_id)) ((map_to_list (d_watches db)).*2))).

(** ** Transfers, read side *)

(** [src/store/mod.rs:403-413 TransferRow] *)
Record TransferRow := mkTransferRow {
  tr_tx_hash : Z;
  tr_log_index : Z;
  tr_block_number : Z;
  tr_block_hash : Z;
  tr_from_address : Z;
  tr_amount : Z;
  tr_status : TransferStatus;
  tr_seen_at : Z;
  tr_confirmed_at : option Z;
}.

(** [src/store/mod.rs:416-428 TransferRow::from_row] *)
Definition transfer_from_row (kx : TransferKey * TransferRec) : result StoreError TransferRow :=
  let '((_, bh, li), x) := kx in
  amt ← amount (x_amount x);
  Ok (mkTransferRow (x_tx_hash x) (as_u64 li) (as_u64 (x_block_number x)) bh (x_from_address x) amt
        (x_status x) (x_seen_at x) (x_confirmed_at x)).

(** [src/store/mod.rs:430-440 TransferRow::view] *)
Definition transfer_row_view (t : TransferRow) : TransferView :=
  mkTransferView (tr_tx_hash t) (tr_log_index t) (tr_block_number t) (tr_block_hash t)
    (tr_from_address t) (tr_amount t) (tr_status t).

(** (block_number, log_index) of a row, the order of every transfer query. *)
Definition transfer_order (kx : TransferKey * TransferRec) : Z * Z := (x_block_number kx.2, kx.1.2).

(** [src/store/mod.rs:443-450 transfers_for_watch] *)
Definition transfers_for_watch (db : DB) (watch_id limit : Z) : result StoreError (list TransferRow) :=
  mfold (fun kx acc => t ← transfer_from_row kx; Ok (acc ++ [t]))
    (take (Z.to_nat limit)
       (sort_by_key transfer_order
          (List.filter (fun kx => x_watch_id kx.2 =? watch_id) (map_to_list (d_transfers db))))) [].

Definition pending_on (cid : Z) (kx : TransferKey * TransferRec) : bool :=
  (kx.1.1.1 =? cid) && bool_decide (x_status kx.2 = Pending).

(** [src/store/mod.rs:453-459 pending_blocks] *)
Definition pending_blocks (db : DB) (chain_id : Z) : list Z :=
  remove_dups ((fun kx => as_u64 (x_block_number kx.2)) <$>
    List.filter (pending_on (as_i64 chain_id)) (map_to_list (d_transfers db))).

(** ** Statistics *)

(** [src/store/mod.rs:512-517 StatsDelta] *)
Record StatsDelta := mkDelta {
  sd_confirmed : Z;
  sd_orphaned : Z;
  sd_thresholds : Z;
  sd_volume : Z;
}.
Definition delta_zero : StatsDelta := mkDelta 0 0 0 0.

(** A sum in a [NUMERIC(78,0)] column. *)
Definition numeric_add (x y : Z) : result StoreError Z :=
  if x + y <? 10 ^ 78 then Ok (x + y) else Err (Db (Database "numeric field overflow")).

(** [src/store/mod.rs:519-543 apply_stats] *)
Definition apply_stats (chain_id tok : Z) (d : StatsDelta) : Tx unit :=
  db ← tx_get;
  let key := (as_i64 chain_id, tok) in
  row ← match d_stats db !! key with
    | None => mret (mkStats (sd_confirmed d) (sd_orphaned d) (sd_volume d) (sd_thresholds d))
    | Some s =>
        volume ← tx_lift (numeric_add (s_confirmed_volume s) (sd_volume d));
        mret (mkStats (s_confirmed_count s + sd_confirmed d) (s_orphaned_count s + sd_orphaned d) volume
                (s_thresholds_reached s + sd_thresholds d))
    end;
  tx_mod (set_stats (<[key := row]>)).

(** [src/store/mod.rs:466-476 StatsRow] *)
Record StatsRow := mkStatsRow {
  sr_chain_id : Z;
  sr_token_address : Z;
  sr_pending_count : Z;
  sr_confirmed_count : Z;
  sr_orphaned_count : Z;
  sr_confirmed_volume : Z;
  sr_thresholds_reached : Z;
  sr_active_watches : Z;
}.

Definition target_key (w : WatchRow) : Z * Z := (w_chain_id w, w_token_address w).

(** [src/store/mod.rs:478-509 stats] The pending count is joined from the group of active watches,
    so it is zero where no watch is active. *)
Definition stats (db : DB) : result StoreError (list StatsRow) :=
  let rows := (map_to_list (d_watches db)).*2 in
  let active := List.filter is_active rows in
  let keys : list (Z * Z) := remove_dups ((map_to_list (d_stats db)).*1 ++ (target_key <$> active)) in
  mfold (fun k acc =>
      let n := Z.of_nat (length (List.filter (fun w => bool_decide (target_key w = k)) active)) in
      let pending := Z.of_nat (length (List.filter (fun kx =>
          bool_decide (x_status kx.2 = Pending)
          && bool_decide (target_key <$> d_watches db !! x_watch_id kx.2 = Some k))
        (map_to_list (d_transfers db)))) in
      let s := default (mkStats 0 0 0 0) (d_stats db !! k) in
      volume ← amount (s_confirmed_volume s);
      Ok (acc ++ [mkStatsRow (as_u64 k.1) k.2 (if n =? 0 then 0 else pending) (s_confirmed_count s)
                    (s_orphaned_count s) volume (s_thresholds_reached s) n]))
    (sort_by_key id keys) [].
