(* ===== verification/Numeric.v ===== *)
(** * Numeric: the cell codecs and [connect] of [src/store/mod.rs]

    [U256] values live in [NUMERIC(78,0)] columns as arbitrary-precision decimals, addresses and
    hashes in [BYTEA] columns. The decimals are those of the [bigdecimal] and [num_bigint] crates:
    [Decimal] states what their documentation promises, and [from_numeric] is proved against it to
    be exactly [Store.amount], the reading of a cell the rest of the development uses. *)

From S2P Require Import Prelude Text Registry Store.

Inductive Sign := Minus | NoSign | Plus.

#[global] Instance Sign_eq_dec : EqDecision Sign.
Proof. solve_decision. Defined.

(** [BigDecimal] with the byte conversions of [BigInt]; a [BigInt] is a [Z]. *)
Class Decimal (D : Type) := {
  dec_new : Z -> Z -> D;
  with_scale : D -> Z -> D;
  into_bigint_and_exponent : D -> Z * Z;
  from_bytes_be : Sign -> list Z -> Z;
  to_bytes_be : Z -> Sign * list Z;
  (* the digits and the scale a number is made of *)
  into_new : forall n s, into_bigint_and_exponent (dec_new n s) = (n, s);
  (* a smaller scale drops digits, a larger one appends zeros *)
  into_with_scale : forall d s, into_bigint_and_exponent (with_scale d s) =
    let '(n, s0) := into_bigint_and_exponent d in
    (if s0 <=? s then n * 10 ^ (s - s0) else n `quot` 10 ^ (s0 - s), s);
  from_bytes_plus : forall bs, from_bytes_be Plus bs = be_value bs;
  (* sign and magnitude, without leading zero bytes *)
  to_bytes_sign : forall n, (to_bytes_be n).1 = Minus <-> n < 0;
  to_bytes_value : forall n, be_value (to_bytes_be n).2 = Z.abs n;
  to_bytes_ok : forall n, Forall byte_ok (to_bytes_be n).2;
  to_bytes_short : forall n b bs, (to_bytes_be n).2 = b :: bs -> bs ≠ [] -> b ≠ 0;
}.

(** Column decoders that read a fixed number of bytes. *)
Definition fixed_bytes (n : nat) (what : string) (bytes : list Z) : result StoreError Z :=
  if Nat.eqb (length bytes) n then Ok (be_value bytes) else Err (Corrupt what).

(** [src/store/mod.rs:104-107 address] *)
Definition address (col : string) (bytes : list Z) : result StoreError Z :=
  fixed_bytes 20 (col +:+ " is not 20 bytes") bytes.

(** [src/store/mod.rs:109-112 hash] *)
Definition hash (col : string) (bytes : list Z) : result StoreError Z :=
  fixed_bytes 32 (col +:+ " is not 32 bytes") bytes.

Section numeric.
Context {D : Type} `{!Decimal D}.

(** [src/store/mod.rs:91-93 to_numeric] *)
Definition to_numeric (v : Z) : D := dec_new (from_bytes_be Plus (be_bytes 32 v)) 0.

(** [src/store/mod.rs:95-102 from_numeric] *)
Definition from_numeric (v : D) : result StoreError Z :=
  let '(int, scale) := into_bigint_and_exponent (with_scale v 0) in
  let '(sign, bytes) := to_bytes_be int in
  if negb (scale =? 0) || bool_decide (sign = Minus) || (32 <? Z.of_nat (length bytes))
  then Err (Corrupt "NUMERIC value is not a uint256")
  else Ok (be_value bytes).

(** ** Lemmas *)

Lemma be_value_app bs cs : be_value (bs ++ cs) = be_value bs * 256 ^ Z.of_nat (length cs) + be_value cs.
Proof.
  induction cs as [|c cs IH] using rev_ind; [rewrite app_nil_r; cbn; lia|].
  rewrite app_assoc, !be_value_snoc, IH, length_app, Nat2Z.inj_add, Z.pow_add_r by lia.
  change (256 ^ Z.of_nat (length [c])) with 256. ring.
Qed.

(** A magnitude needs more than [n] bytes exactly when it is [256 ^ n] or more. *)
Lemma to_bytes_length (n : nat) (x : Z) :
  (0 < n)%nat -> Z.of_nat n < Z.of_nat (length (to_bytes_be x).2) <-> 256 ^ Z.of_nat n <= Z.abs x.
Proof.
  intros Hn. pose proof (to_bytes_ok x) as Hok. pose proof (to_bytes_short x) as Hsh.
  rewrite <- (to_bytes_value x). destruct ((to_bytes_be x).2) as [|b bs].
  { cbn. pose proof (Z.pow_pos_nonneg 256 (Z.of_nat n)). lia. }
  pose proof (be_value_bound _ Hok) as Hb. apply Forall_cons in Hok as [Hb0 Hok].
  pose proof (be_value_bound _ Hok) as Hbs. pose proof (be_value_app [b] bs) as E. cbn [app] in E.
  assert (be_value [b] = b) as Eb by (unfold be_value; cbn; lia). rewrite Eb in E. cbn [length] in *.
  split; intros H.
  - assert (b ≠ 0) by (apply (Hsh b bs eq_refl); intros ->; cbn in H; lia). unfold byte_ok in Hb0.
    assert (256 ^ Z.of_nat n <= 256 ^ Z.of_nat (length bs)) by (apply Z.pow_le_mono_r; lia). nia.
  - destruct (Z.lt_ge_cases (Z.of_nat n) (Z.of_nat (S (length bs)))) as [|Hle]; [done|].
    assert (256 ^ Z.of_nat (S (length bs)) <= 256 ^ Z.of_nat n) by (apply Z.pow_le_mono_r; lia). lia.
Qed.

(** [from_numeric] accepts exactly the [uint256] range of the integer part. *)
Lemma from_numeric_spec (v : D) :
  let n := (into_bigint_and_exponent (with_scale v 0)).1 in
  from_numeric v = if decide (in_u256 n) then Ok n else Err (Corrupt "NUMERIC value is not a uint256").
Proof.
  cbv zeta. unfold from_numeric.
  assert (Hs : (into_bigint_and_exponent (with_scale v 0)).2 = 0).
  { rewrite into_with_scale. by destruct (into_bigint_and_exponent v). }
  destruct (into_bigint_and_exponent (with_scale v 0)) as [n sc]. cbn in Hs. subst sc. cbn [fst].
  pose proof (to_bytes_sign n) as Hsg. pose proof (to_bytes_length 32 n ltac:(lia)) as Hlen.
  pose proof (to_bytes_value n) as Hv. destruct (to_bytes_be n) as [sg bs]. cbn [fst snd] in *.
  change (256 ^ Z.of_nat 32) with (2 ^ 256) in Hlen. change (Z.of_nat 32) with 32 in Hlen.
  change (negb (0 =? 0)) with false. cbn [orb]. destruct (decide (in_u256 n)) as [Hn|Hn]; unfold in_u256 in Hn.
  - rewrite bool_decide_false by (rewrite Hsg; lia). destruct (Z.ltb_spec 32 (Z.of_nat (length bs))) as [H%Hlen|]; [lia|].
    cbn. f_equal. lia.
  - case_bool_decide as Hm; [done|]. destruct (Z.ltb_spec 32 (Z.of_nat (length bs))) as [|H]; [done|].
    exfalso. apply Hn. assert (~ n < 0) by tauto. split; [lia|].
    destruct (Z.lt_ge_cases n (2 ^ 256)) as [|Hge]; [done|]. assert (32 < Z.of_nat (length bs)) by (apply Hlen; lia). lia.
Qed.

(** The number a decimal stands for, its fraction dropped. *)
Definition integer_part (v : D) : Z :=
  let '(n, s) := into_bigint_and_exponent v in if s <=? 0 then n * 10 ^ (- s) else n `quot` 10 ^ s.

(** The decimal stands for the integer [n], with whatever scale: [70000] may come as [7] with scale
    [-4], as [70000] with scale [0] or as [7000000] with scale [2]. *)
Definition denotes (v : D) (n : Z) : Prop :=
  let '(m, s) := into_bigint_and_exponent v in m * 10 ^ Z.max 0 (- s) = n * 10 ^ Z.max 0 s.

Lemma scale_zero (v : D) : (into_bigint_and_exponent (with_scale v 0)).1 = integer_part v.
Proof.
  rewrite into_with_scale. unfold integer_part. destruct (into_bigint_and_exponent v) as [n s]. cbn [fst].
  destruct (Z.leb_spec s 0); do 2 f_equal; lia.
Qed.

Lemma denotes_integer_part v n : denotes v n -> integer_part v = n.
Proof.
  unfold denotes, integer_part. destruct (into_bigint_and_exponent v) as [m s]. intros H. destruct (Z.leb_spec s 0).
  - rewrite Z.max_r, Z.max_l, Z.mul_1_r in H by lia. exact H.
  - rewrite Z.max_l, Z.max_r, Z.mul_1_r in H by lia. rewrite H. apply Z.quot_mul. pose proof (Z.pow_pos_nonneg 10 s). lia.
Qed.

Lemma denotes_new n s : 0 <= s -> denotes (dec_new (n * 10 ^ s) s) n.
Proof. intros Hs. unfold denotes. rewrite into_new, Z.max_l, Z.max_r by lia. apply Z.mul_1_r. Qed.

(** ** Properties *)

(** C34. Amounts survive the database: every [U256] written to a [NUMERIC] column reads back as
    itself, whatever scale the driver gives the decimal it reads; and reading an integral cell,
    again of any scale, is exactly [Store.amount]: the value when it is a [uint256], [Corrupt] when it is
    negative or too large. A fraction, which the columns' type rules out, is dropped. *)
Theorem numeric_roundtrip :
  (forall v, in_u256 v -> from_numeric (to_numeric v) = Ok v)
  /\ (forall v cell, in_u256 v -> into_bigint_and_exponent (to_numeric v) = (v, 0)
        /\ (denotes cell v -> from_numeric cell = Ok v))
  /\ (forall cell n, denotes cell n -> from_numeric cell = Store.amount n)
  /\ (forall cell, from_numeric cell = Store.amount (integer_part cell)).
Proof.
  assert (Hc : forall cell, from_numeric cell = Store.amount (integer_part cell)).
  { intros cell. pose proof (from_numeric_spec cell) as H. cbv zeta in H. by rewrite scale_zero in H. }
  assert (Hd : forall cell n, denotes cell n -> from_numeric cell = Store.amount n).
  { intros cell n H. by rewrite Hc, (denotes_integer_part _ _ H). }
  assert (Ha : forall v, in_u256 v -> Store.amount v = Ok v) by (intros v Hv; unfold Store.amount; by rewrite decide_True).
  assert (Ht : forall v, in_u256 v -> into_bigint_and_exponent (to_numeric v) = (v, 0)).
  { intros v Hv. unfold to_numeric. rewrite into_new, from_bytes_plus, be_value_be_bytes by exact Hv. done. }
  split_and!; [|split; [by apply Ht|]|done|done].
  - intros v Hv. rewrite (Hd _ v); [by apply Ha|]. unfold denotes. by rewrite Ht.
  - intros H1. rewrite (Hd _ _ H1). by apply Ha.
Qed.
End numeric.

(** Addresses and hashes survive too. *)
Lemma address_bytes col v : 0 <= v < 2 ^ 160 -> address col (be_bytes 20 v) = Ok v.
Proof. intros Hv. unfold address, fixed_bytes. rewrite length_be_bytes, Nat.eqb_refl. f_equal. by apply be_value_be_bytes. Qed.

Lemma hash_bytes col v : 0 <= v < 2 ^ 256 -> hash col (be_bytes 32 v) = Ok v.
Proof. intros Hv. unfold hash, fixed_bytes. rewrite length_be_bytes, Nat.eqb_refl. f_equal. by apply be_value_be_bytes. Qed.

(** ** [connect] *)

(** [src/store/mod.rs:60-80 connect] [reply n] is the outcome of attempt [n]. Also returns the
    delays slept, in milliseconds. *)
Fixpoint connect_loop {Pool} (reply : Z -> result StoreError Pool) (fuel : nat) (attempt delay : Z)
    : option (result StoreError Pool * list Z) :=
  match fuel with
  | O => None
  | S fuel =>
      let attempt := attempt + 1 in
      match reply attempt with
      | Ok pool => Some (Ok pool, [])
      | Err e =>
          if attempt <? 8 then
            '(r, slept) ← connect_loop reply fuel attempt (Z.min (delay * 2) 5000);
            Some (r, delay :: slept)
          else Some (Err e, [])
      end
  end.

Definition connect {Pool} (reply : Z -> result StoreError Pool) : option (result StoreError Pool * list Z) :=
  connect_loop reply 8 0 250.

(** The first of the next [n] attempts that succeeds, else the error of the last. *)
Fixpoint first_ok {Pool} (reply : Z -> result StoreError Pool) (n : nat) (attempt : Z) : result StoreError Pool :=
  match n with
  | O => reply attempt
  | S n => match reply attempt with Ok p => Ok p | Err _ => first_ok reply n (attempt + 1) end
  end.

Fixpoint delays (n : nat) (delay : Z) : list Z :=
  match n with O => [] | S n => delay :: delays n (Z.min (delay * 2) 5000) end.

Lemma connect_loop_total {Pool} (reply : Z -> result StoreError Pool) n attempt delay :
  attempt = 7 - Z.of_nat n ->
  exists slept, connect_loop reply (S n) attempt delay = Some (first_ok reply n (attempt + 1), slept)
    /\ slept `prefix_of` delays n delay.
Proof.
  revert attempt delay. induction n as [|n IH]; intros attempt delay Ha; cbn [connect_loop first_ok delays].
  - destruct (reply (attempt + 1)); [by exists []|]. replace (attempt + 1 <? 8) with false by lia. by exists [].
  - destruct (reply (attempt + 1)) as [p|e]; [exists []; split; [done|apply prefix_nil]|].
    replace (attempt + 1 <? 8) with true by lia.
    destruct (IH (attempt + 1) (Z.min (delay * 2) 5000) ltac:(lia)) as (slept & H & Hp).
    cbn [connect_loop] in H. rewrite H. cbn. exists (delay :: slept). split; [done|]. by apply prefix_cons.
Qed.

(** Connecting ends: at most eight attempts, the first success wins, the last error is returned,
    and at most 17.75 seconds are slept. *)
Lemma connect_total {Pool} (reply : Z -> result StoreError Pool) :
  exists slept, connect reply = Some (first_ok reply 7 1, slept)
    /\ slept `prefix_of` [250; 500; 1000; 2000; 4000; 5000; 5000].
Proof. exact (connect_loop_total reply 7 0 250 eq_refl). Qed.

(** ** An instance

    Decimals as pairs of digits and scale. *)

Fixpoint strip (bs : list Z) : list Z :=
  match bs with
  | b :: ((_ :: _) as bs') => if b =? 0 then strip bs' else bs
  | _ => bs
  end.

Definition magnitude (n : Z) : list Z := strip (be_bytes (S (Z.to_nat (Z.log2 (Z.abs n)))) (Z.abs n)).

Lemma strip_value bs : be_value (strip bs) = be_value bs.
Proof.
  induction bs as [|b [|b' bs] IH]; [done|done|]. cbn [strip]. destruct (Z.eqb_spec b 0) as [->|]; [|done].
  cbn [strip] in IH. rewrite IH. done.
Qed.

Lemma strip_ok bs : Forall byte_ok bs -> Forall byte_ok (strip bs).
Proof.
  induction bs as [|b [|b' bs] IH]; intros H; [done|done|]. cbn [strip]. destruct (b =? 0); [|done].
  apply IH. by apply Forall_cons in H as [_ H].
Qed.

Lemma strip_short bs b cs : strip bs = b :: cs -> cs ≠ [] -> b ≠ 0.
Proof.
  induction bs as [|b0 [|b' bs] IH]; [done|by intros [= <- <-]|]. cbn [strip].
  destruct (Z.eqb_spec b0 0) as [->|]; [apply IH|]. by intros [= <- <-].
Qed.

Lemma be_bytes_ok n v : Forall byte_ok (be_bytes n v).
Proof.
  revert v. induction n as [|n IH]; intros v; [done|]. cbn. apply Forall_app. split; [apply IH|].
  apply Forall_singleton, Z.mod_pos_bound. lia.
Qed.

Lemma magnitude_value n : be_value (magnitude n) = Z.abs n.
Proof.
  unfold magnitude. rewrite strip_value, be_value_be_bytes; [done|]. split; [lia|].
  rewrite Nat2Z.inj_succ, Z2Nat.id by apply Z.log2_nonneg.
  destruct (Z.eq_dec (Z.abs n) 0) as [->|Hne]; [by vm_compute|].
  eapply Z.lt_le_trans; [apply Z.log2_spec; lia|].
  apply (Z.pow_le_mono_l 2 256). lia.
Qed.

#[global, program] Instance pair_decimal : Decimal (Z * Z) := {
  dec_new n s := (n, s);
  with_scale d s := (if d.2 <=? s then d.1 * 10 ^ (s - d.2) else d.1 `quot` 10 ^ (d.2 - s), s);
  into_bigint_and_exponent d := d;
  from_bytes_be sg bs := match sg with Minus => - be_value bs | NoSign => 0 | Plus => be_value bs end;
  to_bytes_be n := (if n <? 0 then Minus else if n =? 0 then NoSign else Plus, magnitude n);
}.
Next Obligation. done. Qed.
Next Obligation. intros [n s0] s. done. Qed.
Next Obligation. done. Qed.
Next Obligation. intros n. cbn. destruct (Z.ltb_spec n 0); [|destruct (n =? 0)]; split; intros; first [done|exfalso; lia]. Qed.
Next Obligation. intros n. apply magnitude_value. Qed.
Next Obligation. intros n. apply strip_ok, be_bytes_ok. Qed.
Next Obligation. intros n b bs. apply strip_short. Qed.

(** The round trip and the rejections of the unit tests, evaluated. *)
Example numeric_max : from_numeric (to_numeric (D := Z * Z) (2 ^ 256 - 1)) = Ok (2 ^ 256 - 1).
Proof. vm_compute. reflexivity. Qed.

Example numeric_rejects :
  (from_numeric (-1, 0), from_numeric ((2 ^ 256 - 1) * 10, 0))
  = (Err (Corrupt "NUMERIC value is not a uint256"), Err (Corrupt "NUMERIC value is not a uint256")).
Proof. vm_compute. reflexivity. Qed.
