(* ===== verification/Sweep.v ===== *)
(** * Sweep: [src/store/sweep.rs]

    The two accounting transactions, [record_pending] on the head path and [apply_sweep], the only
    place amounts are counted and the cursor advances, with the backfill of watches registered
    late and the fast-forward over blocks nobody watches. The mutable [stats] and [out] arguments
    of [count_confirmed] are threaded. *)

From S2P Require Import Prelude Config Registry Cache Matcher Events Store.

(** [src/store/sweep.rs:21-31 transfer_view] *)
Definition transfer_view (m : MatchedTransfer) (status : TransferStatus) : TransferView :=
  mkTransferView (m_tx_hash m) (m_log_index m) (m_block_number m) (m_block_hash m) (m_from m)
    (m_amount m) status.

(** [src/store/sweep.rs:34-42 lock_active_watch] *)
Definition lock_active_watch (id : Z) : Tx (option WatchRow) :=
  row ← update_watch id is_active (fun w => with_next_event_seq (w_next_event_seq w + 1) w);
  transpose_row row.

(** The unique key a matched transfer is stored under. *)
Definition transfer_key (chain : ChainSpec) (m : MatchedTransfer) : TransferKey :=
  (as_i64 (ch_chain_id chain), m_block_hash m, as_i64 (m_log_index m)).

(** [src/store/sweep.rs:51-65 record_pending (INSERT)] [ON CONFLICT DO NOTHING RETURNING id]. *)
Definition insert_pending (chain : ChainSpec) (m : MatchedTransfer) (watch_id : Z) : Tx bool :=
  d ← tx_get;
  now ← tx_now;
  let key := transfer_key chain m in
  match d_transfers d !! key with
  | Some _ => mret false
  | None =>
      _ ← tx_mod (set_transfers (<[key :=
            mkTransfer (as_i64 (m_block_number m)) (m_tx_hash m) watch_id (m_from m) (m_amount m)
              Pending now None]>));
      mret true
  end.

(** [src/store/sweep.rs:46-74 record_pending] *)
Definition record_pending_tx (chain : ChainSpec) (m : MatchedTransfer) : Tx (tx_end bool) :=
  ow ← lock_active_watch (r_id (m_watch m));
  match ow with
  | None => mret (Rollback false)
  | Some watch =>
      inserted ← insert_pending chain m (w_id watch);
      if (inserted : bool) then
        _ ← insert_event chain watch PaymentPending (Some (transfer_view m Pending));
        mret (Commit true)
      else mret (Rollback false)
  end.

(** [src/store/sweep.rs:46-74 record_pending (committed)] *)
Definition record_pending (env : Env) (db : DB) (chain : ChainSpec) (m : MatchedTransfer)
    : result StoreError bool * DB :=
  run_tx env db (record_pending_tx chain m).

(** [src/store/sweep.rs:77-89 SweepOutcome] *)
Record SweepOutcome := mkOutcome {
  out_confirmed : list MatchedTransfer;
  out_confirmed_without_pending : Z;
  out_orphaned : Z;
  out_ignored : Z;
  out_completed : list (WatchKey * Z);
  out_discovered : list WatchKey;
  out_events : Z;
}.
Definition outcome_default : SweepOutcome := mkOutcome [] 0 0 0 [] [] 0.

(** [src/store/sweep.rs:92-99 SweepResult] *)
Inductive SweepResult :=
  | Applied (o : SweepOutcome)
  | CursorMoved (expected actual : Z).

(** [stats.entry(token).or_default()] followed by an update of the entry. *)
Definition stats_entry (f : StatsDelta -> StatsDelta) (tok : Z) (s : gmap Z StatsDelta) : gmap Z StatsDelta :=
  <[tok := f (default delta_zero (s !! tok))]> s.
Definition add_confirmed_delta (amt : Z) (d : StatsDelta) : StatsDelta :=
  mkDelta (sd_confirmed d + 1) (sd_orphaned d) (sd_thresholds d) (u256_add (sd_volume d) amt).
Definition add_threshold_delta (d : StatsDelta) : StatsDelta :=
  mkDelta (sd_confirmed d) (sd_orphaned d) (sd_thresholds d + 1) (sd_volume d).
Definition add_orphaned_delta (d : StatsDelta) : StatsDelta :=
  mkDelta (sd_confirmed d) (sd_orphaned d + 1) (sd_thresholds d) (sd_volume d).

Definition out_add_without_pending (o : SweepOutcome) : SweepOutcome :=
  mkOutcome (out_confirmed o) (out_confirmed_without_pending o + 1) (out_orphaned o) (out_ignored o)
    (out_completed o) (out_discovered o) (out_events o).
Definition out_add_event (o : SweepOutcome) : SweepOutcome :=
  mkOutcome (out_confirmed o) (out_confirmed_without_pending o) (out_orphaned o) (out_ignored o)
    (out_completed o) (out_discovered o) (out_events o + 1).
Definition out_add_completed (c : WatchKey * Z) (o : SweepOutcome) : SweepOutcome :=
  mkOutcome (out_confirmed o) (out_confirmed_without_pending o) (out_orphaned o) (out_ignored o)
    (out_completed o ++ [c]) (out_discovered o) (out_events o).
Definition out_add_confirmed (m : MatchedTransfer) (o : SweepOutcome) : SweepOutcome :=
  mkOutcome (out_confirmed o ++ [m]) (out_confirmed_without_pending o) (out_orphaned o) (out_ignored o)
    (out_completed o) (out_discovered o) (out_events o).
Definition out_add_ignored (o : SweepOutcome) : SweepOutcome :=
  mkOutcome (out_confirmed o) (out_confirmed_without_pending o) (out_orphaned o) (out_ignored o + 1)
    (out_completed o) (out_discovered o) (out_events o).
Definition out_add_orphaned (o : SweepOutcome) : SweepOutcome :=
  mkOutcome (out_confirmed o) (out_confirmed_without_pending o) (out_orphaned o + 1) (out_ignored o)
    (out_completed o) (out_discovered o) (out_events o).
Definition out_set_discovered (ks : list WatchKey) (o : SweepOutcome) : SweepOutcome :=
  mkOutcome (out_confirmed o) (out_confirmed_without_pending o) (out_orphaned o) (out_ignored o)
    (out_completed o) ks (out_events o).

(** [src/store/sweep.rs:116-132 count_confirmed (upsert)] [Some inserted] when a row was written,
    [None] when the stored row is not pending. An existing row keeps its [watch_id]. *)
Definition upsert_confirmed (chain : ChainSpec) (m : MatchedTransfer) (watch_id : Z) : Tx (option bool) :=
  d ← tx_get;
  now ← tx_now;
  let key := transfer_key chain m in
  match d_transfers d !! key with
  | None =>
      _ ← tx_mod (set_transfers (<[key :=
            mkTransfer (as_i64 (m_block_number m)) (m_tx_hash m) watch_id (m_from m) (m_amount m)
              Confirmed now (Some now)]>));
      mret (Some true)
  | Some x =>
      if bool_decide (x_status x = Pending) then
        _ ← tx_mod (set_transfers (<[key :=
              mkTransfer (x_block_number x) (x_tx_hash x) (x_watch_id x) (x_from_address x) (x_amount x)
                Confirmed (x_seen_at x) (Some now)]>));
        mret (Some false)
      else mret None
  end.

(** [src/store/sweep.rs:145-150 count_confirmed (add)] *)
Definition add_confirmed_amount (id amt : Z) : Tx WatchRow :=
  d ← tx_get;
  old ← fetch_one (d_watches d !! id);
  total ← tx_lift (numeric_add (w_confirmed_amount old) amt);
  o ← update_watch id (fun _ => true) (with_confirmed_amount total);
  row ← fetch_one o;
  tx_lift (from_row row).

(** [src/store/sweep.rs:158-165 count_confirmed (complete)] *)
Definition complete_watch (id : Z) : Tx WatchRow :=
  now ← tx_now;
  o ← update_watch id (fun _ => true)
        (fun w => with_next_event_seq (w_next_event_seq w + 1) (with_status Completed now w));
  row ← fetch_one o;
  tx_lift (from_row row).

(** [src/store/sweep.rs:104-173 count_confirmed] *)
Definition count_confirmed (chain : ChainSpec) (m : MatchedTransfer)
    (acc : gmap Z StatsDelta * SweepOutcome) : Tx (gmap Z StatsDelta * SweepOutcome) :=
  let '(stats, out) := acc in
  ow ← lock_active_watch (r_id (m_watch m));
  match ow with
  | None => mret (stats, out)
  | Some watch =>
      upserted ← upsert_confirmed chain m (w_id watch);
      match upserted with
      | None =>
          _ ← update_watch (w_id watch) (fun _ => true)
                (fun w => with_next_event_seq (w_next_event_seq w - 1) w);
          mret (stats, out)
      | Some inserted =>
          let out := if (inserted : bool) then out_add_without_pending out else out in
          watch ← add_confirmed_amount (w_id watch) (m_amount m);
          _ ← insert_event chain watch PaymentConfirmed (Some (transfer_view m Confirmed));
          let stats := stats_entry (add_confirmed_delta (m_amount m)) (w_token_address watch) stats in
          let out := out_add_event out in
          if w_threshold watch <=? w_confirmed_amount watch then
            watch ← complete_watch (w_id watch);
            _ ← insert_event chain watch ThresholdReached None;
            let stats := stats_entry add_threshold_delta (w_token_address watch) stats in
            let out := out_add_completed (WatchKey_new (m_token_idx m) (m_to m), w_id watch)
                         (out_add_event out) in
            mret (stats, out_add_confirmed m out)
          else mret (stats, out_add_confirmed m out)
      end
  end.

(** [src/store/sweep.rs:178-185 PendingBackfill] *)
Record PendingBackfill := mkBackfill {
  b_id : Z;
  b_seq : Z;
  b_token_address : Z;
  b_payment_address : Z;
  b_start_block : Z;
  b_backfill_to : Z;
}.

#[global] Instance PendingBackfill_eq_dec : EqDecision PendingBackfill.
Proof. solve_decision. Defined.

(** [src/store/sweep.rs:188-209 pending_backfills] *)
Definition pending_backfills (db : DB) (chain_id limit : Z) : list PendingBackfill :=
  omap (fun w => to ← w_backfill_to w;
          Some (mkBackfill (w_id w) (w_seq w) (w_token_address w) (w_payment_address w)
                  (as_u64 (w_start_block w)) (as_u64 to)))
    (take (Z.to_nat limit)
       (select_watches db (fun w => (w_chain_id w =? as_i64 chain_id)
                                    && bool_decide (is_Some (w_backfill_to w))))).

(** (block_number, log_index), the order transfers are counted in. *)
Definition matched_order (m : MatchedTransfer) : Z * Z := (m_block_number m, m_log_index m).

(** [src/store/sweep.rs:226-232 apply_backfill (scope loop body)] *)
Definition scope_add (chain : ChainSpec) (su : WatchCache * gmap Z Z) (b : PendingBackfill)
    : WatchCache * gmap Z Z :=
  match token_by_address chain (b_token_address b) with
  | Some token =>
      ((cache_insert su.1 (WatchKey_new (t_idx token) (b_payment_address b))
          (mkWatchRef (b_id b) (b_seq b) (b_start_block b))).2,
       <[b_id b := b_backfill_to b]> su.2)
  | None => su
  end.

(** [src/store/sweep.rs:223-233 apply_backfill (scope)] The scratch cache and the upper bounds. *)
Definition backfill_scope (chain : ChainSpec) (backfills : list PendingBackfill) : WatchCache * gmap Z Z :=
  foldl (scope_add chain) (cache_new, ∅) backfills.

(** [src/store/sweep.rs:234-240 apply_backfill (match)] *)
Definition backfill_matched (chain : ChainSpec) (backfills : list PendingBackfill) (logs : list Log)
    : list MatchedTransfer :=
  let '(scope, until) := backfill_scope chain backfills in
  sort_by_key matched_order
    (List.filter (fun m => match until !! r_id (m_watch m) with
                           | Some to => m_block_number m <=? to | None => false end)
       (omap (fun l => result_ok (match_log chain scope l))
          (List.filter (fun l => negb (l_removed l)) logs))).

(** [src/store/sweep.rs:250-254 apply_backfill (stats)] Also [apply_sweep]: 362-366. *)
Definition write_stats (chain : ChainSpec) (stats : gmap Z StatsDelta) : Tx unit :=
  mfold (fun td (_ : unit) => apply_stats (ch_chain_id chain) td.1 td.2)
    (sort_by fst (map_to_list stats)) tt.

(** [UPDATE watches SET backfill_to = NULL WHERE id = ANY($1)] *)
Definition clear_backfills (ids : list Z) (ws : gmap Z WatchRow) : gmap Z WatchRow :=
  foldr (alter (with_backfill_to None)) ws ids.

(** [src/store/sweep.rs:242-255 apply_backfill (transaction)] *)
Definition apply_backfill_tx (chain : ChainSpec) (backfills : list PendingBackfill) (logs : list Log)
    : Tx (tx_end SweepOutcome) :=
  so ← mfold (count_confirmed chain) (backfill_matched chain backfills logs) (∅, outcome_default);
  let '(stats, out) := so in
  _ ← tx_mod (set_watches (clear_backfills (b_id <$> backfills)));
  _ ← write_stats chain stats;
  mret (Commit out).

(** [src/store/sweep.rs:216-261 apply_backfill] *)
Definition apply_backfill (env : Env) (db : DB) (chain : ChainSpec) (cache : WatchCache)
    (backfills : list PendingBackfill) (logs : list Log) : result StoreError SweepOutcome * DB * WatchCache :=
  match run_tx env db (apply_backfill_tx chain backfills logs) with
  | (Ok out, db') => (Ok out, db', cache_remove_all cache (out_completed out))
  | (Err e, db') => (Err e, db', cache)
  end.

(** [src/store/sweep.rs:294-301 apply_sweep (delta load)] *)
Definition delta_load (db : DB) (chain : ChainSpec) (last_seq : Z) : list (WatchKey * WatchRef) :=
  omap (slim_entry chain)
    (select_watches db (fun w => active_on_chain (as_i64 (ch_chain_id chain)) w && (last_seq <? w_seq w))).

(** [src/store/sweep.rs:302-308 apply_sweep (load loop)] The cache after the load and the keys that
    were new to it. *)
Fixpoint load_entries (cache : WatchCache) (es : list (WatchKey * WatchRef)) : WatchCache * list WatchKey :=
  match es with
  | [] => (cache, [])
  | (key, watch) :: es =>
      let '(fresh, cache) := cache_insert cache key watch in
      let '(cache, ks) := load_entries cache es in
      (cache, if (fresh : bool) then key :: ks else ks)
  end.

(** [src/store/sweep.rs:310-312 apply_sweep (match)] *)
Definition sweep_matched (chain : ChainSpec) (cache : WatchCache) (logs : list Log) : list MatchedTransfer :=
  sort_by_key matched_order
    (omap (fun l => result_ok (match_log chain cache l)) (List.filter (fun l => negb (l_removed l)) logs)).

(** [src/store/sweep.rs:313-313 apply_sweep (canonical)] *)
Definition canonical_set (ms : list MatchedTransfer) : gset (Z * Z) :=
  list_to_set ((fun m => (m_block_hash m, m_log_index m)) <$> ms).

(** [src/store/sweep.rs:331-332 apply_sweep (all_canonical)] *)
Definition all_canonical_set (logs : list Log) : gset (Z * Z) :=
  list_to_set (omap (fun l => bh ← l_block_hash l; li ← l_log_index l; Some (bh, li))
    (List.filter (fun l => negb (l_removed l)) logs)).

(** [src/store/sweep.rs:320-328 apply_sweep (leftovers)] *)
Definition leftovers (d : DB) (cid to : Z) : list (TransferKey * TransferRec) :=
  sort_by_key transfer_order
    (List.filter (fun kx => pending_on cid kx && (x_block_number kx.2 <=? to)) (map_to_list (d_transfers d))).

(** [UPDATE transfers SET status = ... WHERE id = $1] *)
Definition set_transfer_status (st : TransferStatus) (x : TransferRec) : TransferRec :=
  mkTransfer (x_block_number x) (x_tx_hash x) (x_watch_id x) (x_from_address x) (x_amount x) st
    (x_seen_at x) (x_confirmed_at x).

(** [src/store/sweep.rs:333-359 apply_sweep (resolve one leftover)] *)
Definition resolve_leftover (chain : ChainSpec) (canonical all_canonical : gset (Z * Z))
    (kx : TransferKey * TransferRec) (acc : gmap Z StatsDelta * SweepOutcome)
    : Tx (gmap Z StatsDelta * SweepOutcome) :=
  let '(stats, out) := acc in
  let '(key, x) := kx in
  let block_hash := key.1.2 in
  let log_index := as_u64 key.2 in
  if bool_decide ((block_hash, log_index) ∈ canonical) || bool_decide ((block_hash, log_index) ∈ all_canonical)
  then
    _ ← tx_mod (set_transfers (alter (set_transfer_status Ignored) key));
    mret (stats, out_add_ignored out)
  else
    _ ← tx_mod (set_transfers (alter (set_transfer_status Orphaned) key));
    let out := out_add_orphaned out in
    ow ← lock_active_watch (x_watch_id x);
    match ow with
    | None => mret (stats, out)
    | Some watch =>
        amt ← tx_lift (amount (x_amount x));
        let view := mkTransferView (x_tx_hash x) log_index (as_u64 (x_block_number x)) block_hash
                      (x_from_address x) amt Orphaned in
        _ ← insert_event chain watch PaymentOrphaned (Some view);
        mret (stats_entry add_orphaned_delta (w_token_address watch) stats, out_add_event out)
    end.

(** [src/store/sweep.rs:310-372 apply_sweep (accounting)] *)
Definition sweep_account (chain : ChainSpec) (cache : WatchCache) (to : Z) (logs : list Log)
    (discovered : list WatchKey) : Tx SweepOutcome :=
  let matched := sweep_matched chain cache logs in
  so ← mfold (count_confirmed chain) matched (∅, out_set_discovered discovered outcome_default);
  d ← tx_get;
  so ← mfold (resolve_leftover chain (canonical_set matched) (all_canonical_set logs))
         (leftovers d (as_i64 (ch_chain_id chain)) (as_i64 to)) so;
  let '(stats, out) := so in
  _ ← write_stats chain stats;
  _ ← tx_mod (set_cursors (<[as_i64 (ch_chain_id chain) := as_i64 to]>));
  mret out.

(** [src/store/sweep.rs:270-378 apply_sweep] The delta load fills the shared cache before the
    accounting starts, so its insertions outlive a failed transaction. *)
Definition apply_sweep (env : Env) (db : DB) (chain : ChainSpec) (cache : WatchCache)
    (expected_cursor to : Z) (logs : list Log) : result StoreError SweepResult * DB * WatchCache :=
  match cursor db (ch_chain_id chain) with
  | Err e => (Err e, db, cache)
  | Ok actual =>
      if negb (actual =? expected_cursor) then (Ok (CursorMoved expected_cursor actual), db, cache)
      else
        let '(cache, discovered) := load_entries cache (delta_load db chain (cache_last_seq cache)) in
        match run_tx env db (out ← sweep_account chain cache to logs discovered; mret (Commit out)) with
        | (Ok out, db') => (Ok (Applied out), db', cache_remove_all cache (out_completed out))
        | (Err e, db') => (Err e, db', cache)
        end
  end.

(** [src/store/sweep.rs:381-387 min_active_start_block] *)
Definition min_active_start_block (db : DB) (chain_id : Z) : option Z :=
  as_u64 <$> list_min (w_start_block <$>
    List.filter (active_on_chain (as_i64 chain_id)) ((map_to_list (d_watches db)).*2)).

(** [src/store/sweep.rs:405-409 fast_forward_cursor (has_pending)] *)
Definition has_pending (db : DB) (chain_id : Z) : bool :=
  existsb (pending_on (as_i64 chain_id)) (map_to_list (d_transfers db)).

(** [src/store/sweep.rs:391-425 fast_forward_cursor] *)
Definition fast_forward_cursor (db : DB) (chain_id target : Z) : result StoreError Z * DB :=
  match cursor db chain_id with
  | Err e => (Err e, db)
  | Ok cur =>
      let min_start := min_active_start_block db chain_id in
      let ceiling := match min_start with
                     | Some start => saturating_sub start 1
                     | None => target
                     end in
      let new_cursor := if has_pending db chain_id then cur else Z.max cur (Z.min ceiling target) in
      (Ok new_cursor,
       if negb (new_cursor =? cur) then set_cursors (<[as_i64 chain_id := as_i64 new_cursor]>) db else db)
  end.
