(* ===== verification/Runtime.v ===== *)
(** * Runtime: [src/ingest/mod.rs] and [src/ingest/notify.rs]

    The shared handle to one chain: its cache, health and the two unbounded channels, with the
    operations the API, the notification listener and the chain's own tasks perform on it. Sends on
    a channel append to a list. A reply of the RPC client is its result with the health calls the
    client made. *)

From Stdlib Require Import Ascii.
From S2P Require Import Prelude Text Config Registry Cache Health Rpc Events Store.

(** [src/ingest/mod.rs:36-47 IngestError] *)
Inductive IngestError :=
  | IStore (e : StoreError)
  | IRpc (e : RpcFailure)
  | ChainIdMismatch (expected actual : Z)
  | TokenDecimalsMismatch (symbol : string) (address expected : Z) (actual : option Z)
  | LeadershipLost (what : string).

(** [src/ingest/mod.rs:50-58 IngestError::kind] *)
Definition ingest_error_kind (e : IngestError) : string :=
  match e with
  | IStore e => store_error_kind e
  | IRpc e => failure_kind e
  | ChainIdMismatch _ _ => "config_chain_id_mismatch"
  | TokenDecimalsMismatch _ _ _ _ => "config_token_decimals_mismatch"
  | LeadershipLost _ => "leadership_lost"
  end.

(** [src/ingest/mod.rs:62-67 SweepTrigger] *)
Inductive SweepTrigger := Now (reason : string) | PendingAt (block : Z).

(** [src/ingest/mod.rs:70-73 WatchChange] *)
Inductive WatchChange := Added (address : Z) | Removed.

(** [src/ingest/mod.rs:76-89 ChainRuntime] The state behind the handle. *)
Record ChainRuntime := mkRuntime {
  rt_cache : WatchCache;
  rt_health : Inner;
  rt_sweep_q : list SweepTrigger;
  rt_watch_q : list WatchChange;
  rt_hydrated : bool;
}.

(** [src/ingest/mod.rs:92-111 ChainRuntime::new] *)
Definition runtime_new : ChainRuntime := mkRuntime cache_new health_new [] [] false.

(** [src/ingest/mod.rs:114-119 ChainRuntime::add_watch] *)
Definition add_watch (rt : ChainRuntime) (key : WatchKey) (watch : WatchRef) : ChainRuntime :=
  let '(fresh, cache) := cache_insert (rt_cache rt) key watch in
  mkRuntime cache (rt_health rt) (rt_sweep_q rt)
    (if (fresh : bool) then rt_watch_q rt ++ [Added (k_address key)] else rt_watch_q rt) (rt_hydrated rt).

(** [src/ingest/mod.rs:121-126 ChainRuntime::remove_watch] *)
Definition remove_watch (rt : ChainRuntime) (key : WatchKey) (id : Z) : ChainRuntime :=
  let '(removed, cache) := cache_remove (rt_cache rt) key id in
  mkRuntime cache (rt_health rt) (rt_sweep_q rt)
    (if (removed : bool) then rt_watch_q rt ++ [Removed] else rt_watch_q rt) (rt_hydrated rt).

(** [src/ingest/mod.rs:128-138 ChainRuntime::note_cache_changed] *)
Definition note_cache_changed (rt : ChainRuntime) (added : list WatchKey) (removed : nat) : ChainRuntime :=
  mkRuntime (rt_cache rt) (rt_health rt) (rt_sweep_q rt)
    (rt_watch_q rt ++ ((fun key => Added (k_address key)) <$> added) ++ replicate removed Removed)
    (rt_hydrated rt).

(** [src/ingest/mod.rs:144-146 ChainRuntime::request_sweep] *)
Definition request_sweep (rt : ChainRuntime) (trigger : SweepTrigger) : ChainRuntime :=
  mkRuntime (rt_cache rt) (rt_health rt) (rt_sweep_q rt ++ [trigger]) (rt_watch_q rt) (rt_hydrated rt).

(** [src/ingest/mod.rs:149-151 ChainRuntime::head_estimate] *)
Definition head_estimate (rt : ChainRuntime) : Z := health_head (rt_health rt).

Definition with_cache (c : WatchCache) (rt : ChainRuntime) : ChainRuntime :=
  mkRuntime c (rt_health rt) (rt_sweep_q rt) (rt_watch_q rt) (rt_hydrated rt).

Definition stall_of (chain : ChainSpec) : Z := cc_head_stall_threshold_ms (ch_cfg chain).

(** Health calls made on behalf of the chain. *)
Definition note_health (chain : ChainSpec) (ops : list HealthOp) (rt : ChainRuntime) : ChainRuntime :=
  mkRuntime (rt_cache rt) (health_run (stall_of chain) ops (rt_health rt)).1 (rt_sweep_q rt) (rt_watch_q rt)
    (rt_hydrated rt).

Abbreviation Reply T := (result RpcFailure T * list HealthOp)%type.

(** [src/rpc/mod.rs:103-107 RpcClient::block_number] The reply of [run], with the head observed. *)
Definition block_number (now : Z) (r : Reply Z) : Reply Z :=
  match r.1 with Ok head => (Ok head, r.2 ++ [ObserveHead head now]) | Err e => r end.

(** [src/ingest/mod.rs:164-174 ChainRuntime::bootstrap (decimals)] *)
Fixpoint check_decimals (chain : ChainSpec) (decimals : Z -> Reply (option Z)) (tokens : list TokenSpec)
    (rt : ChainRuntime) : result IngestError unit * ChainRuntime :=
  match tokens with
  | [] => (Ok tt, rt)
  | token :: tokens =>
      let '(r, ops) := decimals (t_address token) in
      let rt := note_health chain ops rt in
      match r with
      | Err e => (Err (IRpc e), rt)
      | Ok actual =>
          if bool_decide (actual = Some (t_decimals token)) then check_decimals chain decimals tokens rt
          else (Err (TokenDecimalsMismatch (t_symbol token) (t_address token) (t_decimals token) actual), rt)
      end
  end.

(** [src/ingest/mod.rs:159-196 ChainRuntime::bootstrap] *)
Definition bootstrap (now : Z) (chain : ChainSpec) (chain_id : Reply Z) (decimals : Z -> Reply (option Z))
    (head : Reply Z) (db : DB) (rt : ChainRuntime) : result IngestError unit * DB * ChainRuntime :=
  let rt := note_health chain chain_id.2 rt in
  match chain_id.1 with
  | Err e => (Err (IRpc e), db, rt)
  | Ok actual =>
      if negb (actual =? ch_chain_id chain) then (Err (ChainIdMismatch (ch_chain_id chain) actual), db, rt)
      else match check_decimals chain decimals (ch_tokens chain) rt with
      | (Err e, rt) => (Err e, db, rt)
      | (Ok _, rt) =>
          let '(r, ops) := block_number now head in
          let rt := note_health chain ops rt in
          match r with
          | Err e => (Err (IRpc e), db, rt)
          | Ok h =>
              let '(cursor, db) := ensure_cursor db (ch_chain_id chain) h in
              let rt := with_cache (cache_insert_all (rt_cache rt) (hydrate db chain)) rt in
              let rt := mkRuntime (rt_cache rt) (rt_health rt) (rt_sweep_q rt) (rt_watch_q rt) true in
              (Ok tt, db, note_health chain [ObserveSweep cursor now] rt)
          end
      end
  end.

(** [src/ingest/mod.rs:200-202 leadership_key] *)
Definition leadership_key (chain_id : Z) : Z :=
  Z.lxor (Z.shiftl 0x47554D 40) (Z.land (as_i64 chain_id) 0xFFFFFFFFFF).

(** [src/ingest/mod.rs:212-213 run_chain (fatal)] *)
Definition is_fatal (e : IngestError) : bool :=
  match e with ChainIdMismatch _ _ | TokenDecimalsMismatch _ _ _ _ => true | _ => false end.

(** [src/ingest/mod.rs:219-220 run_chain (bootstrap backoff)] The time slept and the next backoff, in
    milliseconds. *)
Definition bootstrap_backoff (backoff : Z) (e : IngestError) : Z * Z :=
  (Z.max backoff (if is_fatal e then 30000 else backoff), Z.min (backoff * 2) 30000).

(** [src/ingest/mod.rs:242-243 run_chain (restart backoff)] *)
Definition restart_backoff (backoff : Z) : Z * Z := (backoff, Z.min (backoff * 2) 15000).

(** ** [src/ingest/notify.rs] *)

(** [src/ingest/notify.rs:18-20 announce_added] *)
Definition announce_added (show_id : Z -> string) (chain_id id : Z) : string :=
  "add:" +:+ show_u64 chain_id +:+ ":" +:+ show_id id.

(** [src/ingest/notify.rs:22-24 announce_removed] *)
Definition announce_removed (show_id : Z -> string) (chain_id id : Z) : string :=
  "remove:" +:+ show_u64 chain_id +:+ ":" +:+ show_id id.

Inductive NotifyOp := NotifyAdd | NotifyRemove | NotifyOther.

(** [src/ingest/notify.rs:71-74 handle (parse)] [splitn(3, ':')] and the two parses; [parse_id] reads
    a UUID. *)
Definition parse_payload (parse_id : string -> option Z) (payload : string) : option (NotifyOp * Z * Z) :=
  '(op, rest) ← split_once ":"%char payload;
  '(chain_id, id) ← split_once ":"%char rest;
  chain_id ← parse_u64 chain_id;
  id ← parse_id id;
  Some (if String.eqb op "add" then NotifyAdd else if String.eqb op "remove" then NotifyRemove else NotifyOther,
        chain_id, id).

(** [src/ingest/notify.rs:75-91 handle] On the chain the payload names. *)
Definition handle (db : DB) (chain : ChainSpec) (op : NotifyOp) (id : Z) (rt : ChainRuntime) : ChainRuntime :=
  match op with
  | NotifyAdd =>
      match load_watch_entry db chain id with
      | Some (key, watch) => add_watch rt key watch
      | None => rt
      end
  | NotifyRemove =>
      match get_watch db id with
      | Ok (Some row) =>
          match cache_entry row chain with
          | Some (key, _) => remove_watch rt key id
          | None => rt
          end
      | _ => rt
      end
  | NotifyOther => rt
  end.

(** ** Lemmas *)

Lemma check_decimals_Ok chain decimals tokens rt rt' :
  check_decimals chain decimals tokens rt = (Ok tt, rt') ->
  rt_cache rt' = rt_cache rt
  /\ forall t, t ∈ tokens -> (decimals (t_address t)).1 = Ok (Some (t_decimals t)).
Proof.
  revert rt. induction tokens as [|t tokens IH]; intros rt H; cbn in H.
  { injection H as <-. split; [done|]. by intros t ?%not_elem_of_nil. }
  destruct (decimals (t_address t)) as [r ops] eqn:Hd. destruct r as [actual|e]; [|done].
  case_bool_decide as Ha; [|done]. apply IH in H as [E Hall]. split; [exact E|].
  intros t' [->|Hin]%elem_of_cons; [by rewrite Hd, Ha|auto].
Qed.

Lemma lxor_cancel_l a b b' : Z.lxor a b = Z.lxor a b' -> b = b'.
Proof.
  intros H. apply (f_equal (Z.lxor a)) in H.
  by rewrite <- !Z.lxor_assoc, Z.lxor_nilpotent, !Z.lxor_0_l in H.
Qed.

Lemma announce_parse (show_id : Z -> string) (parse_id : string -> option Z) (chain_id id : Z) :
  parse_id (show_id id) = Some id -> in_u64 chain_id ->
  parse_payload parse_id (announce_added show_id chain_id id) = Some (NotifyAdd, chain_id, id)
  /\ parse_payload parse_id (announce_removed show_id chain_id id) = Some (NotifyRemove, chain_id, id).
Proof.
  intros Hid Hc. pose proof (parse_show_u64 chain_id Hc) as Hp.
  assert (Hs : split_once ":"%char (show_u64 chain_id +:+ String ":" (show_id id)) = Some (show_u64 chain_id, show_id id)).
  { apply split_once_app; [|done]. eapply digits_value_all_digits, digits_value_show; [lia|].
    unfold in_u64 in Hc. change (10 ^ Z.of_nat 20) with (10 ^ 20). lia. }
  unfold parse_payload, announce_added, announce_removed.
  change (split_once ":"%char ("add:" +:+ ?x)) with (Some ("add"%string, x)).
  change (split_once ":"%char ("remove:" +:+ ?x)) with (Some ("remove"%string, x)).
  cbn [mbind option_bind].
  change (show_u64 chain_id +:+ ":" +:+ show_id id) with (show_u64 chain_id +:+ String ":" (show_id id)).
  rewrite Hs. cbn [mbind option_bind]. rewrite Hp. cbn [mbind option_bind]. rewrite Hid. done.
Qed.

Lemma announce_added_parse show_id parse_id chain_id id :
  parse_id (show_id id) = Some id -> in_u64 chain_id ->
  parse_payload parse_id (announce_added show_id chain_id id) = Some (NotifyAdd, chain_id, id).
Proof. intros H1 H2. by apply announce_parse. Qed.

(** ** Properties *)

(** A chain is led by one instance and no two chains contend for one lock: the advisory lock
    keys of chains with distinct ids below 2^40 are distinct, and each fits a [BIGINT]. *)
Theorem leadership_key_distinct (c c' : Z) :
  0 <= c < 2 ^ 40 -> 0 <= c' < 2 ^ 40 ->
  (leadership_key c = leadership_key c' -> c = c') /\ - 2 ^ 63 <= leadership_key c < 2 ^ 63.
Proof.
  intros Hc Hc'. unfold leadership_key.
  assert (Hmask : forall x, 0 <= x < 2 ^ 40 -> Z.land (as_i64 x) 0xFFFFFFFFFF = x).
  { intros x Hx. rewrite as_i64_id by (unfold in_i63; lia).
    change 0xFFFFFFFFFF with (Z.ones 40). rewrite Z.land_ones by lia. by apply Z.mod_small. }
  rewrite !Hmask by done. split.
  - apply lxor_cancel_l.
  - assert (H : 0 <= Z.lxor (Z.shiftl 0x47554D 40) c < 2 ^ 63); [|lia].
    split; [apply Z.lxor_nonneg; split; intros _; [lia|apply Z.shiftl_nonneg; lia]|].
    destruct (Z.eq_dec (Z.lxor (Z.shiftl 0x47554D 40) c) 0) as [->|Hne]; [lia|].
    apply Z.log2_lt_cancel. rewrite Z.log2_pow2 by lia.
    assert (0 <= Z.lxor (Z.shiftl 0x47554D 40) c) by (apply Z.lxor_nonneg; split; intros _; [lia|apply Z.shiftl_nonneg; lia]).
    eapply Z.le_lt_trans; [apply Z.log2_lxor; [apply Z.shiftl_nonneg; lia|lia]|].
    apply Z.max_lub_lt; [vm_compute; done|].
    destruct (Z.eq_dec c 0) as [->|]; [cbn; lia|]. apply Z.le_lt_trans with 39; [|lia].
    apply Z.lt_succ_r, Z.log2_lt_pow2; lia.
Qed.

Lemma leadership_key_distinct_witness :
  leadership_key 8453 = 5140099212108636421 /\ - 2 ^ 63 <= leadership_key 8453 < 2 ^ 63.
Proof.
  split; [vm_compute; reflexivity|].
  exact (proj2 (leadership_key_distinct 8453 1 ltac:(vm_compute; split; congruence) ltac:(vm_compute; split; congruence))).
Defined.
