(* ===== verification/Sweeper.v ===== *)
(** * Sweeper: [src/ingest/sweeper.rs]

    The authoritative pass over a chain: expire, read the head, fast-forward the cursor, fetch and
    apply chunk after chunk up to the confirmation depth, then backfill. What the pass meets
    outside is a [World]: the node's replies, the clock, the transactions' environments and
    whatever other tasks and instances commit to the database and to the shared runtime between
    two awaits. Each await of the source draws one tick of the world. The effects the pass has
    besides its state (requests made, chunks committed, the dispatcher woken) are recorded in order.

    Times are nanoseconds. The two loops take fuel; [Sweeper.sweep_chunks_total] and
    [Sweeper.backfill_fetch_total] give the amount that is always enough. *)

From Stdlib Require Import Ascii.
From S2P Require Import Prelude Text Config Registry Cache Matcher Events Health Rpc Store Sweep.
From S2P Require Import Runtime.

(** [src/ingest/sweeper.rs:29-29 BACKFILL_BATCH] *)
Definition BACKFILL_BATCH : Z := 50.

(** [src/ingest/sweeper.rs:31-42 Sweeper] *)
Record Sweeper := mkSweeper {
  s_pending_blocks : gset Z;
  s_range : Z;
  s_ceiling : Z;
  s_ceiling_set_at : Z;
  s_last_head_probe : Z;
}.

Definition with_span (range ceiling set_at : Z) (s : Sweeper) : Sweeper :=
  mkSweeper (s_pending_blocks s) range ceiling set_at (s_last_head_probe s).
Definition with_pending_blocks (f : gset Z -> gset Z) (s : Sweeper) : Sweeper :=
  mkSweeper (f (s_pending_blocks s)) (s_range s) (s_ceiling s) (s_ceiling_set_at s) (s_last_head_probe s).
Definition with_head_probe (now : Z) (s : Sweeper) : Sweeper :=
  mkSweeper (s_pending_blocks s) (s_range s) (s_ceiling s) (s_ceiling_set_at s) now.

(** [src/ingest/sweeper.rs:46-53 run (initial state)] *)
Definition sweeper_new (db : DB) (chain : ChainSpec) (now : Z) : Sweeper :=
  mkSweeper (list_to_set (pending_blocks db (ch_chain_id chain))) (cc_max_log_range (ch_cfg chain))
    (cc_max_log_range (ch_cfg chain)) now now.

(** [src/ingest/sweeper.rs:117-127 range_limit_hint] *)
Definition range_limit_hint (message : string) : option Z :=
  tail ← after_first "limited to" (to_ascii_lowercase message);
  let digits :=
    filter_chars (fun c => negb (Ascii.eqb c ","%char))
      (take_while (fun c => is_ascii_digit c || Ascii.eqb c ","%char)
         (skip_while (fun c => negb (is_ascii_digit c)) tail)) in
  n ← parse_u64 digits;
  if 0 <? n then Some n else None.

(** [src/ingest/sweeper.rs:130-133 Sweeper::depth_delay] *)
Definition depth_delay (chain : ChainSpec) (blocks : Z) : Z :=
  let bt := block_time (ch_cfg chain) * 10 ^ 6 in
  bt * as_u32 (Z.max blocks 1) + Z.max (bt `div` 4) (50 * 10 ^ 6).

(** [src/ingest/sweeper.rs:221-242 Sweeper::shrink_range] *)
Definition shrink_range (now from to : Z) (error : string) (s : Sweeper) : Sweeper :=
  let span := u64_add (u64_sub to from) 1 in
  let halved := Z.max (span `div` 2) 1 in
  let range := match range_limit_hint error with
               | Some limit => if limit <? span then Z.max limit 1 else halved
               | None => halved
               end in
  with_span range range now s.

(** [src/ingest/sweeper.rs:203-208 Sweeper::sweep (re-probe and grow)] *)
Definition grow_range (max_log_range now : Z) (s : Sweeper) : Sweeper :=
  let ceiling := if (s_ceiling s <? max_log_range) && (3600 * 10 ^ 9 <? now - s_ceiling_set_at s)
                 then max_log_range else s_ceiling s in
  let range := if s_range s <? ceiling then Z.min (u64_mul (s_range s) 2) ceiling else s_range s in
  with_span range ceiling (s_ceiling_set_at s) s.

(** An [eth_getLogs] filter on the [Transfer] topic; [None] leaves the recipient open. *)
Record Filter := mkFilter {
  f_address : list Z;
  f_recipients : option (list Z);
  f_from_block : Z;
  f_to_block : Z;
}.

(** Besides state, what the pass does. *)
Inductive Effect :=
  | Asked (f : Filter) (answer : result RpcErrorClass (list Log))
  | Swept (from to : Z)
  | Backfilled (ids : list Z)
  | Woke.

(** The outside, by tick. *)
Record World := mkWorld {
  wo_logs : nat -> Filter -> Reply (list Log);
  wo_head : nat -> Reply Z;
  wo_now : nat -> Z;
  wo_env : nat -> Env;
  wo_others : nat -> DB * ChainRuntime -> DB * ChainRuntime;
  wo_display : RpcFailure -> string;
  wo_pool_closed : nat -> bool;
}.

(** The sweeper with the state it shares. *)
Record St := mkSt {
  st_s : Sweeper;
  st_db : DB;
  st_rt : ChainRuntime;
  st_t : nat;
  st_trace : list Effect;
}.

Definition set_s (f : Sweeper -> Sweeper) (st : St) : St :=
  mkSt (f (st_s st)) (st_db st) (st_rt st) (st_t st) (st_trace st).
Definition set_db (db : DB) (st : St) : St := mkSt (st_s st) db (st_rt st) (st_t st) (st_trace st).
Definition set_rt (f : ChainRuntime -> ChainRuntime) (st : St) : St :=
  mkSt (st_s st) (st_db st) (f (st_rt st)) (st_t st) (st_trace st).
Definition emit (es : list Effect) (st : St) : St :=
  mkSt (st_s st) (st_db st) (st_rt st) (st_t st) (st_trace st ++ es).

(** [if out.events > 0 { dispatcher_wake.notify_one() }] *)
Definition wake_if (b : bool) : list Effect := if b then [Woke] else [].

Inductive chunks_end :=
  | Reached (cursor : Z)
  | Yielded
  | Failed (e : IngestError).

Section sweeper.
Variable w : World.
Variable chain : ChainSpec.

(** An await: one tick passes and the others run. *)
Definition await (st : St) : St :=
  let '(db, rt) := wo_others w (st_t st) (st_db st, st_rt st) in
  mkSt (st_s st) db rt (S (st_t st)) (st_trace st).

Definition now_of (st : St) : Z := wo_now w (st_t st).
Definition env_of (st : St) : Env := wo_env w (st_t st).

(** [src/rpc/mod.rs:113-115 RpcClient::get_logs] *)
Definition get_logs (f : Filter) (st : St) : result RpcFailure (list Log) * St :=
  let st := await st in
  let '(r, ops) := wo_logs w (st_t st) f in
  (r, emit [Asked f (match r with Ok l => Ok l | Err e => Err (failure_class e) end)]
        (set_rt (note_health chain ops) st)).

(** [src/ingest/sweeper.rs:357-377 Sweeper::expire] *)
Definition expire (st : St) : St :=
  let st := await st in
  let '(r, db) := expire_watches (env_of st) (st_db st) chain 500 in
  let st := set_db db st in
  match r with
  | Ok ((_ :: _) as expired) =>
      emit [Woke] (set_rt (fun rt => foldl (fun rt row =>
        match cache_entry row chain with
        | Some (key, _) => remove_watch rt key (w_id row)
        | None => rt
        end) rt expired) st)
  | _ => st
  end.

(** [src/ingest/sweeper.rs:163-209 Sweeper::sweep (while)] *)
Fixpoint sweep_chunks (fuel : nat) (target cursor : Z) (st : St) : option (chunks_end * St) :=
  match fuel with
  | O => None
  | S fuel =>
      if negb (cursor <? target) then Some (Reached cursor, st)
      else
        let from := u64_add cursor 1 in
        let to := Z.min (u64_sub (u64_add from (s_range (st_s st))) 1) target in
        let '(reply, st) := get_logs (mkFilter (log_addresses chain) None from to) st in
        match reply with
        | Err e =>
            if bool_decide (failure_class e = RangeTooLarge) && (1 <? s_range (st_s st)) then
              sweep_chunks fuel target cursor
                (set_s (shrink_range (now_of st) from to (wo_display w e)) st)
            else if bool_decide (failure_class e = AheadOfHead) then Some (Reached cursor, st)
            else Some (Failed (IRpc e), st)
        | Ok logs =>
            let st := await st in
            let '(r, db, cache) := apply_sweep (env_of st) (st_db st) chain (rt_cache (st_rt st)) cursor to logs in
            let st := set_rt (with_cache cache) (set_db db st) in
            match r with
            | Err e => Some (Failed (IStore e), st)
            | Ok (CursorMoved _ _) => Some (Yielded, st)
            | Ok (Applied out) =>
                let st := emit (Swept from to :: wake_if (0 <? out_events out))
                  (set_rt (fun rt => note_health chain [ObserveSweep to (now_of st `div` 10 ^ 6)]
                     (note_cache_changed rt (out_discovered out) (length (out_completed out)))) st) in
                sweep_chunks fuel target to (set_s (grow_range (cc_max_log_range (ch_cfg chain)) (now_of st)) st)
            end
        end
  end.

(** [src/ingest/sweeper.rs:266-286 Sweeper::backfill (while)] *)
Fixpoint backfill_fetch (fuel : nat) (tokens recipients : list Z) (at_ to : Z) (logs : list Log) (st : St)
    : option (result IngestError (list Log) * St) :=
  match fuel with
  | O => None
  | S fuel =>
      if negb (at_ <=? to) then Some (Ok logs, st)
      else
        let end_ := Z.min (u64_sub (u64_add at_ (s_range (st_s st))) 1) to in
        let '(reply, st) := get_logs (mkFilter tokens (Some recipients) at_ end_) st in
        match reply with
        | Ok found => backfill_fetch fuel tokens recipients (u64_add end_ 1) to (logs ++ found) st
        | Err e =>
            if bool_decide (failure_class e = RangeTooLarge) && (1 <? s_range (st_s st)) then
              backfill_fetch fuel tokens recipients at_ to logs
                (set_s (shrink_range (now_of st) at_ end_ (wo_display w e)) st)
            else Some (Err (IRpc e), st)
        end
  end.

(** [src/ingest/sweeper.rs:258-263 Sweeper::backfill (tokens)] [sort_unstable] and [dedup]. *)
Definition backfill_tokens (batch : list PendingBackfill) : list Z :=
  sort_dedup (omap (fun b => t_log_address <$> token_by_address chain (b_token_address b)) batch).

(** [src/ingest/sweeper.rs:247-308 Sweeper::backfill] *)
Fixpoint backfill (fuel : nat) (st : St) : option (result IngestError unit * St) :=
  match fuel with
  | O => None
  | S fuel' =>
      let st := await st in
      let batch := pending_backfills (st_db st) (ch_chain_id chain) BACKFILL_BATCH in
      match list_min (b_start_block <$> batch), list_max (b_backfill_to <$> batch) with
      | Some from, Some to =>
          '(r, st) ← backfill_fetch fuel (backfill_tokens batch) (into_word ∘ b_payment_address <$> batch)
                       from to [] st;
          match r with
          | Err e => Some (Err e, st)
          | Ok logs =>
              let st := await st in
              let '(r, db, cache) := apply_backfill (env_of st) (st_db st) chain (rt_cache (st_rt st)) batch logs in
              let st := set_rt (with_cache cache) (set_db db st) in
              match r with
              | Err e => Some (Err (IStore e), st)
              | Ok out =>
                  let st := emit (Backfilled (b_id <$> batch) :: wake_if (0 <? out_events out))
                    (set_rt (fun rt => note_cache_changed rt [] (length (out_completed out))) st) in
                  if Z.of_nat (length batch) <? BACKFILL_BATCH then Some (Ok tt, st) else backfill fuel' st
              end
          end
      | _, _ => Some (Ok tt, st)
      end
  end.

(** [src/ingest/sweeper.rs:136-217 Sweeper::sweep] *)
Definition sweep (fuel : nat) (st : St) : option (result IngestError (option Z) * St) :=
  let st := expire st in
  let st := set_s (with_head_probe (now_of st)) st in
  let st := await st in
  let '(head, ops) := block_number (now_of st `div` 10 ^ 6) (wo_head w (st_t st)) in
  let st := set_rt (note_health chain ops) st in
  match head with
  | Err e => Some (Err (IRpc e), st)
  | Ok head =>
      let target := saturating_sub head (cc_confirmations (ch_cfg chain)) in
      let st := await st in
      let '(r, db) := fast_forward_cursor (st_db st) (ch_chain_id chain) target in
      let st := set_db db st in
      match r with
      | Err e => Some (Err (IStore e), st)
      | Ok cursor =>
          '(e, st) ← sweep_chunks fuel target cursor st;
          match e with
          | Failed e => Some (Err e, st)
          | Yielded => Some (Ok None, st)
          | Reached cursor =>
              let st := set_s (with_pending_blocks (filter (fun b => cursor < b))) st in
              '(r, st) ← backfill fuel st;
              match r with
              | Err e => Some (Err e, st)
              | Ok _ =>
                  Some (Ok ((fun first => depth_delay chain
                    (Z.min (saturating_sub first target) (cc_confirmations (ch_cfg chain))))
                    <$> list_min (elements (s_pending_blocks (st_s st)))), st)
              end
          end
      end
  end.

(** [src/ingest/sweeper.rs:54-63 run (loop state)] *)
Record Loop := mkLoop {
  lp_st : St;
  lp_due : option Z;
  lp_next : option string;
  lp_last_safety : Z;
}.

(** [src/ingest/sweeper.rs:59-63 run (startup)] *)
Definition loop_new (st : St) : Loop := mkLoop st None (Some "startup"%string) (now_of st).

(** The branches of the [select]. *)
Inductive Wake := Cancelled | Recv (trigger : option SweepTrigger) | DueElapsed | TickElapsed.

(** [src/ingest/sweeper.rs:66-81 run (sweep)] [inr] is what [run] returns. *)
Definition loop_sweep (fuel : nat) (l : Loop) : option (Loop + result IngestError unit) :=
  match lp_next l with
  | None => Some (inl l)
  | Some reason =>
      '(r, st) ← sweep fuel (lp_st l);
      match r with
      | Ok again_in => Some (inl (mkLoop st ((fun d => now_of st + d) <$> again_in) None (now_of st)))
      | Err e =>
          if match e with IStore _ => wo_pool_closed w (st_t st) | _ => false end then Some (inr (Err e))
          else Some (inl (mkLoop st (Some (now_of st + 2 * 10 ^ 9)) None (now_of st)))
      end
  end.

(** [src/ingest/sweeper.rs:105-110 run (idle probe)] *)
Definition idle_probe (st : St) : St :=
  let st := set_s (with_head_probe (now_of st)) st in
  let st := await st in
  expire (set_rt (note_health chain (block_number (now_of st `div` 10 ^ 6) (wo_head w (st_t st))).2) st).

(** [src/ingest/sweeper.rs:89-112 run (select)] *)
Definition loop_wake (ev : Wake) (l : Loop) : Loop + result IngestError unit :=
  let st := lp_st l in
  let now := now_of st in
  let cfg := ch_cfg chain in
  match ev with
  | Cancelled | Recv None => inr (Ok tt)
  | Recv (Some (Now reason)) => inl (mkLoop st (lp_due l) (Some reason) (lp_last_safety l))
  | Recv (Some (PendingAt block)) =>
      let at_ := now + depth_delay chain (cc_confirmations cfg) in
      inl (mkLoop (set_s (with_pending_blocks (fun bs => {[block]} ∪ bs)) st)
             (Some (match lp_due l with Some d => Z.min d at_ | None => at_ end)) (lp_next l) (lp_last_safety l))
  | DueElapsed => inl (mkLoop st None (Some "pending_depth"%string) (lp_last_safety l))
  | TickElapsed =>
      let active := negb (cache_is_empty (rt_cache (st_rt st)))
                    || negb (bool_decide (s_pending_blocks (st_s st) = ∅)) in
      if active && (cc_safety_sweep_interval_ms cfg * 10 ^ 6 <=? now - lp_last_safety l) then
        inl (mkLoop st (lp_due l) (Some "safety"%string) (lp_last_safety l))
      else if negb active && (cc_idle_probe_interval_ms cfg * 10 ^ 6 <=? now - s_last_head_probe (st_s st)) then
        inl (mkLoop (idle_probe st) (lp_due l) (lp_next l) (lp_last_safety l))
      else inl l
  end.

(** ** The chunk loop as a relation *)

Definition chunk_to (cursor target : Z) (st : St) : Z :=
  Z.min (u64_sub (u64_add (u64_add cursor 1) (s_range (st_s st))) 1) target.

(** The request for the chunk after [cursor] and the state with its reply. *)
Definition asked (target cursor : Z) (st : St) : result RpcFailure (list Log) * St :=
  get_logs (mkFilter (log_addresses chain) None (u64_add cursor 1) (chunk_to cursor target st)) st.

(** The state after the transaction that applied a chunk. *)
Definition applied (cursor to : Z) (out : SweepOutcome) (db : DB) (cache : WatchCache) (st : St) : St :=
  let st := set_rt (with_cache cache) (set_db db st) in
  let st := emit (Swept (u64_add cursor 1) to :: wake_if (0 <? out_events out))
    (set_rt (fun rt => note_health chain [ObserveSweep to (now_of st `div` 10 ^ 6)]
       (note_cache_changed rt (out_discovered out) (length (out_completed out)))) st) in
  set_s (grow_range (cc_max_log_range (ch_cfg chain)) (now_of st)) st.

Definition shrunk (target cursor : Z) (e : RpcFailure) (st0 st : St) : St :=
  set_s (shrink_range (now_of st) (u64_add cursor 1) (chunk_to cursor target st0) (wo_display w e)) st.

Inductive chunks_run (target : Z) : Z -> St -> chunks_end -> St -> Prop :=
  | cr_done cursor st : target <= cursor -> chunks_run target cursor st (Reached cursor) st
  | cr_shrink cursor st e st1 r st' :
      cursor < target -> asked target cursor st = (Err e, st1) ->
      failure_class e = RangeTooLarge -> 1 < s_range (st_s st1) ->
      chunks_run target cursor (shrunk target cursor e st st1) r st' ->
      chunks_run target cursor st r st'
  | cr_ahead cursor st e st1 :
      cursor < target -> asked target cursor st = (Err e, st1) ->
      failure_class e = AheadOfHead -> chunks_run target cursor st (Reached cursor) st1
  | cr_rpc cursor st e st1 :
      cursor < target -> asked target cursor st = (Err e, st1) ->
      failure_class e ≠ AheadOfHead -> chunks_run target cursor st (Failed (IRpc e)) st1
  | cr_store cursor st logs st1 e db cache :
      cursor < target -> asked target cursor st = (Ok logs, st1) ->
      apply_sweep (env_of (await st1)) (st_db (await st1)) chain (rt_cache (st_rt (await st1))) cursor
        (chunk_to cursor target st) logs = (Err e, db, cache) ->
      chunks_run target cursor st (Failed (IStore e)) (set_rt (with_cache cache) (set_db db (await st1)))
  | cr_moved cursor st logs st1 c c' db cache :
      cursor < target -> asked target cursor st = (Ok logs, st1) ->
      apply_sweep (env_of (await st1)) (st_db (await st1)) chain (rt_cache (st_rt (await st1))) cursor
        (chunk_to cursor target st) logs = (Ok (CursorMoved c c'), db, cache) ->
      chunks_run target cursor st Yielded (set_rt (with_cache cache) (set_db db (await st1)))
  | cr_chunk cursor st logs st1 out db cache r st' :
      cursor < target -> asked target cursor st = (Ok logs, st1) ->
      apply_sweep (env_of (await st1)) (st_db (await st1)) chain (rt_cache (st_rt (await st1))) cursor
        (chunk_to cursor target st) logs = (Ok (Applied out), db, cache) ->
      chunks_run target (chunk_to cursor target st)
        (applied cursor (chunk_to cursor target st) out db cache (await st1)) r st' ->
      chunks_run target cursor st r st'.

Lemma sweep_chunks_run fuel target cursor st r st' :
  sweep_chunks fuel target cursor st = Some (r, st') -> chunks_run target cursor st r st'.
Proof.
  revert cursor st. induction fuel as [|fuel IH]; intros cursor st H; [done|]. cbn [sweep_chunks] in H.
  destruct (cursor <? target) eqn:Hlt; cbn [negb] in H.
  2:{ simplify_eq. apply Z.ltb_ge in Hlt. by constructor. }
  apply Z.ltb_lt in Hlt. cbv zeta in H.
  change (get_logs _ st) with (asked target cursor st) in H.
  destruct (asked target cursor st) as [[logs|e] st1] eqn:Ha.
  - change (Z.min _ target) with (chunk_to cursor target st) in H.
    destruct (apply_sweep _ _ _ _ _ _ _) as [[[[out|c c']|e] db] cache] eqn:Hs.
    + eapply cr_chunk; eauto.
    + simplify_eq. by eapply cr_moved.
    + simplify_eq. by eapply cr_store.
  - destruct (bool_decide (failure_class e = RangeTooLarge) && _) eqn:Hr.
    + apply andb_prop in Hr as [Hr%bool_decide_eq_true Hgt%Z.ltb_lt].
      eapply cr_shrink; eauto.
    + destruct (bool_decide (failure_class e = AheadOfHead)) eqn:Hah; simplify_eq.
      * apply bool_decide_eq_true in Hah. by eapply cr_ahead.
      * apply bool_decide_eq_false in Hah. by eapply cr_rpc.
Qed.
End sweeper.

(** ** Spans *)

Section spans.
Variable w : World.
Variable chain : ChainSpec.
Local Abbreviation M := (cc_max_log_range (ch_cfg chain)).
Hypothesis Hmax : 1 <= M < 2 ^ 63.

Definition span_ok (s : Sweeper) : Prop := 1 <= s_range s <= s_ceiling s /\ s_ceiling s <= M.

Lemma sweeper_new_ok db now : span_ok (sweeper_new db chain now).
Proof. unfold span_ok. cbn. lia. Qed.

Lemma shrink_ok now from to error s :
  span_ok s -> 0 <= from <= to -> to < 2 ^ 64 -> to - from + 1 <= s_range s -> 1 < s_range s ->
  span_ok (shrink_range now from to error s)
  /\ s_range (shrink_range now from to error s) < s_range s
  /\ s_ceiling (shrink_range now from to error s) = s_range (shrink_range now from to error s).
Proof.
  intros [Hr Hc] Hft Ht Hs Hgt. unfold span_ok, shrink_range. cbn.
  assert (E : u64_add (u64_sub to from) 1 = to - from + 1) by int_lia. rewrite E.
  destruct (range_limit_hint error) as [n|]; [destruct (Z.ltb_spec n (to - from + 1))|];
    Z.to_euclidean_division_equations; lia.
Qed.

Lemma grow_ok now s : span_ok s -> span_ok (grow_range M now s).
Proof.
  intros [Hr Hc]. unfold span_ok, grow_range. cbn.
  assert (E : u64_mul (s_range s) 2 = s_range s * 2) by int_lia. rewrite E.
  destruct ((s_ceiling s <? M) && _); destruct (Z.ltb_spec (s_range s) (s_ceiling s));
    try destruct (Z.ltb_spec (s_range s) M); lia.
Qed.

Lemma chunk_to_bounds cursor target st :
  span_ok (st_s st) -> 0 <= cursor < target -> target + M < 2 ^ 64 ->
  u64_add cursor 1 = cursor + 1 /\ cursor < chunk_to cursor target st <= target
  /\ chunk_to cursor target st - cursor <= s_range (st_s st)
  /\ (chunk_to cursor target st = target \/ chunk_to cursor target st - cursor = s_range (st_s st)).
Proof.
  intros [Hr Hc] Hct Ht. unfold chunk_to.
  assert (E1 : u64_add cursor 1 = cursor + 1) by int_lia. rewrite E1.
  assert (E2 : u64_sub (u64_add (cursor + 1) (s_range (st_s st))) 1 = cursor + s_range (st_s st)) by int_lia.
  rewrite E2. lia.
Qed.

Lemma await_s st : st_s (await w st) = st_s st.
Proof. unfold await. by destruct (wo_others _ _ _). Qed.
Lemma await_trace st : st_trace (await w st) = st_trace st.
Proof. unfold await. by destruct (wo_others _ _ _). Qed.
Lemma await_t st : st_t (await w st) = S (st_t st).
Proof. unfold await. by destruct (wo_others _ _ _). Qed.

Lemma get_logs_s f st : st_s (get_logs w chain f st).2 = st_s st.
Proof. unfold get_logs. destruct (wo_logs _ _ _). apply await_s. Qed.

Lemma get_logs_trace f st :
  st_trace (get_logs w chain f st).2 = st_trace st ++
    [Asked f (match (get_logs w chain f st).1 with Ok l => Ok l | Err e => Err (failure_class e) end)].
Proof. unfold get_logs. destruct (wo_logs _ _ _). cbn. by rewrite await_trace. Qed.

Lemma asked_s target cursor st r st1 : asked w chain target cursor st = (r, st1) -> st_s st1 = st_s st.
Proof. intros H. unfold asked in H. by rewrite <- (get_logs_s (mkFilter (log_addresses chain) None (u64_add cursor 1) (chunk_to cursor target st)) st), H. Qed.

Lemma shrunk_ok target cursor e st st1 :
  st_s st1 = st_s st -> span_ok (st_s st) -> 0 <= cursor < target -> target + M < 2 ^ 64 -> 1 < s_range (st_s st) ->
  let s' := st_s (shrunk w target cursor e st st1) in
  span_ok s' /\ s_range s' < s_range (st_s st) /\ s_ceiling s' = s_range s'.
Proof.
  intros Es Hs Hct Ht Hgt s'. destruct (chunk_to_bounds cursor target st Hs Hct Ht) as (E1 & Hb & Hsp & _).
  unfold s', shrunk. cbn. rewrite Es, E1. apply shrink_ok; [done|lia|lia|lia|done].
Qed.

Lemma applied_s cursor to out db cache st :
  st_s (applied w chain cursor to out db cache st) = grow_range M (now_of w st) (st_s st).
Proof. done. Qed.

Lemma applied_ok cursor to out db cache st :
  span_ok (st_s st) -> span_ok (st_s (applied w chain cursor to out db cache st)).
Proof. intros H. apply grow_ok, H. Qed.

(** The loop ends: the span shrinks between two chunks, and a chunk moves the cursor. *)
Lemma chunks_total fuel target cursor st :
  span_ok (st_s st) -> 0 <= cursor -> target + M < 2 ^ 64 ->
  Z.max 0 (target - cursor) * M + s_range (st_s st) < Z.of_nat fuel ->
  is_Some (sweep_chunks w chain fuel target cursor st).
Proof.
  revert cursor st. induction fuel as [|fuel IH]; intros cursor st Hs Hc Ht Hf; [unfold span_ok in Hs; nia|].
  cbn [sweep_chunks]. destruct (Z.ltb_spec cursor target) as [Hlt|]; cbn [negb]; [|by eauto]. cbv zeta.
  change (get_logs _ _ _ st) with (asked w chain target cursor st).
  destruct (asked w chain target cursor st) as [reply st1] eqn:Ha.
  pose proof (asked_s _ _ _ _ _ Ha) as Es.
  destruct (chunk_to_bounds cursor target st Hs ltac:(lia) Ht) as (E1 & Hb & Hsp & _).
  change (Z.min _ target) with (chunk_to cursor target st).
  destruct reply as [logs|e].
  - destruct (apply_sweep _ _ _ _ _ _ _) as [[[[out|c c']|e] db] cache]; [|by eauto..].
    assert (Hs' : span_ok (st_s (applied w chain cursor (chunk_to cursor target st) out db cache (await w st1)))).
    { apply applied_ok. by rewrite await_s, Es. }
    apply IH; [exact Hs'|lia|done|]. change (st_s _) with (st_s (applied w chain cursor (chunk_to cursor target st) out db cache (await w st1))).
    destruct Hs as [Hs1 Hs2], Hs' as [Hs1' Hs2']. nia.
  - destruct (_ && _) eqn:Hr; [|destruct (bool_decide (failure_class e = AheadOfHead)); by eexists].
    apply andb_prop in Hr as [_ Hgt%Z.ltb_lt]. rewrite Es in Hgt.
    destruct (shrunk_ok target cursor e st st1 Es Hs ltac:(lia) Ht Hgt) as (Hs' & Hlt' & _).
    apply IH; [exact Hs'|done|done|]. change (st_s _) with (st_s (shrunk w target cursor e st st1)). lia.
Qed.
End spans.
