(* ===== verification/Source.v ===== *)
(** * Source: [src/ingest/source.rs]

    The head path: which mode a chain is ingested in, the buckets of recipient-filtered
    subscriptions, the session loop, the handling of one log, and the poller. The outside is given
    by call number: whether [eth_subscribe] succeeds, the clock and the transactions'
    environments. Subscriptions are identified with the address lists they filter on. Times are
    milliseconds. *)

From S2P Require Import Prelude Config Registry Cache Matcher Events Health Rpc Store Sweep Runtime.

(** ** Modes *)

(** [src/ingest/source.rs:30-34 Mode] *)
Inductive Mode := Targeted | Firehose | Poll.

#[global] Instance Mode_eq_dec : EqDecision Mode.
Proof. solve_decision. Defined.

(** [src/ingest/source.rs:37-43 Mode::label] *)
Definition mode_label (m : Mode) : string :=
  match m with Targeted => "ws_targeted" | Firehose => "ws_firehose" | Poll => "poll" end.

(** [src/ingest/source.rs:46-52 from_cfg] *)
Definition from_cfg (m : IngestMode) : Mode :=
  match m with WsTargeted | Auto => Targeted | WsFirehose => Firehose | PollMode => Poll end.

(** [src/ingest/source.rs:56-79 desired_mode] *)
Definition desired_mode (cfg : ChainConfig) (cache : WatchCache) (current : option Mode) : Mode :=
  if negb (bool_decide (cc_ingest_mode cfg = Auto)) then from_cfg (cc_ingest_mode cfg)
  else
    let watches := Z.of_nat (cache_len cache) in
    let large := from_cfg (cc_large_scale_mode cfg) in
    if match current with
       | Some m => bool_decide (m = large) && negb (bool_decide (m = Targeted))
       | None => false
       end
    then if watches <? u64_mul (cc_ws_targeted_max cfg) 8 `div` 10 then Targeted else large
    else if cc_ws_targeted_max cfg <? watches then large else Targeted.

(** [src/ingest/source.rs:81-86 SessionEnd] *)
Inductive SessionEnd := SCancelled | ModeChanged | Parked | Disconnected (reason : string).

(** ** Subscriptions *)

(** [slice::chunks]. *)
Fixpoint chunks_fuel (fuel size : nat) (l : list Z) : list (list Z) :=
  match fuel, l with
  | S fuel, _ :: _ => take size l :: chunks_fuel fuel size (drop size l)
  | _, _ => []
  end.
Definition slice_chunks (size : nat) (l : list Z) : list (list Z) := chunks_fuel (length l) size l.

(** What the provider is asked, in order. *)
Inductive SubCall := Subscribe (recipients : option (list Z)) | Retire (addresses : list Z).

(** [src/ingest/source.rs:213-221 Session] *)
Record Session := mkSession {
  ss_sealed : list (list Z);
  ss_open : option (list Z);
  ss_removed_since_rebuild : Z;
}.

(** [src/ingest/source.rs:341-341 session (empty)] *)
Definition session_new : Session := mkSession [] None 0.

Definition buckets (s : Session) : list (list Z) := ss_sealed s ++ option_list (ss_open s).

(** [if buckets.last().is_some_and(|b| b.len() < size) { open = buckets.pop() }] *)
Definition pop_open (size : nat) (bs : list (list Z)) : list (list Z) * option (list Z) :=
  match last bs with
  | Some b => if (length b <? size)%nat then (removelast bs, Some b) else (bs, None)
  | None => (bs, None)
  end.

Section session.
Variable sub_ok : nat -> bool.
Variable clock : nat -> Z.
Variable envs : nat -> Env.
Variable chain : ChainSpec.
Local Abbreviation cfg := (ch_cfg chain).
Local Abbreviation size := (Z.to_nat (cc_ws_bucket_size cfg)).

(** [src/ingest/source.rs:224-261 Session::subscribe] For each of several chunks; stops at the first
    failure, as the [?] in the callers' loops does. *)
Fixpoint subscribe_all (n : nat) (cs : list (list Z)) : result string (list (list Z)) * nat * list SubCall :=
  match cs with
  | [] => (Ok [], n, [])
  | c :: cs =>
      if sub_ok n then
        let '(r, n', calls) := subscribe_all (S n) cs in
        (match r with Ok bs => Ok (c :: bs) | Err e => Err e end, n', Subscribe (Some c) :: calls)
      else (Err "subscribe_failed"%string, S n, [Subscribe (Some c)])
  end.

(** [src/ingest/source.rs:269-289 Session::build_targeted] *)
Definition build_targeted (n : nat) (cache : WatchCache) (s : Session)
    : result string Session * nat * list SubCall :=
  let '(r, n, calls) := subscribe_all n (slice_chunks size (sort_dedup (cache_addresses cache))) in
  match r with
  | Err e => (Err e, n, calls)
  | Ok fresh =>
      let '(sealed, open) := pop_open size fresh in
      (Ok (mkSession sealed open 0), n, calls ++ (Retire <$> buckets s))
  end.

(** [src/ingest/source.rs:292-313 Session::add_recipients] *)
Definition add_recipients (n : nat) (new : list Z) (s : Session) : result string Session * nat * list SubCall :=
  let addresses := sort_dedup (default [] (ss_open s) ++ sort_dedup new) in
  let '(r, n, calls) := subscribe_all n (slice_chunks size addresses) in
  match r with
  | Err e => (Err e, n, calls)
  | Ok replacement =>
      let '(sealed, open) := pop_open size replacement in
      (Ok (mkSession (ss_sealed s ++ sealed) open (ss_removed_since_rebuild s)), n,
       calls ++ (Retire <$> option_list (ss_open s)))
  end.

(** [src/ingest/source.rs:315-317 Session::subscribed] *)
Definition subscribed (s : Session) : Z := sumZ (fun b => Z.of_nat (length b)) (buckets s).

(** [src/ingest/source.rs:422-465 handle_log] The dispatcher is woken when the flag is set. *)
Definition handle_log (env : Env) (db : DB) (rt : ChainRuntime) (log : Log) : DB * ChainRuntime * bool :=
  match match_log chain (rt_cache rt) log with
  | Err _ => (db, rt, false)
  | Ok m =>
      if m_removed m then (db, request_sweep rt (Now "log_removed"), false)
      else
        match record_pending env db chain m with
        | (Ok true, db) => (db, request_sweep rt (PendingAt (m_block_number m)), true)
        | (Ok false, db) => (db, rt, false)
        | (Err e, db) => (db, request_sweep rt (PendingAt (m_block_number m)), false)
        end
  end.

(** ** The session loop *)

(** [src/ingest/source.rs:340-359 session (state)] With the runtime it reads and the calls made. *)
Record Push := mkPush {
  pu_session : Session;
  pu_pending_new : list Z;
  pu_coalesce_at : option Z;
  pu_last_log : Z;
  pu_db : DB;
  pu_rt : ChainRuntime;
  pu_n : nat;
  pu_calls : list SubCall;
}.

(** [src/ingest/source.rs:193-195 drain] *)
Definition drain (rt : ChainRuntime) : ChainRuntime :=
  mkRuntime (rt_cache rt) (rt_health rt) (rt_sweep_q rt) [] (rt_hydrated rt).

(** [src/ingest/source.rs:332-359 session (start)] *)
Definition session_start (mode : Mode) (n : nat) (db : DB) (rt : ChainRuntime) : Push + SessionEnd :=
  let rt := drain rt in
  let '(built, n, calls) :=
    match mode with
    | Firehose =>
        (if sub_ok n then Ok (mkSession [[]] None 0) else Err "subscribe_failed"%string, S n, [Subscribe None])
    | _ => build_targeted n (rt_cache rt) session_new
    end in
  match built with
  | Err reason => inr (Disconnected reason)
  | Ok s => inl (mkPush s [] None (clock n) db (request_sweep rt (Now "ws_connect")) n calls)
  end.

(** [src/ingest/source.rs:201-205 BucketMsg] *)
Inductive BucketMsg := MLog (log : Log) | Lagged (n : Z) | Closed.

(** The branches of the [select]. *)
Inductive SessionWake :=
  | WCancelled
  | WMsg (msg : option BucketMsg)
  | WChange
  | WCoalesce
  | WHousekeeping.

(** [src/ingest/source.rs:382-390 session (change)] The next change off the queue; a queue that is
    still open and empty does not wake the loop. *)
Definition session_change (mode : Mode) (p : Push) : Push :=
  let rt := pu_rt p in
  match rt_watch_q rt with
  | [] => p
  | change :: rest =>
      let rt' := mkRuntime (rt_cache rt) (rt_health rt) (rt_sweep_q rt) rest (rt_hydrated rt) in
      match change with
      | Added addr =>
          if bool_decide (mode = Targeted) then
            mkPush (pu_session p) (pu_pending_new p ++ [addr])
              (Some (match pu_coalesce_at p with Some at_ => at_ | None => clock (pu_n p) + cc_ws_coalesce_ms cfg end))
              (pu_last_log p) (pu_db p) rt' (pu_n p) (pu_calls p)
          else mkPush (pu_session p) (pu_pending_new p) (pu_coalesce_at p) (pu_last_log p) (pu_db p) rt' (pu_n p)
                 (pu_calls p)
      | Removed =>
          mkPush (mkSession (ss_sealed (pu_session p)) (ss_open (pu_session p))
                    (ss_removed_since_rebuild (pu_session p) + 1))
            (pu_pending_new p) (pu_coalesce_at p) (pu_last_log p) (pu_db p) rt' (pu_n p) (pu_calls p)
      end
  end.

(** [src/ingest/source.rs:398-414 session (housekeeping)] *)
Definition session_housekeeping (mode : Mode) (p : Push) : Push + SessionEnd :=
  let rt := pu_rt p in
  let s := pu_session p in
  if cache_is_empty (rt_cache rt) then inr Parked
  else if negb (bool_decide (desired_mode cfg (rt_cache rt) (Some mode) = mode)) then inr ModeChanged
  else if bool_decide (mode = Firehose) && (cc_ws_stall_ms cfg <? clock (pu_n p) - pu_last_log p)
  then inr (Disconnected "stalled")
  else if bool_decide (mode = Targeted)
          && (Z.max (subscribed s) (cc_ws_bucket_size cfg `div` 4) <? ss_removed_since_rebuild s * 2)
  then match build_targeted (pu_n p) (rt_cache rt) s with
       | (Err reason, n, calls) => inr (Disconnected reason)
       | (Ok s, n, calls) =>
           inl (mkPush s (pu_pending_new p) (pu_coalesce_at p) (pu_last_log p) (pu_db p) rt n (pu_calls p ++ calls))
       end
  else inl p.

(** [src/ingest/source.rs:361-416 session (loop)] *)
Definition session_wake (mode : Mode) (ev : SessionWake) (p : Push) : Push + SessionEnd :=
  match ev with
  | WCancelled => inr SCancelled
  | WMsg (Some (MLog log)) =>
      let '(db, rt, _) := handle_log (envs (pu_n p)) (pu_db p) (pu_rt p) log in
      inl (mkPush (pu_session p) (pu_pending_new p) (pu_coalesce_at p) (clock (pu_n p)) db rt (S (pu_n p)) (pu_calls p))
  | WMsg (Some (Lagged _)) =>
      inl (mkPush (pu_session p) (pu_pending_new p) (pu_coalesce_at p) (pu_last_log p) (pu_db p)
             (request_sweep (pu_rt p) (Now "ws_lagged")) (pu_n p) (pu_calls p))
  | WMsg (Some Closed) | WMsg None => inr (Disconnected "stream_closed")
  | WChange => inl (session_change mode p)
  | WCoalesce =>
      match add_recipients (pu_n p) (pu_pending_new p) (pu_session p) with
      | (Err reason, n, calls) => inr (Disconnected reason)
      | (Ok s, n, calls) =>
          inl (mkPush s [] None (pu_last_log p) (pu_db p) (pu_rt p) n (pu_calls p ++ calls))
      end
  | WHousekeeping => session_housekeeping mode p
  end.

(** ** Reconnecting *)

(** [src/ingest/source.rs:144-160 run (connect failed)] When the connection was lost, whether the
    poller stands in, the delay slept and the next one. *)
Definition connect_failed (now : Z) (ws_down_since : option Z) (reconnect_delay : Z) : Z * bool * Z * Z :=
  let since := default now ws_down_since in
  let fallback := cc_ws_down_fallback_ms cfg <=? now - since in
  let delay := if fallback then Z.max reconnect_delay (poll_interval cfg) else reconnect_delay in
  (since, fallback, delay, Z.max (Z.min (delay * 2) 10000) 250).

(** ** The poller *)

(** [src/ingest/source.rs:471-475 Poller] *)
Record Poller := mkPoller { po_scanned : option Z }.

(** [src/ingest/source.rs:478-480 Poller::new] *)
Definition poller_new : Poller := mkPoller None.

(** [src/ingest/source.rs:482-484 Poller::reset] *)
Definition poller_reset (p : Poller) : Poller := mkPoller None.

(** [src/ingest/source.rs:504-508 Poller::tick (for)] *)
Fixpoint poll_logs (n : nat) (logs : list Log) (highest : Z) (db : DB) (rt : ChainRuntime) : Z * DB * ChainRuntime :=
  match logs with
  | [] => (highest, db, rt)
  | log :: logs =>
      let '(db, rt, _) := handle_log (envs n) db rt log in
      poll_logs (S n) logs (Z.max highest (default 0 (l_block_number log))) db rt
  end.

(** [src/ingest/source.rs:488-495 Poller::tick (from)] *)
Definition poll_from (p : Poller) (db : DB) : option Z :=
  match po_scanned p with
  | Some b => Some (u64_add b 1)
  | None => match cursor db (ch_chain_id chain) with Ok c => Some (u64_add c 1) | Err _ => None end
  end.

(** [src/ingest/source.rs:486-523 Poller::tick] [get_logs from] is the reply to [eth_getLogs] from
    [from] to [latest], [head] the reply to [eth_blockNumber]. *)
Definition poll_tick (n : nat) (now : Z) (get_logs : Z -> Reply (list Log)) (head : Reply Z) (p : Poller) (db : DB)
    (rt : ChainRuntime) : Poller * DB * ChainRuntime :=
  match poll_from p db with
  | None => (p, db, rt)
  | Some from =>
      let '(r, ops) := get_logs from in
      let rt := note_health chain ops rt in
      match r with
      | Ok logs =>
          let '(highest, db, rt) := poll_logs n logs (saturating_sub from 1) db rt in
          let rt := match logs with [] => rt | _ => note_health chain [ObserveHead highest now] rt end in
          (mkPoller (Some highest), db, rt)
      | Err e =>
          if bool_decide (failure_class e = RangeTooLarge) then
            let '(h, ops) := block_number now head in
            let rt := note_health chain ops rt in
            match h with
            | Ok h => (mkPoller (Some (saturating_sub h 1)), db, rt)
            | Err _ => (p, db, rt)
            end
          else (p, db, rt)
      end
  end.
End session.

(** ** Lemmas *)

Section chunking.
Variable size : nat.
Hypothesis Hsize : (0 < size)%nat.

Lemma chunks_fuel_concat fuel l : (length l <= fuel)%nat -> concat (chunks_fuel fuel size l) = l.
Proof.
  revert l. induction fuel as [|fuel IH]; intros [|a l] Hl; cbn [length] in Hl; [done|lia|done|].
  cbn [chunks_fuel concat]. rewrite IH; [apply take_drop|]. rewrite length_drop. cbn [length]. lia.
Qed.

Lemma slice_chunks_concat l : concat (slice_chunks size l) = l.
Proof. by apply chunks_fuel_concat. Qed.

(** Every piece but the last is full, and none is empty or over the limit. *)
Definition packed (bs : list (list Z)) : Prop :=
  Forall (fun b => (0 < length b <= size)%nat) bs
  /\ forall b bs', bs = bs' ++ [b] -> Forall (fun b => length b = size) bs'.

Lemma chunks_fuel_packed fuel l : packed (chunks_fuel fuel size l).
Proof.
  revert l. induction fuel as [|fuel IH]; intros [|a l];
    try (split; [constructor|intros b bs' E; by apply app_cons_not_nil in E]).
  cbn [chunks_fuel]. destruct (IH (drop size (a :: l))) as [IH1 IH2]. split.
  - constructor; [|exact IH1]. rewrite length_take. cbn [length]. lia.
  - intros b bs' E. destruct bs' as [|b' bs']; [constructor|]. cbn in E. injection E as <- E.
    constructor; [|by eapply IH2]. rewrite length_take.
    destruct (Nat.le_gt_cases size (length (a :: l))) as [Hle|Hgt]; [lia|].
    rewrite drop_ge in E by lia. destruct fuel; by apply app_cons_not_nil in E.
Qed.

Record buckets_ok (s : Session) : Prop := {
  bo_sealed : Forall (fun b => length b = size) (ss_sealed s);
  bo_open : forall b, ss_open s = Some b -> (0 < length b < size)%nat;
}.

Lemma pop_open_spec bs sealed open :
  packed bs -> pop_open size bs = (sealed, open) ->
  bs = sealed ++ option_list open /\ Forall (fun b => length b = size) sealed
  /\ forall b, open = Some b -> (0 < length b < size)%nat.
Proof.
  intros [Hall Hfull]. unfold pop_open. destruct (last bs) as [b|] eqn:Hlast.
  2:{ apply last_None in Hlast as ->. intros [= <- <-]. done. }
  apply last_Some in Hlast as [bs' ->]. specialize (Hfull b bs' eq_refl).
  apply Forall_app in Hall as [_ Hb]. apply List.Forall_inv in Hb.
  destruct (Nat.ltb_spec (length b) size); intros [= <- <-].
  - rewrite removelast_app by done. cbn. rewrite app_nil_r. split_and!; [done..|]. intros ? [= <-]. lia.
  - cbn. rewrite app_nil_r. split_and!; [done| |done]. apply Forall_app. split; [done|].
    apply Forall_singleton. lia.
Qed.
End chunking.

Section session_lemmas.
Variable sub_ok : nat -> bool.
Variable chain : ChainSpec.
Local Abbreviation size := (Z.to_nat (cc_ws_bucket_size (ch_cfg chain))).

Lemma subscribe_all_Ok n cs bs n' calls :
  subscribe_all sub_ok n cs = (Ok bs, n', calls) -> bs = cs /\ calls = (fun c => Subscribe (Some c)) <$> cs.
Proof.
  revert n bs calls. induction cs as [|c cs IH]; intros n bs calls H; cbn in H; [by simplify_eq|].
  destruct (sub_ok n); [|done]. destruct (subscribe_all sub_ok (S n) cs) as [[[bs'|e] n1] calls1] eqn:E; [|done].
  simplify_eq. destruct (IH _ _ _ E) as [-> ->]. done.
Qed.

Lemma build_targeted_Ok n cache s s' n' calls :
  (0 < size)%nat -> build_targeted sub_ok chain n cache s = (Ok s', n', calls) ->
  concat (buckets s') = sort_dedup (cache_addresses cache) /\ buckets_ok size s'
  /\ calls = ((fun b => Subscribe (Some b)) <$> buckets s') ++ (Retire <$> buckets s).
Proof.
  intros Hs H. unfold build_targeted in H.
  destruct (subscribe_all _ _ _) as [[[fresh|e] n1] calls1] eqn:Hsub; [|done].
  apply subscribe_all_Ok in Hsub as [-> ->]. destruct (pop_open _ _) as [sealed open] eqn:Hp.
  apply pop_open_spec in Hp as (E & Hse & Hop); [|done|by apply chunks_fuel_packed].
  simplify_eq. unfold buckets. cbn. rewrite <- E. split_and!; [by apply slice_chunks_concat|by split|done].
Qed.

Lemma add_recipients_Ok n new s s' n' calls :
  (0 < size)%nat -> buckets_ok size s -> add_recipients sub_ok chain n new s = (Ok s', n', calls) ->
  (forall a, a ∈ concat (buckets s') <-> a ∈ concat (buckets s) \/ a ∈ new) /\ buckets_ok size s'
  /\ exists subs, calls = ((fun b => Subscribe (Some b)) <$> subs) ++ (Retire <$> option_list (ss_open s)).
Proof.
  intros Hs [Hsealed Hopen] H. unfold add_recipients in H.
  destruct (subscribe_all _ _ _) as [[[fresh|e] n1] calls1] eqn:Hsub; [|done].
  apply subscribe_all_Ok in Hsub as [-> ->]. destruct (pop_open _ _) as [sealed open] eqn:Hp.
  apply pop_open_spec in Hp as (E & Hse & Hop); [|done|by apply chunks_fuel_packed].
  simplify_eq. split_and!; [| |eauto].
  - intros a. unfold buckets. cbn [ss_sealed ss_open]. rewrite <- app_assoc, <- E, !concat_app, slice_chunks_concat by done.
    rewrite !elem_of_app, elem_of_sort_dedup, elem_of_app, elem_of_sort_dedup.
    destruct (ss_open s) as [b|]; cbn; rewrite ?app_nil_r; set_solver.
  - split; cbn; [|done]. by apply Forall_app.
Qed.
End session_lemmas.

(** [auto] remembers only whether it is in the large-scale mode. *)
Lemma desired_mode_auto cfg cache current :
  cc_ingest_mode cfg = Auto -> from_cfg (cc_large_scale_mode cfg) ≠ Targeted ->
  desired_mode cfg cache current =
    if decide (current = Some (from_cfg (cc_large_scale_mode cfg)))
    then (if Z.of_nat (cache_len cache) <? u64_mul (cc_ws_targeted_max cfg) 8 `div` 10 then Targeted
          else from_cfg (cc_large_scale_mode cfg))
    else (if cc_ws_targeted_max cfg <? Z.of_nat (cache_len cache) then from_cfg (cc_large_scale_mode cfg)
          else Targeted).
Proof.
  intros Ha Hl. unfold desired_mode. rewrite Ha, (bool_decide_eq_true_2 (Auto = Auto)) by done. cbn [negb].
  destruct (decide _) as [->|Hne].
  - by rewrite bool_decide_eq_true_2, bool_decide_eq_false_2.
  - destruct current as [m|]; [|done]. rewrite (bool_decide_eq_false_2 (m = _)); [done|congruence].
Qed.

(** ** Properties *)

(** No flapping: at a given watchlist size the mode [auto] chooses is stable — choosing again
    from the mode just chosen gives the same mode — and it leaves the targeted mode only above
    [ws_targeted_max] watches and returns to it only below eight tenths of that. *)
Lemma desired_mode_stable (cfg : ChainConfig) (cache : WatchCache) (current : option Mode) :
  let mode := desired_mode cfg cache current in
  let watches := Z.of_nat (cache_len cache) in
  chain_ok cfg -> cc_ingest_mode cfg = Auto -> 0 <= cc_ws_targeted_max cfg ->
  desired_mode cfg cache (Some mode) = mode
  /\ (current = Some Targeted -> mode ≠ Targeted -> cc_ws_targeted_max cfg < watches)
  /\ (current = Some (from_cfg (cc_large_scale_mode cfg)) -> mode = Targeted ->
        watches < (cc_ws_targeted_max cfg * 8) `div` 10).
Proof.
  cbv zeta. intros Hok Hauto Hmax.
  assert (Hlow : u64_mul (cc_ws_targeted_max cfg) 8 `div` 10 <= (cc_ws_targeted_max cfg * 8) `div` 10
                 <= cc_ws_targeted_max cfg).
  { split; [apply Z.div_le_mono; [lia|]; apply Z.mod_le; lia|Z.to_euclidean_division_equations; lia]. }
  assert (Hlarge : from_cfg (cc_large_scale_mode cfg) ≠ Targeted) by (destruct (ck_large _ Hok) as [-> | ->]; done).
  rewrite !desired_mode_auto by done.
  set (large := from_cfg (cc_large_scale_mode cfg)) in *. set (n := Z.of_nat (cache_len cache)).
  set (low := u64_mul (cc_ws_targeted_max cfg) 8 `div` 10) in *.
  assert (Hswitch : forall m, m = Targeted \/ m = large ->
    (if decide (Some m = Some large) then (if n <? low then Targeted else large)
     else (if cc_ws_targeted_max cfg <? n then large else Targeted)) = m <->
    (m = large -> low <= n) /\ (m = Targeted -> n <= cc_ws_targeted_max cfg)).
  { intros m Hm. destruct (decide (Some m = Some large)), (Z.ltb_spec n low),
      (Z.ltb_spec (cc_ws_targeted_max cfg) n); naive_solver lia. }
  destruct (decide (current = Some large)), (Z.ltb_spec n low), (Z.ltb_spec (cc_ws_targeted_max cfg) n);
    rewrite Hswitch by auto; split_and!; intros; first [lia|congruence].
Qed.
