(* ===== verification/Outbox.v ===== *)
(** * Outbox: [src/store/outbox.rs]

    The queue operations the webhook dispatcher uses. Timestamps and durations are microseconds.
    Rows another transaction holds locked are a predicate, since [FOR UPDATE SKIP LOCKED] passes
    over them. *)

From S2P Require Import Prelude Text Events Store.

(** [src/store/outbox.rs:12-22 OutboxItem] *)
Record OutboxItem := mkItem {
  i_id : Z;
  i_watch_id : Z;
  i_seq : Z;
  i_event_type : EventType;
  i_url : string;
  i_payload : EventPayload;
  i_attempts : Z;
  i_created_at : Z;
}.

Definition set_delivery (st : OutboxStatus) (attempts next : Z) (last_status : option Z)
    (last_error : option string) (delivered_at : option Z) (o : OutboxRec) : OutboxRec :=
  mkOutbox (o_watch_id o) (o_seq o) (o_event_type o) (o_url o) (o_payload o) st attempts next
    last_status last_error (o_created_at o) delivered_at.

Definition is_pending (o : OutboxRec) : bool := bool_decide (o_status o = OPending).

(** [src/store/outbox.rs:38-39 lease_due (NOT EXISTS)] An earlier event of the watch is undelivered. *)
Definition blocked (d : DB) (c : OutboxRec) : bool :=
  existsb (fun e => (o_watch_id e =? o_watch_id c) && is_pending e && (o_seq e <? o_seq c))
    ((map_to_list (d_outbox d)).*2).

(** [src/store/outbox.rs:36-42 lease_due (sub-select)] *)
Definition due (now : Z) (locked : Z -> bool) (d : DB) (limit : Z) : list (Z * OutboxRec) :=
  take (Z.to_nat limit)
    (sort_by (fun e => o_next_attempt_at e.2)
       (List.filter (fun e => is_pending e.2 && (o_next_attempt_at e.2 <=? now) && negb (blocked d e.2)
                              && negb (locked e.1))
          (map_to_list (d_outbox d)))).

(** [src/store/outbox.rs:33-34 lease_due (SET)] *)
Definition leased (now lease : Z) (o : OutboxRec) : OutboxRec :=
  set_delivery (o_status o) (o_attempts o + 1) (now + lease) (o_last_status o) (o_last_error o)
    (o_delivered_at o) o.

(** [src/store/outbox.rs:50-61 lease_due (row)] *)
Definition outbox_item (e : Z * OutboxRec) : OutboxItem :=
  mkItem e.1 (o_watch_id e.2) (o_seq e.2) (o_event_type e.2) (o_url e.2) (o_payload e.2)
    (o_attempts e.2) (o_created_at e.2).

(** [src/store/outbox.rs:31-63 lease_due] *)
Definition lease_due (now : Z) (locked : Z -> bool) (d : DB) (limit lease : Z) : list OutboxItem * DB :=
  let rows := (fun e => (e.1, leased now lease e.2)) <$> due now locked d limit in
  (outbox_item <$> rows, foldl (fun d e => set_outbox (<[e.1 := e.2]>) d) d rows).

(** [UPDATE webhook_outbox SET ... WHERE id = $1 AND <guard>] *)
Definition update_outbox (id : Z) (guard : OutboxRec -> bool) (f : OutboxRec -> OutboxRec) (d : DB) : DB :=
  match d_outbox d !! id with
  | Some o => if guard o then set_outbox (<[id := f o]>) d else d
  | None => d
  end.

(** [src/store/outbox.rs:138-140 truncate] *)
Definition truncate (s : string) : string := take_chars 500 s.

(** [src/store/outbox.rs:65-75 mark_delivered] *)
Definition mark_delivered (now : Z) (d : DB) (id status : Z) : DB :=
  update_outbox id (fun _ => true)
    (fun o => set_delivery ODelivered (o_attempts o) (o_next_attempt_at o) (Some status) None (Some now) o) d.

(** [src/store/outbox.rs:77-89 mark_retry] *)
Definition mark_retry (now : Z) (d : DB) (id delay : Z) (status : option Z) (error : string) : DB :=
  update_outbox id is_pending
    (fun o => set_delivery (o_status o) (o_attempts o) (now + delay) status (Some (truncate error))
                (o_delivered_at o) o) d.

(** [src/store/outbox.rs:92-100 mark_dead] *)
Definition mark_dead (d : DB) (id : Z) (status : option Z) (error : string) : DB :=
  update_outbox id (fun _ => true)
    (fun o => set_delivery ODead (o_attempts o) (o_next_attempt_at o) status (Some (truncate error))
                (o_delivered_at o) o) d.

(** [src/store/outbox.rs:103-113 release] *)
Definition release (now : Z) (d : DB) (id delay : Z) : DB :=
  update_outbox id is_pending
    (fun o => set_delivery (o_status o) (Z.max (o_attempts o - 1) 0) (now + delay) (o_last_status o)
                (o_last_error o) (o_delivered_at o) o) d.

(** [src/store/outbox.rs:116-120 OutboxDepth] The age in microseconds. *)
Record OutboxDepth := mkDepth {
  dp_pending : Z;
  dp_dead : Z;
  dp_oldest_pending_age : Z;
}.

(** [src/store/outbox.rs:122-136 depth] *)
Definition depth (now : Z) (d : DB) : OutboxDepth :=
  let rows := (map_to_list (d_outbox d)).*2 in
  let pending := List.filter is_pending rows in
  mkDepth (Z.of_nat (length pending))
    (Z.of_nat (length (List.filter (fun o => bool_decide (o_status o = ODead)) rows)))
    (match list_min (o_created_at <$> pending) with Some t => now - t | None => 0 end).

(** ** Lemmas *)

Lemma blocked_false d c :
  blocked d c = false <->
  forall ev e, d_outbox d !! ev = Some e -> o_watch_id e = o_watch_id c -> o_seq e < o_seq c ->
    o_status e ≠ OPending.
Proof.
  unfold blocked, is_pending. rewrite <- not_true_iff_false, existsb_exists. split.
  - intros H ev e He Hw Hs Hp. apply H. exists e. split.
    + apply list_elem_of_In, list_elem_of_fmap. exists (ev, e). by rewrite elem_of_map_to_list.
    + rewrite !andb_true_iff, Z.eqb_eq, Z.ltb_lt, bool_decide_eq_true. done.
  - intros H (e & Hin & Hp). rewrite !andb_true_iff, Z.eqb_eq, Z.ltb_lt, bool_decide_eq_true in Hp.
    apply list_elem_of_In, list_elem_of_fmap in Hin as ([ev e'] & -> & Hin).
    apply elem_of_map_to_list in Hin. cbn in *. apply (H ev e'); tauto.
Qed.

Lemma elem_of_due now locked d limit ev o :
  (ev, o) ∈ due now locked d limit ->
  d_outbox d !! ev = Some o /\ o_status o = OPending /\ o_next_attempt_at o <= now
  /\ blocked d o = false /\ locked ev = false.
Proof.
  unfold due. intros (n & H & _)%elem_of_take. apply list_elem_of_lookup_2 in H.
  rewrite elem_of_sort_by, list_elem_of_In, List.filter_In, <- list_elem_of_In, elem_of_map_to_list in H.
  unfold is_pending in H. cbn in H.
  rewrite !andb_true_iff, !negb_true_iff, Z.leb_le, bool_decide_eq_true in H. tauto.
Qed.

Lemma NoDup_due now locked d limit : NoDup (due now locked d limit).*1.
Proof.
  unfold due. rewrite fmap_take. eapply sublist_NoDup; [|apply sublist_take].
  rewrite sort_by_perm. apply NoDup_fmap_filter, NoDup_fst_map_to_list.
Qed.

Lemma put_outbox_all rows d ev :
  NoDup rows.*1 ->
  d_outbox (foldl (fun d e => set_outbox (<[e.1 := e.2]>) d) d rows) !! ev =
  match list_find (fun e => e.1 = ev) rows with Some (_, e) => Some e.2 | None => d_outbox d !! ev end.
Proof.
  revert d. induction rows as [|[ev' o] rows IH]; intros d Hnd; [done|].
  apply NoDup_fmap_cons in Hnd as [Hne Hnd]. cbn [foldl]. rewrite IH by done. cbn.
  destruct (decide (ev' = ev)) as [->|E]; cbn.
  - destruct (list_find _ rows) as [[n e]|] eqn:Hf; cbn.
    + apply list_find_Some in Hf as (Hl & E & _). apply list_elem_of_lookup_2 in Hl. by destruct (Hne e).
    + by rewrite lookup_insert_eq.
  - destruct (list_find _ rows) as [[n e]|]; cbn; [done|]. by rewrite lookup_insert_ne.
Qed.

(** The outbox after a lease: the leased rows pushed into the future, all others as they were. *)
Lemma lease_due_outbox now locked d limit lease ev :
  d_outbox (lease_due now locked d limit lease).2 !! ev =
  if decide (ev ∈ (due now locked d limit).*1) then leased now lease <$> d_outbox d !! ev
  else d_outbox d !! ev.
Proof.
  unfold lease_due. cbn [snd]. rewrite put_outbox_all.
  2:{ rewrite <- list_fmap_compose. apply NoDup_due. }
  destruct (list_find _ _) as [[n [ev' o']]|] eqn:Hf.
  - apply list_find_Some in Hf as (Hl & E & _). cbn in E. subst ev'.
    apply list_lookup_fmap_Some in Hl as ([ev1 o1] & [= -> ->] & Hl). apply list_elem_of_lookup_2 in Hl.
    rewrite decide_True by (apply list_elem_of_fmap; by exists (ev1, o1)).
    apply elem_of_due in Hl as (-> & _). done.
  - apply list_find_None in Hf. case_decide as Hin; [|done].
    apply list_elem_of_fmap in Hin as ([ev1 o1] & -> & Hin). rewrite Forall_forall in Hf.
    destruct (Hf (ev1, leased now lease o1)); [|done]. apply list_elem_of_fmap. by exists (ev1, o1).
Qed.

Lemma lease_due_watches now locked d limit lease :
  let d' := (lease_due now locked d limit lease).2 in
  d_watches d' = d_watches d /\ d_transfers d' = d_transfers d /\ d_cursors d' = d_cursors d
  /\ d_stats d' = d_stats d /\ d_watch_seq d' = d_watch_seq d.
Proof.
  cbv zeta. unfold lease_due. cbn [snd]. generalize ((fun e => (e.1, leased now lease e.2)) <$> due now locked d limit).
  intros rows. revert d. induction rows as [|e rows IH]; intros d; [done|].
  cbn [foldl]. destruct (IH (set_outbox <[e.1:=e.2]> d)) as (-> & -> & -> & -> & ->). done.
Qed.

Lemma elem_of_leased_items now locked d limit lease it :
  it ∈ (lease_due now locked d limit lease).1 ->
  exists o, (i_id it, o) ∈ due now locked d limit /\ it = outbox_item (i_id it, leased now lease o).
Proof.
  unfold lease_due. cbn [fst]. rewrite <- list_fmap_compose. intros ([ev o] & -> & Hin)%list_elem_of_fmap.
  by exists o.
Qed.

(** The hypothesis of the queue's per-watch guarantee: numbers are unique per watch. *)
Definition seqs_unique (d : DB) : Prop := forall ev ev' o o',
  d_outbox d !! ev = Some o -> d_outbox d !! ev' = Some o' ->
  o_watch_id o = o_watch_id o' -> o_seq o = o_seq o' -> ev = ev'.

(** Of two undelivered events of a watch only the earlier is due. *)
Lemma due_same_watch now locked d limit ev ev' o o' :
  seqs_unique d -> (ev, o) ∈ due now locked d limit -> (ev', o') ∈ due now locked d limit ->
  o_watch_id o = o_watch_id o' -> ev = ev'.
Proof.
  intros Hu (H1 & P1 & _ & B1 & _)%elem_of_due (H2 & P2 & _ & B2 & _)%elem_of_due E.
  rewrite blocked_false in B1, B2.
  destruct (Z.lt_total (o_seq o) (o_seq o')) as [Hlt|[Heq|Hlt]].
  - by destruct (B2 _ _ H1 E Hlt).
  - by apply (Hu ev ev' o o').
  - symmetry in E. by destruct (B1 _ _ H2 E Hlt).
Qed.

(** ** Properties *)

(** C27. Per-watch delivery order: every leased event was pending and due, all earlier events of its
    watch are delivered or dead, its attempt is counted and it is not due again before the lease
    runs out; and a batch, of at most [limit] events, holds at most one event of any watch. *)
Theorem lease_due_ordered (now limit lease : Z) (locked : Z -> bool) (d : DB) :
  seqs_unique d ->
  let '(items, d') := lease_due now locked d limit lease in
  (length items <= Z.to_nat limit)%nat
  /\ (forall it, it ∈ items -> exists o, d_outbox d !! i_id it = Some o
       /\ o_status o = OPending /\ o_next_attempt_at o <= now
       /\ i_watch_id it = o_watch_id o /\ i_seq it = o_seq o /\ i_attempts it = o_attempts o + 1
       /\ d_outbox d' !! i_id it = Some (leased now lease o)
       /\ forall ev e, d_outbox d !! ev = Some e -> o_watch_id e = i_watch_id it -> o_seq e < i_seq it ->
            o_status e = ODelivered \/ o_status e = ODead)
  /\ (forall it it', it ∈ items -> it' ∈ items -> i_watch_id it = i_watch_id it' -> i_id it = i_id it').
Proof.
  intros Hu. destruct (lease_due now locked d limit lease) as [items d'] eqn:Hl.
  assert (E1 : items = (lease_due now locked d limit lease).1) by (by rewrite Hl).
  assert (E2 : d' = (lease_due now locked d limit lease).2) by (by rewrite Hl).
  split_and!.
  - rewrite E1. unfold lease_due, due. cbn [fst]. rewrite !length_fmap. apply firstn_le_length.
  - intros it Hin. rewrite E1 in Hin. apply elem_of_leased_items in Hin as (o & Hdue & Hit).
    pose proof Hdue as (Ho & Hp & Hn & Hb & _)%elem_of_due. rewrite blocked_false in Hb.
    exists o. rewrite E2, lease_due_outbox, decide_True by (apply list_elem_of_fmap; by exists (i_id it, o)).
    rewrite Ho, Hit. split_and!; try done. cbn. intros ev e He Hw Hs.
    specialize (Hb ev e He Hw Hs). destruct (o_status e); naive_solver.
  - intros it it' H1 H2 E. rewrite E1 in H1, H2.
    apply elem_of_leased_items in H1 as (o1 & H1 & Ei1). apply elem_of_leased_items in H2 as (o2 & H2 & Ei2).
    eapply due_same_watch; eauto. rewrite Ei1, Ei2 in E. done.
Qed.

(** A lease is exclusive until it runs out: whatever another dispatcher leases from the
    database a lease has left, before [now + lease], none of it is an event of the first batch. *)
Lemma lease_exclusive (now now' limit limit' lease lease' : Z) (locked locked' : Z -> bool) (d : DB) :
  now' < now + lease ->
  let first := lease_due now locked d limit lease in
  let second := lease_due now' locked' first.2 limit' lease' in
  forall it it', it ∈ first.1 -> it' ∈ second.1 -> i_id it ≠ i_id it'.
Proof.
  intros Hlt first second it it' H1 H2 E.
  apply elem_of_leased_items in H1 as (o & H1 & _). apply elem_of_leased_items in H2 as (o' & H2 & _).
  apply elem_of_due in H2 as (H2 & _ & Hn & _). unfold first in H2. rewrite lease_due_outbox in H2.
  rewrite decide_True in H2 by (rewrite <- E; apply list_elem_of_fmap; by exists (i_id it, o)).
  apply fmap_Some in H2 as (o1 & _ & ->). cbn in Hn. lia.
Qed.
