(* ===== verification/Target.v ===== *)
(** * Target: [src/webhook/target.rs]

    Which URLs may be registered and which addresses a delivery may connect to. [Url::parse] is the
    parameter [parse_url]; the parts of a parsed URL the code reads are a record. An IPv4 address is
    its four octets, an IPv6 address its eight segments; the predicates of [std::net] are written
    out. *)

From S2P Require Import Prelude Text Config.

Inductive IpAddr :=
  | V4 (a b c d : Z)
  | V6 (segments : list Z).

Inductive Host := Domain (d : string) | HostIp (ip : IpAddr).

Record Url := mkUrl {
  u_scheme : string;
  u_username : string;
  u_password : option string;
  u_host : option Host;
}.

(** [src/webhook/target.rs:13-19 TargetPolicy] *)
Record TargetPolicy := mkPolicy {
  pol_allow_insecure : bool;
  pol_host_allowlist : list string;
}.

(** [src/webhook/target.rs:22-24 TargetPolicy::is_allowlisted] *)
Definition is_allowlisted (p : TargetPolicy) (host : string) : bool :=
  existsb (fun h => eq_ignore_ascii_case h host) (pol_host_allowlist p).

(** The predicates of [Ipv4Addr]. *)
Definition v4_is_private (a b : Z) : bool :=
  (a =? 10) || ((a =? 172) && (16 <=? b) && (b <=? 31)) || ((a =? 192) && (b =? 168)).
Definition v4_is_loopback (a : Z) : bool := a =? 127.
Definition v4_is_link_local (a b : Z) : bool := (a =? 169) && (b =? 254).
Definition v4_is_broadcast (a b c d : Z) : bool := (a =? 255) && (b =? 255) && (c =? 255) && (d =? 255).
Definition v4_is_unspecified (a b c d : Z) : bool := (a =? 0) && (b =? 0) && (c =? 0) && (d =? 0).
Definition v4_is_documentation (a b c : Z) : bool :=
  ((a =? 192) && (b =? 0) && (c =? 2)) || ((a =? 198) && (b =? 51) && (c =? 100))
  || ((a =? 203) && (b =? 0) && (c =? 113)).

(** [src/webhook/target.rs:63-75 is_public (IPv4)] *)
Definition is_public_v4 (a b c d : Z) : bool :=
  negb (v4_is_private a b || v4_is_loopback a || v4_is_link_local a b || v4_is_broadcast a b c d
        || v4_is_unspecified a b c d || v4_is_documentation a b c
        || (a =? 0) || ((a =? 100) && ((64 <=? b) && (b <? 128)))
        || ((a =? 198) && ((b =? 18) || (b =? 19))) || (240 <=? a)).

(** [Ipv6Addr::to_ipv4_mapped]: [::ffff:a.b.c.d]. *)
Definition to_ipv4_mapped (s : list Z) : option (Z * Z * Z * Z) :=
  match s with
  | [0; 0; 0; 0; 0; 0xffff; x; y] => Some (x `div` 256, x `mod` 256, y `div` 256, y `mod` 256)
  | _ => None
  end.

(** [src/webhook/target.rs:76-86 is_public (IPv6)] *)
Definition is_public_v6 (s : list Z) : bool :=
  match to_ipv4_mapped s with
  | Some (a, b, c, d) => is_public_v4 a b c d
  | None =>
      let first := nth 0 s 0 in
      negb (bool_decide (s = [0; 0; 0; 0; 0; 0; 0; 1]) || bool_decide (s = [0; 0; 0; 0; 0; 0; 0; 0])
            || (Z.land first 0xfe00 =? 0xfc00) || (Z.land first 0xffc0 =? 0xfe80)
            || (Z.land first 0xff00 =? 0xff00))
  end.

(** [src/webhook/target.rs:61-88 is_public] *)
Definition is_public (ip : IpAddr) : bool :=
  match ip with V4 a b c d => is_public_v4 a b c d | V6 s => is_public_v6 s end.

(** [src/webhook/target.rs:49-56 validate (domain)] *)
Definition is_local_domain (d : string) : bool :=
  eq_ignore_ascii_case d "localhost" || ends_with d ".localhost" || ends_with d ".internal"
  || ends_with d ".local".

Section validate.
Variable parse_url : string -> result string Url.

(** [src/webhook/target.rs:27-59 validate] *)
Definition validate (raw : string) (policy : TargetPolicy) : result string Url :=
  match parse_url raw with
  | Err e => Err ("not a valid URL: " +:+ e)
  | Ok url =>
      if 2048 <? Z.of_nat (String.length raw) then Err "URL is longer than 2048 characters"
      else if negb (String.eqb (u_username url) "") || bool_decide (is_Some (u_password url))
      then Err "credentials in the URL are not allowed"
      else match u_host url with
      | None => Err "URL has no host"
      | Some host =>
          let allowlisted := match host with Domain d => is_allowlisted policy d | HostIp _ => false end in
          let scheme_ok :=
            if String.eqb (u_scheme url) "https" then Ok tt
            else if String.eqb (u_scheme url) "http" then
              if pol_allow_insecure policy || allowlisted then Ok tt
              else Err "webhook_endpoint must use https"
            else Err ("unsupported scheme " +:+ u_scheme url) in
          match scheme_ok with
          | Err e => Err e
          | Ok _ =>
              if pol_allow_insecure policy || allowlisted then Ok url
              else match host with
              | HostIp ip => if negb (is_public ip) then Err "webhook_endpoint must be a public address" else Ok url
              | Domain d => if is_local_domain d then Err "webhook_endpoint must be a public address" else Ok url
              end
          end
      end
  end.
End validate.

(** [src/webhook/target.rs:96-109 PublicOnlyResolver::resolve] The answers of the system resolver,
    [resolved], are what [lookup_host] returned. *)
Definition resolve (policy : TargetPolicy) (host : string) (resolved : list IpAddr) : result string (list IpAddr) :=
  let allowlisted := is_allowlisted policy host in
  match List.filter (fun a => allowlisted || is_public a) resolved with
  | [] => Err (host +:+ " does not resolve to a public address")
  | public => Ok public
  end.

(** The addresses a delivery to a validated URL may connect to: the literal address, or what the
    resolver lets through. *)
Definition connect_addrs (policy : TargetPolicy) (host : Host) (resolved : list IpAddr) : list IpAddr :=
  match host with
  | HostIp ip => [ip]
  | Domain d => default [] (result_ok (resolve policy d resolved))
  end.

(** ** The reference: reserved blocks of the IPv4 space *)

(** Base address and prefix length. *)
Definition reserved_v4 : list (Z * Z) :=
  [(0x0A000000, 8); (0xAC100000, 12); (0xC0A80000, 16); (0x7F000000, 8); (0xA9FE0000, 16);
   (0xC0000200, 24); (0xC6336400, 24); (0xCB007100, 24); (0x00000000, 8); (0x64400000, 10);
   (0xC6120000, 15); (0xF0000000, 4)].

Definition in_block (v : Z) (blk : Z * Z) : bool :=
  v `div` 2 ^ (32 - blk.2) =? blk.1 `div` 2 ^ (32 - blk.2).

Definition v4_value (a b c d : Z) : Z := be_value [a; b; c; d].

Lemma v4_value_eq a b c d : v4_value a b c d = a * 2 ^ 24 + b * 2 ^ 16 + c * 2 ^ 8 + d.
Proof. unfold v4_value, be_value. cbn. lia. Qed.

(** Membership in a block is a range of addresses. *)
Lemma in_block_range v base len n :
  0 < 2 ^ (32 - len) -> base = n * 2 ^ (32 - len) ->
  in_block v (base, len) = true <-> base <= v < base + 2 ^ (32 - len).
Proof.
  intros Hp ->. unfold in_block. cbn [fst snd]. rewrite Z.eqb_eq, Z.div_mul by lia.
  pose proof (Z.div_mod v (2 ^ (32 - len))). pose proof (Z.mod_pos_bound v (2 ^ (32 - len)) Hp). nia.
Qed.

Lemma reserved_ranges v :
  existsb (in_block v) reserved_v4 = true <->
  (0x0A000000 <= v < 0x0B000000 \/ 0xAC100000 <= v < 0xAC200000 \/ 0xC0A80000 <= v < 0xC0A90000
   \/ 0x7F000000 <= v < 0x80000000 \/ 0xA9FE0000 <= v < 0xA9FF0000 \/ 0xC0000200 <= v < 0xC0000300
   \/ 0xC6336400 <= v < 0xC6336500 \/ 0xCB007100 <= v < 0xCB007200 \/ 0 <= v < 0x01000000
   \/ 0x64400000 <= v < 0x64800000 \/ 0xC6120000 <= v < 0xC6140000 \/ 0xF0000000 <= v < 0x100000000).
Proof.
  unfold reserved_v4. cbn [existsb]. rewrite !orb_true_iff.
  rewrite (in_block_range v 0x0A000000 8 10), (in_block_range v 0xAC100000 12 (0xAC1)),
    (in_block_range v 0xC0A80000 16 (0xC0A8)), (in_block_range v 0x7F000000 8 127),
    (in_block_range v 0xA9FE0000 16 0xA9FE), (in_block_range v 0xC0000200 24 0xC00002),
    (in_block_range v 0xC6336400 24 0xC63364), (in_block_range v 0xCB007100 24 0xCB0071),
    (in_block_range v 0 8 0), (in_block_range v 0x64400000 10 401), (in_block_range v 0xC6120000 15 25353),
    (in_block_range v 0xF0000000 4 15) by reflexivity.
  cbn. intuition lia.
Qed.

(** The same ranges, octet by octet. *)
Lemma reserved_octets a b c d :
  byte_ok a -> byte_ok b -> byte_ok c -> byte_ok d ->
  existsb (in_block (v4_value a b c d)) reserved_v4 = true <->
  (a = 10 \/ (a = 172 /\ 16 <= b <= 31) \/ (a = 192 /\ b = 168) \/ a = 127 \/ (a = 169 /\ b = 254)
   \/ (a = 192 /\ b = 0 /\ c = 2) \/ (a = 198 /\ b = 51 /\ c = 100) \/ (a = 203 /\ b = 0 /\ c = 113) \/ a = 0
   \/ (a = 100 /\ 64 <= b < 128) \/ (a = 198 /\ (b = 18 \/ b = 19)) \/ 240 <= a).
Proof.
  intros Ha Hb Hc Hd. rewrite reserved_ranges, v4_value_eq. unfold byte_ok in *.
  repeat (apply Morphisms_Prop.or_iff_morphism; [lia|]). lia.
Qed.

(** ** Properties *)

(** The IPv4 filter is the table of reserved blocks: an address is public exactly when it lies in
    none of the private, loopback, link-local, documentation, "this network", carrier-grade NAT,
    benchmarking and reserved blocks. *)
Lemma is_public_v4_reserved (a b c d : Z) :
  byte_ok a -> byte_ok b -> byte_ok c -> byte_ok d ->
  is_public (V4 a b c d) = negb (existsb (in_block (v4_value a b c d)) reserved_v4).
Proof.
  intros Ha Hb Hc Hd. cbn [is_public]. unfold is_public_v4. f_equal.
  apply eq_true_iff_eq. rewrite (reserved_octets a b c d) by done.
  unfold v4_is_private, v4_is_loopback, v4_is_link_local, v4_is_broadcast, v4_is_unspecified, v4_is_documentation.
  rewrite !orb_true_iff, !andb_true_iff, !orb_true_iff, !Z.eqb_eq, !Z.leb_le, !Z.ltb_lt.
  clear Ha Hb Hc Hd. split; intros H.
  - decompose [or and] H; clear H; tauto || (repeat right; lia).
  - decompose [or and] H; clear H; tauto || lia.
Qed.

(** C38. No server-side request forgery: without the insecure profile, a delivery to a URL that passed
    validation connects only to public addresses, whatever names resolve to at delivery time, except
    to hosts the operator has allow-listed; and such a URL is https, carries no credentials and names
    no local domain. *)
Theorem validated_targets_public (parse_url : string -> result string Url) (policy : TargetPolicy)
    (raw : string) (url : Url) (host : Host) (resolved : list IpAddr) :
  pol_allow_insecure policy = false ->
  validate parse_url raw policy = Ok url -> u_host url = Some host ->
  (forall d, host = Domain d -> is_allowlisted policy d = false) ->
  (forall ip, ip ∈ connect_addrs policy host resolved -> is_public ip = true)
  /\ u_scheme url = "https" /\ u_username url = "" /\ u_password url = None
  /\ (forall d, host = Domain d -> is_local_domain d = false).
Proof.
  intros Hpol Hv Hh Hal. unfold validate in Hv. destruct (parse_url raw) as [u|e]; [|done].
  destruct (_ <? _); [done|]. destruct (negb _ || _) eqn:Hcred; [done|].
  apply orb_false_iff in Hcred as [Hu%negb_false_iff%String.eqb_eq Hp%bool_decide_eq_false].
  apply eq_None_not_Some in Hp. destruct (u_host u) as [h|] eqn:Hhost; [|done].
  assert (u = url) as -> by (repeat (case_match; try done); simplify_eq; done).
  rewrite Hh in Hhost. injection Hhost as ->.
  assert (Eal : match h with Domain d => is_allowlisted policy d | HostIp _ => false end = false).
  { destruct h as [d|ip]; [by apply Hal|done]. }
  rewrite Hpol, Eal in Hv. cbn [orb] in Hv.
  destruct (String.eqb_spec (u_scheme url) "https") as [Hs|_]; [|by destruct (String.eqb _ _)].
  destruct h as [d|ip].
  - destruct (is_local_domain d) eqn:Hl; [done|]. split_and!; try done; [|by intros d' [= <-]].
    intros ip. cbn. unfold resolve. rewrite Eal. cbn [orb].
    destruct (List.filter _ resolved) as [|x l] eqn:Hf; [by intros ?%not_elem_of_nil|].
    cbn. rewrite <- Hf. by intros [_ ?]%list_elem_of_In%List.filter_In.
  - destruct (is_public ip) eqn:Hip; [|done]. split_and!; try done.
    by intros ip' ->%list_elem_of_singleton.
Qed.

Lemma validated_targets_public_witness :
  let url := mkUrl "https" "" None (Some (Domain "shop.example")) in
  let policy := mkPolicy false ["gum-server.railway.internal"] in
  let addrs := connect_addrs policy (Domain "shop.example") [V4 10 0 0 1; V4 93 184 216 34] in
  addrs = [V4 93 184 216 34] /\ forall ip, ip ∈ addrs -> is_public ip = true.
Proof.
  intros url policy addrs. split; [reflexivity|].
  apply (validated_targets_public (fun _ => Ok url) policy "https://shop.example/hook" url (Domain "shop.example"));
    [reflexivity|reflexivity|reflexivity|intros d [= <-]; reflexivity].
Defined.
