(* ===== verification/Api.v ===== *)
(** * Api: [src/api/mod.rs]

    The HTTP handlers over the database, the registry and the runtimes of this instance. A request
    is the deserialised body; a response is a status with the body before serialisation. Parsing of
    addresses, URLs and big integers and the rendering of UUIDs and quoted strings belong to
    libraries and are parameters. Times are milliseconds; [clock] gives the successive readings of
    [Utc::now()] in a handler. *)

From S2P Require Import Prelude Text Json Config Registry Cache Events Health Rpc Store Runtime Target.

(** [src/api/mod.rs:31-41 ApiState] What the handlers read and write; [as_notified] collects the
    notifications published. *)
Record ApiState := mkApi {
  as_db : DB;
  as_chains : gmap Z ChainRuntime;
  as_notified : list string;
}.

(** [src/api/mod.rs:63-68 ApiError] *)
Record ApiError := mkApiError {
  ae_status : Z;
  ae_code : string;
  ae_message : string;
}.

(** [src/api/mod.rs:74-76 ApiError::invalid] *)
Definition invalid (message : string) : ApiError := mkApiError 422 "invalid_request" message.

(** [src/api/mod.rs:85-90 From<StoreError> for ApiError] *)
Definition from_store_error (e : StoreError) : ApiError :=
  mkApiError 503 "storage_unavailable" "storage is temporarily unavailable; retry".

(** [src/api/mod.rs:97-115 CreateWatchRequest] *)
Record CreateWatchRequest := mkRequest {
  q_payment_address : string;
  q_chain : string;
  q_token : string;
  q_balance_threshold : Value;
  q_webhook_endpoint : string;
  q_expires_at : option Z;
  q_payments_since : option Z;
}.

(** [src/api/mod.rs:118-137 WatchResponse] *)
Record WatchResponse := mkResponse {
  wr_id : Z;
  wr_chain : string;
  wr_chain_id : Z;
  wr_token : string;
  wr_token_address : Z;
  wr_payment_address : Z;
  wr_balance_threshold : Z;
  wr_confirmed_amount : Z;
  wr_status : WatchStatus;
  wr_webhook_endpoint : string;
  wr_start_block : Z;
  wr_created_at : Z;
  wr_expires_at : option Z;
  wr_completed_at : option Z;
  wr_transfers : option (list TransferView);
}.

(** [src/api/mod.rs:139-158 watch_response] *)
Definition watch_response (chain : ChainSpec) (w : WatchRow) (transfers : option (list TransferView)) : WatchResponse :=
  let view := watch_view w chain in
  mkResponse (w_id w) (wv_chain view) (wv_chain_id view) (wv_token view) (w_token_address w) (w_payment_address w)
    (w_threshold w) (w_confirmed_amount w) (w_status w) (w_webhook_url w) (w_start_block w) (w_created_at w)
    (w_expires_at w) (w_completed_at w) transfers.

(** [src/api/mod.rs:266-269 lookback_blocks] [u64::div_ceil]. *)
Definition lookback_blocks (age expected_block_time_ms : Z) : Z :=
  let bt := Z.max expected_block_time_ms 1 in
  let n := u64_mul (as_u64 age) 5 `div` 4 in
  u64_add (n `div` bt + (if n `mod` bt =? 0 then 0 else 1)) 2.

(** [slice::join]. *)
Fixpoint join (sep : string) (l : list string) : string :=
  match l with
  | [] => EmptyString
  | [s] => s
  | s :: l => s +:+ sep +:+ join sep l
  end.

Section handlers.
Variable parse_address : string -> option Z.
Variable parse_uint : string -> option Z.
Variable parse_url : string -> result string Url.
Variable show_url : Url -> string.
Variable show_id : Z -> string.
Variable debug : string -> string.

Variable registry : list ChainSpec.
Variable default_ttl : option Z.
Variable max_backfill : Z.
Variable policy : TargetPolicy.

(** [src/api/mod.rs:160-173 parse_threshold] *)
Definition parse_threshold (v : Value) : result ApiError Z :=
  text ← match v with
         | Str s => Ok (trim s)
         | Number n =>
             if bool_decide (in_u64 n) then Ok (show_u64 n)
             else Err (invalid "balance_threshold must be a base-unit integer (string or number)")
         | _ => Err (invalid "balance_threshold must be a base-unit integer (string or number)")
         end;
  value ← ok_or (invalid "balance_threshold must be a non-negative base-unit integer that fits uint256")
            (parse_uint text);
  if value =? 0 then Err (invalid "balance_threshold must be greater than zero") else Ok value.

(** [src/api/mod.rs:203-207 create_watch (expires_at)] *)
Definition expiry (clock : nat -> Z) (expires_at : option Z) : result ApiError (option Z) :=
  match expires_at with
  | Some at_ => if at_ <=? clock 0%nat then Err (invalid "expires_at is in the past") else Ok (Some at_)
  | None => Ok (ttl ← default_ttl; if ttl <=? 2 ^ 63 - 1 then Some (clock 0%nat + ttl) else None)
  end.

(** [src/api/mod.rs:217-231 create_watch (lookback)] *)
Definition request_lookback (clock : nat -> Z) (chain : ChainSpec) (payments_since : option Z) : Z :=
  match payments_since with
  | Some since =>
      let age := Z.max 0 (clock 1%nat - since) in
      lookback_blocks (Z.min age max_backfill) (cc_expected_block_time_ms (ch_cfg chain))
  | None => 0
  end.

(** [src/api/mod.rs:179-241 create_watch (validation)] The chain and the row to insert. *)
Definition check_request (clock : nat -> Z) (st : ApiState) (req : CreateWatchRequest)
    : result ApiError (ChainSpec * ChainRuntime * NewWatch) :=
  chain ← ok_or (invalid ("unsupported chain " +:+ debug (q_chain req) +:+ "; supported: "
                    +:+ join ", " (ch_name <$> registry)))
            (Registry.chain registry (q_chain req));
  token ← ok_or (invalid ("token " +:+ debug (q_token req) +:+ " is not supported on " +:+ ch_name chain
                    +:+ "; supported: " +:+ join ", " (t_symbol <$> ch_tokens chain)))
            (Registry.token parse_address chain (q_token req));
  payment_address ← ok_or (invalid "payment_address is not a valid EVM address")
                      (parse_address (trim (q_payment_address req)));
  if payment_address =? 0 then Err (invalid "payment_address must not be the zero address")
  else
    threshold ← parse_threshold (q_balance_threshold req);
    url ← match Target.validate parse_url (q_webhook_endpoint req) policy with
          | Ok url => Ok url
          | Err m => Err (invalid ("webhook_endpoint: " +:+ m))
          end;
    expires_at ← expiry clock (q_expires_at req);
    match as_chains st !! ch_chain_id chain with
    | Some rt =>
        if rt_hydrated rt then
          Ok (chain, rt, mkNewWatch (ch_chain_id chain) (t_address token) payment_address threshold (show_url url)
                expires_at (head_estimate rt) (request_lookback clock chain (q_payments_since req)))
        else Err (mkApiError 503 "chain_not_ready" (ch_name chain +:+ " is still starting; retry"))
    | None => Err (mkApiError 503 "chain_not_ready" (ch_name chain +:+ " is still starting; retry"))
    end.

(** [src/api/mod.rs:175-262 create_watch] *)
Definition api_create_watch (clock : nat -> Z) (env : Env) (st : ApiState) (req : CreateWatchRequest)
    : result ApiError (Z * WatchResponse) * ApiState :=
  match check_request clock st req with
  | Err e => (Err e, st)
  | Ok (chain, rt, new) =>
      match create_watch env (as_db st) new with
      | (Err e, db) => (Err (from_store_error e), mkApi db (as_chains st) (as_notified st))
      | (Ok (Created w), db) =>
          let rt := match cache_entry w chain with Some (key, entry) => add_watch rt key entry | None => rt end in
          let rt := match w_backfill_to w with Some _ => request_sweep rt (Now "backfill") | None => rt end in
          (Ok (201, watch_response chain w None),
           mkApi db (<[ch_chain_id chain := rt]> (as_chains st))
             (as_notified st ++ [announce_added show_id (ch_chain_id chain) (w_id w)]))
      | (Ok (Existing w), db) => (Ok (200, watch_response chain w None), mkApi db (as_chains st) (as_notified st))
      | (Ok (Conflict w), db) =>
          (Err (mkApiError 409 "watch_conflict" ("an active watch (" +:+ show_id (w_id w)
             +:+ ") already exists for this address and token with different parameters")),
           mkApi db (as_chains st) (as_notified st))
      end
  end.

(** [src/api/mod.rs:271-279 load] *)
Definition load (st : ApiState) (id : Z) : result ApiError (ChainSpec * WatchRow) :=
  watch ← match get_watch (as_db st) id with
          | Err e => Err (from_store_error e)
          | Ok o => ok_or (mkApiError 404 "not_found" "no such watch") o
          end;
  chain ← ok_or (mkApiError 404 "not_found" "watch belongs to a chain that is no longer enabled")
            (chain_by_id registry (w_chain_id watch));
  Ok (chain, watch).

(** [src/api/mod.rs:281-285 get_watch] *)
Definition api_get_watch (st : ApiState) (id : Z) : result ApiError WatchResponse :=
  '(chain, watch) ← load st id;
  match transfers_for_watch (as_db st) id 500 with
  | Err e => Err (from_store_error e)
  | Ok transfers => Ok (watch_response chain watch (Some (transfer_row_view <$> transfers)))
  end.

(** [src/api/mod.rs:287-300 cancel_watch] *)
Definition api_cancel_watch (env : Env) (st : ApiState) (id : Z) : result ApiError WatchResponse * ApiState :=
  match load st id with
  | Err e => (Err e, st)
  | Ok (chain, existing) =>
      match cancel_watch env (as_db st) id with
      | (Err e, db) => (Err (from_store_error e), mkApi db (as_chains st) (as_notified st))
      | (Ok (Some cancelled), db) =>
          let chains :=
            match as_chains st !! ch_chain_id chain, cache_entry cancelled chain with
            | Some rt, Some (key, _) => <[ch_chain_id chain := remove_watch rt key id]> (as_chains st)
            | _, _ => as_chains st
            end in
          (Ok (watch_response chain cancelled None),
           mkApi db chains (as_notified st ++ [announce_removed show_id (ch_chain_id chain) id]))
      | (Ok None, db) => (Ok (watch_response chain existing None), mkApi db (as_chains st) (as_notified st))
      end
  end.

(** [src/api/mod.rs:317-326 TokenView] *)
Record TokenView := mkTokenView {
  tv_symbol : string;
  tv_address : Z;
  tv_decimals : Z;
  tv_issuance : string;
  tv_transfer_log_address : option Z;
}.

(** [src/api/mod.rs:306-315 ChainView] *)
Record ChainView := mkChainView {
  cv_name : string;
  cv_chain_id : Z;
  cv_confirmations : Z;
  cv_tokens : list TokenView;
  cv_active_watches : Z;
  cv_ready : bool;
  cv_health : HealthSnapshot;
}.

(** [src/api/mod.rs:328-356 chain_views] *)
Definition chain_views (now : Z) (st : ApiState) : list ChainView :=
  omap (fun c =>
    rt ← as_chains st !! ch_chain_id c;
    Some (mkChainView (ch_name c) (ch_chain_id c) (cc_confirmations (ch_cfg c))
      ((fun t => mkTokenView (t_symbol t) (t_address t) (t_decimals t) (t_issuance t)
           (if negb (t_log_address t =? t_address t) then Some (t_log_address t) else None)) <$> ch_tokens c)
      (Z.of_nat (cache_len (rt_cache rt))) (rt_hydrated rt) (snapshot now (rt_health rt)))) registry.

(** One chain's entry in the answer of [/v1/stats]. *)
Record ChainStats := mkChainStats {
  cs_chain_id : Z;
  cs_confirmed : Z;
  cs_pending : Z;
  cs_orphaned : Z;
  cs_thresholds : Z;
  cs_tokens : list (string * StatsRow);
}.

(** [src/api/mod.rs:367-398 stats (one chain)] *)
Definition chain_stats (rows : list StatsRow) (chain : ChainSpec) : ChainStats :=
  let mine := List.filter (fun r => sr_chain_id r =? ch_chain_id chain) rows in
  mkChainStats (ch_chain_id chain) (sumZ sr_confirmed_count mine) (sumZ sr_pending_count mine)
    (sumZ sr_orphaned_count mine) (sumZ sr_thresholds_reached mine)
    ((fun r => (from_option t_symbol "UNKNOWN"%string (token_by_address chain (sr_token_address r)), r)) <$> mine).

(** [src/api/mod.rs:362-406 stats] The totals (confirmed, pending, orphaned) and the chains. *)
Definition api_stats (st : ApiState) : result ApiError (Z * Z * Z * list ChainStats) :=
  match stats (as_db st) with
  | Err e => Err (from_store_error e)
  | Ok rows =>
      let per_chain := chain_stats rows <$> registry in
      Ok (sumZ cs_confirmed per_chain, sumZ cs_pending per_chain, sumZ cs_orphaned per_chain, per_chain)
  end.

(** [src/api/mod.rs:414-420 readyz] [db] is whether [SELECT 1] succeeded. *)
Definition readyz (db : bool) (st : ApiState) : Z * bool :=
  let ready := db && forallb (fun kr => rt_hydrated kr.2) (map_to_list (as_chains st)) in
  (if ready then 200 else 503, ready).
End handlers.
