(* ===== verification/Sign.v ===== *)
(** * Sign: [src/webhook/sign.rs]

    The signature header and its verification. HMAC-SHA256 and the hexadecimal codec are code of
    other packages: parameters of the section, with what the code relies on as named hypotheses.
    The bytes of a string are its characters; [verify_slice] accepts exactly the computed tag. *)

From Stdlib Require Import Ascii.
From S2P Require Import Prelude Text.

(** [i64::to_string] *)
Definition show_i64 (n : Z) : string :=
  if n <? 0 then String "-" (show_digits 20 (- n)) else show_digits 20 n.

(** [i64::abs] in a release build: the minimum is its own absolute value. *)
Definition i64_abs (x : Z) : Z := as_i64 (Z.abs x).

Section sign.
Variable hmac : string -> string -> list Z.
Variable hex_encode : list Z -> string.
Variable hex_decode : string -> option (list Z).

(** [src/webhook/sign.rs:31-37 mac] The message that is authenticated. *)
Definition mac (secret : string) (timestamp : Z) (body : string) : list Z :=
  hmac secret (show_i64 timestamp +:+ "." +:+ body).

(** [src/webhook/sign.rs:9-11 signature_header] *)
Definition signature_header (secret : string) (timestamp : Z) (body : string) : string :=
  "t=" +:+ show_i64 timestamp +:+ ",v1=" +:+ hex_encode (mac secret timestamp body).

(** [src/webhook/sign.rs:17-23 verify (loop)] *)
Definition verify_part (acc : option Z * option (list Z)) (part : string) : option Z * option (list Z) :=
  match split_once "="%char (trim part) with
  | Some (k, v) =>
      if String.eqb k "t" then (parse_i64 v, acc.2)
      else if String.eqb k "v1" then (acc.1, hex_decode v)
      else acc
  | None => acc
  end.

(** [src/webhook/sign.rs:14-29 verify] *)
Definition verify (secret header body : string) (now tolerance_secs : Z) : bool :=
  match foldl verify_part (None, None) (split ","%char header) with
  | (Some timestamp, Some digest) =>
      if tolerance_secs <? i64_abs (as_i64 (now - timestamp)) then false
      else bool_decide (digest = mac secret timestamp body)
  | _ => false
  end.
End sign.

(** ** Lemmas *)

Lemma all_chars_app p s t : all_chars p (s +:+ t) = all_chars p s && all_chars p t.
Proof.
  induction s as [|c s IH]; [done|]. change (String c s +:+ t) with (String c (s +:+ t)). cbn.
  by rewrite IH, andb_assoc.
Qed.

(** A string without blanks is its own trimming; enough for the parts of a header. *)
Definition no_blank (c : ascii) : bool := negb (is_space c).
Definition not_char (d c : ascii) : bool := negb (Ascii.eqb c d).

Lemma trim_end_no_blank s : all_chars no_blank s = true -> trim_end s = s.
Proof.
  induction s as [|c s IH]; [done|]. cbn. intros [H1 H2]%andb_prop. rewrite IH by done.
  unfold no_blank in H1. apply negb_true_iff in H1. by destruct s; rewrite ?H1.
Qed.

Lemma trim_no_blank s : all_chars no_blank s = true -> trim s = s.
Proof.
  intros H. unfold trim. rewrite <- (trim_end_no_blank s H) at 2. f_equal.
  destruct s as [|c s]; [done|]. cbn in H |- *. apply andb_prop in H as [H _].
  unfold no_blank in H. apply negb_true_iff in H. by rewrite H.
Qed.

Lemma split_on_none sep s : all_chars (not_char sep) s = true -> split_on sep s = (s, []).
Proof.
  induction s as [|c s IH]; [done|]. cbn. intros [H1 H2]%andb_prop. rewrite IH by done.
  unfold not_char in H1. apply negb_true_iff in H1. by rewrite H1.
Qed.

Lemma split_on_app sep s t :
  all_chars (not_char sep) s = true -> split_on sep (s +:+ String sep t) = (s, split sep t).
Proof.
  induction s as [|c s IH]; intros H.
  - change (EmptyString +:+ String sep t) with (String sep t). cbn. unfold split.
    destruct (split_on sep t). by rewrite Ascii.eqb_refl.
  - change (String c s +:+ String sep t) with (String c (s +:+ String sep t)). cbn in H |- *.
    apply andb_prop in H as [H1 H2]. rewrite IH by done. unfold not_char in H1. apply negb_true_iff in H1.
    by rewrite H1.
Qed.

Lemma parse_digits_show max n :
  0 <= n <= max -> n < 10 ^ 20 -> parse_digits max (show_digits 20 n) = Some n.
Proof.
  intros Hn Hlt. assert (Hv : digits_value 0 (show_digits 20 n) = Some n).
  { apply digits_value_show; [lia|]. change (10 ^ Z.of_nat 20) with (10 ^ 20). lia. }
  unfold parse_digits. destruct (show_digits 20 n) as [|c s] eqn:E.
  - injection Hv as <-. vm_compute in E. done.
  - rewrite Hv. cbn. destruct (Z.leb_spec n max); [done|lia].
Qed.

Lemma show_digits_digits n : 0 <= n < 10 ^ 20 -> all_chars is_ascii_digit (show_digits 20 n) = true.
Proof.
  intros Hn. assert (H : all_digits (show_digits 20 n) = true).
  { eapply digits_value_all_digits, digits_value_show; [lia|]. change (10 ^ Z.of_nat 20) with (10 ^ 20). lia. }
  exact H.
Qed.

Lemma parse_show_i64 n : - 2 ^ 63 <= n < 2 ^ 63 -> parse_i64 (show_i64 n) = Some n.
Proof.
  intros Hn. unfold show_i64. destruct (Z.ltb_spec n 0) as [Hneg|Hpos].
  - cbn [parse_i64]. rewrite parse_digits_show by lia. cbn. f_equal. lia.
  - pose proof (parse_digits_show (2 ^ 63 - 1) n ltac:(lia) ltac:(lia)) as Hp.
    pose proof (show_digits_digits n ltac:(lia)) as Hd. destruct (show_digits 20 n) as [|c s]; [done|].
    cbn in Hd. apply andb_prop in Hd as [Hc _]. rewrite <- Hp. clear - Hc.
    destruct c as [[] [] [] [] [] [] [] []]; done.
Qed.

(** Characters that can occur in a timestamp, and in a hexadecimal digest. *)
Definition ts_char (c : ascii) : bool := is_ascii_digit c || Ascii.eqb c "-".
Definition hex_char (c : ascii) : bool :=
  let n := nat_of_ascii c in is_ascii_digit c || ((97 <=? n)%nat && (n <=? 102)%nat).

Lemma show_i64_chars n : - 2 ^ 63 <= n < 2 ^ 63 -> all_chars ts_char (show_i64 n) = true.
Proof.
  intros Hn. unfold show_i64. destruct (Z.ltb_spec n 0); cbn [all_chars]; [apply andb_true_intro; split; [done|]|];
    (eapply all_chars_impl; [|apply show_digits_digits; lia]); intros c Hc; unfold ts_char; by rewrite Hc.
Qed.

Lemma ts_char_plain c : ts_char c = true -> no_blank c = true /\ not_char "," c = true.
Proof. destruct c as [[] [] [] [] [] [] [] []]; done. Qed.
Lemma hex_char_plain c : hex_char c = true -> no_blank c = true /\ not_char "," c = true.
Proof. destruct c as [[] [] [] [] [] [] [] []]; done. Qed.

Section verified.
Variable hmac : string -> string -> list Z.
Variable hex_encode : list Z -> string.
Variable hex_decode : string -> option (list Z).
Hypothesis hmac_bytes : forall key msg, Forall byte_ok (hmac key msg).
Hypothesis hex_roundtrip : forall bs, Forall byte_ok bs -> hex_decode (hex_encode bs) = Some bs.
Hypothesis hex_alphabet : forall bs, all_chars hex_char (hex_encode bs) = true.

(** The header splits back into the timestamp and the digest that were put into it. *)
Lemma header_parts secret ts body :
  - 2 ^ 63 <= ts < 2 ^ 63 ->
  foldl (verify_part hex_decode) (None, None) (split ","%char (signature_header hmac hex_encode secret ts body))
  = (Some ts, Some (mac hmac secret ts body)).
Proof.
  intros Hts. unfold signature_header. set (hx := hex_encode (mac hmac secret ts body)).
  pose proof (show_i64_chars ts Hts) as Hc. pose proof (hex_alphabet (mac hmac secret ts body)) as Hh.
  fold hx in Hh.
  change ("t=" +:+ show_i64 ts +:+ ",v1=" +:+ hx) with (("t=" +:+ show_i64 ts) +:+ String "," ("v1=" +:+ hx)).
  unfold split. rewrite split_on_app.
  2:{ change ("t=" +:+ show_i64 ts) with (String "t" (String "=" (show_i64 ts))). cbn [all_chars andb].
      change (not_char "," "t") with true. change (not_char "," "=") with true. cbn [andb].
      eapply all_chars_impl; [|exact Hc]. apply ts_char_plain. }
  unfold split. rewrite split_on_none.
  2:{ rewrite all_chars_app. change (all_chars (not_char ",") "v1=") with true. cbn [andb].
      eapply all_chars_impl; [|exact Hh]. apply hex_char_plain. }
  cbn [foldl]. unfold verify_part at 2. rewrite trim_no_blank.
  2:{ rewrite all_chars_app. change (all_chars no_blank "t=") with true. cbn [andb].
      eapply all_chars_impl; [|exact Hc]. apply ts_char_plain. }
  change (split_once "="%char ("t=" +:+ show_i64 ts)) with (Some ("t"%string, show_i64 ts)).
  cbn iota beta. change (String.eqb "t" "t") with true. cbn iota. rewrite parse_show_i64 by done.
  unfold verify_part. rewrite trim_no_blank.
  2:{ rewrite all_chars_app. change (all_chars no_blank "v1=") with true. cbn [andb].
      eapply all_chars_impl; [|exact Hh]. apply hex_char_plain. }
  change (split_once "="%char ("v1=" +:+ hx)) with (Some ("v1"%string, hx)). cbn iota beta.
  change (String.eqb "v1" "t") with false. change (String.eqb "v1" "v1") with true. cbn iota. cbn [fst snd].
  unfold hx. rewrite hex_roundtrip; [done|]. apply hmac_bytes.
Qed.

Lemma verify_header (secret body body' : string) (ts now tolerance : Z) :
  0 <= ts < 2 ^ 62 -> 0 <= now < 2 ^ 62 -> 0 <= tolerance ->
  verify hmac hex_decode secret (signature_header hmac hex_encode secret ts body) body' now tolerance
  = bool_decide (Z.abs (now - ts) <= tolerance)
    && bool_decide (mac hmac secret ts body = mac hmac secret ts body').
Proof.
  intros Hts Hnow Htol. unfold verify. rewrite header_parts by lia.
  assert (E : i64_abs (as_i64 (now - ts)) = Z.abs (now - ts)).
  { unfold i64_abs. assert (as_i64 (now - ts) = now - ts) as -> by (unfold as_i64; rewrite Z.mod_small; lia).
    apply as_i64_id. unfold in_i63. lia. }
  rewrite E. destruct (Z.ltb_spec tolerance (Z.abs (now - ts))).
  - rewrite (bool_decide_false (Z.abs _ <= _)) by lia. done.
  - rewrite (bool_decide_true (Z.abs _ <= _)) by lia. done.
Qed.

(** Sign and verify agree: a consumer given the header of a body signed at [ts] accepts a body at
    time [now] exactly when the clock difference is within the tolerance and the authentication tag
    of the received body under the same timestamp equals the one that was sent — so the signed body
    is accepted, and a body with a different tag, or a stale timestamp, is not. *)
Theorem verify_signed (secret body body' : string) (ts now tolerance : Z) :
  0 <= ts < 2 ^ 62 -> 0 <= now < 2 ^ 62 -> 0 <= tolerance ->
  verify hmac hex_decode secret (signature_header hmac hex_encode secret ts body) body' now tolerance
  = bool_decide (Z.abs (now - ts) <= tolerance)
    && bool_decide (mac hmac secret ts body = mac hmac secret ts body').
Proof. apply verify_header. Qed.
End verified.

(** ** Findings *)

(** The tolerance test subtracts with wrap-around: for a timestamp 2^63 seconds away the difference
    is the least integer, whose absolute value is itself, so the header is not too old. *)
Theorem verify_ancient_timestamp (hmac : string -> string -> list Z) (hex_decode : string -> option (list Z))
    (secret header body : string) (now : Z) :
  0 <= now < 2 ^ 63 ->
  foldl (verify_part hex_decode) (None, None) (split ","%char header)
    = (Some (now - 2 ^ 63), Some (mac hmac secret (now - 2 ^ 63) body)) ->
  verify hmac hex_decode secret header body now 300 = true.
Proof.
  intros Hn H. unfold verify. rewrite H. replace (now - (now - 2 ^ 63)) with (2 ^ 63) by lia.
  change (300 <? i64_abs (as_i64 (2 ^ 63))) with false. cbn iota. by rewrite bool_decide_true.
Qed.

(** ** A codec and a tag for the witness *)

Module Hex.
Definition char_of (n : Z) : ascii := ascii_of_nat (Z.to_nat (if n <? 10 then 48 + n else 87 + n)).
Definition value_of (c : ascii) : option Z :=
  let n := Z.of_nat (nat_of_ascii c) in
  if (48 <=? n) && (n <=? 57) then Some (n - 48)
  else if (97 <=? n) && (n <=? 102) then Some (n - 87) else None.
Definition encode (bs : list Z) : string :=
  foldr (fun b s => String (char_of ((b `mod` 256) `div` 16)) (String (char_of (b `mod` 16)) s)) EmptyString bs.
Fixpoint decode (s : string) : option (list Z) :=
  match s with
  | EmptyString => Some []
  | String c (String c' s) => x ← value_of c; y ← value_of c'; bs ← decode s; Some (x * 16 + y :: bs)
  | _ => None
  end.
Definition tag (key msg : string) : list Z :=
  [Z.of_nat (String.length key) `mod` 256; Z.of_nat (String.length msg) `mod` 256].

Lemma nibble n : 0 <= n < 16 -> value_of (char_of n) = Some n /\ hex_char (char_of n) = true.
Proof.
  intros H. assert (F : Forall (fun n => value_of (char_of n) = Some n /\ hex_char (char_of n) = true) (Z.of_nat <$> seq 0 16)).
  { repeat (apply List.Forall_cons; [split; reflexivity|]). apply List.Forall_nil. }
  rewrite Forall_forall in F. apply F, list_elem_of_fmap. exists (Z.to_nat n). split; [lia|]. apply elem_of_seq. lia.
Qed.

Lemma high_nibble b : 0 <= (b `mod` 256) `div` 16 < 16.
Proof. Z.to_euclidean_division_equations; lia. Qed.
Lemma low_nibble b : 0 <= b `mod` 16 < 16.
Proof. apply Z.mod_pos_bound. lia. Qed.

Lemma alphabet bs : all_chars hex_char (encode bs) = true.
Proof.
  induction bs as [|b bs IH]; [done|]. cbn.
  destruct (nibble _ (high_nibble b)) as [_ ->], (nibble _ (low_nibble b)) as [_ ->]. exact IH.
Qed.

Lemma roundtrip bs : Forall byte_ok bs -> decode (encode bs) = Some bs.
Proof.
  induction 1 as [|b bs Hb _ IH]; [done|]. cbn [encode foldr]. fold (encode bs). cbn [decode].
  destruct (nibble _ (high_nibble b)) as [-> _], (nibble _ (low_nibble b)) as [-> _]. cbn. rewrite IH. cbn.
  do 2 f_equal. unfold byte_ok in Hb. Z.to_euclidean_division_equations; lia.
Qed.

Lemma tag_bytes key msg : Forall byte_ok (tag key msg).
Proof.
  repeat constructor; unfold byte_ok; match goal with |- context [?x `mod` 256] => pose proof (Z.mod_pos_bound x 256) end; lia.
Qed.
End Hex.

Lemma verify_signed_witness :
  let header := signature_header Hex.tag Hex.encode "s3cret" 1800000000 "{}" in
  verify Hex.tag Hex.decode "s3cret" header "{}" 1800000010 300 = true
  /\ verify Hex.tag Hex.decode "s3cret" header "{ }" 1800000010 300 = false
  /\ verify Hex.tag Hex.decode "s3cret" header "{}" 1800001000 300 = false.
Proof.
  intros header. unfold header.
  rewrite !(verify_signed Hex.tag Hex.encode Hex.decode Hex.tag_bytes Hex.roundtrip Hex.alphabet) by lia.
  split_and!; vm_compute; reflexivity.
Defined.
