(* ===== verification/Webhook.v ===== *)
(** * Webhook: [src/webhook/mod.rs]

    The dispatcher: one delivery from a leased outbox item to its recorded outcome, the parking of
    failing hosts and the retry delay. Durations and instants are milliseconds; the outbox keeps
    microseconds. What the outside decides is an argument: whether a host slot came free in time,
    the response, the clocks, the random choice of the jitter, whether the statement that records the
    outcome succeeds. *)

From S2P Require Import Prelude Text Config Events Store Outbox.

(** [src/webhook/mod.rs:19-19 HOST_SLOT_WAIT] *)
Definition HOST_SLOT_WAIT : Z := 2000.
(** [src/webhook/mod.rs:21-21 HOST_BUSY_REQUEUE] *)
Definition HOST_BUSY_REQUEUE : Z := 250.

(** [src/webhook/mod.rs:41-45 HostState] *)
Record HostState := mkHost {
  hs_consecutive_failures : Z;
  hs_parked_until : option Z;
}.
Definition host_default : HostState := mkHost 0 None.

Abbreviation Hosts := (gmap string HostState).

(** [src/webhook/mod.rs:73-74 Dispatcher::run (lease)] *)
Definition lease_ms (cfg : WebhookConfig) : Z :=
  u64_add (wc_request_timeout_ms cfg) (wc_connect_timeout_ms cfg) + 5000.

(** [src/webhook/mod.rs:209-213 Dispatcher::parked_for] [checked_duration_since]: [None] once the
    instant has passed. *)
Definition parked_for (now : Z) (hosts : Hosts) (host : string) : option Z :=
  state ← hosts !! host;
  until ← hs_parked_until state;
  if now <=? until then Some (until - now) else None.

(** [src/webhook/mod.rs:215-222 Dispatcher::host_ok] *)
Definition host_ok (hosts : Hosts) (host : string) : Hosts := delete host hosts.

(** [src/webhook/mod.rs:224-241 Dispatcher::host_failed] *)
Definition host_failed (cfg : WebhookConfig) (now : Z) (hosts : Hosts) (host : string) : Hosts :=
  let state := default host_default (hosts !! host) in
  let failures := as_u32 (hs_consecutive_failures state + 1) in
  <[host := mkHost failures
       (if wc_host_failure_threshold cfg <=? failures then Some (now + wc_host_park_ms cfg)
        else hs_parked_until state)]> hosts.

(** [src/webhook/mod.rs:246-246 backoff (upper end)] *)
Definition backoff_max (base_ms cap_ms attempt : Z) : Z :=
  Z.max (Z.min (u64_saturating_mul base_ms (Z.shiftl 1 (Z.max 0 (Z.min attempt 30)))) cap_ms) base_ms.

(** [src/webhook/mod.rs:245-248 backoff] [pick lo hi] is the random choice. *)
Definition backoff (pick : Z -> Z -> Z) (base_ms cap_ms attempt : Z) : Z :=
  pick base_ms (backoff_max base_ms cap_ms attempt).

(** What the consumer answered: a status, or a transport error already described. *)
Inductive Response := Responded (status : Z) (text : string) | NoResponse (description : string).

(** A [reqwest::Error]: what it says of itself and its text. *)
Record ReqwestError := mkReqwest { re_timeout : bool; re_connect : bool; re_redirect : bool; re_text : string }.

(** [src/webhook/mod.rs:250-261 describe] *)
Definition describe_error (e : ReqwestError) : string :=
  let kind := if re_timeout e then "timeout" else if re_connect e then "connect"
              else if re_redirect e then "redirect" else "request" in
  kind +:+ ": " +:+ re_text e.

Definition is_success (status : Z) : bool := (200 <=? status) && (status <=? 299).

(** The clocks a delivery reads: the instants of the two host checks, the wall clock and the
    database's, in milliseconds and microseconds. *)
Record Clocks := mkClocks { ck_start : Z; ck_end : Z; ck_utc : Z; ck_db : Z }.

(** [src/webhook/mod.rs:126-198 Dispatcher::deliver] [slot] tells whether a host slot came free in
    time, [body] is the serialised payload, [send] the POST, [saved] whether the one statement on the
    outbox commits: its error is logged or ignored. Also returns the body that was posted, if any. *)
Definition deliver (cfg : WebhookConfig) (pick : Z -> Z -> Z) (ck : Clocks) (saved : bool) (host : string)
    (slot : bool) (body : option string) (send : string -> Response)
    (item : OutboxItem) (d : DB) (hosts : Hosts) : DB * Hosts * option string :=
  let save d' := if saved then d' else d in
  match parked_for (ck_start ck) hosts host with
  | Some wait => (save (release (ck_db ck) d (i_id item) (1000 * wait)), hosts, None)
  | None =>
      if negb slot then (save (release (ck_db ck) d (i_id item) (1000 * HOST_BUSY_REQUEUE)), hosts, None)
      else match body with
      | None => (save (mark_dead d (i_id item) None "unserialisable payload"), hosts, None)
      | Some body =>
          let failed status error :=
            let hosts := host_failed cfg (ck_end ck) hosts host in
            let age := Z.max 0 (ck_utc ck - i_created_at item) in
            if 1000000 * wc_max_age_secs cfg <=? age then (save (mark_dead d (i_id item) status error), hosts, Some body)
            else
              let delay := backoff pick (wc_retry_base_ms cfg) (wc_retry_cap_ms cfg) (i_attempts item) in
              (save (mark_retry (ck_db ck) d (i_id item) (1000 * delay) status error), hosts, Some body) in
          match send body with
          | Responded status text =>
              if is_success status
              then (save (mark_delivered (ck_db ck) d (i_id item) status), host_ok hosts host, Some body)
              else failed (Some status) ("HTTP " +:+ text)
          | NoResponse description => failed None description
          end
      end
  end.

(** [src/webhook/mod.rs:78-93 Dispatcher::run (lease a batch)] [free] permits are available. *)
Definition lease_batch (cfg : WebhookConfig) (now : Z) (locked : Z -> bool) (d : DB) (free : Z)
    : list OutboxItem * DB :=
  if free =? 0 then ([], d) else lease_due now locked d free (1000 * lease_ms cfg).

(** [src/webhook/mod.rs:263-272 leak_event] *)
Definition leak_event (event_type : string) : string :=
  if existsb (String.eqb event_type)
       ["payment.pending"; "payment.confirmed"; "payment.orphaned"; "threshold.reached"; "watch.expired"]
  then event_type else "other".

(** ** Lemmas *)

Lemma update_outbox_lookup id guard f d ev :
  d_outbox (update_outbox id guard f d) !! ev =
  if decide (ev = id) then (fun o => if guard o then f o else o) <$> d_outbox d !! ev else d_outbox d !! ev.
Proof.
  unfold update_outbox. case_decide as E; [subst ev|].
  - destruct (d_outbox d !! id) as [o|] eqn:Ho; [|by rewrite Ho].
    cbn. destruct (guard o); cbn; [by rewrite lookup_insert_eq|by rewrite Ho].
  - destruct (d_outbox d !! id) as [o|]; [|done]. destruct (guard o); [|done]. cbn. by rewrite lookup_insert_ne.
Qed.

(** Full jitter: from the base to the base doubled with every attempt, within the cap. *)
Lemma backoff_bounds pick base cap attempt :
  (forall lo hi, lo <= hi -> lo <= pick lo hi <= hi) ->
  base <= backoff pick base cap attempt <= Z.max base (Z.min cap (base * 2 ^ Z.max 0 (Z.min attempt 30))).
Proof.
  intros Hpick. unfold backoff, backoff_max, u64_saturating_mul. rewrite Z.shiftl_mul_pow2, Z.mul_1_l by lia.
  match goal with |- _ <= pick ?lo ?hi <= _ => specialize (Hpick lo hi ltac:(lia)) end. lia.
Qed.

Lemma pending_true o : o_status o = OPending -> is_pending o = true.
Proof. intros E. unfold is_pending. by rewrite bool_decide_true. Qed.

(** What a failed POST is recorded as. *)
Definition refusal (r : Response) : option (option Z * string) :=
  match r with
  | Responded status text => if is_success status then None else Some (Some status, "HTTP " +:+ text)
  | NoResponse description => Some (None, description)
  end.

(** The row back in the queue; an event that another dispatcher has settled meanwhile stays so. *)
Definition requeued (next attempts : Z) (status : option Z) (error : option string) (o : OutboxRec) : OutboxRec :=
  if is_pending o then set_delivery OPending attempts next status error (o_delivered_at o) o else o.

Definition given_up (status : option Z) (error : string) (o : OutboxRec) : OutboxRec :=
  set_delivery ODead (o_attempts o) (o_next_attempt_at o) status (Some (truncate error)) (o_delivered_at o) o.

Section outcome.
Variables (cfg : WebhookConfig) (ck : Clocks) (host : string) (slot : bool) (body : option string).
Variables (send : string -> Response) (item : OutboxItem) (hosts : Hosts) (o : OutboxRec).
Local Abbreviation parked := (parked_for (ck_start ck) hosts host).
Local Abbreviation age := (Z.max 0 (ck_utc ck - i_created_at item)).
Local Abbreviation max_age := (1000000 * wc_max_age_secs cfg).

(** What became of an attempt: the body that was posted, the hosts and the row, for each thing that
    can happen to it. *)
Inductive outcome : option string -> Hosts -> OutboxRec -> Prop :=
  | oc_parked wait :
      parked = Some wait ->
      outcome None hosts (requeued (ck_db ck + 1000 * wait) (Z.max (o_attempts o - 1) 0) (o_last_status o) (o_last_error o) o)
  | oc_busy :
      parked = None -> slot = false ->
      outcome None hosts (requeued (ck_db ck + 250000) (Z.max (o_attempts o - 1) 0) (o_last_status o) (o_last_error o) o)
  | oc_unserialisable :
      parked = None -> slot = true -> body = None -> outcome None hosts (given_up None "unserialisable payload" o)
  | oc_delivered b status text :
      parked = None -> slot = true -> body = Some b -> send b = Responded status text -> 200 <= status <= 299 ->
      outcome (Some b) (delete host hosts)
        (set_delivery ODelivered (o_attempts o) (o_next_attempt_at o) (Some status) None (Some (ck_db ck)) o)
  | oc_retry b status error delay :
      parked = None -> slot = true -> body = Some b -> refusal (send b) = Some (status, error) -> age < max_age ->
      wc_retry_base_ms cfg <= delay
        <= Z.max (wc_retry_base_ms cfg)
             (Z.min (wc_retry_cap_ms cfg) (wc_retry_base_ms cfg * 2 ^ Z.max 0 (Z.min (i_attempts item) 30))) ->
      outcome (Some b) (host_failed cfg (ck_end ck) hosts host)
        (requeued (ck_db ck + 1000 * delay) (o_attempts o) status (Some (truncate error)) o)
  | oc_dead b status error :
      parked = None -> slot = true -> body = Some b -> refusal (send b) = Some (status, error) -> max_age <= age ->
      outcome (Some b) (host_failed cfg (ck_end ck) hosts host) (given_up status error o).
End outcome.

(** One statement on the row of the event. *)
Lemma saved_row (saved : bool) id guard f d o :
  d_outbox d !! id = Some o ->
  let d' := if saved then update_outbox id guard f d else d in
  d_outbox d' !! id = Some (if saved then if guard o then f o else o else o)
  /\ (forall ev, ev ≠ id -> d_outbox d' !! ev = d_outbox d !! ev) /\ (saved = false -> d' = d).
Proof.
  intros Ho. destruct saved; [|done]. split_and!; [|intros ev Hne|done].
  - by rewrite update_outbox_lookup, decide_True, Ho.
  - by rewrite update_outbox_lookup, decide_False.
Qed.

Lemma requeued_eq (o : OutboxRec) attempts next status error :
  (if is_pending o then set_delivery (o_status o) attempts next status error (o_delivered_at o) o else o)
  = requeued next attempts status error o.
Proof. unfold requeued, is_pending. by case_bool_decide as E; [rewrite E|]. Qed.

(** ** Properties *)

(** C28. A delivery ends in the outcome that what happened calls for, recorded on its event and no
    other. Host parked: nothing is posted, and the event returns to the queue, the attempt not counted,
    for when the parking ends; no slot in time: likewise, for a quarter of a second later. A payload
    that cannot be serialised: given up unsent. Otherwise its body is posted, once: an answer
    from 200 to 299 marks it delivered with that status and clears the host; any other answer, or
    none, counts against the host, and the event is retried with its error after a delay between
    the base and the doubled, capped one, or given up when it has outlived the maximum age. An event another
    dispatcher has settled meanwhile is not requeued. If the statement on the outbox fails, the
    database is as it was, so the lease stands and the event is due again after it. *)
Theorem deliver_outcome (cfg : WebhookConfig) (pick : Z -> Z -> Z) (ck : Clocks) (saved : bool) (host : string)
    (slot : bool) (body : option string) (send : string -> Response) (item : OutboxItem) (d : DB) (hosts : Hosts)
    (o : OutboxRec) :
  (forall lo hi, lo <= hi -> lo <= pick lo hi <= hi) -> d_outbox d !! i_id item = Some o ->
  let '(d', hosts', posted) := deliver cfg pick ck saved host slot body send item d hosts in
  exists o', outcome cfg ck host slot body send item hosts o posted hosts' o'
    /\ d_outbox d' !! i_id item = Some (if saved then o' else o)
    /\ (forall ev, ev ≠ i_id item -> d_outbox d' !! ev = d_outbox d !! ev) /\ (saved = false -> d' = d).
Proof.
  intros Hpick Ho. unfold deliver, release, mark_dead, mark_delivered, mark_retry.
  destruct (parked_for (ck_start ck) hosts host) as [wait|] eqn:Hpark.
  { eexists. split; [by apply (oc_parked _ _ _ _ _ _ _ _ _ wait)|]. rewrite <- requeued_eq. exact (saved_row _ _ is_pending _ _ _ Ho). }
  destruct slot; cbn [negb].
  2:{ eexists. split; [by apply oc_busy|]. rewrite <- requeued_eq. exact (saved_row _ _ is_pending _ _ _ Ho). }
  destruct body as [b|].
  2:{ eexists. split; [by apply oc_unserialisable|]. exact (saved_row _ _ (fun _ => true) _ _ _ Ho). }
  assert (Hdead : forall status error, refusal (send b) = Some (status, error) ->
    1000000 * wc_max_age_secs cfg <= Z.max 0 (ck_utc ck - i_created_at item) ->
    outcome cfg ck host true (Some b) send item hosts o (Some b) (host_failed cfg (ck_end ck) hosts host)
      (given_up status error o)) by (intros; by apply (oc_dead _ _ _ _ _ _ _ _ _ b)).
  pose proof (backoff_bounds pick (wc_retry_base_ms cfg) (wc_retry_cap_ms cfg) (i_attempts item) Hpick) as Hdelay.
  set (delay := backoff _ _ _ _) in *.
  assert (Hretry : forall status error, refusal (send b) = Some (status, error) ->
    Z.max 0 (ck_utc ck - i_created_at item) < 1000000 * wc_max_age_secs cfg ->
    outcome cfg ck host true (Some b) send item hosts o (Some b) (host_failed cfg (ck_end ck) hosts host)
      (requeued (ck_db ck + 1000 * delay) (o_attempts o) status (Some (truncate error)) o))
    by (intros; by apply (oc_retry _ _ _ _ _ _ _ _ _ b _ _ delay)).
  destruct (send b) as [status text|description] eqn:Hsend; [destruct (is_success status) eqn:Hs|].
  1:{ apply andb_prop in Hs as [H1%Z.leb_le H2%Z.leb_le]. eexists.
      split; [by apply (oc_delivered _ _ _ _ _ _ _ _ _ b status text)|exact (saved_row _ _ (fun _ => true) _ _ _ Ho)]. }
  all: cbn [refusal] in *; rewrite ?Hs in *; cbv zeta;
    destruct (Z.leb_spec (1000000 * wc_max_age_secs cfg) (Z.max 0 (ck_utc ck - i_created_at item)));
    [eexists; split; [by apply Hdead|exact (saved_row _ _ (fun _ => true) _ _ _ Ho)]
    |eexists; split; [by apply Hretry|]; rewrite <- requeued_eq;
     exact (saved_row _ _ is_pending (fun o => set_delivery (o_status o) (o_attempts o) (ck_db ck + 1000 * delay)
       _ _ (o_delivered_at o) o) _ _ Ho)].
Qed.

Lemma deliver_outcome_witness :
  let cfg := mkWebhookConfig "s3cret" 3000 10000 64 8 1000 3600000 86400 5 30000 false [] in
  let o := mkOutbox 1 1 PaymentConfirmed "https://shop.example/hook"
             (mkPayload 7 PaymentConfirmed 0 1 (mkWatchView 1 "base" 8453 "USDC" 0 0 0 0 Active) None)
             OPending 1 0 None None 0 None in
  let item := outbox_item (7, o) in
  let d := set_outbox (<[7 := o]>) db_empty in
  let ck := mkClocks 0 0 5000000 5000000 in
  let attempt resp := deliver cfg (fun lo hi => lo) ck true "shop.example" true (Some "{}") (fun _ => resp) item d ∅ in
  let after resp := d_outbox (attempt resp).1.1 !! 7 in
  (exists o', outcome cfg ck "shop.example" true (Some "{}") (fun _ => Responded 503 "busy") item ∅ o
      (attempt (Responded 503 "busy")).2 (attempt (Responded 503 "busy")).1.2 o'
    /\ after (Responded 503 "busy") = Some o')
  /\ o_next_attempt_at <$> after (Responded 503 "busy") = Some 6000000
  /\ o_status <$> after (Responded 204 "") = Some ODelivered.
Proof.
  intros cfg o item d ck attempt after. split; [|split; vm_compute; reflexivity].
  pose proof (deliver_outcome cfg (fun lo hi => lo) ck true "shop.example" true (Some "{}")
    (fun _ => Responded 503 "busy") item d ∅ o ltac:(cbn; lia) eq_refl) as H.
  unfold after, attempt. destruct (deliver _ _ _ _ _ _ _ _ _ _ _) as [[d' hosts'] posted].
  destruct H as (o' & Ho & E & _). exists o'. split; [exact Ho|exact E].
Defined.

(** ** Parking *)

(** Deliveries to hosts, newest first. *)
Inductive HostOp := HostOk (host : string) | HostFailed (host : string) (now : Z).

Fixpoint hosts_after (cfg : WebhookConfig) (h : list HostOp) : Hosts :=
  match h with
  | [] => ∅
  | HostOk host :: h => host_ok (hosts_after cfg h) host
  | HostFailed host now :: h => host_failed cfg now (hosts_after cfg h) host
  end.

(** The failures of a host since its last success, newest first. *)
Fixpoint failing (host : string) (h : list HostOp) : list Z :=
  match h with
  | [] => []
  | HostOk host' :: h => if decide (host' = host) then [] else failing host h
  | HostFailed host' now :: h => if decide (host' = host) then now :: failing host h else failing host h
  end.

(** The state a run of failures leaves. *)
Definition host_state_of (cfg : WebhookConfig) (ts : list Z) : option HostState :=
  match ts with
  | [] => None
  | t :: _ => Some (mkHost (Z.of_nat (length ts))
                (if wc_host_failure_threshold cfg <=? Z.of_nat (length ts) then Some (t + wc_host_park_ms cfg) else None))
  end.

Lemma length_failing host h : (length (failing host h) <= length h)%nat.
Proof. induction h as [|[h'|h' t] h IH]; cbn; [done|..]; case_decide; cbn; lia. Qed.

Lemma hosts_after_lookup cfg h host :
  Z.of_nat (length h) < 2 ^ 32 -> hosts_after cfg h !! host = host_state_of cfg (failing host h).
Proof.
  induction h as [|[h'|h' t] h IH]; intros Hlen; [done|..]; cbn [length] in Hlen; cbn [hosts_after failing].
  - unfold host_ok. rewrite lookup_delete. case_decide; [done|]. apply IH. lia.
  - unfold host_failed. rewrite lookup_insert. case_decide as E; [subst h'|apply IH; lia].
    rewrite IH by lia. pose proof (length_failing host h) as Hl.
    assert (Hf : hs_consecutive_failures (default host_default (host_state_of cfg (failing host h)))
                 = Z.of_nat (length (failing host h))) by (by destruct (failing host h)).
    rewrite Hf. assert (as_u32 (Z.of_nat (length (failing host h)) + 1) = Z.of_nat (length (failing host h)) + 1) as ->.
    { unfold as_u32. apply Z.mod_small. lia. }
    cbn [host_state_of length]. rewrite Nat2Z.inj_succ. unfold Z.succ.
    destruct (Z.leb_spec (wc_host_failure_threshold cfg) (Z.of_nat (length (failing host h)) + 1)) as [Hth|Hth]; [done|].
    do 2 f_equal. destruct (failing host h) as [|t' ts]; [done|]. cbn [host_state_of default hs_parked_until id] in *.
    destruct (Z.leb_spec (wc_host_failure_threshold cfg) (Z.of_nat (length (t' :: ts)))); [lia|done].
Qed.

(** A host is parked exactly when it has failed at least the configured number of times in a row
    since its last success, until the park time after the latest failure, and for exactly what is
    left of it: a dead endpoint stops taking workers, one success clears it, and no other host is
    affected. *)
Theorem parked_iff_failing (cfg : WebhookConfig) (h : list HostOp) (host : string) (now : Z) :
  Z.of_nat (length h) < 2 ^ 32 ->
  parked_for now (hosts_after cfg h) host =
  match failing host h with
  | t :: _ =>
      if (wc_host_failure_threshold cfg <=? Z.of_nat (length (failing host h)))
         && (now <=? t + wc_host_park_ms cfg)
      then Some (t + wc_host_park_ms cfg - now) else None
  | [] => None
  end.
Proof.
  intros Hlen. unfold parked_for. rewrite hosts_after_lookup by done.
  destruct (failing host h) as [|t ts]; [done|]. cbn [host_state_of mbind option_bind hs_parked_until].
  destruct (_ <=? Z.of_nat (length (t :: ts))); done.
Qed.

Lemma parked_iff_failing_witness :
  let cfg := mkWebhookConfig "s3cret" 3000 10000 64 8 1000 3600000 86400 2 30000 false [] in
  parked_for 20 (hosts_after cfg [HostFailed "a" 10; HostOk "b"; HostFailed "a" 5]) "a" = Some 29990.
Proof.
  intros cfg. rewrite (parked_iff_failing cfg [HostFailed "a" 10; HostOk "b"; HostFailed "a" 5] "a" 20);
    [reflexivity|vm_compute; reflexivity].
Defined.

(** A lease outlives the attempt it covers: whatever a dispatcher leased at [now] and finishes
    within the slot wait and the request timeout is not leased by anyone else meanwhile, so two
    instances do not send one event at the same time. *)
Theorem lease_outlives_attempt (cfg : WebhookConfig) (now now' free free' : Z) (locked locked' : Z -> bool) (d : DB)
    (it it' : OutboxItem) :
  0 <= wc_request_timeout_ms cfg < 2 ^ 62 -> 0 <= wc_connect_timeout_ms cfg < 2 ^ 62 ->
  now' <= now + 1000 * (HOST_SLOT_WAIT + wc_request_timeout_ms cfg) ->
  it ∈ (lease_batch cfg now locked d free).1 ->
  it' ∈ (lease_batch cfg now' locked' (lease_batch cfg now locked d free).2 free').1 ->
  i_id it ≠ i_id it'.
Proof.
  intros Hr Hc Hnow H1 H2. unfold lease_batch in *. destruct (free =? 0); [by apply not_elem_of_nil in H1|].
  destruct (free' =? 0); [by apply not_elem_of_nil in H2|].
  apply elem_of_leased_items in H1 as (o & H1 & _). apply elem_of_leased_items in H2 as (o' & H2 & _).
  intros E. apply elem_of_due in H2 as (H2 & _ & Hn & _). rewrite lease_due_outbox in H2.
  rewrite decide_True in H2 by (rewrite <- E; apply list_elem_of_fmap; by exists (i_id it, o)).
  apply fmap_Some in H2 as (o1 & _ & ->). cbn in Hn. unfold lease_ms, HOST_SLOT_WAIT in *.
  rewrite u64_add_id in Hn by (unfold in_u64; lia). lia.
Qed.
