(* ===== verification/TxSpec.v ===== *)
(** * TxSpec: what each statement group does to the database

    Closed forms of the transaction bodies of [Store] and [Sweep]: on success, the exact database
    that results, on every branch. Later files reason from these and no longer unfold the bodies. *)

From S2P Require Import Prelude Config Registry Cache Matcher Events Store Sweep.

(** ** The monad *)

Lemma Tx_bind_Ok {A B} (t : Tx A) (f : A -> Tx B) env s r :
  (t ≫= f) env s = Ok r -> exists a s1, t env s = Ok (a, s1) /\ f a env s1 = Ok r.
Proof. unfold mbind, Tx_bind. destruct (t env s) as [[a s1]|e]; [eauto|done]. Qed.

Lemma Tx_bind_eq {A B} (t : Tx A) (f : A -> Tx B) env s a s1 :
  t env s = Ok (a, s1) -> (t ≫= f) env s = f a env s1.
Proof. unfold mbind, Tx_bind. by intros ->. Qed.

(** [tx_inv H] decomposes a successful bind into its two successful halves. *)
Ltac tx_inv H :=
  let a := fresh "a" in let d := fresh "d" in let k := fresh "k" in let H1 := fresh "Ht" in
  apply Tx_bind_Ok in H as (a & [d k] & H1 & H).
(** [tx_simp H] evaluates the primitive readers and writers in [H]. *)
Ltac tx_simp H :=
  unfold tx_get, tx_mod, tx_now, tx_uuid, mret, Tx_ret in H; cbn [fst snd] in H; simplify_eq.

Lemma run_tx_Ok {A} env db (t : Tx (tx_end A)) a db' :
  run_tx env db t = (Ok a, db') ->
  (exists k, t env (db, 0%nat) = Ok (Commit a, (db', k)))
  \/ (db' = db /\ exists s, t env (db, 0%nat) = Ok (Rollback a, s)).
Proof.
  unfold run_tx. destruct (t env (db, 0%nat)) as [[[a'|a'] [d k]]|e]; intros [= -> <-]; eauto.
Qed.

Lemma run_tx_Err {A} env db (t : Tx (tx_end A)) e db' : run_tx env db t = (Err e, db') -> db' = db.
Proof. unfold run_tx. destruct (t env (db, 0%nat)) as [[[a'|a'] [d k]]|e']; congruence. Qed.

(** A loop preserves what its body preserves. *)
Lemma mfold_Tx_inv {A B} (f : B -> A -> Tx A) (P : A -> DB -> nat -> Prop) env l a s a' s' :
  (forall b a d k a' d' k', b ∈ l -> P a d k -> f b a env (d, k) = Ok (a', (d', k')) -> P a' d' k') ->
  P a s.1 s.2 -> mfold f l a env s = Ok (a', s') -> P a' s'.1 s'.2.
Proof.
  revert a s; induction l as [|b l IH]; intros a [d k] Hf HP H; cbn [mfold] in H.
  { tx_simp H. done. }
  tx_inv H. eapply IH; [|..|exact H].
  - intros. eapply Hf; [by apply list_elem_of_further|..]; eauto.
  - cbn. eapply Hf; [apply list_elem_of_here|..]; eauto.
Qed.

(** ** Rows *)

Lemma amount_Ok x y : amount x = Ok y -> y = x /\ in_u256 x.
Proof. unfold amount. case_decide; [|done]. intros [= <-]. done. Qed.

Lemma from_row_Ok r w :
  from_row r = Ok w ->
  w = mkWatch (w_id r) (w_seq r) (as_u64 (w_chain_id r)) (w_token_address r) (w_payment_address r)
        (w_threshold r) (w_confirmed_amount r) (w_webhook_url r) (w_status r) (as_u64 (w_start_block r))
        (as_u64 <$> w_backfill_to r) (w_next_event_seq r) (w_created_at r) (w_completed_at r) (w_expires_at r)
  /\ in_u256 (w_threshold r) /\ in_u256 (w_confirmed_amount r).
Proof.
  unfold from_row. intros (th & [-> Hth]%amount_Ok & H)%result_bind_Ok.
  apply result_bind_Ok in H as (c & [-> Hc]%amount_Ok & [= <-]). done.
Qed.

Lemma from_row_total r :
  in_u256 (w_threshold r) -> in_u256 (w_confirmed_amount r) -> is_ok (from_row r) = true.
Proof.
  intros H1 H2. unfold from_row, amount.
  rewrite decide_True by done. cbn. by rewrite decide_True.
Qed.

Definition bump (w : WatchRow) : WatchRow := with_next_event_seq (w_next_event_seq w + 1) w.

Lemma unbump w : with_next_event_seq (w_next_event_seq (bump w) - 1) (bump w) = w.
Proof. destruct w. unfold bump, with_next_event_seq. cbn. f_equal. lia. Qed.

(** Rows are stored under their own id. *)
Definition ids_ok (d : DB) : Prop := forall id w, d_watches d !! id = Some w -> w_id w = id.

(** ** Statements *)

Lemma update_watch_eq i p f env d k :
  update_watch i p f env (d, k) =
  match d_watches d !! i with
  | Some w => if p w then Ok (Some (f w), (set_watches (<[i := f w]>) d, k)) else Ok (None, (d, k))
  | None => Ok (None, (d, k))
  end.
Proof.
  unfold update_watch, mbind, Tx_bind, tx_get. cbn.
  destruct (d_watches d !! i) as [w|]; [|done]. by destruct (p w).
Qed.

Lemma lock_active_watch_Ok i env d k o s :
  lock_active_watch i env (d, k) = Ok (o, s) ->
  (o = None /\ s = (d, k) /\ forall w, d_watches d !! i = Some w -> w_status w ≠ Active)
  \/ exists w w', d_watches d !! i = Some w /\ w_status w = Active /\ from_row (bump w) = Ok w'
      /\ o = Some w' /\ s = (set_watches (<[i := bump w]>) d, k).
Proof.
  unfold lock_active_watch. intros H. tx_inv H. rewrite update_watch_eq in Ht.
  destruct (d_watches d !! i) as [w|] eqn:Hi.
  - unfold is_active in Ht. case_bool_decide as Ha; simplify_eq.
    + cbn [transpose_row] in H. tx_inv H. tx_simp H. unfold tx_lift in Ht.
      destruct (from_row _) as [w'|] eqn:Hr; simplify_eq. right. exists w, a. done.
    + cbn in H. tx_simp H. left. split_and!; try done. intros w' [= ->]. done.
  - simplify_eq. cbn in H. tx_simp H. left. split_and!; try done. 
Qed.

Lemma lock_active_watch_None i env d k :
  (forall w, d_watches d !! i = Some w -> w_status w ≠ Active) ->
  lock_active_watch i env (d, k) = Ok (None, (d, k)).
Proof.
  intros H. unfold lock_active_watch. erewrite Tx_bind_eq.
  2:{ rewrite update_watch_eq. destruct (d_watches d !! i) as [w|] eqn:Hi; [|done].
      unfold is_active. rewrite bool_decide_false by (by apply H). done. }
  done.
Qed.

(** The outbox row [insert_event] writes. *)
Definition event_row (env : Env) (k : nat) (chain : ChainSpec) (w : WatchRow) (et : EventType)
    (tv : option TransferView) : OutboxRec :=
  mkOutbox (w_id w) (w_next_event_seq w) et (w_webhook_url w)
    (mkPayload (e_ids env k) et (e_clock env k) (w_next_event_seq w) (watch_view w chain) tv)
    OPending 0 (e_now env) None None (e_now env) None.

(** No event of the watch carries the sequence number yet. *)
Definition seq_free (d : DB) (wid seq : Z) : Prop :=
  forall ev o, d_outbox d !! ev = Some o -> ~ (o_watch_id o = wid /\ o_seq o = seq).

Lemma seq_clash_false d wid seq :
  existsb (fun o => (o_watch_id o =? wid) && (o_seq o =? seq)) ((map_to_list (d_outbox d)).*2) = false
  <-> seq_free d wid seq.
Proof.
  unfold seq_free. split.
  - intros H ev o Ho [H1 H2]. apply not_true_iff_false in H. apply H. apply existsb_exists.
    exists o. split; [|by rewrite H1, H2, !Z.eqb_refl].
    apply list_elem_of_In, list_elem_of_fmap. exists (ev, o). split; [done|].
    by apply elem_of_map_to_list.
  - intros H. apply not_true_iff_false. intros (o & Hin & [H1%Z.eqb_eq H2%Z.eqb_eq]%andb_prop)%existsb_exists.
    apply list_elem_of_In, list_elem_of_fmap in Hin as ([ev o'] & -> & Hin).
    apply elem_of_map_to_list in Hin. by apply (H ev o').
Qed.

Lemma seq_free_mono d d' wid seq :
  (forall ev o, d_outbox d' !! ev = Some o -> d_outbox d !! ev = Some o) ->
  seq_free d wid seq -> seq_free d' wid seq.
Proof. intros H Hf ev o Ho. by eapply Hf, H. Qed.

Lemma insert_event_Ok chain w et tv env d k r :
  insert_event chain w et tv env (d, k) = Ok r <->
  r = (e_ids env k, (set_outbox (<[e_ids env k := event_row env k chain w et tv]>) d, S k))
  /\ d_outbox d !! e_ids env k = None /\ seq_free d (w_id w) (w_next_event_seq w)
  /\ is_Some (d_watches d !! w_id w).
Proof.
  unfold insert_event. case_bool_decide as H1.
  { split; [done|]. intros (_ & H2 & _). rewrite H2 in H1. by destruct H1. }
  destruct (existsb _ _) eqn:H2.
  { split; [done|]. intros (_ & _ & H3 & _). apply seq_clash_false in H3. congruence. }
  apply seq_clash_false in H2. case_bool_decide as H3.
  { split; [done|]. intros (_ & _ & _ & [x Hx]). congruence. }
  apply eq_None_not_Some in H1. apply not_eq_None_Some in H3.
  split; [intros [= <-]; done|intros (-> & _); done].
Qed.

(** The row [count_confirmed] stores for a transfer: a pending row keeps its columns. *)
Definition confirmed_rec (env : Env) (m : MatchedTransfer) (wid : Z) (old : option TransferRec) : TransferRec :=
  match old with
  | Some x => mkTransfer (x_block_number x) (x_tx_hash x) (x_watch_id x) (x_from_address x) (x_amount x)
                Confirmed (x_seen_at x) (Some (e_now env))
  | None => mkTransfer (as_i64 (m_block_number m)) (m_tx_hash m) wid (m_from m) (m_amount m)
                Confirmed (e_now env) (Some (e_now env))
  end.

(** A stored transfer that can still be counted: none yet, or a pending one. *)
Definition countable (old : option TransferRec) : Prop :=
  match old with Some x => x_status x = Pending | None => True end.

#[global] Instance countable_dec old : Decision (countable old).
Proof. destruct old; apply _. Defined.

(** The transfer is stored and counted. *)
Definition confirmed_at (d : DB) (key : TransferKey) : Prop :=
  exists x, d_transfers d !! key = Some x /\ x_status x = Confirmed.

(** Writes of one watch row, one transfer row and one outbox row. *)
Definition put_watch (i : Z) (w : WatchRow) (d : DB) : DB := set_watches (<[i := w]>) d.
Definition put_transfer (key : TransferKey) (x : TransferRec) (d : DB) : DB := set_transfers (<[key := x]>) d.
Definition put_event (ev : Z) (o : OutboxRec) (d : DB) : DB := set_outbox (<[ev := o]>) d.

Lemma put_watch_id d i w : d_watches d !! i = Some w -> put_watch i w d = d.
Proof. intros H. destruct d. unfold put_watch, set_watches. cbn in *. by rewrite insert_id. Qed.

(** Two ways of writing the same rows. *)
Ltac db_eq :=
  unfold put_watch, put_transfer, put_event, set_watches, set_transfers, set_outbox; cbn;
  rewrite ?insert_insert_eq; reflexivity.

Lemma upsert_confirmed_Ok chain m wid env d k o s :
  upsert_confirmed chain m wid env (d, k) = Ok (o, s) ->
  let key := transfer_key chain m in
  let old := d_transfers d !! key in
  (o = None /\ s = (d, k) /\ ~ countable old)
  \/ (o = Some (bool_decide (old = None)) /\ countable old
      /\ s = (put_transfer key (confirmed_rec env m wid old) d, k)).
Proof.
  intros H key old. unfold upsert_confirmed in H. tx_inv H. tx_simp Ht. tx_inv H. tx_simp Ht.
  fold key in H. subst old. destruct (d_transfers _ !! key) as [x|] eqn:Hx.
  - case_bool_decide as Hp.
    + tx_inv H. tx_simp Ht. tx_simp H. right. done.
    + tx_simp H. left. done.
  - tx_inv H. tx_simp Ht. tx_simp H. right. done.
Qed.

(** ** Counting one transfer *)

Lemma add_confirmed_amount_Ok i amt env d k w s :
  add_confirmed_amount i amt env (d, k) = Ok (w, s) ->
  exists r, d_watches d !! i = Some r
    /\ from_row (with_confirmed_amount (w_confirmed_amount r + amt) r) = Ok w
    /\ s = (set_watches (<[i := with_confirmed_amount (w_confirmed_amount r + amt) r]>) d, k).
Proof.
  unfold add_confirmed_amount. intros H. tx_inv H. tx_simp Ht. tx_inv H.
  unfold fetch_one, tx_lift in Ht. destruct (d_watches _ !! i) as [r|] eqn:Hr; cbn in Ht; simplify_eq.
  tx_inv H. unfold tx_lift, numeric_add in Ht. destruct (_ <? _); simplify_eq.
  tx_inv H. rewrite update_watch_eq in Ht. rewrite Hr in Ht. simplify_eq.
  tx_inv H. unfold fetch_one, tx_lift in Ht. cbn in Ht. simplify_eq.
  unfold tx_lift in H. destruct (from_row _) eqn:Hf; simplify_eq. eauto.
Qed.

Lemma complete_watch_Ok i env d k w s :
  complete_watch i env (d, k) = Ok (w, s) ->
  exists r, d_watches d !! i = Some r
    /\ from_row (bump (with_status Completed (e_now env) r)) = Ok w
    /\ s = (set_watches (<[i := bump (with_status Completed (e_now env) r)]>) d, k).
Proof.
  unfold complete_watch. intros H. tx_inv H. tx_simp Ht. tx_inv H. rewrite update_watch_eq in Ht.
  destruct (d_watches _ !! i) as [r|] eqn:Hr; simplify_eq.
  tx_inv H. unfold fetch_one, tx_lift in Ht. cbn in Ht. simplify_eq.
  unfold tx_lift in H. destruct (from_row _) eqn:Hf; simplify_eq. eauto.
Qed.

(** The watch after an amount has been added to it. *)
Definition credited (amt : Z) (w : WatchRow) : WatchRow :=
  with_confirmed_amount (w_confirmed_amount w + amt) (bump w).

(** The watch after the amount that reached its threshold. *)
Definition retired (now : Z) (w : WatchRow) : WatchRow := bump (with_status Completed now w).

(** What [count_confirmed] does when it does nothing, when it counts, and when it also completes
    the watch. *)
Inductive count_result (chain : ChainSpec) (m : MatchedTransfer) (env : Env) (d : DB) (k : nat)
    (stats : gmap Z StatsDelta) (out : SweepOutcome)
    : gmap Z StatsDelta -> SweepOutcome -> DB -> nat -> Prop :=
  | count_skip :
      (forall w, d_watches d !! r_id (m_watch m) = Some w -> w_status w = Active ->
         ~ countable (d_transfers d !! transfer_key chain m)) ->
      count_result chain m env d k stats out stats out d k
  | count_add w w1 :
      d_watches d !! r_id (m_watch m) = Some w -> w_status w = Active ->
      countable (d_transfers d !! transfer_key chain m) ->
      from_row (credited (m_amount m) w) = Ok w1 ->
      w_confirmed_amount w + m_amount m < w_threshold w ->
      d_outbox d !! e_ids env k = None -> seq_free d (w_id w) (w_next_event_seq w + 1) ->
      count_result chain m env d k stats out
        (stats_entry (add_confirmed_delta (m_amount m)) (w_token_address w) stats)
        (out_add_confirmed m (out_add_event (if bool_decide (d_transfers d !! transfer_key chain m = None)
           then out_add_without_pending out else out)))
        (put_event (e_ids env k)
           (event_row env k chain w1 PaymentConfirmed (Some (transfer_view m Confirmed)))
           (put_watch (r_id (m_watch m)) (credited (m_amount m) w)
              (put_transfer (transfer_key chain m)
                 (confirmed_rec env m (w_id w) (d_transfers d !! transfer_key chain m)) d)))
        (S k)
  | count_complete w w1 w2 :
      d_watches d !! r_id (m_watch m) = Some w -> w_status w = Active ->
      countable (d_transfers d !! transfer_key chain m) ->
      from_row (credited (m_amount m) w) = Ok w1 ->
      from_row (retired (e_now env) (credited (m_amount m) w)) = Ok w2 ->
      w_threshold w <= w_confirmed_amount w + m_amount m ->
      d_outbox d !! e_ids env k = None -> seq_free d (w_id w) (w_next_event_seq w + 1) ->
      d_outbox d !! e_ids env (S k) = None -> e_ids env k ≠ e_ids env (S k) ->
      seq_free d (w_id w) (w_next_event_seq w + 2) ->
      count_result chain m env d k stats out
        (stats_entry add_threshold_delta (w_token_address w)
           (stats_entry (add_confirmed_delta (m_amount m)) (w_token_address w) stats))
        (out_add_confirmed m (out_add_completed (WatchKey_new (m_token_idx m) (m_to m), w_id w)
           (out_add_event (out_add_event (if bool_decide (d_transfers d !! transfer_key chain m = None)
             then out_add_without_pending out else out)))))
        (put_event (e_ids env (S k)) (event_row env (S k) chain w2 ThresholdReached None)
           (put_event (e_ids env k)
              (event_row env k chain w1 PaymentConfirmed (Some (transfer_view m Confirmed)))
              (put_watch (r_id (m_watch m)) (retired (e_now env) (credited (m_amount m) w))
                 (put_transfer (transfer_key chain m)
                    (confirmed_rec env m (w_id w) (d_transfers d !! transfer_key chain m)) d))))
        (S (S k)).

(** The fields of a decoded row the code goes on to use. *)
Lemma from_row_fields r w :
  from_row r = Ok w ->
  w_id w = w_id r /\ w_threshold w = w_threshold r /\ w_confirmed_amount w = w_confirmed_amount r
  /\ w_token_address w = w_token_address r /\ w_next_event_seq w = w_next_event_seq r
  /\ w_webhook_url w = w_webhook_url r /\ w_status w = w_status r.
Proof. intros [-> _]%from_row_Ok. done. Qed.

Lemma count_result_eq chain m env d k stats out stats' out' d' d'' k' :
  count_result chain m env d k stats out stats' out' d' k' -> d' = d'' ->
  count_result chain m env d k stats out stats' out' d'' k'.
Proof. by intros H <-. Qed.

Lemma count_confirmed_Ok chain m acc env d k acc' d' k' :
  ids_ok d ->
  count_confirmed chain m acc env (d, k) = Ok (acc', (d', k')) ->
  count_result chain m env d k acc.1 acc.2 acc'.1 acc'.2 d' k'.
Proof.
  intros Hids H. destruct acc as [stats out]. unfold count_confirmed in H. tx_inv H.
  apply lock_active_watch_Ok in Ht as [(-> & [= -> ->] & Hna)|(w & w' & Hw & Ha & Hr & -> & [= -> ->])].
  { tx_simp H. apply count_skip. intros w Hw ? _. by apply (Hna w). }
  pose proof (Hids _ _ Hw) as Hid. apply from_row_fields in Hr as (Hi' & _). cbn in Hi'.
  tx_inv H. rewrite Hi', Hid in Ht.
  apply upsert_confirmed_Ok in Ht as [(-> & [= -> ->] & Hc)|(-> & Hc & [= -> ->])].
  { tx_inv H. tx_simp H. rewrite Hi', Hid, update_watch_eq in Ht. cbn in Ht.
    rewrite lookup_insert_eq in Ht. simplify_eq.
    replace (set_watches _ (set_watches _ d)) with d; [apply count_skip; done|].
    rewrite <- (put_watch_id d _ w Hw) at 1. unfold put_watch, set_watches. cbn.
    rewrite insert_insert_eq. pose proof (unbump w) as Hu. cbn in Hu. by rewrite Hu. }
  tx_inv H. rewrite Hi', Hid in Ht.
  apply add_confirmed_amount_Ok in Ht as (r & Hr & Hf & [= -> ->]). cbn in Hr.
  rewrite lookup_insert_eq in Hr. injection Hr as <-.
  change (with_confirmed_amount (w_confirmed_amount (bump w) + m_amount m) (bump w))
    with (credited (m_amount m) w) in *.
  pose proof (from_row_fields _ _ Hf) as (Hi1 & Ht1 & Hc1 & Htok1 & Hs1 & _). cbn in Hi1, Ht1, Hc1, Htok1, Hs1.
  tx_inv H. apply insert_event_Ok in Ht as ([= -> -> ->] & Hev & Hfree & _).
  rewrite Hi1, Hs1 in Hfree. cbn in Hev. rewrite Htok1, Ht1, Hc1 in H.
  destruct (Z.leb_spec (w_threshold w) (w_confirmed_amount w + m_amount m)) as [Hth|Hth].
  - tx_inv H. rewrite Hi1, Hid in Ht. apply complete_watch_Ok in Ht as (r & Hr & Hf2 & [= -> ->]).
    cbn in Hr. rewrite lookup_insert_eq in Hr. injection Hr as <-.
    pose proof (from_row_fields _ _ Hf2) as (Hi2 & _ & _ & Htok2 & Hs2 & _). cbn in Hi2, Htok2, Hs2.
    tx_inv H. apply insert_event_Ok in Ht as ([= -> -> ->] & Hev2 & Hfree2 & _).
    rewrite Hi2, Hs2 in Hfree2. cbn in Hev2. apply lookup_insert_None in Hev2 as [Hev2 Hne].
    tx_simp H. rewrite Htok2, Hi2. replace (w_next_event_seq w + 1 + 1) with (w_next_event_seq w + 2) in * by lia.
    apply seq_free_mono with (d' := d) in Hfree2; [|by intros ev o Ho; cbn; rewrite lookup_insert_ne by congruence].
    eapply count_result_eq; [eapply count_complete; eauto|rewrite Hid; db_eq].
  - tx_simp H. eapply count_result_eq; [eapply count_add; eauto|rewrite Hid; db_eq].
Qed.
