(* ===== verification/Ledger.v ===== *)
(** * Ledger: what the database may do, as a step relation

    Every transaction of the store is a sequence of the steps below: a watch is registered, a
    payment is announced, counted, counted to completion or resolved, a watch expires or is
    cancelled, and so on. The file states the step relation, the invariant of the five tables and
    that every step preserves it. [LedgerTx] shows that the transactions refine the relation.

    [hist] is the chain's history: a block hash and a log index determine the log, hence the target
    it pays and the amount. *)

From S2P Require Import Prelude Config Registry Cache Matcher Events Store Sweep TxSpec.

(** ** The step relation *)

(** What a watch watches. *)
Definition target (w : WatchRow) : Z * Z * Z := (w_chain_id w, w_token_address w, w_payment_address w).

(** The outbox row [o], stored under [ev], is the event of watch [w] at its current sequence. *)
Record event_of (w : WatchRow) (et : EventType) (ev : Z) (o : OutboxRec) : Prop := {
  ev_watch : o_watch_id o = w_id w;
  ev_seq : o_seq o = w_next_event_seq w;
  ev_type : o_event_type o = et;
  ev_url : o_url o = w_webhook_url w;
  ev_status : o_status o = OPending;
  ev_payload_id : p_id (o_payload o) = ev;
  ev_payload_type : p_event_type (o_payload o) = et;
  ev_payload_seq : p_sequence (o_payload o) = w_next_event_seq w;
  ev_payload_amount : wv_confirmed_amount (p_watch (o_payload o)) = w_confirmed_amount w;
  ev_payload_threshold : wv_balance_threshold (p_watch (o_payload o)) = w_threshold w;
}.

(** The event carries the transfer stored under [key], of amount [amt]. *)
Definition tells (st : TransferStatus) (key : TransferKey) (amt : Z) (o : OutboxRec) : Prop :=
  exists v, p_transfer (o_payload o) = Some v /\ tv_amount v = amt /\ tv_status v = st
    /\ key = (as_i64 (wv_chain_id (p_watch (o_payload o))), tv_block_hash v, as_i64 (tv_log_index v)).

(** Columns of an outbox row delivery never changes. *)
Definition same_event (o o' : OutboxRec) : Prop :=
  o_watch_id o' = o_watch_id o /\ o_seq o' = o_seq o /\ o_event_type o' = o_event_type o
  /\ o_url o' = o_url o /\ o_payload o' = o_payload o /\ o_created_at o' = o_created_at o.

Definition draw_seq (d : DB) : DB :=
  mkDB (d_cursors d) (d_watches d) (d_transfers d) (d_outbox d) (d_stats d) (d_watch_seq d + 1).

(** The row counting leaves behind: new rows belong to the watch, a pending row keeps its columns. *)
Definition counted_row (i amt : Z) (old : option TransferRec) (x : TransferRec) : Prop :=
  x_status x = Confirmed /\
  match old with
  | None => x_watch_id x = i /\ x_amount x = amt
  | Some y => x_status y = Pending /\ x_watch_id x = x_watch_id y /\ x_amount x = x_amount y
  end.

Section ledger.
Variable hist : TransferKey -> option (Z * Z * Z * Z).

Inductive step (d : DB) : DB -> Prop :=
  | step_cursor f : step d (set_cursors f d)
  | step_stats f : step d (set_stats f d)
  | step_draw : step d (draw_seq d)
  | step_register r :
      d_watches d !! w_id r = None -> w_status r = Active -> w_confirmed_amount r = 0 ->
      w_next_event_seq r = 0 -> 0 < w_threshold r -> w_seq r = d_watch_seq d + 1 ->
      (forall j w, d_watches d !! j = Some w -> w_status w = Active -> target w ≠ target r) ->
      step d (put_watch (w_id r) r (draw_seq d))
  | step_announce i w key x ev o :
      d_watches d !! i = Some w -> w_status w = Active ->
      d_transfers d !! key = None -> x_status x = Pending -> x_watch_id x = i ->
      hist key = Some (target w, x_amount x) -> 0 < x_amount x ->
      d_outbox d !! ev = None -> event_of (bump w) PaymentPending ev o -> tells Pending key (x_amount x) o ->
      step d (put_event ev o (put_watch i (bump w) (put_transfer key x d)))
  | step_count i w key amt x ev o :
      d_watches d !! i = Some w -> w_status w = Active ->
      hist key = Some (target w, amt) -> 0 < amt -> counted_row i amt (d_transfers d !! key) x ->
      w_confirmed_amount w + amt < w_threshold w ->
      d_outbox d !! ev = None -> event_of (credited amt w) PaymentConfirmed ev o -> tells Confirmed key amt o ->
      step d (put_event ev o (put_watch i (credited amt w) (put_transfer key x d)))
  | step_complete i w key amt x ev o ev2 o2 now :
      d_watches d !! i = Some w -> w_status w = Active ->
      hist key = Some (target w, amt) -> 0 < amt -> counted_row i amt (d_transfers d !! key) x ->
      w_threshold w <= w_confirmed_amount w + amt ->
      d_outbox d !! ev = None -> event_of (credited amt w) PaymentConfirmed ev o -> tells Confirmed key amt o ->
      d_outbox d !! ev2 = None -> ev ≠ ev2 ->
      event_of (retired now (credited amt w)) ThresholdReached ev2 o2 ->
      step d (put_event ev2 o2 (put_event ev o
                (put_watch i (retired now (credited amt w)) (put_transfer key x d))))
  | step_resolve key x st :
      d_transfers d !! key = Some x -> x_status x = Pending -> st = Ignored \/ st = Orphaned ->
      step d (put_transfer key (set_transfer_status st x) d)
  | step_orphan i w key x ev o :
      d_watches d !! i = Some w -> w_status w = Active ->
      d_transfers d !! key = Some x -> x_status x = Pending -> x_watch_id x = i ->
      d_outbox d !! ev = None -> event_of (bump w) PaymentOrphaned ev o ->
      step d (put_event ev o (put_watch i (bump w) (put_transfer key (set_transfer_status Orphaned x) d)))
  | step_expire i w ev o now :
      d_watches d !! i = Some w -> w_status w = Active ->
      d_outbox d !! ev = None -> event_of (bump (with_status Expired now w)) WatchExpired ev o ->
      step d (put_event ev o (put_watch i (bump (with_status Expired now w)) d))
  | step_cancel i w now :
      d_watches d !! i = Some w -> w_status w = Active ->
      step d (put_watch i (with_status Cancelled now w) d)
  | step_backfilled i w b :
      d_watches d !! i = Some w -> step d (put_watch i (with_backfill_to b w) d)
  | step_deliver ev o o' :
      d_outbox d !! ev = Some o -> same_event o o' -> step d (put_event ev o' d).
End ledger.

(** ** Invariants of the watch table *)

Definition row_ok (w : WatchRow) : Prop :=
  0 < w_threshold w /\ 0 <= w_confirmed_amount w /\ 0 <= w_next_event_seq w /\
  match w_status w with
  | Active => w_confirmed_amount w < w_threshold w
  | Completed => w_threshold w <= w_confirmed_amount w
  | Cancelled | Expired => w_confirmed_amount w < w_threshold w
  end.

(** The columns no statement updates. *)
Definition same_watch (w w' : WatchRow) : Prop :=
  w_id w' = w_id w /\ w_seq w' = w_seq w /\ target w' = target w /\ w_threshold w' = w_threshold w
  /\ w_webhook_url w' = w_webhook_url w /\ w_start_block w' = w_start_block w.

Record watches_ok (ws : gmap Z WatchRow) (n : Z) : Prop := {
  wo_id : forall i w, ws !! i = Some w -> w_id w = i;
  wo_row : forall i w, ws !! i = Some w -> row_ok w;
  wo_seq : forall i w, ws !! i = Some w -> w_seq w <= n;
  wo_seq_inj : forall i j w w', ws !! i = Some w -> ws !! j = Some w' -> w_seq w = w_seq w' -> i = j;
  wo_unique : forall i j w w', ws !! i = Some w -> ws !! j = Some w' ->
    w_status w = Active -> w_status w' = Active -> target w = target w' -> i = j;
}.

Lemma watches_ok_update ws n i w w' :
  watches_ok ws n -> ws !! i = Some w -> same_watch w w' -> row_ok w' ->
  (w_status w' = Active -> w_status w = Active) -> watches_ok (<[i := w']> ws) n.
Proof.
  intros [Hid Hrow Hseq Hinj Huniq] Hi (Eid & Eseq & Etgt & _) Hok Hact.
  split.
  - intros j v [[<- <-]|[? Hj]]%lookup_insert_Some; [rewrite Eid|]; eauto.
  - intros j v [[<- <-]|[? Hj]]%lookup_insert_Some; eauto.
  - intros j v [[<- <-]|[? Hj]]%lookup_insert_Some; [rewrite Eseq|]; eauto.
  - intros j1 j2 v1 v2 [[<- <-]|[? H1]]%lookup_insert_Some [[<- <-]|[? H2]]%lookup_insert_Some;
      rewrite ?Eseq; eauto.
  - intros j1 j2 v1 v2 [[<- <-]|[? H1]]%lookup_insert_Some [[<- <-]|[? H2]]%lookup_insert_Some;
      rewrite ?Etgt; eauto.
Qed.

Lemma watches_ok_draw ws n : watches_ok ws n -> watches_ok ws (n + 1).
Proof.
  intros [Hid Hrow Hseq Hinj Huniq]. split; try done. intros i w Hi. specialize (Hseq i w Hi). lia.
Qed.

Lemma watches_ok_register ws n r :
  watches_ok ws n -> ws !! w_id r = None -> row_ok r -> w_seq r = n + 1 ->
  (forall j w, ws !! j = Some w -> w_status w = Active -> target w ≠ target r) ->
  watches_ok (<[w_id r := r]> ws) (n + 1).
Proof.
  intros [Hid Hrow Hseq Hinj Huniq] Hnew Hok Er Hfree.
  split.
  - intros j v [[<- <-]|[? Hj]]%lookup_insert_Some; eauto.
  - intros j v [[<- <-]|[? Hj]]%lookup_insert_Some; eauto.
  - intros j v [[<- <-]|[? Hj]]%lookup_insert_Some; [lia|]. specialize (Hseq _ _ Hj). lia.
  - intros j1 j2 v1 v2 [[<- <-]|[? H1]]%lookup_insert_Some [[<- <-]|[? H2]]%lookup_insert_Some Heq; eauto.
    + specialize (Hseq _ _ H2). lia.
    + specialize (Hseq _ _ H1). lia.
  - intros j1 j2 v1 v2 [[<- <-]|[? H1]]%lookup_insert_Some [[<- <-]|[? H2]]%lookup_insert_Some A1 A2 Heq; eauto.
    + by destruct (Hfree _ _ H2).
    + by destruct (Hfree _ _ H1).
Qed.

(** ** Invariants of the outbox *)

(** The event that ends a watch's life. *)
Definition terminal (et : EventType) : option WatchStatus :=
  match et with ThresholdReached => Some Completed | WatchExpired => Some Expired | _ => None end.

Record outbox_ok (ws : gmap Z WatchRow) (ob : gmap Z OutboxRec) : Prop := {
  (* an event belongs to a watch, is addressed to it and its number is in the watch's range *)
  oo_watch : forall ev o, ob !! ev = Some o -> exists w, ws !! o_watch_id o = Some w
    /\ 1 <= o_seq o <= w_next_event_seq w /\ o_url o = w_webhook_url w;
  (* the payload repeats the row *)
  oo_payload : forall ev o, ob !! ev = Some o -> p_id (o_payload o) = ev
    /\ p_sequence (o_payload o) = o_seq o /\ p_event_type (o_payload o) = o_event_type o;
  (* every number up to the watch's counter was given to an event ... *)
  oo_full : forall i w n, ws !! i = Some w -> 1 <= n <= w_next_event_seq w ->
    exists ev o, ob !! ev = Some o /\ o_watch_id o = i /\ o_seq o = n;
  (* ... and to one only *)
  oo_inj : forall ev ev' o o', ob !! ev = Some o -> ob !! ev' = Some o' ->
    o_watch_id o = o_watch_id o' -> o_seq o = o_seq o' -> ev = ev';
  (* a terminal event is the last event of a watch in that state *)
  oo_terminal : forall ev o w st, ob !! ev = Some o -> ws !! o_watch_id o = Some w ->
    terminal (o_event_type o) = Some st -> w_status w = st /\ o_seq o = w_next_event_seq w;
  (* and a watch in a terminal state has it *)
  oo_ended : forall i w et, ws !! i = Some w -> terminal et = Some (w_status w) ->
    exists ev o, ob !! ev = Some o /\ o_watch_id o = i /\ o_event_type o = et;
}.

Lemma terminal_not_active et : terminal et ≠ Some Active.
Proof. by destruct et. Qed.

Lemma terminal_inj et et' st : terminal et = Some st -> terminal et' = Some st -> et = et'.
Proof. by destruct et, et'; intros [= <-]. Qed.

(** A watch moves on and the event that says so is queued. *)
Lemma outbox_ok_event ws ob i w w' et ev o :
  outbox_ok ws ob -> ws !! i = Some w -> w_id w' = i -> w_status w = Active -> 0 <= w_next_event_seq w ->
  w_next_event_seq w' = w_next_event_seq w + 1 -> w_webhook_url w' = w_webhook_url w ->
  default Active (terminal et) = w_status w' -> ob !! ev = None -> event_of w' et ev o ->
  outbox_ok (<[i := w']> ws) (<[ev := o]> ob).
Proof.
  intros [Hw Hp Hfull Hinj Hterm Hend] Hi Hid Hact Hpos Hn Hu Hst Hnew [Eo Es Et Eu _ Ei Ept Eps _ _].
  rewrite Hid in Eo.
  assert (Hlt : forall ev' o', ob !! ev' = Some o' -> o_watch_id o' = i -> o_seq o' < o_seq o).
  { intros ev' o' Ho' E'. destruct (Hw _ _ Ho') as (v & Hv & Hr & _). rewrite E' in Hv. simplify_eq. lia. }
  split.
  - intros ev' o' [[<- <-]|[? Ho']]%lookup_insert_Some.
    { rewrite Eo. exists w'. rewrite lookup_insert_eq. split_and!; [done|lia..|done]. }
    destruct (Hw _ _ Ho') as (v & Hv & Hr & Hurl). destruct (decide (o_watch_id o' = i)) as [E|E].
    + rewrite E in *. simplify_eq. exists w'. rewrite lookup_insert_eq. split_and!; [done|lia..|congruence].
    + exists v. by rewrite lookup_insert_ne.
  - intros ev' o' [[<- <-]|[? Ho']]%lookup_insert_Some; [split_and!; congruence|eauto].
  - intros j v n [[<- <-]|[? Hv]]%lookup_insert_Some Hr.
    + destruct (decide (n = w_next_event_seq w')) as [->|E].
      { exists ev, o. by rewrite lookup_insert_eq. }
      destruct (Hfull i w n Hi) as (ev' & o' & Ho' & ? & ?); [lia|].
      exists ev', o'. rewrite lookup_insert_ne by congruence. done.
    + destruct (Hfull j v n Hv Hr) as (ev' & o' & Ho' & ? & ?).
      exists ev', o'. rewrite lookup_insert_ne by congruence. done.
  - intros ev1 ev2 o1 o2 [[<- <-]|[? H1]]%lookup_insert_Some [[<- <-]|[? H2]]%lookup_insert_Some E1 E2; eauto.
    + rewrite Eo in E1. symmetry in E1. specialize (Hlt _ _ H2 E1). lia.
    + rewrite Eo in E1. specialize (Hlt _ _ H1 E1). lia.
  - intros ev' o' v st [[<- <-]|[? Ho']]%lookup_insert_Some Hv Ht.
    { rewrite Eo, lookup_insert_eq in Hv. simplify_eq. rewrite Ht in Hst. done. }
    apply lookup_insert_Some in Hv as [[E <-]|[? Hv]]; [|by eapply Hterm].
    rewrite E in Hi. destruct (Hterm _ _ _ _ Ho' Hi Ht) as [H1 _]. rewrite <- H1, Hact in Ht.
    by destruct (terminal_not_active (o_event_type o')).
  - intros j v et' [[<- <-]|[? Hv]]%lookup_insert_Some Ht.
    + exists ev, o. rewrite lookup_insert_eq. split_and!; [done..|]. rewrite Et.
      destruct (terminal et) as [st|] eqn:E; cbn in Hst.
      * apply terminal_inj with st; congruence.
      * rewrite <- Hst in Ht. by destruct (terminal_not_active et').
    + destruct (Hend j v et' Hv Ht) as (ev' & o' & Ho' & ? & ?).
      exists ev', o'. rewrite lookup_insert_ne by congruence. done.
Qed.

(** A watch row is updated without an event. *)
Lemma outbox_ok_silent ws ob i w w' :
  outbox_ok ws ob -> ws !! i = Some w ->
  w_next_event_seq w' = w_next_event_seq w -> w_webhook_url w' = w_webhook_url w ->
  w_status w' = w_status w \/ (w_status w = Active /\ w_status w' = Cancelled) ->
  outbox_ok (<[i := w']> ws) ob.
Proof.
  intros [Hw Hp Hfull Hinj Hterm Hend] Hi Hn Hu Hst. split; try done.
  - intros ev o Ho. destruct (Hw _ _ Ho) as (v & Hv & Hr & Hurl).
    destruct (decide (o_watch_id o = i)) as [E|E].
    + rewrite E in *. simplify_eq. exists w'. rewrite lookup_insert_eq. split_and!; [done|lia..|congruence].
    + exists v. by rewrite lookup_insert_ne.
  - intros j v n [[<- <-]|[? Hv]]%lookup_insert_Some; [rewrite Hn|]; eauto.
  - intros ev o v st Ho [[E <-]|[? Hv]]%lookup_insert_Some Ht; [|eauto].
    rewrite E in Hi. destruct (Hterm _ _ _ _ Ho Hi Ht) as [H1 H2]. rewrite Hn. split; [|done].
    destruct Hst as [->|[Ha _]]; [done|]. rewrite Ha in H1. subst.
    by destruct (terminal_not_active (o_event_type o)).
  - intros j v et [[<- <-]|[? Hv]]%lookup_insert_Some Ht; [|eauto].
    destruct Hst as [E|[_ E]]; rewrite E in Ht; [eauto|by destruct et].
Qed.

Lemma outbox_ok_register ws ob r :
  outbox_ok ws ob -> ws !! w_id r = None -> w_next_event_seq r = 0 -> w_status r = Active ->
  outbox_ok (<[w_id r := r]> ws) ob.
Proof.
  intros [Hw Hp Hfull Hinj Hterm Hend] Hnew Hn Hst. split; try done.
  - intros ev o Ho. destruct (Hw _ _ Ho) as (v & Hv & Hr). exists v. rewrite lookup_insert_ne by congruence. done.
  - intros j v n [[<- <-]|[? Hv]]%lookup_insert_Some Hr; [lia|eauto].
  - intros ev o v st Ho [[E <-]|[? Hv]]%lookup_insert_Some Ht; [|eauto].
    destruct (Hw _ _ Ho) as (v & Hv & _). congruence.
  - intros j v et [[<- <-]|[? Hv]]%lookup_insert_Some Ht; [|eauto]. rewrite Hst in Ht.
    by destruct (terminal_not_active et).
Qed.

Lemma outbox_ok_deliver ws ob ev o o' :
  outbox_ok ws ob -> ob !! ev = Some o -> same_event o o' -> outbox_ok ws (<[ev := o']> ob).
Proof.
  intros [Hw Hp Hfull Hinj Hterm Hend] Ho (Ew & Es & Et & Eu & Ep & _). split.
  - intros ev1 o1 [[<- <-]|[? H1]]%lookup_insert_Some; [rewrite Ew, Es, Eu|]; eauto.
  - intros ev1 o1 [[<- <-]|[? H1]]%lookup_insert_Some; [rewrite Ep, Es, Et|]; eauto.
  - intros i w n Hi Hr. destruct (Hfull i w n Hi Hr) as (ev1 & o1 & H1 & ? & ?).
    destruct (decide (ev = ev1)) as [<-|E].
    + simplify_eq. exists ev, o'. rewrite lookup_insert_eq. split_and!; congruence.
    + exists ev1, o1. by rewrite lookup_insert_ne.
  - intros ev1 ev2 o1 o2 [[<- <-]|[? H1]]%lookup_insert_Some [[<- <-]|[? H2]]%lookup_insert_Some;
      rewrite ?Ew, ?Es; eauto.
  - intros ev1 o1 w st [[<- <-]|[? H1]]%lookup_insert_Some; rewrite ?Ew, ?Es, ?Et; eauto.
  - intros i w et Hi Hr. destruct (Hend i w et Hi Hr) as (ev1 & o1 & H1 & ? & ?).
    destruct (decide (ev = ev1)) as [<-|E].
    + simplify_eq. exists ev, o'. rewrite lookup_insert_eq. split_and!; congruence.
    + exists ev1, o1. by rewrite lookup_insert_ne.
Qed.

(** ** Transfers and conservation *)

Section transfers.
Variable hist : TransferKey -> option (Z * Z * Z * Z).

(** A stored transfer is the log its key names, and its watch watches what that log pays. *)
Definition transfers_ok (ws : gmap Z WatchRow) (ts : gmap TransferKey TransferRec) : Prop :=
  forall key x, ts !! key = Some x -> 0 < x_amount x /\
    exists w, ws !! x_watch_id x = Some w /\ hist key = Some (target w, x_amount x).

(** What the watches of a target have been credited, and what its confirmed transfers add up to. *)
Definition credit (t : Z * Z * Z) (_ : Z) (w : WatchRow) : Z :=
  if decide (target w = t) then w_confirmed_amount w else 0.
Definition paid (t : Z * Z * Z) (key : TransferKey) (x : TransferRec) : Z :=
  match hist key with
  | Some (t', _) => if decide (t' = t /\ x_status x = Confirmed) then x_amount x else 0
  | None => 0
  end.
Definition conserved (ws : gmap Z WatchRow) (ts : gmap TransferKey TransferRec) : Prop :=
  forall t, map_sum (credit t) ws = map_sum (paid t) ts.

(** One [payment.confirmed] event per confirmed transfer. *)
Definition is_confirmation (_ : Z) (o : OutboxRec) : Z :=
  if decide (o_event_type o = PaymentConfirmed) then 1 else 0.
Definition is_confirmed (_ : TransferKey) (x : TransferRec) : Z :=
  if decide (x_status x = Confirmed) then 1 else 0.
Definition announced (ob : gmap Z OutboxRec) (ts : gmap TransferKey TransferRec) : Prop :=
  map_sum is_confirmation ob = map_sum is_confirmed ts.

(** Every confirmed transfer has an event that carries it, and every such event carries a confirmed
    transfer that paid the event's watch; two events never carry the same one. *)
Record told (ws : gmap Z WatchRow) (ob : gmap Z OutboxRec) (ts : gmap TransferKey TransferRec) : Prop := {
  td_event : forall key x, ts !! key = Some x -> x_status x = Confirmed ->
    exists ev o, ob !! ev = Some o /\ o_event_type o = PaymentConfirmed /\ tells Confirmed key (x_amount x) o;
  td_row : forall ev o, ob !! ev = Some o -> o_event_type o = PaymentConfirmed ->
    exists key x w, ts !! key = Some x /\ x_status x = Confirmed /\ tells Confirmed key (x_amount x) o
      /\ ws !! o_watch_id o = Some w /\ hist key = Some (target w, x_amount x);
  td_inj : forall ev ev' o o' key a a', ob !! ev = Some o -> ob !! ev' = Some o' ->
    o_event_type o = PaymentConfirmed -> o_event_type o' = PaymentConfirmed ->
    tells Confirmed key a o -> tells Confirmed key a' o' -> ev = ev';
}.

Lemma tells_key st key key' a a' o : tells st key a o -> tells st key' a' o -> key = key' /\ a = a'.
Proof. intros (v & E & <- & _ & ->) (v' & E' & <- & _ & ->). rewrite E in E'. by simplify_eq. Qed.

(** The watch table moves on, the confirmed transfers stay. *)
Lemma told_frame ws ws' ob ts ts' :
  told ws ob ts -> (forall i w, ws !! i = Some w -> exists w', ws' !! i = Some w' /\ target w' = target w) ->
  (forall key x, x_status x = Confirmed -> ts !! key = Some x <-> ts' !! key = Some x) -> told ws' ob ts'.
Proof.
  intros [He Hr Hi] Hw Ht. split; [|..|exact Hi].
  - intros key x Hx Hs. apply (He key x); [by apply Ht|done].
  - intros ev o Ho Et. destruct (Hr ev o Ho Et) as (key & x & w & Hx & Hs & Hk & Hwo & Hh).
    destruct (Hw _ _ Hwo) as (w' & Hw' & E). exists key, x, w'. rewrite E. split_and!; try done. by apply Ht.
Qed.

Lemma told_silent ws ob ts ev o :
  told ws ob ts -> ob !! ev = None -> o_event_type o ≠ PaymentConfirmed -> told ws (<[ev := o]> ob) ts.
Proof.
  intros [He Hr Hi] Hn Hne. split.
  - intros key x Hx Hs. destruct (He key x Hx Hs) as (ev' & o' & ? & ?). exists ev', o'.
    by rewrite lookup_insert_ne by congruence.
  - intros ev' o' [[<- <-]|[_ Ho]]%lookup_insert_Some; [done|eauto].
  - intros ev1 ev2 o1 o2 key a a' [[<- <-]|[_ H1]]%lookup_insert_Some [[<- <-]|[_ H2]]%lookup_insert_Some; try done. eauto.
Qed.

Lemma told_counted ws ob ts i w ev o key amt x :
  told ws ob ts -> transfers_ok ws ts -> hist key = Some (target w, amt) -> counted_row i amt (ts !! key) x ->
  ob !! ev = None -> o_event_type o = PaymentConfirmed -> tells Confirmed key amt o -> ws !! o_watch_id o = Some w ->
  told ws (<[ev := o]> ob) (<[key := x]> ts).
Proof.
  intros [He Hr Hi] Hts Hh [Hs Hc] Hn Et Hk Hw. assert (Ea : x_amount x = amt).
  { destruct (ts !! key) as [y|] eqn:Hy; [|by destruct Hc]. destruct Hc as (_ & _ & ->).
    destruct (Hts key y Hy) as (_ & v & _ & Hv). congruence. }
  assert (Hfresh : forall ev' o' a, ob !! ev' = Some o' -> o_event_type o' = PaymentConfirmed -> ~ tells Confirmed key a o').
  { intros ev' o' a Ho' Et' Hk'. destruct (Hr ev' o' Ho' Et') as (key' & y & _ & Hy & Hp & Hk2 & _).
    destruct (tells_key _ _ _ _ _ _ Hk' Hk2) as [<- _]. rewrite Hy in Hc. destruct Hc. congruence. }
  split.
  - intros key' y [[<- <-]|[_ Hy]]%lookup_insert_Some Hp.
    + exists ev, o. rewrite lookup_insert_eq, Ea. done.
    + destruct (He key' y Hy Hp) as (ev' & o' & ? & ?). exists ev', o'. by rewrite lookup_insert_ne by congruence.
  - intros ev' o' [[<- <-]|[_ Ho]]%lookup_insert_Some Et'.
    + exists key, x, w. rewrite lookup_insert_eq, Ea. done.
    + destruct (Hr ev' o' Ho Et') as (key' & y & v & Hy & Hp & Hk' & ?). exists key', y, v.
      rewrite lookup_insert_ne; [done|]. intros <-. by destruct (Hfresh _ _ _ Ho Et' Hk').
  - intros ev1 ev2 o1 o2 key' a a' [[<- <-]|[_ H1]]%lookup_insert_Some [[<- <-]|[_ H2]]%lookup_insert_Some E1 E2 K1 K2.
    + done.
    + destruct (tells_key _ _ _ _ _ _ Hk K1) as [<- _]. by destruct (Hfresh _ _ _ H2 E2 K2).
    + destruct (tells_key _ _ _ _ _ _ Hk K2) as [<- _]. by destruct (Hfresh _ _ _ H1 E1 K1).
    + eauto.
Qed.

Lemma told_deliver ws ob ts ev o o' :
  told ws ob ts -> ob !! ev = Some o -> same_event o o' -> told ws (<[ev := o']> ob) ts.
Proof.
  intros [He Hr Hi] Ho (Ew & _ & Et & _ & Ep & _).
  assert (Hback : forall ev1 o1, <[ev := o']> ob !! ev1 = Some o1 -> exists o0, ob !! ev1 = Some o0
    /\ o_watch_id o1 = o_watch_id o0 /\ o_event_type o1 = o_event_type o0 /\ o_payload o1 = o_payload o0).
  { intros ev1 o1 [[<- <-]|[_ H]]%lookup_insert_Some; eauto. }
  split.
  - intros key x Hx Hs. destruct (He key x Hx Hs) as (ev1 & o1 & Ho1 & E1 & Hk).
    destruct (decide (ev = ev1)) as [<-|]; [|exists ev1, o1; by rewrite lookup_insert_ne].
    simplify_eq. exists ev, o'. rewrite lookup_insert_eq. split_and!; [done|congruence|]. unfold tells. by rewrite Ep.
  - intros ev1 o1 (o0 & H0 & Ew0 & Et0 & Ep0)%Hback E1.
    destruct (Hr ev1 o0 H0) as (key & x & w & ? & ? & Hk & ?); [congruence|]. exists key, x, w.
    rewrite Ew0. unfold tells in *. rewrite Ep0. done.
  - intros ev1 ev2 o1 o2 key a a' (o3 & H3 & _ & Et3 & Ep3)%Hback (o4 & H4 & _ & Et4 & Ep4)%Hback E1 E2.
    unfold tells. rewrite Ep3, Ep4. apply (Hi ev1 ev2 o3 o4); congruence.
Qed.

Lemma transfers_ok_watch ws ts i w w' :
  transfers_ok ws ts -> ws !! i = Some w -> target w' = target w -> transfers_ok (<[i := w']> ws) ts.
Proof.
  intros H Hi Ht key x Hx. destruct (H key x Hx) as (Hp & v & Hv & Hh). split; [done|].
  destruct (decide (i = x_watch_id x)) as [E|E].
  - exists w'. rewrite E, lookup_insert_eq, Ht in *. split; [done|]. congruence.
  - exists v. by rewrite lookup_insert_ne.
Qed.

Lemma transfers_ok_register ws ts i r :
  transfers_ok ws ts -> ws !! i = None -> transfers_ok (<[i := r]> ws) ts.
Proof.
  intros H Hi key x Hx. destruct (H key x Hx) as (Hp & v & Hv & Hh). split; [done|].
  exists v. by rewrite lookup_insert_ne by congruence.
Qed.

Lemma transfers_ok_insert ws ts key x w :
  transfers_ok ws ts -> ws !! x_watch_id x = Some w -> hist key = Some (target w, x_amount x) ->
  0 < x_amount x -> transfers_ok ws (<[key := x]> ts).
Proof. intros H Hw Hh Hp key' x' [[<- <-]|[? Hx]]%lookup_insert_Some; eauto. Qed.

Lemma transfers_ok_update ws ts key x y :
  transfers_ok ws ts -> ts !! key = Some y -> x_watch_id x = x_watch_id y -> x_amount x = x_amount y ->
  transfers_ok ws (<[key := x]> ts).
Proof.
  intros H Hy Ew Ea key' x' [[<- <-]|[? Hx]]%lookup_insert_Some; [|eauto].
  rewrite Ew, Ea. eauto.
Qed.

Lemma transfers_ok_counted ws ts i w key amt x :
  transfers_ok ws ts -> ws !! i = Some w -> hist key = Some (target w, amt) -> 0 < amt ->
  counted_row i amt (ts !! key) x -> transfers_ok ws (<[key := x]> ts).
Proof.
  intros H Hi Hh Hp [_ Hc]. destruct (ts !! key) as [y|] eqn:Hy.
  - destruct Hc as (_ & E1 & E2). eauto using transfers_ok_update.
  - destruct Hc as [E1 E2]. eapply transfers_ok_insert; rewrite ?E1, ?E2; eauto.
Qed.

Lemma credit_update ws i w w' t :
  ws !! i = Some w -> target w' = target w ->
  map_sum (credit t) (<[i := w']> ws) =
    map_sum (credit t) ws + (if decide (target w = t) then w_confirmed_amount w' - w_confirmed_amount w else 0).
Proof.
  intros Hi Ht. rewrite (map_sum_insert_upd _ _ _ _ _ Hi). unfold credit. rewrite Ht. case_decide; lia.
Qed.

(** Counting adds the log's amount to the confirmed sum of the log's target. *)
Lemma paid_counted ws ts i key amt x t t' :
  transfers_ok ws ts -> hist key = Some (t', amt) -> counted_row i amt (ts !! key) x ->
  map_sum (paid t) (<[key := x]> ts) = map_sum (paid t) ts + (if decide (t' = t) then amt else 0).
Proof.
  intros Hok Hh [Hs Hc]. destruct (ts !! key) as [y|] eqn:Hy.
  - destruct Hc as (Hp & _ & Ea). rewrite (map_sum_insert_upd _ _ _ _ _ Hy). unfold paid. rewrite Hh.
    destruct (Hok key y Hy) as (_ & v & _ & Hv). rewrite Hh in Hv. simplify_eq.
    rewrite Ea, Hs, Hp. repeat case_decide; naive_solver lia.
  - destruct Hc as [_ Ea]. rewrite (map_sum_insert_new _ _ _ _ Hy). unfold paid. rewrite Hh, Ea, Hs.
    repeat case_decide; naive_solver lia.
Qed.

(** Writing a row that is not confirmed over one that is not leaves every sum alone. *)
Lemma sum_unconfirmed (f : TransferKey -> TransferRec -> Z) ts key x :
  (forall k y, x_status y ≠ Confirmed -> f k y = 0) -> x_status x ≠ Confirmed ->
  countable (ts !! key) -> map_sum f (<[key := x]> ts) = map_sum f ts.
Proof.
  intros Hf Hx Hc. destruct (ts !! key) as [y|] eqn:Hy; cbn in Hc.
  - rewrite (map_sum_insert_upd _ _ _ _ _ Hy), !Hf by congruence. lia.
  - rewrite (map_sum_insert_new _ _ _ _ Hy), Hf by congruence. lia.
Qed.

Lemma paid_kept ts key x t :
  x_status x ≠ Confirmed -> countable (ts !! key) ->
  map_sum (paid t) (<[key := x]> ts) = map_sum (paid t) ts.
Proof. apply sum_unconfirmed. intros k y H. unfold paid. repeat case_match; naive_solver. Qed.

Lemma is_confirmed_kept ts key x :
  x_status x ≠ Confirmed -> countable (ts !! key) ->
  map_sum is_confirmed (<[key := x]> ts) = map_sum is_confirmed ts.
Proof. apply sum_unconfirmed. intros k y H. unfold is_confirmed. by rewrite decide_False. Qed.

Lemma is_confirmed_counted ts i key amt x :
  counted_row i amt (ts !! key) x ->
  map_sum is_confirmed (<[key := x]> ts) = map_sum is_confirmed ts + 1.
Proof.
  intros [Hs Hc]. destruct (ts !! key) as [y|] eqn:Hy.
  - destruct Hc as (Hp & _). rewrite (map_sum_insert_upd _ _ _ _ _ Hy). unfold is_confirmed.
    rewrite Hs, Hp. rewrite decide_False by done. rewrite decide_True by done. lia.
  - rewrite (map_sum_insert_new _ _ _ _ Hy). unfold is_confirmed. rewrite decide_True by done. lia.
Qed.

Lemma is_confirmation_event ob ev o :
  ob !! ev = None -> map_sum is_confirmation (<[ev := o]> ob) =
    map_sum is_confirmation ob + (if decide (o_event_type o = PaymentConfirmed) then 1 else 0).
Proof. intros H. rewrite (map_sum_insert_new _ _ _ _ H). unfold is_confirmation. lia. Qed.
End transfers.

(** ** The invariant *)

Record Inv (hist : TransferKey -> option (Z * Z * Z * Z)) (d : DB) : Prop := {
  inv_watches : watches_ok (d_watches d) (d_watch_seq d);
  inv_outbox : outbox_ok (d_watches d) (d_outbox d);
  inv_transfers : transfers_ok hist (d_watches d) (d_transfers d);
  inv_conserved : conserved hist (d_watches d) (d_transfers d);
  inv_announced : announced (d_outbox d) (d_transfers d);
  inv_told : told hist (d_watches d) (d_outbox d) (d_transfers d);
}.

Lemma Inv_empty hist : Inv hist db_empty.
Proof.
  split; cbn; [split|split|..|split]; try (intros *; rewrite ?lookup_empty; done).
Qed.

Section rows.
Variables (w : WatchRow) (amt now : Z).
Hypothesis Hrow : row_ok w.

Lemma row_ok_bump : row_ok (bump w).
Proof. destruct Hrow as (? & ? & ? & ?). unfold row_ok, bump. cbn. split_and!; [lia..|done]. Qed.

Lemma row_ok_credited :
  w_status w = Active -> 0 < amt -> w_confirmed_amount w + amt < w_threshold w -> row_ok (credited amt w).
Proof. destruct Hrow as (? & ? & ? & ?). intros E ? ?. unfold row_ok. cbn. rewrite E. split_and!; lia. Qed.

Lemma row_ok_retired :
  0 < amt -> w_threshold w <= w_confirmed_amount w + amt -> row_ok (retired now (credited amt w)).
Proof. destruct Hrow as (? & ? & ? & ?). intros ? ?. unfold row_ok. cbn. split_and!; lia. Qed.

Lemma row_ok_ended st :
  w_status w = Active -> st = Cancelled \/ st = Expired -> row_ok (with_status st now w).
Proof.
  destruct Hrow as (? & ? & ? & Hs). intros E Hst. rewrite E in Hs. unfold row_ok. cbn.
  destruct Hst as [-> | ->]; split_and!; lia.
Qed.

Lemma row_ok_backfill b : row_ok (with_backfill_to b w).
Proof. exact Hrow. Qed.
End rows.

#[export] Hint Resolve row_ok_bump row_ok_credited row_ok_retired row_ok_ended row_ok_backfill wo_row wo_id : gum.

Section preservation.
Variable hist : TransferKey -> option (Z * Z * Z * Z).
Implicit Types d : DB.

Lemma targets_insert (ws : gmap Z WatchRow) i w w' :
  ws !! i = Some w -> target w' = target w ->
  forall j v, ws !! j = Some v -> exists v', <[i := w']> ws !! j = Some v' /\ target v' = target v.
Proof.
  intros Hi Ht j v Hv. destruct (decide (i = j)) as [<-|].
  - exists w'. rewrite lookup_insert_eq. split; congruence.
  - exists v. by rewrite lookup_insert_ne.
Qed.

(** Writing a row that is not confirmed over one that is not keeps the confirmed ones. *)
Lemma confirmed_kept (ts : gmap TransferKey TransferRec) key x :
  x_status x ≠ Confirmed -> countable (ts !! key) ->
  forall k y, x_status y = Confirmed -> ts !! k = Some y <-> <[key := x]> ts !! k = Some y.
Proof.
  intros Hx Hc k y Hy. rewrite lookup_insert_Some. destruct (decide (key = k)) as [<-|]; [|naive_solver].
  split; [|naive_solver]. intros E. rewrite E in Hc. cbn in Hc. congruence.
Qed.

(** A watch moves on, with its event, while the transfer table does not change its sums. *)
Lemma Inv_event d i w w' ts et ev o :
  Inv hist d -> d_watches d !! i = Some w -> w_status w = Active ->
  same_watch w w' -> row_ok w' -> w_next_event_seq w' = w_next_event_seq w + 1 ->
  default Active (terminal et) = w_status w' -> d_outbox d !! ev = None -> event_of w' et ev o ->
  transfers_ok hist (d_watches d) ts ->
  (forall t, map_sum (paid hist t) ts = map_sum (paid hist t) (d_transfers d)
     + (if decide (target w = t) then w_confirmed_amount w' - w_confirmed_amount w else 0)) ->
  map_sum is_confirmed ts = map_sum is_confirmed (d_transfers d)
     + (if decide (et = PaymentConfirmed) then 1 else 0) ->
  told hist (d_watches d) (<[ev := o]> (d_outbox d)) ts ->
  Inv hist (put_event ev o (put_watch i w' (set_transfers (fun _ => ts) d))).
Proof.
  intros [Hw Ho Ht Hc Ha Hd] Hi Hact Hsame Hok Hn Hst Hnew Hev Hts Hpaid Hconf Htold.
  pose proof Hsame as (Eid & _ & Etgt & _ & Eurl & _).
  pose proof (wo_row _ _ Hw _ _ Hi) as (_ & _ & Hpos & _).
  pose proof (wo_id _ _ Hw _ _ Hi) as Hid.
  split; cbn.
  - eapply watches_ok_update; eauto.
  - eapply outbox_ok_event; eauto. congruence.
  - eapply transfers_ok_watch; eauto.
  - intros t. rewrite (credit_update _ _ _ _ _ Hi Etgt), Hpaid, (Hc t). done.
  - unfold announced. rewrite is_confirmation_event by done. rewrite Hconf, Ha, (ev_type _ _ _ _ Hev). done.
  - eapply told_frame; [exact Htold|by eapply targets_insert|done].
Qed.

(** A watch row changes without an event. *)
Lemma Inv_silent d i w w' :
  Inv hist d -> d_watches d !! i = Some w -> same_watch w w' -> row_ok w' ->
  w_next_event_seq w' = w_next_event_seq w -> w_confirmed_amount w' = w_confirmed_amount w ->
  w_status w' = w_status w \/ (w_status w = Active /\ w_status w' = Cancelled) ->
  Inv hist (put_watch i w' d).
Proof.
  intros [Hw Ho Ht Hc Ha Hd] Hi Hsame Hok Hn Hconf Hst. pose proof Hsame as (Eid & _ & Etgt & _ & Eurl & _).
  split; cbn.
  - eapply watches_ok_update; eauto. destruct Hst as [->|[_ ->]]; done.
  - eapply outbox_ok_silent; eauto.
  - eapply transfers_ok_watch; eauto.
  - intros t. rewrite (credit_update _ _ _ _ _ Hi Etgt), (Hc t), Hconf. case_decide; lia.
  - done.
  - eapply told_frame; [exact Hd|by eapply targets_insert|done].
Qed.

Lemma Inv_transfers d ts :
  Inv hist d -> transfers_ok hist (d_watches d) ts ->
  (forall t, map_sum (paid hist t) ts = map_sum (paid hist t) (d_transfers d)) ->
  map_sum is_confirmed ts = map_sum is_confirmed (d_transfers d) ->
  (forall key x, x_status x = Confirmed -> d_transfers d !! key = Some x <-> ts !! key = Some x) ->
  Inv hist (set_transfers (fun _ => ts) d).
Proof.
  intros [Hw Ho Ht Hc Ha Hd] Hts Hp Hn Hk. split; cbn; try done.
  - intros t. by rewrite Hp.
  - unfold announced. by rewrite Hn.
  - eapply told_frame; [exact Hd|eauto|done].
Qed.

Lemma Inv_register d r :
  Inv hist d -> d_watches d !! w_id r = None -> w_status r = Active -> w_confirmed_amount r = 0 ->
  w_next_event_seq r = 0 -> 0 < w_threshold r -> w_seq r = d_watch_seq d + 1 ->
  (forall j w, d_watches d !! j = Some w -> w_status w = Active -> target w ≠ target r) ->
  Inv hist (put_watch (w_id r) r (draw_seq d)).
Proof.
  intros [Hw Ho Ht Hc Ha Hd] Hnew Hst Hz Hn Hth Hs Hfree. split; cbn.
  - apply watches_ok_register; try done. unfold row_ok. rewrite Hst. split_and!; lia.
  - by apply outbox_ok_register.
  - by apply transfers_ok_register.
  - intros t. rewrite (map_sum_insert_new _ _ _ _ Hnew), (Hc t). unfold credit. case_decide; lia.
  - done.
  - eapply told_frame; [exact Hd| |done]. intros i w Hi. exists w. by rewrite lookup_insert_ne by congruence.
Qed.

Lemma Inv_deliver d ev o o' :
  Inv hist d -> d_outbox d !! ev = Some o -> same_event o o' -> Inv hist (put_event ev o' d).
Proof.
  intros [Hw Ho Ht Hc Ha Hd] Hev Hsame. split; cbn; try done.
  - eapply outbox_ok_deliver; eauto.
  - unfold announced. rewrite (map_sum_insert_upd _ _ _ _ _ Hev), Ha. destruct Hsame as (_ & _ & Et & _).
    unfold is_confirmation. rewrite Et. lia.
  - by eapply told_deliver.
Qed.

Lemma Inv_complete d i w key amt x ev o ev2 o2 now :
  Inv hist d -> d_watches d !! i = Some w -> w_status w = Active ->
  hist key = Some (target w, amt) -> 0 < amt -> counted_row i amt (d_transfers d !! key) x ->
  w_threshold w <= w_confirmed_amount w + amt ->
  d_outbox d !! ev = None -> event_of (credited amt w) PaymentConfirmed ev o -> tells Confirmed key amt o ->
  d_outbox d !! ev2 = None -> ev ≠ ev2 ->
  event_of (retired now (credited amt w)) ThresholdReached ev2 o2 ->
  Inv hist (put_event ev2 o2 (put_event ev o
              (put_watch i (retired now (credited amt w)) (put_transfer key x d)))).
Proof.
  intros [Hw Ho Ht Hc Ha Hd] Hi Hact Hh Hpos Hrow Hth Hnew Hev Htell Hnew2 Hne Hev2.
  pose proof (wo_row _ _ Hw _ _ Hi) as Hok. pose proof (wo_id _ _ Hw _ _ Hi) as Hid.
  assert (Hseq : 0 <= w_next_event_seq w) by apply Hok.
  assert (Hnew2' : <[ev := o]> (d_outbox d) !! ev2 = None) by (by rewrite lookup_insert_ne).
  split; cbn.
  - eapply watches_ok_update; eauto with gum. done.
  - rewrite <- (insert_insert_eq (d_watches d) i (retired now (credited amt w)) (credited amt w)).
    eapply outbox_ok_event with (w := credited amt w) (et := ThresholdReached); try done.
    + eapply outbox_ok_event with (w := w) (et := PaymentConfirmed); try done.
    + apply lookup_insert_eq.
    + cbn. lia.
  - eapply transfers_ok_watch; eauto using transfers_ok_counted.
  - intros t. rewrite (credit_update _ _ _ (retired now (credited amt w)) t Hi eq_refl), (paid_counted _ _ _ _ _ _ _ _ _ Ht Hh Hrow), (Hc t).
    cbn. case_decide; lia.
  - unfold announced. rewrite !is_confirmation_event by done.
    rewrite (is_confirmed_counted _ _ _ _ _ Hrow), Ha, (ev_type _ _ _ _ Hev), (ev_type _ _ _ _ Hev2).
    rewrite decide_True, decide_False by done. lia.
  - apply told_silent; [|done|by rewrite (ev_type _ _ _ _ Hev2)].
    eapply told_frame; [|by eapply targets_insert|done].
    eapply told_counted; eauto; [by apply (ev_type _ _ _ _ Hev)|].
    rewrite (ev_watch _ _ _ _ Hev). cbn. by rewrite Hid.
Qed.

Lemma Inv_step d d' : Inv hist d -> step hist d d' -> Inv hist d'.
Proof.
  intros HI Hs. pose proof HI as [Hw Ho Ht Hc Ha Hd].
  destruct Hs as [f|f| |r|i w key x ev o Hi Hact Hkey Hst Hid Hh Hpos Hnew Hev Htell
    |i w key amt x ev o Hi Hact Hh Hpos Hrow Hth Hnew Hev Htell|i w key amt x ev o ev2 o2 now
    |key x st Hx Hp Hst|i w key x ev o Hi Hact Hx Hp Hid Hnew Hev|i w ev o now Hi Hact Hnew Hev
    |i w now Hi Hact|i w b Hi|ev o o'].
  - done.
  - done.
  - split; try done. by apply watches_ok_draw.
  - by apply Inv_register.
  - apply (Inv_event d i w (bump w) (<[key := x]> (d_transfers d)) PaymentPending); eauto with gum; try done.
    + eapply transfers_ok_insert; rewrite ?Hid; eauto.
    + intros t. rewrite paid_kept by (rewrite ?Hst, ?Hkey; done). cbn. case_decide; lia.
    + rewrite is_confirmed_kept by (rewrite ?Hst, ?Hkey; done). rewrite decide_False by done. lia.
    + apply told_silent; [|done|by rewrite (ev_type _ _ _ _ Hev)].
      eapply told_frame; [exact Hd|eauto|apply confirmed_kept; rewrite ?Hst, ?Hkey; done].
  - apply (Inv_event d i w (credited amt w) (<[key := x]> (d_transfers d)) PaymentConfirmed);
      eauto using transfers_ok_counted with gum; try done.
    + intros t. rewrite (paid_counted _ _ _ _ _ _ _ _ _ Ht Hh Hrow). cbn. case_decide; lia.
    + by rewrite (is_confirmed_counted _ _ _ _ _ Hrow).
    + eapply told_counted; eauto; [by apply (ev_type _ _ _ _ Hev)|].
      rewrite (ev_watch _ _ _ _ Hev). cbn. by rewrite (wo_id _ _ Hw _ _ Hi).
  - by apply Inv_complete.
  - apply (Inv_transfers d (<[key := set_transfer_status st x]> (d_transfers d))); [done|..].
    + eapply transfers_ok_update; eauto.
    + intros t. apply paid_kept; [by destruct Hst as [-> | ->]|by rewrite Hx].
    + apply is_confirmed_kept; [by destruct Hst as [-> | ->]|by rewrite Hx].
    + apply confirmed_kept; [by destruct Hst as [-> | ->]|by rewrite Hx].
  - apply (Inv_event d i w (bump w) (<[key := set_transfer_status Orphaned x]> (d_transfers d)) PaymentOrphaned);
      eauto using transfers_ok_update with gum; try done.
    + intros t. rewrite paid_kept by (rewrite ?Hx; done). cbn. case_decide; lia.
    + rewrite is_confirmed_kept by (rewrite ?Hx; done). rewrite decide_False by done. lia.
    + apply told_silent; [|done|by rewrite (ev_type _ _ _ _ Hev)].
      eapply told_frame; [exact Hd|eauto|apply confirmed_kept; rewrite ?Hx; done].
  - apply (Inv_event d i w (bump (with_status Expired now w)) (d_transfers d) WatchExpired);
      eauto with gum; try done.
    + intros t. cbn. case_decide; lia.
    + rewrite decide_False by done. lia.
    + apply told_silent; [done|done|by rewrite (ev_type _ _ _ _ Hev)].
  - eapply Inv_silent; eauto with gum; done.
  - eapply Inv_silent; eauto with gum; done.
  - intros. by eapply Inv_deliver.
Qed.

Lemma Inv_steps d d' : Inv hist d -> rtc (step hist) d d' -> Inv hist d'.
Proof. intros HI Hs. induction Hs; eauto using Inv_step. Qed.
End preservation.
