(* ===== verification/LedgerTx.v ===== *)
(** * LedgerTx: the transactions refine the ledger

    Each transaction of [src/store/mod.rs] and [src/store/sweep.rs], on every branch, is a sequence
    of ledger steps. *)

From S2P Require Import Prelude Config Registry Cache Matcher Events Store Sweep TxSpec Ledger.

(** ** Rows keep their target *)

(** The same watches, watching the same things. *)
Definition same_targets (d d' : DB) : Prop :=
  forall i, target <$> d_watches d' !! i = target <$> d_watches d !! i.

#[global] Instance same_targets_preorder : PreOrder same_targets.
Proof. split; [done|]. intros d1 d2 d3 H1 H2 i. by rewrite H2, H1. Qed.

Lemma same_targets_put d i w w' :
  d_watches d !! i = Some w -> target w' = target w -> same_targets d (put_watch i w' d).
Proof.
  intros Hi Ht j. cbn. destruct (decide (i = j)) as [<-|E].
  - by rewrite lookup_insert_eq, Hi; cbn; rewrite Ht.
  - by rewrite lookup_insert_ne.
Qed.

Section refinement.
Variable hist : TransferKey -> option (Z * Z * Z * Z).
Abbreviation steps := (rtc (step hist)).

(** A match is faithful to the chain's history: the watch it was matched to, where it exists,
    watches what the log pays. *)
Definition matched_ok (chain : ChainSpec) (d : DB) (m : MatchedTransfer) : Prop :=
  0 < m_amount m /\
  forall t, target <$> d_watches d !! r_id (m_watch m) = Some t ->
    hist (transfer_key chain m) = Some (t, m_amount m).

Lemma matched_ok_frame chain d d' m : same_targets d d' -> matched_ok chain d m -> matched_ok chain d' m.
Proof. intros Hf [Hp H]. split; [done|]. intros t Ht. apply H. by rewrite <- Hf. Qed.

Lemma event_row_of env k chain r w et tv :
  from_row r = Ok w -> event_of r et (e_ids env k) (event_row env k chain w et tv).
Proof. intros (E1 & E2 & E3 & E4 & E5 & E6 & E7)%from_row_fields. split; cbn; congruence. Qed.

(** The event of a matched transfer carries it. *)
Lemma event_row_tells env k chain w et st m :
  tells st (transfer_key chain m) (m_amount m) (event_row env k chain w et (Some (transfer_view m st))).
Proof. by exists (transfer_view m st). Qed.

(** ** Counting *)

Lemma confirmed_rec_counted env m i old :
  countable old -> counted_row i (m_amount m) old (confirmed_rec env m i old).
Proof. destruct old as [x|]; cbn; done. Qed.

Lemma count_confirmed_steps chain m acc env d k acc' d' k' :
  ids_ok d -> matched_ok chain d m ->
  count_confirmed chain m acc env (d, k) = Ok (acc', (d', k')) ->
  steps d d' /\ same_targets d d'.
Proof.
  intros Hids [Hpos Hm] H. apply count_confirmed_Ok in H; [|done]. revert H.
  generalize (acc'.1), (acc'.2). intros st' out' H.
  destruct H as [_|w w1 Hw Ha Hc Hr Hth Hev _|w w1 w2 Hw Ha Hc Hr Hr2 Hth Hev _ Hev2 Hne _].
  - done.
  - pose proof (Hids _ _ Hw) as Hid. rewrite Hid. split; [|by apply (same_targets_put d _ w (credited (m_amount m) w))].
    apply rtc_once. eapply step_count; eauto using event_row_of, event_row_tells, confirmed_rec_counted.
    apply Hm. by rewrite Hw.
  - pose proof (Hids _ _ Hw) as Hid. rewrite Hid. split; [|by apply (same_targets_put d _ w (retired (e_now env) (credited (m_amount m) w)))].
    apply rtc_once. eapply step_complete; eauto using event_row_of, event_row_tells, confirmed_rec_counted.
    apply Hm. by rewrite Hw.
Qed.

(** A loop over matches that all are faithful. *)
Lemma ids_ok_of_inv d : Inv hist d -> ids_ok d.
Proof. intros HI i w. apply (wo_id _ _ (inv_watches _ _ HI)). Qed.

Lemma count_all_steps chain ms env acc d k acc' d' k' :
  Inv hist d -> Forall (matched_ok chain d) ms ->
  mfold (count_confirmed chain) ms acc env (d, k) = Ok (acc', (d', k')) ->
  steps d d' /\ same_targets d d'.
Proof.
  intros HI Hms H.
  pose proof (mfold_Tx_inv (count_confirmed chain) (fun _ d1 _ => steps d d1 /\ same_targets d d1)
    env ms acc (d, k) acc' (d', k')) as L. apply L; [|done..]. clear L H.
  intros m a d1 k1 a' d2 k2 Hin [Hs Hf] H. rewrite Forall_forall in Hms.
  apply count_confirmed_steps in H as [Hs' Hf'].
  - split; [by etrans|by etrans].
  - eapply ids_ok_of_inv, Inv_steps; eauto.
  - eapply matched_ok_frame; eauto.
Qed.

(** ** The head path *)

Lemma insert_pending_Ok chain m wid env d k b s :
  insert_pending chain m wid env (d, k) = Ok (b, s) ->
  (b = false /\ s = (d, k) /\ is_Some (d_transfers d !! transfer_key chain m))
  \/ (b = true /\ d_transfers d !! transfer_key chain m = None
      /\ s = (put_transfer (transfer_key chain m)
                (mkTransfer (as_i64 (m_block_number m)) (m_tx_hash m) wid (m_from m) (m_amount m)
                   Pending (e_now env) None) d, k)).
Proof.
  unfold insert_pending. intros H. tx_inv H. tx_simp Ht. tx_inv H. tx_simp Ht.
  destruct (d_transfers _ !! _) as [x|] eqn:Hx.
  - tx_simp H. left. eauto.
  - tx_inv H. tx_simp Ht. tx_simp H. right. done.
Qed.

Lemma record_pending_steps env d chain m r d' :
  ids_ok d -> matched_ok chain d m ->
  record_pending env d chain m = (r, d') -> steps d d' /\ same_targets d d'.
Proof.
  intros Hids [Hpos Hm] H. unfold record_pending in H. destruct r as [b|e].
  2:{ apply run_tx_Err in H as ->. done. }
  apply run_tx_Ok in H as [[k H]|[-> _]]; [|done].
  unfold record_pending_tx in H. tx_inv H.
  apply lock_active_watch_Ok in Ht as [(-> & [= -> ->] & _)|(w & w' & Hw & Ha & Hr & -> & [= -> ->])];
    [tx_simp H|].
  pose proof (Hids _ _ Hw) as Hid. pose proof (from_row_fields _ _ Hr) as (Hi' & _). cbn in Hi'.
  tx_inv H. rewrite Hi', Hid in Ht.
  apply insert_pending_Ok in Ht as [(-> & [= -> ->] & _)|(-> & Hx & [= -> ->])]; [tx_simp H|].
  tx_inv H. apply insert_event_Ok in Ht as ([= -> -> ->] & Hev & _). tx_simp H. cbn in Hx, Hev.
  split; [|by eapply (same_targets_put d _ w (bump w))].
  apply rtc_once. eapply (step_announce hist d _ w); eauto using event_row_of; [|by apply event_row_tells].
  apply Hm. by rewrite Hw.
Qed.

(** ** Leftovers *)

Lemma set_transfers_alter d key f x :
  d_transfers d !! key = Some x -> set_transfers (alter f key) d = put_transfer key (f x) d.
Proof.
  intros Hx. unfold put_transfer, set_transfers. f_equal. apply map_eq. intros j.
  rewrite lookup_alter, lookup_insert. case_decide; subst; [by rewrite Hx|done].
Qed.

(** What resolving one leftover does: [ignored], [orphaned] in silence, or [orphaned] with its
    event. *)
Inductive resolve_result (chain : ChainSpec) (canon : bool) (key : TransferKey) (x : TransferRec)
    (env : Env) (d : DB) (k : nat) : DB -> nat -> Prop :=
  | resolve_ignored :
      canon = true ->
      resolve_result chain canon key x env d k (put_transfer key (set_transfer_status Ignored x) d) k
  | resolve_silent :
      canon = false ->
      (forall w, d_watches d !! x_watch_id x = Some w -> w_status w ≠ Active) ->
      resolve_result chain canon key x env d k (put_transfer key (set_transfer_status Orphaned x) d) k
  | resolve_event w w' tv :
      canon = false ->
      d_watches d !! x_watch_id x = Some w -> w_status w = Active -> from_row (bump w) = Ok w' ->
      d_outbox d !! e_ids env k = None ->
      resolve_result chain canon key x env d k
        (put_event (e_ids env k) (event_row env k chain w' PaymentOrphaned (Some tv))
           (put_watch (x_watch_id x) (bump w) (put_transfer key (set_transfer_status Orphaned x) d)))
        (S k).

Definition canon_key (canonical all_canonical : gset (Z * Z)) (key : TransferKey) : bool :=
  bool_decide ((key.1.2, as_u64 key.2) ∈ canonical) || bool_decide ((key.1.2, as_u64 key.2) ∈ all_canonical).

Lemma resolve_leftover_Ok chain cs acs key x acc env d k acc' d' k' :
  d_transfers d !! key = Some x ->
  resolve_leftover chain cs acs (key, x) acc env (d, k) = Ok (acc', (d', k')) ->
  resolve_result chain (canon_key cs acs key) key x env d k d' k'.
Proof.
  intros Hx H. destruct acc as [stats out]. unfold resolve_leftover in H. cbv zeta in H.
  fold (canon_key cs acs key) in H. destruct (canon_key cs acs key) eqn:Hc.
  - tx_inv H. tx_simp Ht. tx_simp H. erewrite set_transfers_alter by done. by apply resolve_ignored.
  - tx_inv H. tx_simp Ht. erewrite set_transfers_alter in H by done. tx_inv H.
    apply lock_active_watch_Ok in Ht as [(-> & [= -> ->] & Hna)|(w & w' & Hw & Ha & Hr & -> & [= -> ->])].
    { tx_simp H. by apply resolve_silent. }
    tx_inv H. unfold tx_lift in Ht. destruct (amount _); simplify_eq. tx_inv H.
    apply insert_event_Ok in Ht as ([= -> -> ->] & Hev & _). tx_simp H. cbn in Hw, Hev.
    by eapply resolve_event.
Qed.

Lemma resolve_leftover_steps chain canon key x env d k d' k' :
  d_transfers d !! key = Some x -> x_status x = Pending ->
  resolve_result chain canon key x env d k d' k' ->
  steps d d' /\ same_targets d d'
  /\ exists st, st ≠ Pending /\ d_transfers d' = <[key := set_transfer_status st x]> (d_transfers d).
Proof.
  intros Hx Hp [_|_ _|w w' tv _ Hw Ha Hr Hev]; cbn.
  - split_and!; [|done|by exists Ignored]. apply rtc_once. by apply step_resolve; [..|left].
  - split_and!; [|done|by exists Orphaned]. apply rtc_once. by apply step_resolve; [..|right].
  - split_and!; [|by apply (same_targets_put d _ w (bump w))|by exists Orphaned].
    apply rtc_once. eapply (step_orphan hist d _ w); eauto using event_row_of.
Qed.

(** The leftovers are distinct rows, each pending until its own turn. *)
Lemma resolve_all_steps chain cs acs ls acc env d k acc' d' k' :
  NoDup ls.*1 -> (forall key x, (key, x) ∈ ls -> d_transfers d !! key = Some x /\ x_status x = Pending) ->
  mfold (resolve_leftover chain cs acs) ls acc env (d, k) = Ok (acc', (d', k')) ->
  steps d d' /\ same_targets d d'
  /\ (forall key, key ∉ ls.*1 -> d_transfers d' !! key = d_transfers d !! key)
  /\ (forall key x, (key, x) ∈ ls -> exists st, st ≠ Pending
        /\ d_transfers d' !! key = Some (set_transfer_status st x)).
Proof.
  revert acc d k. induction ls as [|[key x] ls IH]; intros acc d k Hnd Hls H; cbn [mfold] in H.
  { tx_simp H. split_and!; [done..|]. intros key x Hin. by apply not_elem_of_nil in Hin. }
  apply NoDup_cons in Hnd as [Hkey Hnd]. cbn in Hkey.
  destruct (Hls key x) as [Hx Hp]; [apply list_elem_of_here|].
  tx_inv H. destruct a as [stats1 out1]. apply resolve_leftover_Ok in Ht; [|done].
  apply resolve_leftover_steps in Ht as (Hs1 & Hf1 & st & Hst & Etr); [|done..].
  assert (Hne : forall key', key' ∈ ls.*1 -> key ≠ key') by (intros ? ? ->; done).
  apply IH in H as (Hs2 & Hf2 & Hout & Hin); [|done|].
  - split_and!; [by etrans|by etrans|..].
    + intros key' [? ?]%not_elem_of_cons. rewrite Hout, Etr, lookup_insert_ne; done.
    + intros key' x' [[= -> ->]|Hin']%elem_of_cons; [|by apply Hin].
      exists st. split; [done|]. rewrite Hout, Etr by done. apply lookup_insert_eq.
  - intros key' x' Hin'. rewrite Etr, lookup_insert_ne.
    + apply Hls. by apply list_elem_of_further.
    + apply Hne. apply list_elem_of_fmap. by exists (key', x').
Qed.

Lemma elem_of_leftovers d cid to key x :
  (key, x) ∈ leftovers d cid to <->
  d_transfers d !! key = Some x /\ key.1.1 = cid /\ x_status x = Pending /\ x_block_number x <= to.
Proof.
  clear hist. unfold leftovers, pending_on. rewrite elem_of_sort_by_key, list_elem_of_In, List.filter_In, <- list_elem_of_In.
  rewrite elem_of_map_to_list, !andb_true_iff, bool_decide_eq_true, Z.eqb_eq, Z.leb_le. cbn. tauto.
Qed.

Lemma NoDup_leftovers d cid to : NoDup (leftovers d cid to).*1.
Proof.
  unfold leftovers. rewrite sort_by_key_perm.
  apply NoDup_fmap_filter, NoDup_fst_map_to_list.
Qed.

(** ** Statistics, backfills and the cursor *)

Lemma write_stats_Ok chain stats env d k u d' k' :
  write_stats chain stats env (d, k) = Ok (u, (d', k')) -> exists f, d' = set_stats f d.
Proof.
  intros H. unfold write_stats in H.
  eapply (mfold_Tx_inv _ (fun _ d1 _ => exists f, d1 = set_stats f d)) in H; [exact H| |by exists id; destruct d].
  intros [tok dl] [] d1 k1 [] d2 k2 _ [f ->] Ha. unfold apply_stats in Ha. tx_inv Ha. tx_simp Ht.
  apply Tx_bind_Ok in Ha as (row & [d3 k3] & Hr & Ha). tx_simp Ha.
  assert (d3 = set_stats f d) as ->; [|by exists (fun m => <[(as_i64 (ch_chain_id chain), tok) := row]> (f m))].
  cbn in Hr. destruct (f (d_stats d) !! _) as [s|].
  - tx_inv Hr. tx_simp Hr. unfold tx_lift in Ht. by destruct (numeric_add _ _); simplify_eq.
  - by tx_simp Hr.
Qed.

Lemma set_watches_alter d i f :
  set_watches (alter f i) d = match d_watches d !! i with Some w => put_watch i (f w) d | None => d end.
Proof.
  destruct d as [cu ws ts ob ss n]. unfold put_watch, set_watches. cbn.
  assert (E : alter f i ws = match ws !! i with Some w => <[i := f w]> ws | None => ws end).
  { apply map_eq. intros j. rewrite lookup_alter. destruct (ws !! i) as [w|] eqn:Hw.
    - rewrite lookup_insert. by case_decide.
    - case_decide; subst; [by rewrite Hw|done]. }
  rewrite E. by destruct (ws !! i).
Qed.

Lemma clear_backfills_steps ids d :
  steps d (set_watches (clear_backfills ids) d) /\ same_targets d (set_watches (clear_backfills ids) d).
Proof.
  induction ids as [|i ids [IH1 IH2]]; [by destruct d|].
  change (set_watches (clear_backfills (i :: ids)) d)
    with (set_watches (alter (with_backfill_to None) i) (set_watches (clear_backfills ids) d)).
  rewrite set_watches_alter. destruct (d_watches _ !! i) as [w|] eqn:Hw; [|done]. split.
  - eapply rtc_r; [exact IH1|]. by apply step_backfilled.
  - etrans; [exact IH2|]. by eapply same_targets_put.
Qed.

(** ** The sweep *)

Lemma matched_sweep chain cache logs m :
  m ∈ sweep_matched chain cache logs <->
  exists l, l ∈ logs /\ l_removed l = false /\ match_log chain cache l = Ok m.
Proof.
  unfold sweep_matched. rewrite elem_of_sort_by_key, list_elem_of_omap. split.
  - intros (l & [Hin Hr]%list_elem_of_In%List.filter_In & Hm). exists l. split_and!.
    + by apply list_elem_of_In.
    + by apply negb_true_iff.
    + by destruct (match_log chain cache l); simplify_eq/=.
  - intros (l & Hin & Hr & Hm). exists l. rewrite Hm, list_elem_of_In, List.filter_In, <- list_elem_of_In, Hr. done.
Qed.

Lemma sweep_account_steps chain cache to logs disc env d k out d' k' :
  Inv hist d -> Forall (matched_ok chain d) (sweep_matched chain cache logs) ->
  sweep_account chain cache to logs disc env (d, k) = Ok (out, (d', k')) ->
  steps d d' /\ same_targets d d'.
Proof.
  intros HI Hms H. unfold sweep_account in H. cbv zeta in H.
  apply Tx_bind_Ok in H as (so & [d1 k1] & Hc & H). apply count_all_steps in Hc as [Hs1 Hf1]; [|done..].
  tx_inv H. tx_simp Ht. tx_inv H. apply resolve_all_steps in Ht as (Hs2 & Hf2 & _).
  2:{ apply NoDup_leftovers. }
  2:{ intros key x (? & _ & ? & _)%elem_of_leftovers. done. }
  destruct a as [stats out1]. tx_inv H. apply write_stats_Ok in Ht as [f ->].
  tx_inv H. tx_simp Ht. tx_simp H. split.
  - etrans; [exact Hs1|]. etrans; [exact Hs2|]. eapply rtc_l; [apply step_stats|]. apply rtc_once, step_cursor.
  - etrans; [exact Hf1|]. etrans; [exact Hf2|]. done.
Qed.

(** What the chain's history says of a list of fetched logs: the block hash and the log index of
    each determine what it pays and how much. *)
Definition log_ok (chain : ChainSpec) (l : Log) : Prop :=
  Forall byte_ok (l_data l) /\
  forall token bh li,
    token_by_log_address chain (l_address l) = Some token ->
    l_block_hash l = Some bh -> l_log_index l = Some li ->
    hist (as_i64 (ch_chain_id chain), bh, as_i64 li) =
      Some (as_i64 (ch_chain_id chain), t_address token, from_word (nth 2 (l_topics l) 0),
            base_units token (be_value (l_data l))).

(** Cached references point at rows that watch what their key says. *)
Definition coherent (chain : ChainSpec) (cache : WatchCache) (d : DB) : Prop :=
  forall key ref, cache_get cache key = Some ref ->
    exists w token, d_watches d !! r_id ref = Some w /\ token ∈ ch_tokens chain
      /\ t_idx token = k_token_idx key
      /\ target w = (as_i64 (ch_chain_id chain), t_address token, k_address key).

Lemma coherent_frame chain cache d d' : same_targets d d' -> coherent chain cache d -> coherent chain cache d'.
Proof.
  intros Hf Hc key ref Hg. destruct (Hc key ref Hg) as (w & token & Hw & Ht & Hi & He).
  pose proof (Hf (r_id ref)) as E. rewrite Hw in E. cbn in E.
  apply fmap_Some in E as (w' & Hw' & E). exists w', token. split_and!; congruence.
Qed.

(** A match of a log of the chain through a coherent cache is faithful. *)
Lemma match_log_ok chain `{!SpecOk chain} cache d l m :
  coherent chain cache d -> log_ok chain l -> match_log chain cache l = Ok m -> matched_ok chain d m.
Proof.
  intros Hc [Hb Hl] Hm.
  apply match_log_inv in Hm as (token & Htok & Hget & Hidx & Hto & Hamt & Hnz & _ & _ & Hbh & _ & Hli).
  pose proof Htok as [Hin _]%find_Some_elem.
  pose proof (spec_units token (be_value (l_data l)) Hin) as Hpos.
  destruct (be_value_bound (l_data l)) as [Hv _]; [done|]. specialize (Hpos Hv).
  split; [rewrite Hamt in *; lia|]. intros t Ht.
  destruct (Hc _ _ Hget) as (w & token' & Hw & Hin' & Hi' & Htgt). rewrite Hw in Ht. cbn in Ht. simplify_eq.
  cbn in Hi', Htgt. assert (token' = token) as -> by (apply (spec_idx_inj chain); congruence).
  unfold transfer_key. rewrite (Hl token _ _ Htok Hbh Hli), Htgt, Hto, Hamt. done.
Qed.

Lemma coherent_insert chain cache d key ref w token :
  coherent chain cache d -> d_watches d !! r_id ref = Some w -> token ∈ ch_tokens chain ->
  t_idx token = k_token_idx key -> target w = (as_i64 (ch_chain_id chain), t_address token, k_address key) ->
  coherent chain (cache_insert cache key ref).2 d.
Proof.
  intros Hc Hw Hin Hi Ht key' ref'. rewrite cache_get_insert. case_decide; [|apply Hc].
  intros [= <-]. subst key'. exists w, token. done.
Qed.

Lemma coherent_remove_all chain cache d es :
  coherent chain cache d -> coherent chain (cache_remove_all cache es) d.
Proof. intros Hc key ref Hg. by apply Hc, (cache_get_remove_all_inv _ es). Qed.

(** The entry of a stored row of the chain is coherent with it. *)
Lemma slim_entry_inv chain w key ref :
  slim_entry chain w = Some (key, ref) ->
  exists token, token ∈ ch_tokens chain /\ t_address token = w_token_address w
    /\ t_idx token = k_token_idx key /\ k_address key = w_payment_address w
    /\ r_id ref = w_id w /\ r_seq ref = w_seq w /\ r_start_block ref = as_u64 (w_start_block w).
Proof.
  unfold slim_entry. destruct (token_by_address _ _) as [token|] eqn:Ht; [|done]. intros [= <- <-].
  apply find_Some_elem in Ht as [Hin E%Z.eqb_eq]. eauto 10.
Qed.

Lemma elem_of_select d p w :
  w ∈ select_watches d p <-> p w = true /\ exists i, d_watches d !! i = Some w.
Proof.
  unfold select_watches. rewrite elem_of_sort_by, list_elem_of_In, List.filter_In, <- list_elem_of_In.
  rewrite list_elem_of_fmap. split.
  - intros (([i w'] & -> & Hin) & Hp). apply elem_of_map_to_list in Hin. eauto.
  - intros (Hp & i & Hi). split; [|done]. exists (i, w). by rewrite elem_of_map_to_list.
Qed.

Lemma coherent_insert_row chain cache d i w key ref :
  ids_ok d -> d_watches d !! i = Some w -> w_chain_id w = as_i64 (ch_chain_id chain) ->
  slim_entry chain w = Some (key, ref) ->
  coherent chain cache d -> coherent chain (cache_insert cache key ref).2 d.
Proof.
  intros Hids Hw Hcid (token & Hin & Ha & Hi & Hk & Hr & _)%slim_entry_inv Hc.
  eapply coherent_insert; [done| |done..|].
  - by rewrite Hr, (Hids _ _ Hw).
  - unfold target. congruence.
Qed.

Lemma load_entries_cache cache es : (load_entries cache es).1 = cache_insert_all cache es.
Proof.
  revert cache. induction es as [|[key ref] es IH]; intros cache; [done|].
  cbn [load_entries]. unfold cache_insert_all. cbn [foldl fst snd].
  destruct (cache_insert cache key ref) as [b c]. cbn [snd]. specialize (IH c).
  destruct (load_entries c es) as [c' ks]. done.
Qed.

Lemma coherent_insert_all chain cache d rows :
  ids_ok d ->
  Forall (fun w => d_watches d !! w_id w = Some w /\ w_chain_id w = as_i64 (ch_chain_id chain)) rows ->
  coherent chain cache d -> coherent chain (cache_insert_all cache (omap (slim_entry chain) rows)) d.
Proof.
  intros Hids Hrows. revert cache. induction Hrows as [|w rows [Hw Hcid] _ IH]; intros cache Hc; [done|].
  cbn. destruct (slim_entry chain w) as [[key ref]|] eqn:He; [|by apply IH].
  unfold cache_insert_all. cbn [foldl fst snd]. apply IH. by eapply coherent_insert_row.
Qed.

Lemma select_on_chain d chain p :
  ids_ok d -> (forall w, p w = true -> w_chain_id w = as_i64 (ch_chain_id chain)) ->
  Forall (fun w => d_watches d !! w_id w = Some w /\ w_chain_id w = as_i64 (ch_chain_id chain))
    (select_watches d p).
Proof.
  intros Hids Hp. apply Forall_forall. intros w (Hpw & i & Hi)%elem_of_select.
  rewrite (Hids _ _ Hi). auto.
Qed.

Lemma active_on_chain_true cid w :
  active_on_chain cid w = true <-> w_chain_id w = cid /\ w_status w = Active.
Proof.
  unfold active_on_chain, is_active. by rewrite andb_true_iff, Z.eqb_eq, bool_decide_eq_true.
Qed.

Lemma delta_load_coherent chain cache d n :
  ids_ok d -> coherent chain cache d ->
  coherent chain (load_entries cache (delta_load d chain n)).1 d.
Proof.
  intros Hids Hc. rewrite load_entries_cache. apply coherent_insert_all; [done| |done].
  apply select_on_chain; [done|]. by intros w [[? _]%active_on_chain_true _]%andb_prop.
Qed.

Lemma hydrate_coherent chain cache d :
  ids_ok d -> coherent chain cache d -> coherent chain (cache_insert_all cache (hydrate d chain)) d.
Proof.
  intros Hids Hc. apply coherent_insert_all; [done| |done].
  apply select_on_chain; [done|]. by intros w [? _]%active_on_chain_true.
Qed.

(** The sweep transaction refines the ledger, and the cache it leaves is coherent. *)
Lemma apply_sweep_steps chain `{!SpecOk chain} env d cache c to logs r d' cache' :
  Inv hist d -> coherent chain cache d ->
  Forall (fun l => l_removed l = false -> log_ok chain l) logs ->
  apply_sweep env d chain cache c to logs = (r, d', cache') ->
  steps d d' /\ same_targets d d' /\ coherent chain cache' d'.
Proof.
  intros HI Hc Hl H. unfold apply_sweep in H.
  destruct (cursor d _) as [actual|e]; simplify_eq; [|done].
  destruct (negb _); simplify_eq; [done|].
  pose proof (delta_load_coherent chain cache d (cache_last_seq cache) (ids_ok_of_inv d HI) Hc) as Hc1.
  destruct (load_entries cache _) as [cache1 disc]. cbn in Hc1.
  destruct (run_tx env d _) as [[out|e] d1] eqn:Hrun; simplify_eq.
  2:{ apply run_tx_Err in Hrun as ->. done. }
  apply run_tx_Ok in Hrun as [[k Hrun]|[-> [s Hrun]]]; tx_inv Hrun; tx_simp Hrun.
  apply sweep_account_steps in Ht as [Hs Hf]; [|done|].
  - split_and!; [done..|]. apply coherent_remove_all. by eapply coherent_frame.
  - apply Forall_forall. intros m (l & Hin & Hr & Hm)%matched_sweep.
    rewrite Forall_forall in Hl. eapply match_log_ok; eauto.
Qed.

(** ** Backfills *)

(** A backfill descriptor names a row of the chain. *)
Definition backfill_ok (chain : ChainSpec) (d : DB) (b : PendingBackfill) : Prop :=
  exists w, d_watches d !! b_id b = Some w
    /\ target w = (as_i64 (ch_chain_id chain), b_token_address b, b_payment_address b).

Lemma backfill_scope_coherent chain d bs :
  Forall (backfill_ok chain d) bs -> coherent chain (backfill_scope chain bs).1 d.
Proof.
  intros Hbs. unfold backfill_scope.
  assert (Hg : forall su, coherent chain su.1 d -> coherent chain (foldl (scope_add chain) su bs).1 d);
    [|by apply (Hg (cache_new, ∅))].
  induction Hbs as [|b bs (w & Hw & Htgt) _ IH]; intros [scope until] Hc; [done|].
  cbn [foldl]. apply IH. unfold scope_add. destruct (token_by_address _ _) as [token|] eqn:Ht; [|done].
  apply find_Some_elem in Ht as [Hin E%Z.eqb_eq]. cbn [fst].
  eapply coherent_insert; eauto. cbn. congruence.
Qed.

Lemma matched_backfill chain bs logs m :
  m ∈ backfill_matched chain bs logs ->
  (exists l, l ∈ logs /\ l_removed l = false /\ match_log chain (backfill_scope chain bs).1 l = Ok m)
  /\ exists to, (backfill_scope chain bs).2 !! r_id (m_watch m) = Some to /\ m_block_number m <= to.
Proof.
  unfold backfill_matched. destruct (backfill_scope chain bs) as [scope until]. cbn [fst snd].
  rewrite elem_of_sort_by_key, list_elem_of_In, List.filter_In, <- list_elem_of_In, list_elem_of_omap.
  intros [(l & [Hin Hr]%list_elem_of_In%List.filter_In & Hm) Hu]. split.
  - exists l. split_and!; [by apply list_elem_of_In|by apply negb_true_iff|].
    by destruct (match_log chain scope l); simplify_eq/=.
  - destruct (until !! _) as [to|]; [|done]. exists to. by apply Z.leb_le in Hu.
Qed.

Lemma apply_backfill_steps chain `{!SpecOk chain} env d cache bs logs r d' cache' :
  Inv hist d -> coherent chain cache d -> Forall (backfill_ok chain d) bs ->
  Forall (fun l => l_removed l = false -> log_ok chain l) logs ->
  apply_backfill env d chain cache bs logs = (r, d', cache') ->
  steps d d' /\ same_targets d d' /\ coherent chain cache' d'.
Proof.
  intros HI Hc Hbs Hl H. unfold apply_backfill in H.
  destruct (run_tx env d _) as [[out|e] d1] eqn:Hrun; simplify_eq.
  2:{ apply run_tx_Err in Hrun as ->. done. }
  assert (steps d d' /\ same_targets d d') as [Hs Hf].
  2:{ split_and!; [done..|]. apply coherent_remove_all. by eapply coherent_frame. }
  apply run_tx_Ok in Hrun as [[k Hrun]|[-> _]]; [|done]. unfold apply_backfill_tx in Hrun.
  tx_inv Hrun. destruct a as [stats out1]. apply count_all_steps in Ht as [Hs1 Hf1]; [|done|].
  2:{ apply Forall_forall. intros m [(l & Hin & Hr & Hm) _]%matched_backfill.
      rewrite Forall_forall in Hl. eapply match_log_ok; [done|by apply backfill_scope_coherent|by apply Hl|done]. }
  tx_inv Hrun. tx_simp Ht. tx_inv Hrun. apply write_stats_Ok in Ht as [f ->]. tx_simp Hrun.
  destruct (clear_backfills_steps (b_id <$> bs) d0) as [Hs2 Hf2]. split.
  - etrans; [exact Hs1|]. etrans; [exact Hs2|]. apply rtc_once, step_stats.
  - etrans; [exact Hf1|]. etrans; [exact Hf2|]. done.
Qed.

Lemma pending_backfills_ok chain d limit :
  ids_ok d -> Forall (backfill_ok chain d) (pending_backfills d (ch_chain_id chain) limit).
Proof.
  intros Hids. apply Forall_forall. intros b.
  unfold pending_backfills. rewrite list_elem_of_omap. intros (w & Hin & Hb).
  apply elem_of_take in Hin as (n & Hin & _). apply list_elem_of_lookup_2 in Hin.
  apply elem_of_select in Hin as ([E%Z.eqb_eq _]%andb_prop & i & Hi).
  destruct (w_backfill_to w); simplify_eq/=. exists w. cbn. rewrite (Hids _ _ Hi). split; [done|].
  unfold target. by rewrite E.
Qed.

(** ** Registration *)

Lemma active_on_None d cid tok addr :
  active_on d cid tok addr = None <->
  forall j w, d_watches d !! j = Some w -> w_status w = Active -> target w ≠ (cid, tok, addr).
Proof.
  unfold active_on. split.
  - intros H j w Hj Ha [= E1 E2 E3]. apply List.find_none with (x := w) in H.
    + unfold same_target, is_active in H. rewrite E1, E2, E3, !Z.eqb_refl, bool_decide_true in H by done. done.
    + apply list_elem_of_In, list_elem_of_fmap. exists (j, w). by rewrite elem_of_map_to_list.
  - intros H. destruct (List.find _ _) as [w|] eqn:Hf; [|done].
    apply find_Some_elem in Hf as [Hin Hp]. apply list_elem_of_fmap in Hin as ([j w'] & -> & Hin).
    apply elem_of_map_to_list in Hin. unfold same_target, is_active in Hp. cbn in Hp.
    rewrite !andb_true_iff, bool_decide_eq_true, !Z.eqb_eq in Hp. destruct Hp as ([[E1 E2] E3] & Ha).
    destruct (H j w'); [done..|]. unfold target. congruence.
Qed.

Lemma active_on_Some d cid tok addr w :
  active_on d cid tok addr = Some w ->
  (exists j, d_watches d !! j = Some w) /\ w_status w = Active /\ target w = (cid, tok, addr).
Proof.
  unfold active_on. intros [Hin Hp]%find_Some_elem.
  apply list_elem_of_fmap in Hin as ([j w'] & -> & Hin). apply elem_of_map_to_list in Hin.
  unfold same_target, is_active in Hp. cbn in *. rewrite !andb_true_iff, bool_decide_eq_true, !Z.eqb_eq in Hp.
  destruct Hp as ([[E1 E2] E3] & Ha). unfold target. split_and!; [eauto|done|congruence].
Qed.

Lemma insert_watch_Ok row env d k o s :
  insert_watch row env (d, k) = Ok (o, s) ->
  let r := row (d_watch_seq d + 1) in
  0 < w_threshold r /\
  ((o = None /\ s = (draw_seq d, k) /\
      exists w, active_on d (w_chain_id r) (w_token_address r) (w_payment_address r) = Some w)
   \/ (o = Some r /\ s = (put_watch (w_id r) r (draw_seq d), k) /\ d_watches d !! w_id r = None /\
      active_on d (w_chain_id r) (w_token_address r) (w_payment_address r) = None)).
Proof.
  intros H r. unfold insert_watch in H. fold r in H.
  destruct (Z.leb_spec (w_threshold r) 0); [done|]. split; [lia|].
  change (active_on _ ?a ?b ?c) with (active_on d a b c) in H.
  destruct (active_on d _ _ _) as [w|] eqn:Ha; simplify_eq; [left; eauto|]. right. revert H.
  case_bool_decide as Hp; [done|]. intros [= <- <-]. apply eq_None_not_Some in Hp. done.
Qed.

Lemma tx_cursor_Ok cid env s c s' :
  tx_cursor cid env s = Ok (c, s') -> s' = s /\ cursor s.1 cid = Ok c.
Proof.
  unfold tx_cursor. intros H. destruct s as [d k]. tx_inv H. tx_simp Ht. unfold tx_lift in H. cbn.
  destruct (cursor _ cid); by simplify_eq.
Qed.

(** The row [create_watch] inserts. *)
Definition new_row (env : Env) (d : DB) (new : NewWatch) (cursor : Z) : WatchRow :=
  let start := start_block cursor (n_head_estimate new) (n_lookback_blocks new) in
  mkWatch (e_ids env 0) (d_watch_seq d + 1) (as_i64 (n_chain_id new)) (n_token_address new)
    (n_payment_address new) (n_threshold new) 0 (n_webhook_url new) Active (as_i64 start)
    (as_i64 <$> (if start <=? cursor then Some cursor else None)) 0 (e_now env) None (n_expires_at new).

(** Registration on every branch: the new row, or the active watch that holds the target. *)
Inductive create_result (env : Env) (d : DB) (new : NewWatch) : CreateOutcome -> DB -> Prop :=
  | create_new c w :
      cursor d (n_chain_id new) = Ok c -> 0 < n_threshold new ->
      active_on d (as_i64 (n_chain_id new)) (n_token_address new) (n_payment_address new) = None ->
      d_watches d !! e_ids env 0 = None -> from_row (new_row env d new c) = Ok w ->
      create_result env d new (Created w) (put_watch (e_ids env 0) (new_row env d new c) (draw_seq d))
  | create_existing r w :
      active_on d (as_i64 (n_chain_id new)) (n_token_address new) (n_payment_address new) = Some r ->
      from_row r = Ok w ->
      create_result env d new
        (if (w_threshold r =? n_threshold new) && String.eqb (w_webhook_url r) (n_webhook_url new)
         then Existing w else Conflict w) (draw_seq d).

Lemma create_watch_Ok env d new o d' :
  create_watch env d new = (Ok o, d') -> create_result env d new o d'.
Proof.
  unfold create_watch. intros H. apply run_tx_Ok in H as [[k H]|[-> [s H]]];
    unfold create_watch_tx in H; tx_inv H; apply tx_cursor_Ok in Ht as [[= -> ->] Hc]; cbn in Hc;
    tx_inv H; tx_simp Ht; tx_inv H; tx_simp Ht; tx_inv H; apply insert_watch_Ok in Ht as [Hth Ht];
    cbn in Hth, Ht; destruct Ht as [(-> & [= -> ->] & w & Ha)|(-> & [= -> ->] & Hnew & Ha)];
    apply Tx_bind_Ok in H as (o' & s' & Ho & H); tx_simp H.
  - tx_inv Ho. tx_simp Ht. tx_inv Ho. unfold fetch_one, tx_lift in Ht.
    change (active_on (draw_seq _) ?a ?b ?c) with (active_on d a b c) in Ht. rewrite Ha in Ht. cbn in Ht.
    simplify_eq. tx_inv Ho. tx_simp Ho. unfold tx_lift in Ht. destruct (from_row _) as [r|] eqn:Hr; simplify_eq.
    pose proof (from_row_fields _ _ Hr) as (_ & -> & _ & _ & _ & -> & _).
    eapply create_existing; eauto.
  - tx_inv Ho. tx_simp Ho. unfold tx_lift in Ht. destruct (from_row _) as [r|] eqn:Hr; simplify_eq.
    apply (create_new env d new a); eauto.
Qed.

Lemma create_watch_steps env d new r d' :
  create_watch env d new = (r, d') -> steps d d'.
Proof.
  intros H. destruct r as [o|e]; [|by apply run_tx_Err in H as ->].
  apply create_watch_Ok in H as [c w Hc Hth Ha Hnew _|r w Ha _].
  - apply rtc_once, (step_register hist d (new_row env d new c)); try done. by apply active_on_None.
  - apply rtc_once, step_draw.
Qed.

(** ** Cancellation, expiry and cursors *)

Lemma cancel_watch_steps env d i r d' : cancel_watch env d i = (r, d') -> steps d d' /\ same_targets d d'.
Proof.
  unfold cancel_watch, is_active. destruct (d_watches d !! i) as [w|] eqn:Hw; [|by intros [= <- <-]].
  case_bool_decide as Ha; intros [= <- <-]; [|done].
  split; [|by apply (same_targets_put d i w (with_status Cancelled (e_now env) w))].
  apply rtc_once. by apply (step_cancel hist d i w).
Qed.

Lemma ensure_cursor_steps d cid h c d' : ensure_cursor d cid h = (c, d') -> steps d d' /\ same_targets d d'.
Proof.
  unfold ensure_cursor. destruct (d_cursors d !! _); intros [= <- <-]; [done|].
  split; [|done]. apply rtc_once, step_cursor.
Qed.

Lemma fast_forward_steps d cid tgt r d' :
  fast_forward_cursor d cid tgt = (r, d') -> steps d d' /\ same_targets d d'.
Proof.
  unfold fast_forward_cursor. destruct (cursor d cid) as [c|e]; [|by intros [= <- <-]].
  intros [= <- <-]. destruct (negb _); [|done]. split; [|done]. apply rtc_once, step_cursor.
Qed.

(** The row [expire_watches] leaves. *)
Definition expired (now : Z) (w : WatchRow) : WatchRow := bump (with_status Expired now w).

(** The first statement of [expire_watches]: all the rows at once. *)
Definition put_expired (now : Z) (ps : list (Z * WatchRow)) (d : DB) : DB :=
  foldl (fun d p => put_watch p.1 (expired now p.2) d) d ps.

Lemma put_expired_outbox now ps d : d_outbox (put_expired now ps d) = d_outbox d.
Proof. revert d. induction ps as [|p ps IH]; intros d; [done|]. apply (IH (put_watch _ _ d)). Qed.

Lemma put_expired_event now ps d ev o :
  put_event ev o (put_expired now ps d) = put_expired now ps (put_event ev o d).
Proof. revert d. induction ps as [|p ps IH]; intros d; [done|]. apply (IH (put_watch _ _ d)). Qed.

Lemma expire_rows ids now env acc d k rows d' k' :
  NoDup ids ->
  mfold (fun id acc => o ← update_watch id (fun _ => true)
                             (fun w => with_next_event_seq (w_next_event_seq w + 1) (with_status Expired now w));
                       row ← fetch_one o; mret (acc ++ [row])) ids acc env (d, k) = Ok (rows, (d', k')) ->
  exists ps, ps.*1 = ids /\ rows = acc ++ (expired now <$> ps.*2) /\ d' = put_expired now ps d /\ k' = k
    /\ forall i w, (i, w) ∈ ps -> d_watches d !! i = Some w.
Proof.
  revert acc d k. induction ids as [|i ids IH]; intros acc d k Hnd H; cbn [mfold] in H.
  { tx_simp H. exists []. rewrite app_nil_r. split_and!; try done. intros ? ? []%not_elem_of_nil. }
  apply NoDup_cons in Hnd as [Hi Hnd].
  apply Tx_bind_Ok in H as (acc1 & [d1 k1] & Hb & H). apply IH in H as (ps & E1 & E2 & E3 & E4 & Hps); [|done].
  tx_inv Hb. rewrite update_watch_eq in Ht. destruct (d_watches d !! i) as [w|] eqn:Hw; simplify_eq.
  tx_inv Hb. unfold fetch_one, tx_lift in Ht. cbn in Ht. tx_simp Hb. simplify_eq.
  exists ((i, w) :: ps). cbn. split_and!; [done|by rewrite <- app_assoc|done..|].
  intros j v [[= -> ->]|Hin]%elem_of_cons; [done|]. specialize (Hps j v Hin). cbn in Hps.
  rewrite lookup_insert_ne in Hps; [done|]. intros ->. apply Hi, list_elem_of_fmap. by exists (j, v).
Qed.

Lemma expire_events chain now ps env acc d k l D' k' :
  NoDup ps.*1 ->
  (forall i w, (i, w) ∈ ps -> d_watches d !! i = Some w /\ w_status w = Active) ->
  mfold (fun row acc => watch ← tx_lift (from_row row);
                        _ ← insert_event chain watch WatchExpired None; mret (acc ++ [watch]))
    (expired now <$> ps.*2) acc env (put_expired now ps d, k) = Ok (l, (D', k')) ->
  steps d D' /\ same_targets d D'.
Proof.
  revert acc d k. induction ps as [|[i w] ps IH]; intros acc d k Hnd Hps H; cbn [mfold fmap list_fmap] in H.
  { tx_simp H. done. }
  apply NoDup_fmap_cons in Hnd as [Hi Hnd]. destruct (Hps i w) as [Hw Ha]; [apply list_elem_of_here|].
  apply Tx_bind_Ok in H as (acc1 & [d1 k1] & Hb & H).
  tx_inv Hb. unfold tx_lift in Ht. cbn in Ht. destruct (from_row _) as [w'|] eqn:Hr; simplify_eq.
  tx_inv Hb. apply insert_event_Ok in Ht as ([= -> -> ->] & Hev & _). tx_simp Hb.
  change (set_outbox (<[?e := ?o]>) ?x) with (put_event e o x) in H.
  change (foldl _ ?x ps) with (put_expired now ps x) in H, Hev.
  rewrite put_expired_event in H. rewrite put_expired_outbox in Hev.
  apply IH in H as [Hs Hf]; [|done|].
  - split.
    + eapply rtc_l; [|exact Hs]. eapply step_expire; eauto using event_row_of.
    + etrans; [|exact Hf]. by apply (same_targets_put d i w (expired now w)).
  - intros j v Hin. cbn. rewrite lookup_insert_ne; [apply Hps; by apply list_elem_of_further|].
    intros ->. by apply (Hi (j, v)).
Qed.

Lemma overdue_ids_ok d cid now limit :
  ids_ok d ->
  NoDup (overdue_ids d cid now limit)
  /\ forall i, i ∈ overdue_ids d cid now limit -> exists w, d_watches d !! i = Some w /\ w_status w = Active
       /\ w_chain_id w = cid /\ exists t, w_expires_at w = Some t /\ t <= now.
Proof.
  intros Hids. unfold overdue_ids.
  set (rows := List.filter (overdue cid now) ((map_to_list (d_watches d)).*2)).
  assert (Hrows : forall w, w ∈ rows -> d_watches d !! w_id w = Some w /\ overdue cid now w = true).
  { intros w [Hin Hp]%list_elem_of_In%List.filter_In. split; [|done].
    apply list_elem_of_In, list_elem_of_fmap in Hin as ([i w'] & -> & Hin).
    apply elem_of_map_to_list in Hin. cbn in *. by rewrite (Hids _ _ Hin). }
  split.
  - rewrite fmap_take. eapply sublist_NoDup; [|apply sublist_take]. rewrite sort_by_perm.
    apply NoDup_fmap_filter. rewrite <- list_fmap_compose.
    replace ((w_id ∘ snd) <$> map_to_list (d_watches d)) with ((map_to_list (d_watches d)).*1).
    + apply NoDup_fst_map_to_list.
    + apply list_fmap_ext. intros n [i w] Hn%list_elem_of_lookup_2%elem_of_map_to_list. cbn. by rewrite (Hids _ _ Hn).
  - intros i (w & -> & Hin)%list_elem_of_fmap. apply elem_of_take in Hin as (n & Hin & _).
    apply list_elem_of_lookup_2 in Hin. rewrite elem_of_sort_by in Hin. apply Hrows in Hin as [Hw Hp].
    exists w. unfold overdue, is_active in Hp. rewrite !andb_true_iff, bool_decide_eq_true, Z.eqb_eq in Hp.
    destruct Hp as [[? ?] Ht]. split_and!; [done..|]. destruct (w_expires_at w) as [t|]; [|done].
    exists t. split; [done|]. by apply Z.leb_le.
Qed.

Lemma expire_watches_steps env d chain limit r d' :
  ids_ok d -> expire_watches env d chain limit = (r, d') -> steps d d' /\ same_targets d d'.
Proof.
  intros Hids H. destruct r as [l|e]; [|by apply run_tx_Err in H as ->].
  apply run_tx_Ok in H as [[k H]|[-> _]]; [|done]. unfold expire_watches_tx in H.
  tx_inv H. tx_simp Ht. tx_inv H. tx_simp Ht. tx_inv H.
  destruct (overdue_ids_ok d (as_i64 (ch_chain_id chain)) (e_now env) limit Hids) as [Hnd Hov].
  apply expire_rows in Ht as (ps & Eps & -> & -> & -> & Hps); [|done].
  tx_inv H. tx_simp H. eapply expire_events; [by rewrite Eps| |exact Ht].
  intros i w Hin. specialize (Hps i w Hin). split; [done|].
  destruct (Hov i) as (w' & Hw' & Ha & _); [|congruence].
  rewrite <- Eps. apply list_elem_of_fmap. by exists (i, w).
Qed.
End refinement.
