(* ===== verification/SweepSpec.v ===== *)
(** * SweepSpec: what a sweep accounts for

    The contract of [apply_sweep] and [apply_backfill]: an abstract account of the amounts a chunk
    brings, that the transactions compute exactly that account, that a payment to a watched address
    in a swept block is never passed over, and that replays and lost races change nothing. *)

From S2P Require Import Prelude Config Registry Cache Matcher Events Store Sweep TxSpec Ledger.
From S2P Require Import LedgerTx.

(** ** The abstract account *)

(** Adding one amount to a watch: only an active watch takes it, and the amount that reaches the
    threshold completes it. *)
Definition account_add (threshold : Z) (s : Z * WatchStatus) (amt : Z) : Z * WatchStatus :=
  match s with
  | (c, Active) => (c + amt, if threshold <=? c + amt then Completed else Active)
  | _ => s
  end.
Definition account (threshold : Z) (s : Z * WatchStatus) (amts : list Z) : Z * WatchStatus :=
  foldl (account_add threshold) s amts.

Arguments account : simpl never.

(** The account of a stored row. *)
Definition row_account (w : WatchRow) : Z * WatchStatus := (w_confirmed_amount w, w_status w).

(** The amounts of a chunk that are new for watch [i], in the order they are counted. *)
Definition fresh_amounts (chain : ChainSpec) (d : DB) (ms : list MatchedTransfer) (i : Z) : list Z :=
  m_amount <$> List.filter (fun m => bool_decide (r_id (m_watch m) = i)
    && bool_decide (countable (d_transfers d !! transfer_key chain m))) ms.

(** The row's account after some amounts. *)
Definition accounted (amts : list Z) (w : WatchRow) : Z * (Z * WatchStatus) :=
  (w_threshold w, account (w_threshold w) (row_account w) amts).

Lemma account_inactive th s amts : s.2 ≠ Active -> account th s amts = s.
Proof.
  unfold account. induction amts as [|a amts IH]; intros Hs; [done|]. cbn.
  assert (E : account_add th s a = s) by (destruct s as [c []]; done). rewrite E. auto.
Qed.

Lemma count_ids_ok chain m env d k st out st' out' d' k' :
  count_result chain m env d k st out st' out' d' k' -> ids_ok d -> ids_ok d'.
Proof.
  intros H Hids. destruct H as [_|w w1 Hw _ _ _ _ _ _|w w1 w2 Hw _ _ _ _ _ _ _ _ _ _]; [done|..];
    intros i v; cbn; intros [[<- <-]|[_ Hv]]%lookup_insert_Some; cbn; eauto.
Qed.

(** Counting [m] adds its amount to the account of its watch if it is fresh, and nothing else. *)
Lemma count_account chain m env d k st out st' out' d' k' i :
  count_result chain m env d k st out st' out' d' k' ->
  accounted [] <$> d_watches d' !! i =
  accounted (fresh_amounts chain d [m] i) <$> d_watches d !! i.
Proof.
  intros H. unfold fresh_amounts, accounted. cbn [List.filter].
  destruct H as [Hskip|w w1 Hw Ha Hc _ Hth _ _|w w1 w2 Hw Ha Hc _ _ Hth _ _ _ _ _]; cbn.
  - case_bool_decide as Ei; cbn; [|done]. case_bool_decide as Hc; cbn; [|done].
    destruct (d_watches d !! i) as [w|] eqn:Hw; [|done]. cbn. do 2 f_equal. subst i.
    destruct (decide (w_status w = Active)) as [Ha|Hn]; [by destruct (Hskip w)|].
    by rewrite !account_inactive.
  - rewrite (bool_decide_true (countable _)) by done. rewrite andb_true_r. case_bool_decide as Ei.
    + subst i. rewrite lookup_insert_eq, Hw. cbn. unfold row_account, account. cbn. rewrite Ha. cbn.
      replace (w_threshold w <=? w_confirmed_amount w + m_amount m) with false by (symmetry; by apply Z.leb_gt).
      done.
    + by rewrite lookup_insert_ne.
  - rewrite (bool_decide_true (countable _)) by done. rewrite andb_true_r. case_bool_decide as Ei.
    + subst i. rewrite lookup_insert_eq, Hw. cbn. unfold row_account, account. cbn. rewrite Ha. cbn.
      replace (w_threshold w <=? w_confirmed_amount w + m_amount m) with true by (symmetry; by apply Z.leb_le).
      done.
    + by rewrite lookup_insert_ne.
Qed.

(** Counting touches no transfer but its own. *)
Lemma count_transfers chain m env d k st out st' out' d' k' key :
  count_result chain m env d k st out st' out' d' k' -> key ≠ transfer_key chain m ->
  d_transfers d' !! key = d_transfers d !! key.
Proof. intros H Hne. destruct H; [done|..]; cbn; by rewrite lookup_insert_ne. Qed.

Lemma accounted_app amts1 amts2 th s :
  account th s (amts1 ++ amts2) = account th (account th s amts1) amts2.
Proof. unfold account. apply foldl_app. Qed.

(** The loop computes the abstract account of every watch. *)
Lemma count_all_account chain ms env acc d k acc' d' k' i :
  ids_ok d -> NoDup (transfer_key chain <$> ms) ->
  mfold (count_confirmed chain) ms acc env (d, k) = Ok (acc', (d', k')) ->
  accounted [] <$> d_watches d' !! i = accounted (fresh_amounts chain d ms i) <$> d_watches d !! i.
Proof.
  revert acc d k. induction ms as [|m ms IH]; intros acc d k Hids Hnd H; cbn [mfold] in H.
  { by tx_simp H. }
  apply NoDup_fmap_cons in Hnd as [Hne Hnd]. tx_inv H. apply count_confirmed_Ok in Ht; [|done].
  rewrite (IH _ _ _ (count_ids_ok _ _ _ _ _ _ _ _ _ _ _ Ht Hids) Hnd H).
  assert (E : fresh_amounts chain d0 ms i = fresh_amounts chain d ms i).
  { unfold fresh_amounts. f_equal. clear - Hne Ht. induction ms as [|m' ms IH]; [done|]. cbn.
    rewrite (count_transfers _ _ _ _ _ _ _ _ _ _ _ (transfer_key chain m') Ht).
    - rewrite IH; [done|]. intros y Hy. apply Hne. by apply list_elem_of_further.
    - apply Hne. apply list_elem_of_here. }
  rewrite E. pose proof (count_account _ _ _ _ _ _ _ _ _ _ _ i Ht) as Ha.
  assert (Eapp : fresh_amounts chain d (m :: ms) i = fresh_amounts chain d [m] i ++ fresh_amounts chain d ms i).
  { unfold fresh_amounts. rewrite <- fmap_app. f_equal. cbn. by destruct (_ && _). }
  rewrite Eapp. destruct (d_watches d !! i) as [w|], (d_watches d0 !! i) as [w0|]; cbn in *; try done.
  unfold accounted in *. cbn in Ha. injection Ha as Hth Hrow. rewrite accounted_app.
  rewrite <- Hrow, Hth. done.
Qed.

(** ** Settled transfers *)

(** Nothing is left to count for [m]: its watch is retired, or the transfer is stored and resolved. *)
Definition settled (chain : ChainSpec) (d : DB) (m : MatchedTransfer) : Prop :=
  (forall w, d_watches d !! r_id (m_watch m) = Some w -> w_status w ≠ Active)
  \/ ~ countable (d_transfers d !! transfer_key chain m).

(** The ways a transaction may move rows without unsettling anything: watches do not become active
    again, and stored transfers do not become countable again. *)
Record keeps_settled (d d' : DB) : Prop := {
  ks_watch : forall i w', d_watches d' !! i = Some w' ->
    exists w, d_watches d !! i = Some w /\ same_watch w w' /\ (w_status w' = Active -> w_status w = Active);
  ks_transfer : forall key, ~ countable (d_transfers d !! key) -> ~ countable (d_transfers d' !! key);
}.

#[global] Instance keeps_settled_preorder : PreOrder keeps_settled.
Proof.
  split; [split; [|done]; intros i w Hw; exists w; done|]. intros d1 d2 d3 [W1 T1] [W2 T2]. split; [|auto].
  intros i w Hw. destruct (W2 _ _ Hw) as (w2 & Hw2 & S2 & A2). destruct (W1 _ _ Hw2) as (w1 & Hw1 & S1 & A1).
  exists w1. split_and!; [done| |auto]. unfold same_watch in *. intuition congruence.
Qed.

Lemma settled_keeps chain d d' m : keeps_settled d d' -> settled chain d m -> settled chain d' m.
Proof.
  intros [W T] [Hw|Ht]; [left|right; auto]. intros w' Hw' Ha.
  destruct (W _ _ Hw') as (w & Hw0 & _ & Ha0). apply (Hw w); auto.
Qed.

Lemma keeps_settled_put d d' i w w' :
  d_watches d' = <[i := w']> (d_watches d) -> d_watches d !! i = Some w ->
  same_watch w w' -> (w_status w' = Active -> w_status w = Active) ->
  (forall key, ~ countable (d_transfers d !! key) -> ~ countable (d_transfers d' !! key)) ->
  keeps_settled d d'.
Proof.
  intros E Hi Hs Ha Ht. split; [|done]. intros j v. rewrite E.
  intros [[<- <-]|[_ Hv]]%lookup_insert_Some; [by exists w|by exists v].
Qed.

Lemma not_countable_insert (ts : gmap TransferKey TransferRec) key x key' :
  x_status x ≠ Pending -> ~ countable (ts !! key') -> ~ countable (<[key := x]> ts !! key').
Proof. intros Hx H. rewrite lookup_insert. case_decide; [by cbn|done]. Qed.

Lemma confirmed_rec_status env m wid old : x_status (confirmed_rec env m wid old) = Confirmed.
Proof. by destruct old. Qed.

Lemma count_settles chain m env d k st out st' out' d' k' :
  count_result chain m env d k st out st' out' d' k' -> settled chain d' m /\ keeps_settled d d'.
Proof.
  intros [Hskip|w w1 Hw Ha Hc _ _ _ _|w w1 w2 Hw Ha Hc _ _ _ _ _ _ _ _].
  - split; [|done]. unfold settled.
    destruct (decide (countable (d_transfers d !! transfer_key chain m))) as [Hc|Hc]; [left|by right].
    intros w Hw Ha. by apply (Hskip w).
  - split.
    + right. cbn. rewrite lookup_insert_eq. cbn. by rewrite confirmed_rec_status.
    + eapply keeps_settled_put; [done..|]. intros key. cbn. apply not_countable_insert.
      by rewrite confirmed_rec_status.
  - split.
    + right. cbn. rewrite lookup_insert_eq. cbn. by rewrite confirmed_rec_status.
    + eapply keeps_settled_put; [done..|]. intros key. cbn. apply not_countable_insert.
      by rewrite confirmed_rec_status.
Qed.

Lemma count_all_settles chain ms env acc d k acc' d' k' :
  ids_ok d -> mfold (count_confirmed chain) ms acc env (d, k) = Ok (acc', (d', k')) ->
  (forall m, m ∈ ms -> settled chain d' m) /\ keeps_settled d d' /\ ids_ok d'.
Proof.
  revert acc d k. induction ms as [|m ms IH]; intros acc d k Hids H; cbn [mfold] in H.
  { tx_simp H. split_and!; [|done..]. by intros m ?%not_elem_of_nil. }
  tx_inv H. apply count_confirmed_Ok in Ht; [|done].
  pose proof (count_settles _ _ _ _ _ _ _ _ _ _ _ Ht) as [Hset Hk].
  apply IH in H as (Hall & Hk' & Hids'); [|by eapply count_ids_ok].
  split_and!; [|by etrans|done]. intros m' [->|Hin]%elem_of_cons; [|by apply Hall].
  by eapply settled_keeps.
Qed.

(** No watch disappears. *)
Lemma count_all_domain chain ms env acc d k acc' d' k' i :
  ids_ok d -> mfold (count_confirmed chain) ms acc env (d, k) = Ok (acc', (d', k')) ->
  is_Some (d_watches d !! i) -> is_Some (d_watches d' !! i).
Proof.
  revert acc d k. induction ms as [|m ms IH]; intros acc d k Hids H Hi; cbn [mfold] in H; [by tx_simp H|].
  tx_inv H. apply count_confirmed_Ok in Ht; [|done].
  apply (IH _ _ _ (count_ids_ok _ _ _ _ _ _ _ _ _ _ _ Ht Hids) H).
  destruct Ht; [done|..]; cbn; (destruct (decide (r_id (m_watch m) = i)) as [<-|];
    [by rewrite lookup_insert_eq|by rewrite lookup_insert_ne]).
Qed.

(** Resolving a leftover: statuses only, and at most a sequence number of the watch. *)
Lemma resolve_frame chain cs acs kx acc env d k acc' d' k' :
  resolve_leftover chain cs acs kx acc env (d, k) = Ok (acc', (d', k')) ->
  (forall i, accounted [] <$> d_watches d' !! i = accounted [] <$> d_watches d !! i)
  /\ keeps_settled d d' /\ d_cursors d' = d_cursors d.
Proof.
  destruct acc as [stats out], kx as [key x]. intros H. unfold resolve_leftover in H. cbv zeta in H.
  assert (Hk : forall st, st ≠ Pending -> keeps_settled d (set_transfers (alter (set_transfer_status st) key) d)).
  { intros st Hst. split; [intros i w Hw; by exists w|]. intros key' Hc. cbn. rewrite lookup_alter.
    destruct (decide (key = key')) as [->|]; [|done]. destruct (d_transfers d !! key'); cbn in *; [done|tauto]. }
  destruct (_ || _).
  - tx_inv H. tx_simp Ht. tx_simp H. split_and!; [done|by apply Hk|done].
  - tx_inv H. tx_simp Ht. tx_inv H.
    apply lock_active_watch_Ok in Ht as [(-> & [= -> ->] & _)|(w & w' & Hw & Ha & Hr & -> & [= -> ->])].
    { tx_simp H. split_and!; [done|by apply Hk|done]. }
    tx_inv H. unfold tx_lift in Ht. destruct (amount _); simplify_eq. tx_inv H.
    apply insert_event_Ok in Ht as ([= -> -> ->] & _). tx_simp H. cbn in Hw |- *. split_and!; [|..|done].
    + intros i. destruct (decide (x_watch_id x = i)) as [<-|E];
        [by rewrite lookup_insert_eq, Hw|by rewrite lookup_insert_ne].
    + etrans; [by apply (Hk Orphaned)|]. eapply keeps_settled_put; [done..|]. done.
Qed.

Lemma resolve_all_frame chain cs acs ls acc env d k acc' d' k' :
  mfold (resolve_leftover chain cs acs) ls acc env (d, k) = Ok (acc', (d', k')) ->
  (forall i, accounted [] <$> d_watches d' !! i = accounted [] <$> d_watches d !! i)
  /\ keeps_settled d d' /\ d_cursors d' = d_cursors d.
Proof.
  intros H. eapply (mfold_Tx_inv _ (fun _ d1 _ =>
    (forall i, accounted [] <$> d_watches d1 !! i = accounted [] <$> d_watches d !! i)
    /\ keeps_settled d d1 /\ d_cursors d1 = d_cursors d)) in H; [exact H| |done].
  intros kx a d1 k1 a' d2 k2 _ (H1 & H2 & H3) Hr. apply resolve_frame in Hr as (R1 & R2 & R3).
  split_and!; [|by etrans|congruence]. intros i. by rewrite R1, H1.
Qed.

(** ** Confirmed stays confirmed *)

Lemma count_confirmed_at chain m env d k st out st' out' d' k' key :
  count_result chain m env d k st out st' out' d' k' ->
  (confirmed_at d key -> confirmed_at d' key)
  /\ (countable (d_transfers d !! key) -> countable (d_transfers d' !! key) \/ confirmed_at d' key).
Proof.
  intros H. destruct (decide (key = transfer_key chain m)) as [->|Hne].
  2:{ unfold confirmed_at. by rewrite (count_transfers _ _ _ _ _ _ _ _ _ _ _ _ H Hne); auto. }
  destruct H as [_|w w1 _ _ Hc _ _ _ _|w w1 w2 _ _ Hc _ _ _ _ _ _ _ _]; [by auto|..];
    (assert (confirmed_at (put_transfer (transfer_key chain m)
       (confirmed_rec env m (w_id w) (d_transfers d !! transfer_key chain m)) d) (transfer_key chain m)) as Hx;
     [eexists; cbn; rewrite lookup_insert_eq; by rewrite confirmed_rec_status|]); split; intros _; [|right| |right]; exact Hx.
Qed.

(** A fresh transfer to a watch that is active at the end has been confirmed. *)
Lemma count_all_confirms chain ms env acc d k acc' d' k' m w' :
  ids_ok d -> mfold (count_confirmed chain) ms acc env (d, k) = Ok (acc', (d', k')) ->
  (countable (d_transfers d !! transfer_key chain m) /\ m ∈ ms) \/ confirmed_at d (transfer_key chain m) ->
  d_watches d' !! r_id (m_watch m) = Some w' -> w_status w' = Active ->
  confirmed_at d' (transfer_key chain m).
Proof.
  revert acc d k. induction ms as [|m0 ms IH]; intros acc d k Hids H Hc Hw' Ha'; cbn [mfold] in H.
  { tx_simp H. destruct Hc as [[_ []%not_elem_of_nil]|Hc]; done. }
  tx_inv H. apply count_confirmed_Ok in Ht; [|done].
  pose proof (count_ids_ok _ _ _ _ _ _ _ _ _ _ _ Ht Hids) as Hids0.
  pose proof (count_all_settles _ _ _ _ _ _ _ _ _ Hids0 H) as (_ & Hk & _).
  destruct (count_confirmed_at _ _ _ _ _ _ _ _ _ _ _ (transfer_key chain m) Ht) as [Hkeep Hfresh].
  eapply IH; eauto. destruct Hc as [[Hc Hin]|Hc]; [|by right; apply Hkeep].
  destruct (Hfresh Hc) as [Hc0|Hc0]; [|by right]. apply elem_of_cons in Hin as [->|Hin]; [|by left].
  destruct (ks_watch _ _ Hk _ _ Hw') as (w0 & Hw0 & _ & Ha0). specialize (Ha0 Ha').
  pose proof (count_settles _ _ _ _ _ _ _ _ _ _ _ Ht) as [[Hs|Hs] _]; [by destruct (Hs w0)|done].
Qed.

(** ** The sweep transaction, phase by phase *)

Lemma sweep_account_Ok chain cache to logs disc env d k out d' k' :
  sweep_account chain cache to logs disc env (d, k) = Ok (out, (d', k')) ->
  exists so d1 k1 so2 d2 k2 f,
    mfold (count_confirmed chain) (sweep_matched chain cache logs)
      (∅, out_set_discovered disc outcome_default) env (d, k) = Ok (so, (d1, k1))
    /\ mfold (resolve_leftover chain (canonical_set (sweep_matched chain cache logs)) (all_canonical_set logs))
         (leftovers d1 (as_i64 (ch_chain_id chain)) (as_i64 to)) so env (d1, k1) = Ok (so2, (d2, k2))
    /\ d' = set_cursors (<[as_i64 (ch_chain_id chain) := as_i64 to]>) (set_stats f d2).
Proof.
  intros H. unfold sweep_account in H. cbv zeta in H.
  apply Tx_bind_Ok in H as (so & [d1 k1] & Hc & H). tx_inv H. tx_simp Ht.
  apply Tx_bind_Ok in H as (so2 & [d2 k2] & Hr & H). destruct so2 as [stats out2].
  tx_inv H. apply write_stats_Ok in Ht as [f ->]. tx_inv H. tx_simp Ht. tx_simp H.
  by eexists so, _, _, _, _, _, f.
Qed.

(** An applied sweep ran its accounting on the cache after the delta load. *)
Lemma apply_sweep_Applied chain env d cache c to logs out d' cache' :
  apply_sweep env d chain cache c to logs = (Ok (Applied out), d', cache') ->
  let cache1 := cache_insert_all cache (delta_load d chain (cache_last_seq cache)) in
  cursor d (ch_chain_id chain) = Ok c
  /\ exists disc k, sweep_account chain cache1 to logs disc env (d, 0%nat) = Ok (out, (d', k))
  /\ cache' = cache_remove_all cache1 (out_completed out).
Proof.
  intros H cache1. unfold apply_sweep in H. destruct (cursor d _) as [actual|e]; [|done].
  destruct (actual =? c) eqn:E; [|done]. apply Z.eqb_eq in E. subst c. cbn [negb] in H. split; [done|].
  pose proof (load_entries_cache cache (delta_load d chain (cache_last_seq cache))) as El.
  destruct (load_entries cache _) as [cache2 disc]. cbn in El. subst cache2.
  destruct (run_tx env d _) as [[o|e] d1] eqn:Hrun; [|done]. simplify_eq.
  exists disc. apply run_tx_Ok in Hrun as [[k Hrun]|[_ [s Hrun]]]; tx_inv Hrun; tx_simp Hrun. eauto.
Qed.

Lemma leftovers_resolved chain cs acs cid to acc env d k acc' d' k' :
  mfold (resolve_leftover chain cs acs) (leftovers d cid to) acc env (d, k) = Ok (acc', (d', k')) ->
  (forall key x, d_transfers d' !! key = Some x -> key.1.1 = cid -> x_block_number x <= to -> x_status x ≠ Pending)
  /\ (forall key, confirmed_at d key -> confirmed_at d' key).
Proof.
  intros H. apply (resolve_all_steps (fun _ => None)) in H as (_ & _ & Hout & Hin).
  2:{ apply NoDup_leftovers. }
  2:{ intros key x (? & _ & ? & _)%elem_of_leftovers. done. }
  assert (Hold : forall key, key ∉ (leftovers d cid to).*1 ->
    forall x, d_transfers d !! key = Some x -> key.1.1 = cid -> x_block_number x <= to -> x_status x ≠ Pending).
  { intros key Hni x Hx Hcid Hto Hp. apply Hni, list_elem_of_fmap. exists (key, x).
    split; [done|]. by apply elem_of_leftovers. }
  split.
  - intros key x Hx Hcid Hto Hp. destruct (decide (key ∈ (leftovers d cid to).*1)) as [Hk|Hk].
    + apply list_elem_of_fmap in Hk as ([key' x0] & -> & Hk). destruct (Hin _ _ Hk) as (st & Hst & E).
      cbn in Hx. rewrite E in Hx. simplify_eq.
    + rewrite (Hout _ Hk) in Hx. by eapply Hold.
  - intros key (x & Hx & Hc). exists x. split; [|done]. rewrite Hout; [done|].
    intros ([key' x0] & -> & Hk)%list_elem_of_fmap. apply elem_of_leftovers in Hk as (E & _ & Hp & _).
    cbn in Hx. congruence.
Qed.

(** ** The cache a sweep matches with *)

(** Every active watch of the chain the cache should know by its counter is in it, except where
    [skip] says otherwise. *)
Definition covers_but (skip : Z -> Prop) (chain : ChainSpec) (cache : WatchCache) (d : DB) : Prop :=
  forall i w key ref, d_watches d !! i = Some w -> active_on_chain (as_i64 (ch_chain_id chain)) w = true ->
    slim_entry chain w = Some (key, ref) -> w_seq w <= cache_last_seq cache -> ~ skip i -> cache_get cache key = Some ref.

(** Every active watch of the chain is in the cache, except where [skip] says otherwise. *)
Definition complete_but (skip : Z -> Prop) (chain : ChainSpec) (cache : WatchCache) (d : DB) : Prop :=
  forall i w key ref, d_watches d !! i = Some w -> active_on_chain (as_i64 (ch_chain_id chain)) w = true ->
    slim_entry chain w = Some (key, ref) -> ~ skip i -> cache_get cache key = Some ref.

Definition no_watch (i : Z) : Prop := False.
Abbreviation covers := (covers_but no_watch).
Abbreviation complete := (complete_but no_watch).

Section cache.
Context (chain : ChainSpec) `{!SpecOk chain} (d : DB) (Hok : watches_ok (d_watches d) (d_watch_seq d)).

(** Two active watches with one cache key are one watch. *)
Lemma slim_entry_inj i j w w' key ref ref' :
  d_watches d !! i = Some w -> d_watches d !! j = Some w' ->
  active_on_chain (as_i64 (ch_chain_id chain)) w = true ->
  active_on_chain (as_i64 (ch_chain_id chain)) w' = true ->
  slim_entry chain w = Some (key, ref) -> slim_entry chain w' = Some (key, ref') -> i = j.
Proof.
  intros Hi Hj [Hc Ha]%active_on_chain_true [Hc' Ha']%active_on_chain_true
    (t & Hin & E1 & E2 & E3 & _)%slim_entry_inv (t' & Hin' & E1' & E2' & E3' & _)%slim_entry_inv.
  eapply (wo_unique _ _ Hok); eauto. assert (t = t') as -> by (apply (spec_idx_inj chain); congruence).
  unfold target. congruence.
Qed.

Lemma elem_of_delta_load n key ref :
  (key, ref) ∈ delta_load d chain n <->
  exists i w, d_watches d !! i = Some w /\ active_on_chain (as_i64 (ch_chain_id chain)) w = true
    /\ n < w_seq w /\ slim_entry chain w = Some (key, ref).
Proof.
  unfold delta_load. rewrite list_elem_of_omap. split.
  - intros (w & ([Ha Hs%Z.ltb_lt]%andb_prop & i & Hi)%elem_of_select & He). eauto 10.
  - intros (i & w & Hi & Ha & Hs & He). exists w. split; [|done]. apply elem_of_select.
    rewrite andb_true_iff, Z.ltb_lt. eauto.
Qed.

Lemma NoDup_select p : NoDup (select_watches d p).
Proof.
  unfold select_watches. rewrite sort_by_perm. apply (NoDup_fmap_1 w_id).
  apply NoDup_fmap_filter. rewrite <- list_fmap_compose.
  replace ((w_id ∘ snd) <$> map_to_list (d_watches d)) with ((map_to_list (d_watches d)).*1).
  - apply NoDup_fst_map_to_list.
  - apply list_fmap_ext. intros n [i w] Hn%list_elem_of_lookup_2%elem_of_map_to_list. cbn.
    by rewrite (wo_id _ _ Hok _ _ Hn).
Qed.

Lemma NoDup_delta_load n : NoDup (delta_load d chain n).*1.
Proof.
  unfold delta_load. apply NoDup_omap_fst; [apply NoDup_select|].
  intros w w' key ref ref' ([Ha _]%andb_prop & i & Hi)%elem_of_select
    ([Ha' _]%andb_prop & j & Hj)%elem_of_select He He'.
  assert (i = j) as <- by (by eapply slim_entry_inj). congruence.
Qed.

(** The in-transaction delta load completes a cache that covers what it counted. *)
Lemma delta_load_complete skip cache :
  covers_but skip chain cache d ->
  complete_but skip chain (cache_insert_all cache (delta_load d chain (cache_last_seq cache))) d.
Proof.
  intros Hcov i w key ref Hi Ha He Hk. destruct (decide (w_seq w <= cache_last_seq cache)) as [Hle|Hgt].
  - rewrite cache_insert_all_other; [by eapply Hcov|].
    intros ([key' ref'] & -> & (j & w' & Hj & Ha' & Hs & He')%elem_of_delta_load)%list_elem_of_fmap.
    cbn in He. assert (i = j) as <- by (by eapply slim_entry_inj). simplify_eq. lia.
  - apply cache_insert_all_NoDup; [apply NoDup_delta_load|]. apply elem_of_delta_load.
    exists i, w. split_and!; [done..|lia|done].
Qed.
End cache.

(** After a sweep a payment in its chunk is confirmed, or its watch retired, or it was settled before. *)
Lemma sweep_settles_payment (skip : Z -> Prop) (chain : ChainSpec) `{!SpecOk chain} (env : Env) (d : DB) (cache : WatchCache)
    (c to : Z) (logs : list Log) (out : SweepOutcome) (d' : DB) (cache' : WatchCache)
    (i : Z) (w : WatchRow) (key : WatchKey) (ref : WatchRef) (l : Log) (m : MatchedTransfer) :
  watches_ok (d_watches d) (d_watch_seq d) -> covers_but skip chain cache d -> ~ skip i ->
  apply_sweep env d chain cache c to logs = (Ok (Applied out), d', cache') ->
  d_watches d !! i = Some w -> active_on_chain (as_i64 (ch_chain_id chain)) w = true ->
  slim_entry chain w = Some (key, ref) ->
  l ∈ logs -> l_removed l = false -> match_log chain (cache_insert cache_new key ref).2 l = Ok m ->
  ~ countable (d_transfers d !! transfer_key chain m)
  \/ confirmed_at d' (transfer_key chain m)
  \/ exists w', d_watches d' !! i = Some w' /\ w_status w' ≠ Active.
Proof.
  intros Hok Hcov Hk H Hi Ha He Hl Hrem Hm.
  assert (Hids : ids_ok d) by (intros j v; apply (wo_id _ _ Hok)).
  apply apply_sweep_Applied in H as (_ & disc & k & H & _).
  apply sweep_account_Ok in H as (so & d1 & k1 & so2 & d2 & k2 & f & Hc & Hr & ->).
  pose proof (delta_load_complete chain d Hok skip cache Hcov i w key ref Hi Ha He Hk) as Hget.
  set (cache1 := cache_insert_all cache (delta_load d chain (cache_last_seq cache))) in *.
  assert (Hm1 : match_log chain cache1 l = Ok m /\ m_watch m = ref).
  { pose proof (match_log_inv _ _ _ _ Hm) as (_ & _ & Hg & _ & _ & _ & _ & Hst & _).
    rewrite cache_get_insert in Hg. case_decide as Ek; [|done]. injection Hg as Eref.
    rewrite (match_log_retarget _ _ cache1 _ _ ref Hm); [|congruence|by rewrite Eref].
    rewrite Eref. by destruct m. }
  destruct Hm1 as [Hm1 Eref].
  pose proof (count_all_settles _ _ _ _ _ _ _ _ _ Hids Hc) as (Hset & Hks & Hids1).
  pose proof (resolve_all_frame _ _ _ _ _ _ _ _ _ _ _ Hr) as (Hf & Hkr & _).
  apply slim_entry_inv in He as (_ & _ & _ & _ & _ & Hrid & _). rewrite (Hids _ _ Hi) in Hrid.
  destruct (decide (countable (d_transfers d !! transfer_key chain m))) as [Hcount|]; [right|by left].
  destruct (count_all_domain _ _ _ _ _ _ _ _ _ i Hids Hc (mk_is_Some _ _ Hi)) as [w1 Hw1].
  specialize (Hf i). rewrite Hw1 in Hf. apply fmap_Some in Hf as (w2 & Hw2 & E). injection E as _ _ Est.
  destruct (decide (w_status w1 = Active)) as [Ha1|Hn1]; [left|right].
  - apply leftovers_resolved in Hr as [_ Hkeep]. apply Hkeep.
    eapply count_all_confirms with (m := m) (w' := w1); [exact Hids|exact Hc| |by rewrite Eref, Hrid|done].
    left. split; [done|]. apply matched_sweep. eauto.
  - exists w2. split; [done|]. congruence.
Qed.

(** ** Properties *)

(** C7. A sweep accounts exactly: applied on a chunk whose logs are distinct, it leaves every watch
    with the account obtained by adding, in block and log order, the amounts that were not stored
    as resolved before, until the threshold is reached; it resolves every pending transfer of the
    chain up to the chunk's end and moves the cursor there. *)
Theorem sweep_accounts (chain : ChainSpec) (env : Env) (d : DB) (cache : WatchCache) (c to : Z)
    (logs : list Log) (out : SweepOutcome) (d' : DB) (cache' : WatchCache) :
  ids_ok d -> in_u64 to ->
  let cache1 := cache_insert_all cache (delta_load d chain (cache_last_seq cache)) in
  let ms := sweep_matched chain cache1 logs in
  NoDup (transfer_key chain <$> ms) ->
  apply_sweep env d chain cache c to logs = (Ok (Applied out), d', cache') ->
  (forall i w, d_watches d !! i = Some w -> exists w', d_watches d' !! i = Some w'
     /\ w_threshold w' = w_threshold w
     /\ row_account w' = account (w_threshold w) (row_account w) (fresh_amounts chain d ms i))
  /\ (forall key x, d_transfers d' !! key = Some x -> key.1.1 = as_i64 (ch_chain_id chain) ->
        x_block_number x <= as_i64 to -> x_status x ≠ Pending)
  /\ cursor d' (ch_chain_id chain) = Ok to.
Proof.
  intros Hids Hto cache1 ms Hnd H. apply apply_sweep_Applied in H as (_ & disc & k & H & _). fold cache1 in H.
  apply sweep_account_Ok in H as (so & d1 & k1 & so2 & d2 & k2 & f & Hc & Hr & ->). fold ms in Hc.
  split_and!.
  - intros i w Hi. pose proof (count_all_account _ _ _ _ _ _ _ _ _ i Hids Hnd Hc) as Ha.
    pose proof (resolve_all_frame _ _ _ _ _ _ _ _ _ _ _ Hr) as (Hf & _ & _). rewrite <- (Hf i), Hi in Ha.
    cbn in Ha |- *. apply fmap_Some in Ha as (w' & Hw' & E). injection E as E1 E2. exists w'. done.
  - apply leftovers_resolved in Hr as [Hres _]. exact Hres.
  - unfold cursor. cbn. rewrite lookup_insert_eq, as_u64_as_i64 by done. done.
Qed.

(** A payment is never passed over: if the cache covers the watches up to its counter, then
    after a sweep has applied a chunk, every log of the chunk that pays an active watch (from its
    start block on) is stored as confirmed, or the watch was retired by the sweep, or the log had
    been resolved before. *)
Theorem sweep_misses_nothing (chain : ChainSpec) `{!SpecOk chain} (env : Env) (d : DB) (cache : WatchCache)
    (c to : Z) (logs : list Log) (out : SweepOutcome) (d' : DB) (cache' : WatchCache)
    (i : Z) (w : WatchRow) (key : WatchKey) (ref : WatchRef) (l : Log) (m : MatchedTransfer) :
  watches_ok (d_watches d) (d_watch_seq d) -> covers chain cache d ->
  apply_sweep env d chain cache c to logs = (Ok (Applied out), d', cache') ->
  d_watches d !! i = Some w -> active_on_chain (as_i64 (ch_chain_id chain)) w = true ->
  slim_entry chain w = Some (key, ref) ->
  l ∈ logs -> l_removed l = false -> match_log chain (cache_insert cache_new key ref).2 l = Ok m ->
  ~ countable (d_transfers d !! transfer_key chain m)
  \/ confirmed_at d' (transfer_key chain m)
  \/ exists w', d_watches d' !! i = Some w' /\ w_status w' ≠ Active.
Proof. intros. eapply (sweep_settles_payment no_watch); eauto. Qed.

(** ** Replays *)

(** Counting what is settled does nothing. *)
Lemma count_settled chain m env d k st out st' out' d' k' :
  count_result chain m env d k st out st' out' d' k' -> settled chain d m ->
  d' = d /\ st' = st /\ out' = out /\ k' = k.
Proof.
  intros [_|w w1 Hw Ha Hc _ _ _ _|w w1 w2 Hw Ha Hc _ _ _ _ _ _ _ _] [Hs|Hs]; try done; by destruct (Hs w).
Qed.

Lemma count_all_settled chain ms env acc d k acc' d' k' :
  ids_ok d -> (forall m, m ∈ ms -> settled chain d m) ->
  mfold (count_confirmed chain) ms acc env (d, k) = Ok (acc', (d', k')) -> d' = d /\ acc' = acc /\ k' = k.
Proof.
  intros Hids. induction ms as [|m ms IH]; intros Hs H; cbn [mfold] in H; [by tx_simp H|].
  tx_inv H. apply count_confirmed_Ok in Ht; [|done].
  apply count_settled in Ht as (-> & E1 & E2 & ->); [|apply Hs, list_elem_of_here].
  assert (a = acc) as -> by (destruct a, acc; cbn in *; congruence).
  apply IH; [|done]. intros m' Hm'. apply Hs. by apply list_elem_of_further.
Qed.

(** A match through a smaller cache is a match through the larger one. *)
Lemma matched_sub chain cache cache' logs m :
  (forall key ref, cache_get cache' key = Some ref -> cache_get cache key = Some ref) ->
  m ∈ sweep_matched chain cache' logs -> m ∈ sweep_matched chain cache logs.
Proof.
  intros Hsub (l & Hin & Hr & Hm)%matched_sweep. apply matched_sweep. exists l. split_and!; [done..|].
  pose proof (match_log_inv _ _ _ _ Hm) as (_ & _ & Hg & _ & _ & _ & _ & Hst & _).
  rewrite (match_log_retarget _ _ cache _ _ (m_watch m) Hm); [by destruct m|by apply Hsub|done].
Qed.

(** After a delta load the counter is past every active watch of the chain. *)
Lemma delta_load_last_seq chain d cache i w key ref :
  d_watches d !! i = Some w -> active_on_chain (as_i64 (ch_chain_id chain)) w = true ->
  slim_entry chain w = Some (key, ref) ->
  w_seq w <= c_last_seq (cache_insert_all cache (delta_load d chain (cache_last_seq cache))).
Proof.
  intros Hi Ha He. rewrite cache_insert_all_last_seq.
  destruct (decide (w_seq w <= cache_last_seq cache)) as [Hle|Hgt].
  - eapply Z.le_trans; [exact Hle|]. apply foldr_max_ge. by left.
  - apply foldr_max_ge. right. apply list_elem_of_fmap. exists (key, ref). cbn.
    pose proof (slim_entry_inv _ _ _ _ He) as (_ & _ & _ & _ & _ & _ & -> & _). split; [done|].
    apply elem_of_delta_load. exists i, w. split_and!; [done..|lia|done].
Qed.

(** The next delta load finds nothing: active watches can only have become fewer. *)
Lemma delta_load_again chain d d' cache es :
  keeps_settled d d' ->
  delta_load d' chain (cache_last_seq (cache_remove_all
    (cache_insert_all cache (delta_load d chain (cache_last_seq cache))) es)) = [].
Proof.
  intros [Hk _]. unfold cache_last_seq at 1. rewrite cache_last_seq_remove_all.
  destruct (delta_load d' chain _) as [|[key ref] l] eqn:E; [done|].
  assert (Hin : (key, ref) ∈ (key, ref) :: l) by apply list_elem_of_here. rewrite <- E in Hin.
  apply elem_of_delta_load in Hin as (i & w' & Hi & Ha & Hs & He).
  destruct (Hk i w' Hi) as (w & Hw & (Eid & Eseq & Etgt & _ & _ & Est) & Hact).
  assert (Ha0 : active_on_chain (as_i64 (ch_chain_id chain)) w = true).
  { apply active_on_chain_true in Ha as [Hc Ha].
    apply active_on_chain_true. unfold target in Etgt. split; [congruence|auto]. }
  assert (He0 : slim_entry chain w = Some (key, ref)).
  { rewrite <- He. unfold slim_entry, target in *. injection Etgt as _ E2 E3. by rewrite E2, E3, Eid, Eseq, Est. }
  pose proof (delta_load_last_seq chain d cache i w key ref Hw Ha0 He0). lia.
Qed.

Lemma sweep_keeps_settled chain cache to logs disc env d k out d' k' :
  ids_ok d -> sweep_account chain cache to logs disc env (d, k) = Ok (out, (d', k')) ->
  keeps_settled d d' /\ ids_ok d' /\ forall m, m ∈ sweep_matched chain cache logs -> settled chain d' m.
Proof.
  intros Hids H. apply sweep_account_Ok in H as (so & d1 & k1 & so2 & d2 & k2 & f & Hc & Hr & ->).
  apply count_all_settles in Hc as (Hset & Hk1 & _); [|done].
  apply resolve_all_frame in Hr as (_ & Hk2 & _).
  assert (Hk : keeps_settled d2 (set_cursors (<[as_i64 (ch_chain_id chain) := as_i64 to]>) (set_stats f d2))).
  { split; [|done]. intros i w Hw. by exists w. }
  assert (Hkk : keeps_settled d (set_cursors (<[as_i64 (ch_chain_id chain) := as_i64 to]>) (set_stats f d2))).
  { etrans; [exact Hk1|]. by etrans. }
  split_and!; [done|..].
  - intros i w Hw. destruct (ks_watch _ _ Hkk _ _ Hw) as (w0 & Hw0 & (Eid & _) & _).
    rewrite Eid. by apply Hids.
  - intros m Hm. eapply settled_keeps; [|by apply Hset]. by etrans.
Qed.

(** C8. Sweeping the same chunk again is harmless: when the logs an applied sweep has accounted for
    are handed to another sweep of the state it left (with the cache it left), no watch's account
    changes. *)
Theorem sweep_replay (chain : ChainSpec) (env env2 : Env) (d d' d'' : DB) (cache cache' cache'' : WatchCache)
    (c c2 to to2 : Z) (logs : list Log) (out out2 : SweepOutcome) :
  ids_ok d ->
  apply_sweep env d chain cache c to logs = (Ok (Applied out), d', cache') ->
  apply_sweep env2 d' chain cache' c2 to2 logs = (Ok (Applied out2), d'', cache'') ->
  forall i w', d_watches d' !! i = Some w' ->
    exists w'', d_watches d'' !! i = Some w'' /\ row_account w'' = row_account w'.
Proof.
  intros Hids H H2. apply apply_sweep_Applied in H as (_ & disc & k & H & ->).
  apply apply_sweep_Applied in H2 as (_ & disc2 & k2 & H2 & _).
  apply sweep_keeps_settled in H as (Hks & Hids' & Hset); [|done].
  rewrite (delta_load_again chain d d' cache) in H2 by done.
  apply sweep_account_Ok in H2 as (so & d1 & k1 & so2 & d2 & k3 & f & Hc & Hr & ->).
  apply count_all_settled in Hc as (-> & _); [|done|].
  - apply resolve_all_frame in Hr as (Hf & _ & _). intros i w' Hi. specialize (Hf i). rewrite Hi in Hf.
    apply fmap_Some in Hf as (w2 & Hw2 & E). exists w2. split; [done|]. unfold accounted, account in E.
    cbn in E. congruence.
  - intros m Hm. apply Hset. eapply matched_sub; [|exact Hm]. intros key ref.
    apply cache_get_remove_all_inv.
Qed.

(** A sweep that does not apply writes nothing: on a database error, a missing cursor or a
    cursor another instance has moved, the database is exactly what it was, and a moved cursor is
    reported as it is stored. *)
Theorem sweep_atomic (chain : ChainSpec) (env : Env) (d d' : DB) (cache cache' : WatchCache) (c to : Z)
    (logs : list Log) (r : result StoreError SweepResult) :
  apply_sweep env d chain cache c to logs = (r, d', cache') ->
  match r with
  | Ok (Applied _) => cursor d (ch_chain_id chain) = Ok c
  | Ok (CursorMoved expected actual) =>
      expected = c /\ cursor d (ch_chain_id chain) = Ok actual /\ actual ≠ c /\ d' = d /\ cache' = cache
  | Err _ => d' = d
  end.
Proof.
  unfold apply_sweep. destruct (cursor d _) as [actual|e]; [|by intros [= <- <- <-]].
  destruct (Z.eqb_spec actual c) as [E|E]; cbn [negb]; [|by intros [= <- <- <-]].
  destruct (load_entries cache _) as [cache1 disc]. destruct (run_tx env d _) as [[out|e] d1] eqn:Hrun.
  - intros [= <- <- <-]. by subst.
  - intros [= <- <- <-]. by apply run_tx_Err in Hrun.
Qed.
