(* ===== verification/RegisterSpec.v ===== *)
(** * RegisterSpec: registration, the cursor and the blocks in between

    What [create_watch] promises: idempotent registration, and that the start block, the backfill
    bound and the cursor leave no block unaccounted for; and that the fast-forward never jumps over
    a block a watch is owed. *)

From S2P Require Import Prelude Config Registry Cache Matcher Events Store Sweep TxSpec Ledger.
From S2P Require Import LedgerTx.

(** ** Lemmas *)

(** The columns of the row a registration stores, as numbers. *)
Definition registered (cursor head lookback : Z) : Z * option Z :=
  let start := start_block cursor head lookback in
  (start, if start <=? cursor then Some cursor else None).

Lemma registered_no_gap (c h l b : Z) :
  0 <= c < 2 ^ 62 -> 0 <= h < 2 ^ 62 -> 0 <= l < 2 ^ 62 ->
  let '(start, backfill_to) := registered c h l in
  (start <= b -> c < b \/ exists to, backfill_to = Some to /\ start <= b <= to)
  /\ (forall to, backfill_to = Some to -> to = c /\ start <= to)
  /\ 1 <= start <= Z.max c h + 1
  /\ (l = 0 -> start = Z.max c h + 1)
  /\ (start <= Z.max c h -> Z.max c h - l <= start).
Proof.
  intros Hc Hh Hl. unfold registered, start_block.
  assert (Hadd : u64_add (Z.max c h) 1 = Z.max c h + 1) by (apply u64_add_id; unfold in_u64; lia).
  rewrite Hadd. set (base := Z.max c h) in *. assert (0 <= base < 2 ^ 62 /\ c <= base /\ h <= base) by lia.
  unfold saturating_sub. destruct (Z.eqb_spec l 0) as [->|Hn].
  - destruct (Z.leb_spec (base + 1) c); [lia|]. split_and!; try lia. done.
  - set (start := Z.min (base + 1) (Z.max (Z.max 0 (base - l)) 1)).
    assert (1 <= start <= base + 1) by lia. destruct (Z.leb_spec start c) as [Hs|Hs]; split_and!; try lia.
    + intros Hb. destruct (decide (c < b)); [by left|right]. exists c. split; [done|lia].
    + by intros to [= <-].
    + done.
Qed.

(** The fast-forward, with the start blocks of the chain's active watches in range. *)
Lemma fast_forward_spec (d d' : DB) (cid tgt cur new : Z) :
  fast_forward_cursor d cid tgt = (Ok new, d') -> cursor d cid = Ok cur -> in_u64 tgt ->
  (forall i w, d_watches d !! i = Some w -> active_on_chain (as_i64 cid) w = true -> in_i63 (w_start_block w)) ->
  cur <= new <= Z.max cur tgt
  /\ cursor d' cid = Ok new
  /\ (forall i w, d_watches d !! i = Some w -> active_on_chain (as_i64 cid) w = true ->
        new = cur \/ new < w_start_block w)
  /\ (forall key x, d_transfers d !! key = Some x -> key.1.1 = as_i64 cid -> x_status x = Pending -> new = cur)
  /\ (d_watches d' = d_watches d /\ d_transfers d' = d_transfers d /\ d_outbox d' = d_outbox d
      /\ forall c, c ≠ as_i64 cid -> d_cursors d' !! c = d_cursors d !! c).
Proof.
  intros H Hcur Htgt Hst. unfold fast_forward_cursor in H. rewrite Hcur in H.
  assert (Hu : in_u64 cur).
  { unfold cursor in Hcur. destruct (d_cursors d !! _); [|done]. injection Hcur as <-. apply as_u64_range. }
  injection H as Hnew Hd. rewrite Hnew in Hd.
  assert (Hrange : cur <= new <= Z.max cur tgt) by (rewrite <- Hnew; destruct (has_pending d cid); lia).
  split_and!; [lia|lia|..].
  - subst d'. destruct (Z.eqb_spec new cur) as [->|Hne]; cbn [negb]; [done|]. unfold cursor. cbn.
    rewrite lookup_insert_eq, as_u64_as_i64; [done|]. unfold in_u64 in *. lia.
  - intros i w Hi Ha. destruct (has_pending d cid); [by left|]. unfold min_active_start_block in Hnew.
    destruct (list_min _) as [mn|] eqn:Hmin.
    2:{ apply list_min_None, fmap_nil_inv in Hmin. exfalso. apply (in_nil (a := w)). rewrite <- Hmin.
        apply List.filter_In. split; [|done]. apply list_elem_of_In, list_elem_of_fmap. exists (i, w).
        by rewrite elem_of_map_to_list. }
    assert (Hle : mn <= w_start_block w).
    { eapply list_min_le; [exact Hmin|]. apply list_elem_of_fmap. exists w. split; [done|].
      apply list_elem_of_In, List.filter_In. split; [|done]. apply list_elem_of_In, list_elem_of_fmap.
      exists (i, w). by rewrite elem_of_map_to_list. }
    apply list_min_elem, list_elem_of_fmap in Hmin as (v & -> & Hv).
    apply list_elem_of_In, List.filter_In in Hv as [Hv Hva].
    apply list_elem_of_In, list_elem_of_fmap in Hv as ([j v'] & -> & Hv). apply elem_of_map_to_list in Hv.
    pose proof (Hst _ _ Hv Hva) as Hb. cbn in Hnew, Hle. cbn in Hb. rewrite as_u64_id in Hnew by auto with gum.
    unfold saturating_sub, in_i63, in_u64 in *. lia.
  - intros key x Hx Hk Hp. replace (has_pending d cid) with true in Hnew; [done|]. symmetry.
    apply existsb_exists. exists (key, x). split; [apply list_elem_of_In; by apply elem_of_map_to_list|].
    unfold pending_on. cbn. rewrite Hk, Z.eqb_refl. by rewrite bool_decide_true.
  - subst d'. by destruct (negb _).
  - subst d'. by destruct (negb _).
  - subst d'. by destruct (negb _).
  - intros c' Hne. subst d'. destruct (negb _); [|done]. cbn. by rewrite lookup_insert_ne.
Qed.

(** ** Properties *)

(** C14. Registration leaves no block behind. A watch created at cursor [c] with head estimate [h] and
    lookback [l] (all below 2^62) has a start block and a backfill bound such that every block from
    the start on is either above the cursor, where a later sweep will find it, or in the range
    handed to the backfill; without a lookback the start is the block after both cursor and head,
    and a lookback reaches at most [l] blocks back. *)
Theorem registration_no_gap (env : Env) (d d' : DB) (new : NewWatch) (w : WatchRow) (c b : Z) :
  create_watch env d new = (Ok (Created w), d') -> cursor d (n_chain_id new) = Ok c ->
  0 <= c < 2 ^ 62 -> 0 <= n_head_estimate new < 2 ^ 62 -> 0 <= n_lookback_blocks new < 2 ^ 62 ->
  let base := Z.max c (n_head_estimate new) in
  (w_start_block w <= b -> c < b \/ exists to, w_backfill_to w = Some to /\ w_start_block w <= b <= to)
  /\ (forall to, w_backfill_to w = Some to -> to = c /\ w_start_block w <= to)
  /\ 1 <= w_start_block w <= base + 1
  /\ (n_lookback_blocks new = 0 -> w_start_block w = base + 1)
  /\ (w_start_block w <= base -> base - n_lookback_blocks new <= w_start_block w).
Proof.
  intros H Hcur Hc Hh Hl base. apply create_watch_Ok in H.
  inversion H as [c' w0 Hcur' Hpos Hfree Hnew Hrow E1 E2|r0 w0 Ha Hrow E1]; subst.
  2:{ by destruct (_ && _). }
  assert (c' = c) as -> by congruence. apply from_row_Ok in Hrow as [-> _].
  pose proof (registered_no_gap c (n_head_estimate new) (n_lookback_blocks new) b Hc Hh Hl) as G.
  unfold registered in G. cbn [w_start_block w_backfill_to new_row].
  set (start := start_block c (n_head_estimate new) (n_lookback_blocks new)) in *.
  assert (Es : as_u64 (as_i64 start) = start) by (apply as_u64_as_i64; unfold in_u64; lia).
  assert (Eb : as_u64 <$> (as_i64 <$> (if start <=? c then Some c else None)) = (if start <=? c then Some c else None)).
  { destruct (start <=? c); [|done]. cbn. rewrite as_u64_as_i64 by (unfold in_u64; lia). done. }
  rewrite Es, Eb. exact G.
Qed.


(** Registration is idempotent. After a successful first registration, registering the same
    target again — by any instance, under any other ids — creates no second watch: the answer is
    the existing watch when threshold and webhook agree and a conflict naming it when they do not,
    and every watch row is as it was. *)
Theorem registration_idempotent (env env2 : Env) (d d' d'' : DB) (new new2 : NewWatch) (w : WatchRow)
    (r : result StoreError CreateOutcome) :
  ids_ok d ->
  create_watch env d new = (Ok (Created w), d') ->
  n_chain_id new2 = n_chain_id new -> n_token_address new2 = n_token_address new ->
  n_payment_address new2 = n_payment_address new -> 0 < n_threshold new2 ->
  create_watch env2 d' new2 = (r, d'') ->
  d_watches d'' = d_watches d'
  /\ r = Ok (if (n_threshold new =? n_threshold new2) && String.eqb (n_webhook_url new) (n_webhook_url new2)
             then Existing w else Conflict w).
Proof.
  intros Hids H1 Ec Et Ea Hth H2.
  apply create_watch_Ok in H1. inversion H1 as [c w0 Hcur Hpos Hfree Hnew Hrow E1 E2|r0 w0 Ha Hrow E1]; subst.
  2:{ by destruct (_ && _). }
  set (d1 := put_watch (e_ids env 0) (new_row env d new c) (draw_seq d)) in *.
  assert (Hact : active_on d1 (as_i64 (n_chain_id new)) (n_token_address new) (n_payment_address new)
                 = Some (new_row env d new c)).
  { destruct (active_on d1 _ _ _) as [v|] eqn:Hv.
    - apply active_on_Some in Hv as ((j & Hj) & Hst & Htg). cbn in Hj.
      apply lookup_insert_Some in Hj as [[_ <-]|[_ Hj]]; [done|].
      rewrite active_on_None in Hfree. by destruct (Hfree j v).
    - rewrite active_on_None in Hv. destruct (Hv (e_ids env 0) (new_row env d new c)); [|done..].
      cbn. apply lookup_insert_eq. }
  unfold create_watch, run_tx, create_watch_tx in H2. rewrite Ec, Et, Ea in H2.
  erewrite Tx_bind_eq in H2.
  2:{ unfold tx_cursor. erewrite Tx_bind_eq by done. unfold tx_lift. cbn.
      change (cursor d1 (n_chain_id new)) with (cursor d (n_chain_id new)). by rewrite Hcur. }
  erewrite Tx_bind_eq in H2 by done. erewrite Tx_bind_eq in H2 by done.
  erewrite Tx_bind_eq in H2.
  2:{ unfold insert_watch. cbn [w_threshold w_chain_id w_token_address w_payment_address fst snd].
      destruct (Z.leb_spec (n_threshold new2) 0); [lia|].
      change (active_on _ ?a ?b ?c) with (active_on d1 a b c). rewrite Hact. done. }
  cbn beta iota in H2. erewrite Tx_bind_eq in H2.
  2:{ erewrite Tx_bind_eq by done. erewrite Tx_bind_eq.
      2:{ unfold fetch_one, tx_lift. change (active_on _ ?a ?b ?c) with (active_on d1 a b c).
          by rewrite Hact. }
      erewrite Tx_bind_eq by (unfold tx_lift; rewrite Hrow; done). done. }
  cbn in H2. injection H2 as <- <-. split; [done|].
  pose proof (from_row_fields _ _ Hrow) as (_ & -> & _ & _ & _ & -> & _). done.
Qed.

(** C15. The fast-forward skips nothing that is owed: the new cursor is never behind the old one nor
    past the target; it stays below the start block of every active watch of the chain unless it
    does not move at all; it does not move while a transfer of the chain is pending; and it changes
    nothing but this chain's cursor. *)
Theorem fast_forward_safe (d d' : DB) (cid tgt cur new : Z) :
  fast_forward_cursor d cid tgt = (Ok new, d') -> cursor d cid = Ok cur -> in_u64 tgt ->
  (forall i w, d_watches d !! i = Some w -> in_i63 (w_start_block w)) ->
  cur <= new <= Z.max cur tgt
  /\ cursor d' cid = Ok new
  /\ (forall i w, d_watches d !! i = Some w -> active_on_chain (as_i64 cid) w = true ->
        new = cur \/ new < w_start_block w)
  /\ (forall key x, d_transfers d !! key = Some x -> key.1.1 = as_i64 cid -> x_status x = Pending -> new = cur)
  /\ (d_watches d' = d_watches d /\ d_transfers d' = d_transfers d /\ d_outbox d' = d_outbox d
      /\ forall c, c ≠ as_i64 cid -> d_cursors d' !! c = d_cursors d !! c).
Proof. intros H Hcur Ht Hst. eapply fast_forward_spec; eauto. Qed.
