(* ===== verification/System.v ===== *)
(** * System: several instances on one database

    The whole indexer as a step relation: any number of instances, each with its own runtime per
    chain, share the database. Instances start, bootstrap, register, cancel and expire watches,
    hear notifications, see transfers at the head, record them later, sweep, backfill, move the
    cursor and deliver events, in any order, each transaction one step. What holds in every reachable
    state is stated at the end. *)

From S2P Require Import Prelude Config Registry Cache Matcher Events Health Rpc Store Sweep Runtime.
From S2P Require Import Outbox TxSpec Ledger LedgerTx.

(** ** Rows only ever appear, and keep what they watch *)

Definition targets_grow (d d' : DB) : Prop :=
  forall i w, d_watches d !! i = Some w -> exists w', d_watches d' !! i = Some w' /\ target w' = target w.

#[global] Instance targets_grow_preorder : PreOrder targets_grow.
Proof.
  split; [intros d i w; eauto|]. intros d1 d2 d3 H1 H2 i w Hw.
  destruct (H1 i w Hw) as (w' & Hw' & E'). destruct (H2 i w' Hw') as (w'' & Hw'' & E'').
  exists w''. split; [done|congruence].
Qed.

Lemma targets_grow_put d i w w' d' :
  d_watches d' = <[i := w']> (d_watches d) -> d_watches d !! i = Some w -> target w' = target w ->
  targets_grow d d'.
Proof.
  intros E Hi Ht j v Hv. rewrite E. destruct (decide (i = j)) as [<-|Hne].
  - exists w'. rewrite lookup_insert_eq. split; congruence.
  - exists v. by rewrite lookup_insert_ne.
Qed.

Lemma step_targets hist d d' : step hist d d' -> targets_grow d d'.
Proof.
  destruct 1; try (by intros j v Hv; exists v); try (eapply targets_grow_put; [reflexivity|eassumption|reflexivity]).
  intros j v Hv. exists v. cbn. by rewrite lookup_insert_ne by congruence.
Qed.

Lemma steps_targets hist d d' : rtc (step hist) d d' -> targets_grow d d'.
Proof. induction 1; [done|]. etrans; eauto using step_targets. Qed.

Lemma coherent_grow chain cache d d' : targets_grow d d' -> coherent chain cache d -> coherent chain cache d'.
Proof.
  intros Hg Hc key ref Hr. destruct (Hc key ref Hr) as (w & token & Hw & Ht & Hi & He).
  destruct (Hg _ _ Hw) as (w' & Hw' & E). exists w', token. split_and!; congruence.
Qed.

(** ** Delivery is a ledger step *)

Lemma same_event_delivery st att next ls le da o : same_event o (set_delivery st att next ls le da o).
Proof. done. Qed.

Lemma update_outbox_steps hist id guard f d :
  (forall o, same_event o (f o)) -> rtc (step hist) d (update_outbox id guard f d).
Proof.
  intros Hf. unfold update_outbox. destruct (d_outbox d !! id) as [o|] eqn:Ho; [|done].
  destruct (guard o); [|done]. apply rtc_once. by apply (step_deliver hist d id o (f o)).
Qed.

Lemma lease_due_steps hist now locked d limit lease :
  rtc (step hist) d (lease_due now locked d limit lease).2.
Proof.
  unfold lease_due. cbn [snd]. pose proof (NoDup_due now locked d limit) as Hnd.
  assert (Hin : forall ev o, (ev, o) ∈ due now locked d limit -> d_outbox d !! ev = Some o).
  { by intros ev o (? & _)%elem_of_due. }
  revert Hnd Hin. generalize (due now locked d limit). intros rows. revert d.
  induction rows as [|[ev o] rows IH]; intros d Hnd Hin; [done|].
  apply NoDup_fmap_cons in Hnd as [Hne Hnd]. cbn [fmap list_fmap foldl fst snd].
  eapply rtc_l; [apply (step_deliver hist d ev o (leased now lease o)); [|done]|].
  - apply Hin, list_elem_of_here.
  - apply IH; [done|]. intros ev' o' Hin'. cbn. rewrite lookup_insert_ne.
    + apply Hin. by apply list_elem_of_further.
    + intros ->. by apply (Hne (ev', o')).
Qed.

(** ** The system *)

Record Sys := mkSys {
  sy_db : DB;
  sy_rt : gmap (nat * nat) ChainRuntime;       (* instance, position of the chain *)
  sy_seen : list (nat * MatchedTransfer);      (* matched at the head, not yet recorded *)
}.

Definition sys_init : Sys := mkSys db_empty ∅ [].

Section system.
Variable hist : TransferKey -> option (Z * Z * Z * Z).
Variable chains : list ChainSpec.

(** A dispatcher's statement on the outbox. *)
Inductive delivery (d : DB) : DB -> Prop :=
  | dl_lease now locked limit lease : delivery d (lease_due now locked d limit lease).2
  | dl_delivered now id status : delivery d (mark_delivered now d id status)
  | dl_retry now id delay status error : delivery d (mark_retry now d id delay status error)
  | dl_dead id status error : delivery d (mark_dead d id status error)
  | dl_release now id delay : delivery d (release now d id delay).

Inductive action : Sys -> Sys -> Prop :=
  | a_start d rts seen inst j :
      action (mkSys d rts seen) (mkSys d (<[(inst, j) := runtime_new]> rts) seen)
  | a_bootstrap d rts seen inst j chain rt now cid decimals head r d' rt' :
      chains !! j = Some chain -> rts !! (inst, j) = Some rt ->
      bootstrap now chain cid decimals head d rt = (r, d', rt') ->
      action (mkSys d rts seen) (mkSys d' (<[(inst, j) := rt']> rts) seen)
  | a_create d rts seen env new r d' :
      create_watch env d new = (r, d') -> action (mkSys d rts seen) (mkSys d' rts seen)
  | a_add d rts seen inst j chain rt id row w key ref :
      chains !! j = Some chain -> rts !! (inst, j) = Some rt ->
      d_watches d !! id = Some row -> w_chain_id row = as_i64 (ch_chain_id chain) ->
      from_row row = Ok w -> cache_entry w chain = Some (key, ref) ->
      action (mkSys d rts seen) (mkSys d (<[(inst, j) := add_watch rt key ref]> rts) seen)
  | a_remove d rts seen inst j rt key id :
      rts !! (inst, j) = Some rt ->
      action (mkSys d rts seen) (mkSys d (<[(inst, j) := remove_watch rt key id]> rts) seen)
  | a_runtime d rts seen inst j rt rt' :
      (* health, channels: everything but the cache *)
      rts !! (inst, j) = Some rt -> rt_cache rt' = rt_cache rt ->
      action (mkSys d rts seen) (mkSys d (<[(inst, j) := rt']> rts) seen)
  | a_notify d rts seen inst j chain rt op id :
      chains !! j = Some chain -> rts !! (inst, j) = Some rt ->
      action (mkSys d rts seen) (mkSys d (<[(inst, j) := handle d chain op id rt]> rts) seen)
  | a_see d rts seen inst j chain rt log m :
      chains !! j = Some chain -> rts !! (inst, j) = Some rt ->
      log_ok hist chain log -> match_log chain (rt_cache rt) log = Ok m ->
      action (mkSys d rts seen) (mkSys d rts ((j, m) :: seen))
  | a_pending d rts seen j chain m env r d' :
      chains !! j = Some chain -> (j, m) ∈ seen -> record_pending env d chain m = (r, d') ->
      action (mkSys d rts seen) (mkSys d' rts seen)
  | a_sweep d rts seen inst j chain rt env c to logs r d' cache' :
      chains !! j = Some chain -> rts !! (inst, j) = Some rt ->
      Forall (fun l => l_removed l = false -> log_ok hist chain l) logs ->
      apply_sweep env d chain (rt_cache rt) c to logs = (r, d', cache') ->
      action (mkSys d rts seen) (mkSys d' (<[(inst, j) := with_cache cache' rt]> rts) seen)
  | a_backfill d rts seen inst j chain rt env batch logs r d' cache' :
      (* [batch] was read from the database, possibly before other transactions *)
      chains !! j = Some chain -> rts !! (inst, j) = Some rt -> Forall (backfill_ok chain d) batch ->
      Forall (fun l => l_removed l = false -> log_ok hist chain l) logs ->
      apply_backfill env d chain (rt_cache rt) batch logs = (r, d', cache') ->
      action (mkSys d rts seen) (mkSys d' (<[(inst, j) := with_cache cache' rt]> rts) seen)
  | a_fast_forward d rts seen cid target r d' :
      fast_forward_cursor d cid target = (r, d') -> action (mkSys d rts seen) (mkSys d' rts seen)
  | a_expire d rts seen chain env limit r d' :
      expire_watches env d chain limit = (r, d') -> action (mkSys d rts seen) (mkSys d' rts seen)
  | a_cancel d rts seen env id r d' :
      cancel_watch env d id = (r, d') -> action (mkSys d rts seen) (mkSys d' rts seen)
  | a_deliver d rts seen d' : delivery d d' -> action (mkSys d rts seen) (mkSys d' rts seen)
  | a_abandoned d rts seen d' rts' seen' :
      (* the task is aborted when its transaction commits: what it would have done in memory is not done *)
      action (mkSys d rts seen) (mkSys d' rts' seen') -> action (mkSys d rts seen) (mkSys d' rts seen).

Definition reachable (s : Sys) : Prop := rtc action sys_init s.

(** ** The invariant of the system *)

Hypothesis Hspecs : Forall SpecOk chains.

Record SysInv (s : Sys) : Prop := {
  si_db : Inv hist (sy_db s);
  si_caches : forall inst j rt chain, sy_rt s !! (inst, j) = Some rt -> chains !! j = Some chain ->
    coherent chain (rt_cache rt) (sy_db s);
  si_seen : forall j m chain, (j, m) ∈ sy_seen s -> chains !! j = Some chain ->
    0 < m_amount m /\ exists w, d_watches (sy_db s) !! r_id (m_watch m) = Some w
      /\ hist (transfer_key chain m) = Some (target w, m_amount m);
}.

Lemma seen_matched_ok d chain m w :
  0 < m_amount m -> d_watches d !! r_id (m_watch m) = Some w ->
  hist (transfer_key chain m) = Some (target w, m_amount m) -> matched_ok hist chain d m.
Proof. intros Hp Hw Hh. split; [done|]. intros t. rewrite Hw. by intros [= <-]. Qed.

(** The database moves by ledger steps; the runtimes stay coherent with it. *)
Lemma SysInv_db d d' rts seen :
  SysInv (mkSys d rts seen) -> rtc (step hist) d d' -> SysInv (mkSys d' rts seen).
Proof.
  intros [Hdb Hca Hse] Hs. cbn in *. pose proof (steps_targets _ _ _ Hs) as Hg. split; cbn.
  - by eapply Inv_steps.
  - intros inst j rt chain Hrt Hch. eapply coherent_grow; eauto.
  - intros j m chain Hin Hch. destruct (Hse j m chain Hin Hch) as (Hp & w & Hw & Hh). split; [done|].
    destruct (Hg _ _ Hw) as (w' & Hw' & E). exists w'. by rewrite E.
Qed.

Lemma SysInv_rt d rts seen inst j rt' :
  SysInv (mkSys d rts seen) ->
  (forall chain, chains !! j = Some chain -> coherent chain (rt_cache rt') d) ->
  SysInv (mkSys d (<[(inst, j) := rt']> rts) seen).
Proof.
  intros [Hdb Hca Hse] Hc. split; cbn in *; [done| |done].
  intros inst' j' rt chain [[[= <- <-] <-]|[_ Hrt]]%lookup_insert_Some Hch; eauto.
Qed.

Lemma coherent_new chain d : coherent chain cache_new d.
Proof. intros key ref. unfold cache_get. cbn. by rewrite lookup_empty. Qed.

Lemma coherent_remove chain cache d key id :
  coherent chain cache d -> coherent chain (cache_remove cache key id).2 d.
Proof. intros Hc. apply (coherent_remove_all chain cache d [(key, id)] Hc). Qed.

Lemma bootstrap_steps now chain cid decimals head d rt r d' rt' :
  Inv hist d -> coherent chain (rt_cache rt) d ->
  bootstrap now chain cid decimals head d rt = (r, d', rt') ->
  rtc (step hist) d d' /\ coherent chain (rt_cache rt') d'.
Proof.
  intros HI Hc H. unfold bootstrap in H.
  assert (Hcd : forall toks rt0 r0 rt1, check_decimals chain decimals toks rt0 = (r0, rt1) ->
    rt_cache rt1 = rt_cache rt0).
  { induction toks as [|t toks IH]; intros rt0 r0 rt1 H0; cbn in H0; [by simplify_eq|].
    destruct (decimals _) as [[a|e] ops]; [|by simplify_eq]. case_bool_decide; [|by simplify_eq].
    by apply IH in H0. }
  destruct (cid.1) as [actual|e]; [|by simplify_eq].
  destruct (negb _); [by simplify_eq|].
  destruct (check_decimals _ _ _ _) as [[[]|e] rt1] eqn:H1; apply Hcd in H1; cbn in H1; simplify_eq.
  2:{ by rewrite H1. }
  destruct (block_number now head) as [[h|e] ops]; simplify_eq.
  2:{ split; [done|]. cbn. by rewrite H1. }
  destruct (ensure_cursor d _ h) as [c d1] eqn:He. apply (ensure_cursor_steps hist) in He as [Hs Hf].
  simplify_eq. split; [done|]. cbn. rewrite H1. apply hydrate_coherent.
  - by eapply ids_ok_of_inv, Inv_steps.
  - by eapply coherent_frame.
Qed.

Lemma add_watch_cache rt key ref : rt_cache (add_watch rt key ref) = (cache_insert (rt_cache rt) key ref).2.
Proof. done. Qed.

Lemma remove_watch_cache rt key id : rt_cache (remove_watch rt key id) = (cache_remove (rt_cache rt) key id).2.
Proof. unfold remove_watch. by destruct (cache_remove _ _ _). Qed.

Lemma cache_entry_coherent chain cache d id row w key ref :
  ids_ok d -> d_watches d !! id = Some row -> w_chain_id row = as_i64 (ch_chain_id chain) ->
  from_row row = Ok w -> cache_entry w chain = Some (key, ref) ->
  coherent chain cache d -> coherent chain (cache_insert cache key ref).2 d.
Proof.
  intros Hids Hrow Hcid [-> _]%from_row_Ok He Hc. unfold cache_entry in He. cbn in He.
  destruct (token_by_address _ _) as [token|] eqn:Ht; [|done]. cbn in He. injection He as <- <-.
  apply find_Some_elem in Ht as [Hin E%Z.eqb_eq]. eapply coherent_insert; eauto; cbn.
  - by rewrite (Hids _ _ Hrow).
  - unfold target. congruence.
Qed.

Lemma handle_coherent chain d op id rt :
  ids_ok d -> coherent chain (rt_cache rt) d -> coherent chain (rt_cache (handle d chain op id rt)) d.
Proof.
  intros Hids Hc. destruct op; cbn; [| |done].
  - unfold load_watch_entry. destruct (d_watches d !! id) as [row|] eqn:Hrow; [|done]. cbn [mbind option_bind].
    destruct (active_on_chain _ row) eqn:Ha; [|done]. apply active_on_chain_true in Ha as [Hcid _].
    destruct (slim_entry chain row) as [[key ref]|] eqn:He; [|done].
    rewrite add_watch_cache. by eapply coherent_insert_row.
  - destruct (get_watch d id) as [[row|]|]; [|done..]. destruct (cache_entry row chain) as [[key ref]|]; [|done].
    rewrite remove_watch_cache. by apply coherent_remove.
Qed.

Lemma delivery_steps d d' : delivery d d' -> rtc (step hist) d d'.
Proof. destruct 1; [apply lease_due_steps|by apply update_outbox_steps..]. Qed.

Lemma spec_at j chain : chains !! j = Some chain -> SpecOk chain.
Proof. intros H. by eapply Forall_lookup_1. Qed.

Lemma action_steps s s' : SysInv s -> action s s' -> rtc (step hist) (sy_db s) (sy_db s').
Proof.
  intros HI Ha. induction Ha as [| |d rts seen env new r d' H| | | | |
    |d rts seen j chain m env r d' Hch Hin H| | | | | | |d rts seen d' rts' seen' _ IH]; pose proof HI as [Hdb Hca Hse];
    cbn in *; try done; [..|by apply IH].
  - eapply bootstrap_steps; eauto.
  - by eapply create_watch_steps.
  - destruct (Hse _ _ _ Hin Hch) as (Hp & w & Hw & Hh).
    eapply record_pending_steps in H as [Hs _]; [done|by eapply ids_ok_of_inv|by eapply seen_matched_ok].
  - pose proof (spec_at _ _ ltac:(eassumption)). eapply apply_sweep_steps; eauto.
  - pose proof (spec_at _ _ ltac:(eassumption)).
    match goal with H : apply_backfill _ _ _ _ _ _ = _ |- _ => eapply apply_backfill_steps in H as (? & _) end;
      eauto.
  - by eapply fast_forward_steps.
  - eapply expire_watches_steps; eauto using ids_ok_of_inv.
  - by eapply cancel_watch_steps.
  - by apply delivery_steps.
Qed.

Lemma SysInv_action s s' : SysInv s -> action s s' -> SysInv s'.
Proof.
  intros HI Ha. pose proof (action_steps _ _ HI Ha) as Hst. destruct Ha as [d rts seen inst j|d rts seen inst j chain rt now cid decimals head r d' rt' Hch Hrt H
    |d rts seen env new r d' H|d rts seen inst j chain rt id row w key ref Hch Hrt Hrow Hcid Hw He
    |d rts seen inst j rt key id Hrt|d rts seen inst j rt rt' Hrt Ert|d rts seen inst j chain rt op id Hch Hrt
    |d rts seen inst j chain rt log m Hch Hrt Hlog Hm|d rts seen j chain m env r d' Hch Hin H
    |d rts seen inst j chain rt env c to logs r d' cache' Hch Hrt Hl H
    |d rts seen inst j chain rt env batch logs r d' cache' Hch Hrt Hb Hl H
    |d rts seen cid tgt r d' H|d rts seen chain env limit r d' H|d rts seen env id r d' H|d rts seen d' H|d rts seen d' rts' seen' _];
    pose proof HI as [Hdb Hca Hse]; cbn in Hdb, Hca, Hse; pose proof (ids_ok_of_inv _ _ Hdb) as Hids.
  - apply SysInv_rt; [done|]. intros. apply coherent_new.
  - apply bootstrap_steps in H as [Hs Hc]; [|done|eauto].
    apply SysInv_rt; [by eapply SysInv_db|]. intros chain' ?. by simplify_eq.
  - eapply SysInv_db; [done|]. by eapply create_watch_steps.
  - apply SysInv_rt; [done|]. intros chain' ?. simplify_eq. rewrite add_watch_cache.
    eapply cache_entry_coherent; eauto.
  - apply SysInv_rt; [done|]. intros chain Hch. rewrite remove_watch_cache. apply coherent_remove. eauto.
  - apply SysInv_rt; [done|]. intros chain Hch. rewrite Ert. eauto.
  - apply SysInv_rt; [done|]. intros chain' ?. simplify_eq. apply handle_coherent; eauto.
  - split; cbn; [done..|]. intros j' m' chain' [[= -> ->]|Hin]%elem_of_cons Hch'; [|eauto]. simplify_eq.
    pose proof (spec_at _ _ Hch). pose proof (Hca _ _ _ _ Hrt Hch) as Hc.
    destruct (match_log_ok hist chain _ _ _ _ Hc Hlog Hm) as [Hp Hmt]. split; [done|].
    apply match_log_inv in Hm as (_ & _ & Hget & _). destruct (Hc _ _ Hget) as (w & _ & Hw & _).
    exists w. split; [done|]. apply Hmt. by rewrite Hw.
  - destruct (Hse _ _ _ Hin Hch) as (Hp & w & Hw & Hh).
    eapply record_pending_steps in H as [Hs _]; [by eapply SysInv_db|done|by eapply seen_matched_ok].
  - pose proof (spec_at _ _ Hch). eapply apply_sweep_steps in H as (Hs & _ & Hc); eauto.
    apply SysInv_rt; [by eapply SysInv_db|]. intros chain' ?. by simplify_eq.
  - pose proof (spec_at _ _ Hch).
    eapply apply_backfill_steps in H as (Hs & _ & Hc); eauto.
    apply SysInv_rt; [by eapply SysInv_db|]. intros chain' ?. by simplify_eq.
  - apply (fast_forward_steps hist) in H as [Hs _]. by eapply SysInv_db.
  - apply (expire_watches_steps hist) in H as [Hs _]; [|done]. by eapply SysInv_db.
  - apply (cancel_watch_steps hist) in H as [Hs _]. by eapply SysInv_db.
  - eapply SysInv_db; [done|]. by apply delivery_steps.
  - by eapply SysInv_db.
Qed.

Lemma SysInv_init : SysInv sys_init.
Proof.
  split; cbn; [apply Inv_empty| |].
  - intros inst j rt chain. by rewrite lookup_empty.
  - by intros j m chain ?%not_elem_of_nil.
Qed.

Lemma reachable_SysInv s : reachable s -> SysInv s.
Proof.
  unfold reachable. intros H. assert (G : forall s0, rtc action s0 s -> SysInv s0 -> SysInv s).
  { intros s0 Hs. induction Hs; eauto using SysInv_action. }
  eauto using SysInv_init.
Qed.

(** ** Properties of every reachable state *)

(** C3. The code refines the ledger: whatever any instance does in a reachable state — a
    registration, a head observation, a sweep or a backfill with its delta load and all its
    branches, an expiry, a delivery, a failed transaction — changes the database by a sequence of
    ledger steps, each of which counts a transfer at most once and emits its event with it. *)
Theorem actions_refine_ledger (s s' : Sys) :
  reachable s -> action s s' -> rtc (step hist) (sy_db s) (sy_db s').
Proof. intros Hr Ha. eapply action_steps; eauto using reachable_SysInv. Qed.

(** C1. No money is invented or lost: in every reachable state, for every chain, token and payment
    address, what the watches on it have been credited is exactly the sum of the confirmed
    transfers paying it, each the log its block hash and index name, with one [payment.confirmed]
    event per confirmed transfer — through any interleaving of the transactions of any instances,
    replays, reorganisations and retirements. A transaction is one step: statements of two instances
    that ingest one chain could also interleave inside a sweep ([torn_sweep_orphans_credited]). *)
Theorem credited_is_confirmed (s : Sys) :
  reachable s ->
  let d := sy_db s in
  (forall t, map_sum (credit t) (d_watches d) = map_sum (paid hist t) (d_transfers d))
  /\ (forall key x, d_transfers d !! key = Some x -> 0 < x_amount x /\ exists w,
        d_watches d !! x_watch_id x = Some w /\ hist key = Some (target w, x_amount x))
  /\ map_sum is_confirmation (d_outbox d) = map_sum is_confirmed (d_transfers d).
Proof. intros [[_ _ Ht Hc Ha _] _ _]%reachable_SysInv. done. Qed.

(** C2. Every payment is told exactly once: in every reachable state a confirmed transfer has one and
    only one [payment.confirmed] event that carries its chain, block hash, log index and amount, the
    event belongs to a watch on what the transfer paid, and no [payment.confirmed] event carries
    anything but a confirmed transfer. *)
Theorem payment_told_once (s : Sys) (key : TransferKey) :
  reachable s ->
  let d := sy_db s in
  let told ev := exists o x w, d_outbox d !! ev = Some o /\ o_event_type o = PaymentConfirmed
    /\ d_transfers d !! key = Some x /\ tells Confirmed key (x_amount x) o
    /\ d_watches d !! o_watch_id o = Some w /\ hist key = Some (target w, x_amount x) in
  (confirmed_at d key <-> exists ev, told ev)
  /\ (forall ev ev', told ev -> told ev' -> ev = ev')
  /\ (forall ev o, d_outbox d !! ev = Some o -> o_event_type o = PaymentConfirmed ->
      exists key' x, d_transfers d !! key' = Some x /\ x_status x = Confirmed /\ tells Confirmed key' (x_amount x) o).
Proof.
  intros [[_ _ _ _ _ [He Hr Hi]] _ _]%reachable_SysInv d told. split_and!.
  - split.
    + intros (x & Hx & Hs). destruct (He key x Hx Hs) as (ev & o & Ho & Et & Hk).
      destruct (Hr ev o Ho Et) as (key' & y & w & Hy & _ & Hk' & Hw & Hh).
      destruct (tells_key _ _ _ _ _ _ Hk Hk') as [<- _]. exists ev, o, y, w. done.
    + intros (ev & o & x & w & Ho & Et & Hx & Hk & _ & _).
      destruct (Hr ev o Ho Et) as (key' & y & v & Hy & Hs & Hk' & _).
      destruct (tells_key _ _ _ _ _ _ Hk Hk') as [<- _]. by exists y.
  - intros ev ev' (o & x & w & Ho & Et & _ & Hk & _) (o' & x' & w' & Ho' & Et' & _ & Hk' & _). eauto.
  - intros ev o Ho Et. destruct (Hr ev o Ho Et) as (key' & x & w & ? & ? & ? & _). eauto.
Qed.

(** C9. A watch completes exactly when its threshold is met: in every reachable state a watch is
    completed if and only if its confirmed amount has reached its threshold, and if and only if
    its [threshold.reached] event exists; that event is unique and the last of the watch. *)
Theorem completed_iff_threshold (s : Sys) (i : Z) (w : WatchRow) :
  reachable s -> d_watches (sy_db s) !! i = Some w ->
  let reached ev o := d_outbox (sy_db s) !! ev = Some o /\ o_watch_id o = i
                      /\ o_event_type o = ThresholdReached in
  (w_status w = Completed <-> w_threshold w <= w_confirmed_amount w)
  /\ (w_status w = Completed <-> exists ev o, reached ev o)
  /\ (forall ev o ev' o', reached ev o -> reached ev' o' -> ev = ev')
  /\ (forall ev o, reached ev o -> o_seq o = w_next_event_seq w).
Proof.
  intros [[Hw Ho _ _ _ _] _ _]%reachable_SysInv Hi reached.
  assert (Hlast : forall ev o, reached ev o -> w_status w = Completed /\ o_seq o = w_next_event_seq w).
  { intros ev o (Hev & Ew & Et). subst i. eapply oo_terminal; eauto. by rewrite Et. }
  destruct (wo_row _ _ Hw _ _ Hi) as (_ & _ & _ & Hst). split_and!.
  - destruct (w_status w); split; intros; done || lia.
  - split.
    + intros Hc. destruct (oo_ended _ _ Ho i w ThresholdReached Hi) as (ev & o & ? & ? & ?); [by rewrite Hc|].
      by exists ev, o.
    + intros (ev & o & H). by apply Hlast in H as [? _].
  - intros ev o ev' o' H H'. pose proof (Hlast _ _ H) as [_ E]. pose proof (Hlast _ _ H') as [_ E'].
    destruct H as (Hev & Ew & _), H' as (Hev' & Ew' & _). eapply (oo_inj _ _ Ho ev ev' o o'); congruence.
  - intros ev o H. by apply Hlast in H as [_ ?].
Qed.

(** C10. Event numbers are gap-free and unique: in every reachable state the events of a watch carry
    exactly the numbers from one to the watch's counter, each once, and each payload repeats the
    number, the type and the id of its row. *)
Theorem event_numbers_gap_free (s : Sys) (i : Z) (w : WatchRow) :
  reachable s -> d_watches (sy_db s) !! i = Some w ->
  let event n ev o := d_outbox (sy_db s) !! ev = Some o /\ o_watch_id o = i /\ o_seq o = n in
  (forall n, (exists ev o, event n ev o) <-> 1 <= n <= w_next_event_seq w)
  /\ (forall n ev o ev' o', event n ev o -> event n ev' o' -> ev = ev')
  /\ (forall n ev o, event n ev o -> p_id (o_payload o) = ev /\ p_sequence (o_payload o) = n
        /\ p_event_type (o_payload o) = o_event_type o /\ o_url o = w_webhook_url w).
Proof.
  intros [[_ Ho _ _ _ _] _ _]%reachable_SysInv Hi event. split_and!.
  - intros n. split.
    + intros (ev & o & Hev & Ew & En). destruct (oo_watch _ _ Ho ev o Hev) as (v & Hv & Hr & _).
      rewrite Ew in Hv. simplify_eq. done.
    + intros Hn. destruct (oo_full _ _ Ho i w n Hi Hn) as (ev & o & ? & ? & ?). by exists ev, o.
  - intros n ev o ev' o' (H1 & E1 & N1) (H2 & E2 & N2). eapply (oo_inj _ _ Ho ev ev' o o'); congruence.
  - intros n ev o (Hev & Ew & En). destruct (oo_payload _ _ Ho ev o Hev) as (? & ? & ?).
    destruct (oo_watch _ _ Ho ev o Hev) as (v & Hv & _ & Hu). rewrite Ew in Hv. simplify_eq.
    split_and!; congruence.
Qed.

(** A transfer log maps to at most one watch: in every reachable state two active watches on
    one chain, token and payment address are one watch, and registration order is strict. *)
Theorem one_active_watch (s : Sys) (i j : Z) (w w' : WatchRow) :
  reachable s -> d_watches (sy_db s) !! i = Some w -> d_watches (sy_db s) !! j = Some w' ->
  (w_status w = Active -> w_status w' = Active -> target w = target w' -> i = j)
  /\ (w_seq w = w_seq w' -> i = j) /\ w_id w = i.
Proof.
  intros [[Hw _ _ _ _] _ _]%reachable_SysInv Hi Hj. split_and!.
  - intros Ha Ha'. by eapply (wo_unique _ _ Hw).
  - by eapply (wo_seq_inj _ _ Hw).
  - by eapply (wo_id _ _ Hw).
Qed.

(** C16. [threshold.reached] never overtakes: when a dispatcher leases it from a reachable state,
    every other event of its watch has been delivered or given up. *)
Theorem threshold_never_overtakes (s : Sys) (now limit lease : Z) (locked : Z -> bool) (it : OutboxItem) :
  reachable s -> it ∈ (lease_due now locked (sy_db s) limit lease).1 ->
  i_event_type it = ThresholdReached ->
  forall ev o, d_outbox (sy_db s) !! ev = Some o -> o_watch_id o = i_watch_id it -> ev ≠ i_id it ->
    o_status o = ODelivered \/ o_status o = ODead.
Proof.
  intros [[_ Ho _ _ _ _] _ _]%reachable_SysInv Hin Et ev o Hev Ew Hne.
  apply elem_of_leased_items in Hin as (o1 & Hdue & Hit).
  apply elem_of_due in Hdue as (H1 & _ & _ & Hb & _). rewrite blocked_false in Hb.
  rewrite Hit in Et, Ew. cbn in Et, Ew.
  destruct (oo_watch _ _ Ho _ _ Hev) as (w & Hw & Hr & _). rewrite Ew in Hw.
  destruct (oo_terminal _ _ Ho _ o1 w Completed H1 Hw) as [_ Elast]; [by rewrite Et|].
  assert (o_seq o < o_seq o1) as Hlt.
  { destruct (Z.eq_dec (o_seq o) (o_seq o1)) as [E|]; [|lia].
    destruct Hne. by eapply (oo_inj _ _ Ho ev _ o o1). }
  specialize (Hb ev o Hev Ew Hlt). destruct (o_status o); naive_solver.
Qed.
End system.
