(* ===== verification/Stats.v ===== *)
(** * Stats: the totals [/v1/stats] reports are exact

    The table [stats_rollup] is maintained by deltas collected through a transaction. [Tally] says
    that the row of a chain and token agrees with the tables it summarises: the confirmed transfers,
    the amounts credited to the watches, the completed watches and the [payment.orphaned] events.
    The confirmed volume is summed in a wrapping [U256] before it is written, so it agrees as long as
    the token's total stays below 2^256. *)

From S2P Require Import Prelude Config Registry Cache Matcher Events Health Rpc Store Sweep Runtime.
From S2P Require Import Outbox TxSpec Ledger LedgerTx System.

(** ** What the row should say *)

Section stats.
Variable hist : TransferKey -> option (Z * Z * Z * Z).

(** A chain's column value and a token. *)
Implicit Types kt : Z * Z.

Definition n_confirmed kt (key : TransferKey) (x : TransferRec) : Z :=
  match hist key with
  | Some (t, _) => if decide (t.1 = kt /\ x_status x = Confirmed) then 1 else 0
  | None => 0
  end.
Definition n_volume kt (_ : Z) (w : WatchRow) : Z := if decide (target_key w = kt) then w_confirmed_amount w else 0.
Definition n_thresholds kt (_ : Z) (w : WatchRow) : Z :=
  if decide (target_key w = kt /\ w_status w = Completed) then 1 else 0.
Definition event_key (o : OutboxRec) : Z * Z :=
  let v := p_watch (o_payload o) in (as_i64 (wv_chain_id v), wv_token_address v).
Definition n_orphaned kt (_ : Z) (o : OutboxRec) : Z :=
  if decide (event_key o = kt /\ o_event_type o = PaymentOrphaned) then 1 else 0.

Definition truth (d : DB) kt : StatsRec :=
  mkStats (map_sum (n_confirmed kt) (d_transfers d)) (map_sum (n_orphaned kt) (d_outbox d))
    (map_sum (n_volume kt) (d_watches d)) (map_sum (n_thresholds kt) (d_watches d)).

Definition stats_row (d : DB) kt : StatsRec := default (mkStats 0 0 0 0) (d_stats d !! kt).

(** A volume that wrapped at most: never above the truth, and equal to it modulo 2^256. *)
Definition tallied (v t : Z) : Prop := 0 <= v <= t /\ (t - v) `mod` 2 ^ 256 = 0.

(** A row with the deltas still to be written. *)
Record balanced (s : StatsRec) (p : StatsDelta) (t : StatsRec) : Prop := {
  ba_confirmed : s_confirmed_count s + sd_confirmed p = s_confirmed_count t;
  ba_orphaned : s_orphaned_count s + sd_orphaned p = s_orphaned_count t;
  ba_thresholds : s_thresholds_reached s + sd_thresholds p = s_thresholds_reached t;
  ba_volume : tallied (s_confirmed_volume s + sd_volume p) (s_confirmed_volume t);
  ba_row : 0 <= s_confirmed_volume s;
  ba_delta : 0 <= sd_volume p;
}.

(** The deltas of a transaction on a chain. *)
Definition deltas (cid : Z) (stats : gmap Z StatsDelta) kt : StatsDelta :=
  if decide (kt.1 = cid) then default delta_zero (stats !! kt.2) else delta_zero.

Definition Tally (p : Z * Z -> StatsDelta) (d : DB) : Prop := forall k, balanced (stats_row d k) (p k) (truth d k).

Lemma Tally_ext p q d : (forall k, p k = q k) -> Tally p d -> Tally q d.
Proof. intros E H k. rewrite <- E. apply H. Qed.

(** ** Changes that matter to no total *)

Definition quiet (d d' : DB) : Prop := d_stats d' = d_stats d /\ forall k, truth d' k = truth d k.

#[global] Instance quiet_preorder : PreOrder quiet.
Proof. split; [done|]. intros d1 d2 d3 [E1 H1] [E2 H2]. split; [congruence|]. intros k. by rewrite H2, H1. Qed.

Lemma quiet_Tally p d d' : quiet d d' -> Tally p d -> Tally p d'.
Proof. intros [E Ht] H k. unfold stats_row. rewrite E, Ht. apply H. Qed.

Lemma map_sum_same {K V} `{Countable K} (f : K -> V -> Z) m i x y :
  m !! i = Some x -> f i y = f i x -> map_sum f (<[i := y]> m) = map_sum f m.
Proof. intros Hi E. rewrite (map_sum_insert_upd f m i x y Hi). lia. Qed.

Lemma quiet_watch d i w w' :
  d_watches d !! i = Some w -> target_key w' = target_key w -> w_confirmed_amount w' = w_confirmed_amount w ->
  (w_status w' = Completed <-> w_status w = Completed) -> quiet d (put_watch i w' d).
Proof.
  intros Hi Hk Ha Hs. split; [done|]. intros k. unfold truth, put_watch. cbn. f_equal; (eapply map_sum_same; [exact Hi|]).
  - unfold n_volume. by rewrite Hk, Ha.
  - unfold n_thresholds. rewrite Hk. apply decide_ext. by rewrite Hs.
Qed.

Lemma quiet_event d ev o : d_outbox d !! ev = None -> o_event_type o ≠ PaymentOrphaned -> quiet d (put_event ev o d).
Proof.
  intros Hev Ho. split; [done|]. intros k. unfold truth, put_event. cbn. f_equal.
  rewrite map_sum_insert_new by done. unfold n_orphaned. rewrite decide_False by (by intros [_ ?]). done.
Qed.

Lemma quiet_delivery d ev o o' : d_outbox d !! ev = Some o -> same_event o o' -> quiet d (put_event ev o' d).
Proof.
  intros Hev Hs. split; [done|]. intros k. unfold truth, put_event. cbn. f_equal. eapply map_sum_same; [exact Hev|].
  unfold n_orphaned, event_key. destruct Hs as (_ & _ & E1 & _ & E2 & _). by rewrite E1, E2.
Qed.

Lemma quiet_transfer d key x :
  (forall y, d_transfers d !! key = Some y -> x_status y ≠ Confirmed) -> x_status x ≠ Confirmed ->
  quiet d (put_transfer key x d).
Proof.
  intros Hold Hx. split; [done|]. intros k. unfold truth, put_transfer. cbn. f_equal.
  assert (E : forall y, x_status y ≠ Confirmed -> n_confirmed k key y = 0).
  { intros y Hy. unfold n_confirmed. destruct (hist key) as [[t a]|]; [|done]. by rewrite decide_False by (by intros [_ ?]). }
  destruct (d_transfers d !! key) as [y|] eqn:Hy.
  - eapply map_sum_same; [exact Hy|]. rewrite !E; auto.
  - rewrite map_sum_insert_new by done. rewrite E by done. lia.
Qed.

(** ** The operations outside a sweep *)

Lemma record_pending_quiet env d chain m r d' : ids_ok d -> record_pending env d chain m = (r, d') -> quiet d d'.
Proof.
  intros Hids H. unfold record_pending in H. destruct r as [b|e]; [|by apply run_tx_Err in H as ->].
  apply run_tx_Ok in H as [[k H]|[-> _]]; [|done]. unfold record_pending_tx in H. tx_inv H.
  apply lock_active_watch_Ok in Ht as [(-> & [= -> ->] & _)|(w & w' & Hw & Ha & Hr & -> & [= -> ->])]; [tx_simp H|].
  tx_inv H. apply insert_pending_Ok in Ht as [(-> & [= -> ->] & _)|(-> & Hx & [= -> ->])]; [tx_simp H|].
  tx_inv H. apply insert_event_Ok in Ht as ([= -> -> ->] & Hev & _). tx_simp H. cbn in Hx, Hev.
  etrans; [|by apply quiet_event]. etrans; [|apply quiet_transfer; [|done]; intros y Hy; cbn in Hy; congruence].
  by apply (quiet_watch d _ w (bump w)).
Qed.

Lemma create_watch_quiet env d new r d' : create_watch env d new = (r, d') -> quiet d d'.
Proof.
  intros H. destruct r as [o|e]; [|by apply run_tx_Err in H as ->].
  apply create_watch_Ok in H as [c w Hc Hth Ha Hnew _|r w Ha _]; [|done]. split; [done|]. intros k. unfold truth. cbn.
  rewrite !map_sum_insert_new by done. f_equal.
  - unfold n_volume. cbn. by destruct (decide _).
  - unfold n_thresholds. by rewrite decide_False by (by intros [_ ?]).
Qed.

Lemma cancel_watch_quiet env d i r d' : cancel_watch env d i = (r, d') -> quiet d d'.
Proof.
  unfold cancel_watch, is_active. destruct (d_watches d !! i) as [w|] eqn:Hw; [|by intros [= <- <-]].
  case_bool_decide as Ha; intros [= <- <-]; [|done]. apply (quiet_watch d i w (with_status Cancelled (e_now env) w)); [done..|].
  cbn. rewrite Ha. done.
Qed.

Lemma expire_events_quiet chain now ps env acc d k l d' k' :
  NoDup ps.*1 -> (forall i w, (i, w) ∈ ps -> d_watches d !! i = Some w /\ w_status w = Active) ->
  mfold (fun row acc => watch ← tx_lift (from_row row);
                        _ ← insert_event chain watch WatchExpired None; mret (acc ++ [watch]))
    (expired now <$> ps.*2) acc env (put_expired now ps d, k) = Ok (l, (d', k')) -> quiet d d'.
Proof.
  revert acc d k. induction ps as [|[i w] ps IH]; intros acc d k Hnd Hps H; cbn [mfold fmap list_fmap] in H; [by tx_simp H|].
  apply NoDup_fmap_cons in Hnd as [Hi Hnd]. destruct (Hps i w) as [Hw Ha]; [apply list_elem_of_here|].
  apply Tx_bind_Ok in H as (acc1 & [d1 k1] & Hb & H).
  tx_inv Hb. unfold tx_lift in Ht. cbn in Ht. destruct (from_row _) as [w'|] eqn:Hr; simplify_eq.
  tx_inv Hb. apply insert_event_Ok in Ht as ([= -> -> ->] & Hev & _). tx_simp Hb.
  change (set_outbox (<[?e := ?o]>) ?x) with (put_event e o x) in H.
  change (foldl _ ?x ps) with (put_expired now ps x) in H, Hev.
  rewrite put_expired_event in H. rewrite put_expired_outbox in Hev. apply IH in H; [|done|].
  - etrans; [|exact H]. etrans; [|by apply quiet_event].
    apply (quiet_watch d i w (expired now w)); [done..|]. cbn. by rewrite Ha.
  - intros j v Hin. cbn. rewrite lookup_insert_ne; [apply Hps; by apply list_elem_of_further|].
    intros ->. by apply (Hi (j, v)).
Qed.

Lemma expire_watches_quiet env d chain limit r d' :
  ids_ok d -> expire_watches env d chain limit = (r, d') -> quiet d d'.
Proof.
  intros Hids H. destruct r as [l|e]; [|by apply run_tx_Err in H as ->].
  apply run_tx_Ok in H as [[k H]|[-> _]]; [|done]. unfold expire_watches_tx in H.
  tx_inv H. tx_simp Ht. tx_inv H. tx_simp Ht. tx_inv H.
  destruct (overdue_ids_ok d (as_i64 (ch_chain_id chain)) (e_now env) limit Hids) as [Hnd Hov].
  apply expire_rows in Ht as (ps & Eps & -> & -> & -> & Hps); [|done].
  tx_inv H. tx_simp H. eapply expire_events_quiet; [by rewrite Eps| |exact Ht].
  intros i w Hin. specialize (Hps i w Hin). split; [done|].
  destruct (Hov i) as (w' & Hw' & Ha & _); [|congruence].
  rewrite <- Eps. apply list_elem_of_fmap. by exists (i, w).
Qed.

Lemma update_outbox_quiet id guard f d : (forall o, same_event o (f o)) -> quiet d (update_outbox id guard f d).
Proof.
  intros Hf. unfold update_outbox. destruct (d_outbox d !! id) as [o|] eqn:Ho; [|done].
  destruct (guard o); [|done]. by apply (quiet_delivery d id o (f o)).
Qed.

Lemma delivery_quiet d d' : delivery d d' -> quiet d d'.
Proof.
  destruct 1 as [now locked limit lease|now id status|now id delay status error|id status error|now id delay];
    [|by apply update_outbox_quiet..].
  unfold lease_due. cbn [snd]. pose proof (NoDup_due now locked d limit) as Hnd.
  assert (Hin : forall ev o, (ev, o) ∈ due now locked d limit -> d_outbox d !! ev = Some o).
  { by intros ev o (? & _)%elem_of_due. }
  revert Hnd Hin. generalize (due now locked d limit). intros rows. revert d.
  induction rows as [|[ev o] rows IH]; intros d Hnd Hin; [done|].
  apply NoDup_fmap_cons in Hnd as [Hne Hnd]. cbn [fmap list_fmap foldl fst snd].
  etrans; [apply (quiet_delivery d ev o (leased now lease o)); [apply Hin, list_elem_of_here|done]|].
  apply IH; [done|]. intros ev' o' Hin'. cbn. rewrite lookup_insert_ne.
  - apply Hin. by apply list_elem_of_further.
  - intros ->. by apply (Hne (ev', o')).
Qed.

Lemma bootstrap_quiet now chain cid decimals head d rt r d' rt' :
  bootstrap now chain cid decimals head d rt = (r, d', rt') -> quiet d d'.
Proof.
  intros H. unfold bootstrap, ensure_cursor in H. repeat (case_match; simplify_eq); done.
Qed.

Lemma fast_forward_quiet d cid tgt r d' : fast_forward_cursor d cid tgt = (r, d') -> quiet d d'.
Proof.
  unfold fast_forward_cursor. destruct (cursor d cid); intros [= <- <-]; [|done]. by destruct (negb _).
Qed.

(** ** Inside a sweep *)

Lemma deltas_entry cid stats f tok kt :
  deltas cid (stats_entry f tok stats) kt = if decide (kt = (cid, tok)) then f (deltas cid stats kt) else deltas cid stats kt.
Proof.
  unfold deltas, stats_entry. destruct kt as [c t]. cbn. destruct (decide (c = cid)) as [->|Hc].
  - destruct (decide ((cid, t) = (cid, tok))) as [[= ->]|Hne]; [by rewrite lookup_insert_eq|].
    rewrite lookup_insert_ne by congruence. done.
  - by rewrite decide_False by congruence.
Qed.

Lemma tallied_add v p a t : 0 <= v -> 0 <= p -> 0 <= a -> tallied (v + p) t -> tallied (v + u256_add p a) (t + a).
Proof.
  intros Hv Hp Ha [[H1 H2] Hm]. unfold tallied, u256_add. assert (HM : 0 < 2 ^ 256) by reflexivity.
  revert Hm HM. generalize (2 ^ 256). intros M Hm HM.
  pose proof (Z.div_mod (p + a) M ltac:(lia)) as Hd. pose proof (Z.mod_pos_bound (p + a) M HM) as Hr.
  assert (Hq : 0 <= (p + a) `div` M) by (apply Z.div_pos; lia). split; [nia|].
  replace (t + a - (v + (p + a) `mod` M)) with ((t - (v + p)) + ((p + a) `div` M) * M) by lia.
  by rewrite Z.mod_add by lia.
Qed.

Lemma balanced_eq s p t p' t' : balanced s p t -> p' = p -> t' = t -> balanced s p' t'.
Proof. by intros ? -> ->. Qed.

Lemma balanced_add s p t a n :
  0 <= a -> balanced s p t ->
  balanced s (mkDelta (sd_confirmed p + 1) (sd_orphaned p) (sd_thresholds p + n) (u256_add (sd_volume p) a))
    (mkStats (s_confirmed_count t + 1) (s_orphaned_count t) (s_confirmed_volume t + a) (s_thresholds_reached t + n)).
Proof.
  intros Ha [B1 B2 B3 B4 B5 B6]. split; cbn; [lia..| |done|].
  - by apply tallied_add.
  - unfold u256_add. by apply Z.mod_pos_bound.
Qed.

(** A counted transfer moves the totals of its token by one transfer and its amount. *)
Definition done_of (w : WatchRow) : Z := if decide (w_status w = Completed) then 1 else 0.

Lemma truth_count d i w w' key x amt ev o kt :
  d_watches d !! i = Some w -> target_key w' = target_key w -> countable (d_transfers d !! key) ->
  hist key = Some (target w, amt) -> x_status x = Confirmed -> d_outbox d !! ev = None -> o_event_type o ≠ PaymentOrphaned ->
  let t := truth d kt in
  truth (put_event ev o (put_watch i w' (put_transfer key x d))) kt =
    if decide (kt = target_key w)
    then mkStats (s_confirmed_count t + 1) (s_orphaned_count t)
           (s_confirmed_volume t + (w_confirmed_amount w' - w_confirmed_amount w))
           (s_thresholds_reached t + (done_of w' - done_of w))
    else t.
Proof.
  intros Hw Hk Hc Hh Hx Hev Ho t. unfold truth, put_event, put_watch, put_transfer. cbn.
  rewrite !(map_sum_insert_upd _ _ i w w' Hw), (map_sum_insert_new _ _ ev o Hev).
  assert (E1 : map_sum (n_confirmed kt) (<[key := x]> (d_transfers d))
             = map_sum (n_confirmed kt) (d_transfers d) + (if decide (kt = target_key w) then 1 else 0)).
  { assert (Ex : n_confirmed kt key x = if decide (kt = target_key w) then 1 else 0).
    { unfold n_confirmed. rewrite Hh. apply decide_ext. unfold target, target_key. cbn. rewrite Hx. naive_solver. }
    destruct (d_transfers d !! key) as [y|] eqn:Hy.
    - rewrite (map_sum_insert_upd _ _ _ y x Hy), Ex. cbn in Hc.
      assert (n_confirmed kt key y = 0) as ->; [|lia]. unfold n_confirmed. rewrite Hh.
      by rewrite decide_False by (intros [_ ?]; congruence).
    - rewrite map_sum_insert_new by done. rewrite Ex. lia. }
  assert (E2 : n_orphaned kt ev o = 0) by (unfold n_orphaned; by rewrite decide_False by (by intros [_ ?])).
  rewrite E1, E2. unfold n_volume, n_thresholds, done_of. rewrite Hk.
  destruct (decide (kt = target_key w)) as [->|Hne].
  - rewrite !(decide_True (P := target_key w = target_key w)) by done. f_equal; [lia|].
    assert (D : forall s, (if decide (target_key w = target_key w /\ s = Completed) then 1 else 0) = if decide (s = Completed) then 1 else 0).
    { intros s. apply decide_ext. naive_solver. }
    rewrite !D. lia.
  - rewrite !(decide_False (P := target_key w = kt)), !(decide_False (P := target_key w = kt /\ _)) by naive_solver.
    unfold t, truth, n_volume, n_thresholds. f_equal; lia.
Qed.

(** A match names a watch of the chain it was found on. *)
Definition matched_here (chain : ChainSpec) (d : DB) (m : MatchedTransfer) : Prop :=
  matched_ok hist chain d m
  /\ forall t, target <$> d_watches d !! r_id (m_watch m) = Some t -> t.1.1 = as_i64 (ch_chain_id chain).

Lemma matched_here_frame chain d d' m : same_targets d d' -> matched_here chain d m -> matched_here chain d' m.
Proof. intros Hf [H1 H2]. split; [by eapply matched_ok_frame|]. intros t Ht. apply H2. by rewrite <- Hf. Qed.

Lemma count_tally chain m env d k st out st' out' d' k' :
  matched_here chain d m -> count_result chain m env d k st out st' out' d' k' ->
  Tally (deltas (as_i64 (ch_chain_id chain)) st) d -> Tally (deltas (as_i64 (ch_chain_id chain)) st') d'.
Proof.
  intros [[Hpos Hm] Hh] H HT.
  destruct H as [_|w w1 Hw Ha Hc Hr Hth Hev _|w w1 w2 Hw Ha Hc Hr Hr2 Hth Hev _ Hev2 Hne _]; [done|..];
    (assert (Et : target_key w = (as_i64 (ch_chain_id chain), w_token_address w));
     [specialize (Hh (target w)); rewrite Hw in Hh; unfold target_key; f_equal; by apply Hh|]);
    (assert (Hhist : hist (transfer_key chain m) = Some (target w, m_amount m)); [apply Hm; by rewrite Hw|]);
    intros kt; specialize (HT kt); unfold stats_row in *;
    cbn [d_stats put_event put_watch put_transfer set_outbox set_watches set_transfers].
  - rewrite deltas_entry, <- Et.
    erewrite (truth_count d _ w (credited (m_amount m) w)); [|done..|by destruct (d_transfers d !! _)|done|done].
    destruct (decide (kt = target_key w)); [|done]. eapply balanced_eq; [exact (balanced_add _ _ _ (m_amount m) 0 ltac:(lia) HT)|..].
    + unfold add_confirmed_delta. f_equal. lia.
    + unfold done_of. cbn. rewrite Ha. f_equal; cbn; lia.
  - rewrite !deltas_entry, <- Et.
    match goal with |- balanced _ _ (truth (put_event ?ev ?o ?e) _) => rewrite (proj2 (quiet_event e ev o
      ltac:(cbn; by rewrite lookup_insert_ne by done) ltac:(done)) kt) end.
    erewrite (truth_count d _ w (retired (e_now env) (credited (m_amount m) w))); [|done..|by destruct (d_transfers d !! _)|done|done].
    destruct (decide (kt = target_key w)); [|done]. eapply balanced_eq; [exact (balanced_add _ _ _ (m_amount m) 1 ltac:(lia) HT)|..].
    + done.
    + unfold done_of. cbn. rewrite Ha. f_equal; cbn; lia.
Qed.

Lemma truth_orphaned d ev o kt :
  d_outbox d !! ev = None -> o_event_type o = PaymentOrphaned ->
  truth (put_event ev o d) kt =
    if decide (kt = event_key o)
    then mkStats (s_confirmed_count (truth d kt)) (s_orphaned_count (truth d kt) + 1) (s_confirmed_volume (truth d kt))
           (s_thresholds_reached (truth d kt))
    else truth d kt.
Proof.
  intros Hev Ho. unfold truth, put_event. cbn. rewrite (map_sum_insert_new _ _ ev o Hev).
  assert (n_orphaned kt ev o = if decide (kt = event_key o) then 1 else 0) as ->.
  { unfold n_orphaned. apply decide_ext. naive_solver. }
  destruct (decide _); f_equal; lia.
Qed.

Lemma resolve_tally chain cs acs key x acc env d k acc' d' k' :
  d_transfers d !! key = Some x -> x_status x = Pending ->
  resolve_leftover chain cs acs (key, x) acc env (d, k) = Ok (acc', (d', k')) ->
  Tally (deltas (as_i64 (ch_chain_id chain)) acc.1) d -> Tally (deltas (as_i64 (ch_chain_id chain)) acc'.1) d'.
Proof.
  intros Hx Hp H HT. destruct acc as [stats out]. unfold resolve_leftover in H. cbv zeta in H.
  assert (Hq : forall st, st ≠ Confirmed -> quiet d (put_transfer key (set_transfer_status st x) d)).
  { intros st Hst. apply quiet_transfer; [|done]. intros y Hy. simplify_eq. congruence. }
  destruct (_ || _).
  - tx_inv H. tx_simp Ht. tx_simp H. erewrite set_transfers_alter by done. by eapply quiet_Tally; [apply Hq|].
  - tx_inv H. tx_simp Ht. erewrite set_transfers_alter in H by done. tx_inv H.
    apply lock_active_watch_Ok in Ht as [(-> & [= -> ->] & Hna)|(w & w' & Hw & Ha & Hr & -> & [= -> ->])].
    { tx_simp H. by eapply quiet_Tally; [apply Hq|]. }
    tx_inv H. unfold tx_lift in Ht. destruct (amount _); simplify_eq. tx_inv H.
    apply insert_event_Ok in Ht as ([= -> -> ->] & Hev & _). tx_simp H. cbn in Hw, Hev.
    apply from_row_fields in Hr as Hf. destruct Hf as (_ & _ & _ & Etok & _). cbn in Etok. change (set_outbox (<[?e := ?o]>) ?y) with (put_event e o y).
    match goal with |- Tally _ (put_event _ _ ?y) => assert (HT1 : Tally (deltas (as_i64 (ch_chain_id chain)) stats) y) end.
    { eapply quiet_Tally; [|exact HT]. etrans; [by apply (Hq Orphaned)|]. by apply (quiet_watch _ _ w (bump w)). }
    intros kt. specialize (HT1 kt). cbn [fst]. rewrite deltas_entry, truth_orphaned by done.
    change (event_key _) with (as_i64 (ch_chain_id chain), w_token_address w').
    destruct (decide (kt = _)); [|exact HT1]. destruct HT1. split; cbn [s_confirmed_count s_orphaned_count s_confirmed_volume s_thresholds_reached add_orphaned_delta sd_confirmed sd_orphaned sd_thresholds sd_volume]; try done; unfold stats_row in *; cbn [d_stats put_event put_watch put_transfer set_outbox set_watches set_transfers] in *; lia.
Qed.

Lemma apply_stats_Ok chain_id tok dl env d k d' k' :
  apply_stats chain_id tok dl env (d, k) = Ok (tt, (d', k')) ->
  let s := stats_row d (as_i64 chain_id, tok) in
  d' = set_stats (<[(as_i64 chain_id, tok) := mkStats (s_confirmed_count s + sd_confirmed dl) (s_orphaned_count s + sd_orphaned dl)
         (s_confirmed_volume s + sd_volume dl) (s_thresholds_reached s + sd_thresholds dl)]>) d.
Proof.
  unfold apply_stats, stats_row. intros H. tx_inv H. tx_simp Ht. apply Tx_bind_Ok in H as (row & [d3 k3] & Hr & H). tx_simp H.
  destruct (d_stats d0 !! _) as [s|]; cbn.
  - tx_inv Hr. tx_simp Hr. unfold tx_lift in Ht. unfold numeric_add in Ht. by destruct (_ <? _); simplify_eq.
  - tx_simp Hr. done.
Qed.

Lemma write_tally chain stats env d k u d' k' :
  write_stats chain stats env (d, k) = Ok (u, (d', k')) ->
  Tally (deltas (as_i64 (ch_chain_id chain)) stats) d -> Tally (fun _ => delta_zero) d'.
Proof.
  set (cid := as_i64 (ch_chain_id chain)). unfold write_stats.
  assert (Hnd : NoDup (sort_by fst (map_to_list stats)).*1) by (rewrite sort_by_perm; apply NoDup_fst_map_to_list).
  assert (E : stats = list_to_map (sort_by fst (map_to_list stats))).
  { rewrite <- (list_to_map_to_list stats) at 1. apply list_to_map_proper; [apply NoDup_fst_map_to_list|]. by rewrite sort_by_perm. }
  rewrite E at 2. clear E. revert Hnd. generalize (sort_by fst (map_to_list stats)). clear stats.
  intros l. revert d k. induction l as [|[tok dl] l IH]; intros d k Hnd H HT; cbn [mfold] in H.
  { tx_simp H. eapply Tally_ext; [|exact HT]. intros kt. unfold deltas. cbn. rewrite lookup_empty. by destruct (decide _). }
  apply NoDup_cons in Hnd as [Hin Hnd]. tx_inv H. destruct a. apply apply_stats_Ok in Ht. cbv zeta in Ht. fold cid in Ht.
  eapply IH; [exact Hnd|exact H|]. subst d0. intros kt. specialize (HT kt). cbn [fst snd] in *.
  assert (Ed : deltas cid (list_to_map l) kt = if decide (kt = (cid, tok)) then delta_zero else deltas cid (list_to_map ((tok, dl) :: l)) kt).
  { unfold deltas. destruct kt as [c t]. cbn. destruct (decide (c = cid)) as [->|]; [|by destruct (decide _)].
    destruct (decide ((cid, t) = (cid, tok))) as [[= ->]|Hne].
    - apply not_elem_of_list_to_map in Hin. cbn in Hin. by rewrite Hin.
    - by rewrite lookup_insert_ne by congruence. }
  rewrite Ed. unfold stats_row. cbn [d_stats set_stats]. destruct (decide (kt = (cid, tok))) as [->|Hne].
  - rewrite lookup_insert_eq. unfold deltas in HT. cbn in HT. rewrite decide_True, lookup_insert_eq in HT by done. cbn in HT.
    change (truth (set_stats _ d) ?kt) with (truth d kt). destruct HT as [B1 B2 B3 B4 B5 B6]. unfold stats_row in *.
    split; cbn [s_confirmed_count s_orphaned_count s_confirmed_volume s_thresholds_reached default from_option id
      delta_zero sd_confirmed sd_orphaned sd_thresholds sd_volume]; [lia..| |lia|done]. by rewrite Z.add_0_r.
  - rewrite lookup_insert_ne by congruence. exact HT.
Qed.

(** ** The two transactions *)

Lemma count_all_tally chain ms env acc d k acc' d' k' :
  Inv hist d -> Forall (matched_here chain d) ms ->
  mfold (count_confirmed chain) ms acc env (d, k) = Ok (acc', (d', k')) ->
  Tally (deltas (as_i64 (ch_chain_id chain)) acc.1) d -> Tally (deltas (as_i64 (ch_chain_id chain)) acc'.1) d'.
Proof.
  intros HI Hms H HT.
  apply (mfold_Tx_inv (count_confirmed chain) (fun a d1 _ => rtc (step hist) d d1 /\ same_targets d d1
    /\ Tally (deltas (as_i64 (ch_chain_id chain)) a.1) d1) env ms acc (d, k) acc' (d', k')) in H; [by apply H| |done].
  clear H. intros m a d1 k1 a' d2 k2 Hin (Hs & Hf & HT1) H. rewrite Forall_forall in Hms. specialize (Hms m Hin).
  apply (matched_here_frame chain d d1 m Hf) in Hms.
  assert (Hids : ids_ok d1) by by eapply ids_ok_of_inv, Inv_steps.
  pose proof H as Hc. apply count_confirmed_Ok in Hc; [|done].
  apply (count_confirmed_steps hist) in H as [Hs' Hf']; [|done|apply Hms].
  split_and!; [by etrans|by etrans|]. by eapply count_tally.
Qed.

Lemma resolve_all_tally chain cs acs ls acc env d k acc' d' k' :
  NoDup ls.*1 -> (forall key x, (key, x) ∈ ls -> d_transfers d !! key = Some x /\ x_status x = Pending) ->
  mfold (resolve_leftover chain cs acs) ls acc env (d, k) = Ok (acc', (d', k')) ->
  Tally (deltas (as_i64 (ch_chain_id chain)) acc.1) d -> Tally (deltas (as_i64 (ch_chain_id chain)) acc'.1) d'.
Proof.
  revert acc d k. induction ls as [|[key x] ls IH]; intros acc d k Hnd Hls H HT; cbn [mfold] in H; [by tx_simp H|].
  apply NoDup_cons in Hnd as [Hkey Hnd]. cbn in Hkey.
  destruct (Hls key x) as [Hx Hp]; [apply list_elem_of_here|]. tx_inv H. pose proof Ht as Hr.
  apply resolve_tally in Ht; [|done..]. destruct a as [stats1 out1]. apply resolve_leftover_Ok in Hr; [|done].
  apply (resolve_leftover_steps hist) in Hr as (_ & _ & st & _ & Etr); [|done..].
  eapply IH; [exact Hnd| |exact H|exact Ht]. intros key' x' Hin'. rewrite Etr, lookup_insert_ne.
  - apply Hls. by apply list_elem_of_further.
  - intros ->. apply Hkey, list_elem_of_fmap. by exists (key', x').
Qed.

Lemma Tally_start p d cid : Tally p d -> (forall kt, p kt = delta_zero) -> Tally (deltas cid ∅) d.
Proof.
  intros H E. eapply Tally_ext; [|exact H]. intros kt. rewrite E. unfold deltas. rewrite lookup_empty. by destruct (decide _).
Qed.

(** Matches through a coherent cache are of the chain. *)
Lemma match_log_here chain `{!SpecOk chain} cache d l m :
  coherent chain cache d -> log_ok hist chain l -> match_log chain cache l = Ok m -> matched_here chain d m.
Proof.
  intros Hc Hl Hm. split; [by eapply match_log_ok|].
  apply match_log_inv in Hm as (token & _ & Hget & _). destruct (Hc _ _ Hget) as (w & token' & Hw & _ & _ & Htgt).
  intros t. rewrite Hw. intros [= <-]. by rewrite Htgt.
Qed.

Lemma apply_sweep_tally chain `{!SpecOk chain} env d cache c to logs r d' cache' :
  Inv hist d -> coherent chain cache d -> Forall (fun l => l_removed l = false -> log_ok hist chain l) logs ->
  apply_sweep env d chain cache c to logs = (r, d', cache') ->
  Tally (fun _ => delta_zero) d -> Tally (fun _ => delta_zero) d'.
Proof.
  intros HI Hc Hl H HT. unfold apply_sweep in H.
  destruct (cursor d _) as [actual|e]; simplify_eq; [|done]. destruct (negb _); simplify_eq; [done|].
  pose proof (delta_load_coherent chain cache d (cache_last_seq cache) (ids_ok_of_inv hist d HI) Hc) as Hc1.
  destruct (load_entries cache _) as [cache1 disc]. cbn in Hc1.
  destruct (run_tx env d _) as [[out|e] d1] eqn:Hrun; simplify_eq; [|by apply run_tx_Err in Hrun as ->].
  apply run_tx_Ok in Hrun as [[k Hrun]|[-> _]]; [|done]. tx_inv Hrun. tx_simp Hrun.
  unfold sweep_account in Ht. cbv zeta in Ht. apply Tx_bind_Ok in Ht as (so & [d2 k2] & Hcount & Ht).
  apply count_all_tally in Hcount; [|done| |by eapply Tally_start].
  2:{ apply Forall_forall. intros m (l & Hin & Hr & Hm)%matched_sweep. rewrite Forall_forall in Hl. eapply match_log_here; eauto. }
  tx_inv Ht. tx_simp Ht0. tx_inv Ht. apply resolve_all_tally in Ht0; [|apply NoDup_leftovers| |exact Hcount].
  2:{ intros key x (? & _ & ? & _)%elem_of_leftovers. done. }
  destruct a as [stats out1]. tx_inv Ht. apply write_tally in Ht1; [|exact Ht0]. tx_inv Ht. tx_simp Ht2. tx_simp Ht. exact Ht1.
Qed.

Lemma clear_backfills_quiet ids d : quiet d (set_watches (clear_backfills ids) d).
Proof.
  induction ids as [|i ids IH]; [by destruct d|].
  change (set_watches (clear_backfills (i :: ids)) d)
    with (set_watches (alter (with_backfill_to None) i) (set_watches (clear_backfills ids) d)).
  rewrite set_watches_alter. destruct (d_watches _ !! i) as [w|] eqn:Hw; [|done].
  etrans; [exact IH|]. by eapply quiet_watch.
Qed.

Lemma apply_backfill_tally chain `{!SpecOk chain} env d cache bs logs r d' cache' :
  Inv hist d -> Forall (backfill_ok chain d) bs -> Forall (fun l => l_removed l = false -> log_ok hist chain l) logs ->
  apply_backfill env d chain cache bs logs = (r, d', cache') ->
  Tally (fun _ => delta_zero) d -> Tally (fun _ => delta_zero) d'.
Proof.
  intros HI Hbs Hl H HT. unfold apply_backfill in H.
  destruct (run_tx env d _) as [[out|e] d1] eqn:Hrun; simplify_eq; [|by apply run_tx_Err in Hrun as ->].
  apply run_tx_Ok in Hrun as [[k Hrun]|[-> _]]; [|done]. unfold apply_backfill_tx in Hrun.
  tx_inv Hrun. apply count_all_tally in Ht; [|done| |by eapply Tally_start].
  2:{ apply Forall_forall. intros m [(l & Hin & Hr & Hm) _]%matched_backfill. rewrite Forall_forall in Hl.
      apply (match_log_here chain (backfill_scope chain bs).1 d l); [by apply backfill_scope_coherent|auto|exact Hm]. }
  destruct a as [stats out1]. tx_inv Hrun. tx_simp Ht0. tx_inv Hrun. apply write_tally in Ht0; [by tx_simp Hrun|].
  eapply quiet_Tally; [apply clear_backfills_quiet|exact Ht].
Qed.
End stats.

(** ** In the system *)

Section invariant.
Variable hist : TransferKey -> option (Z * Z * Z * Z).
Variable chains : list ChainSpec.
Hypothesis Hspecs : Forall SpecOk chains.

Lemma action_tally s s' :
  SysInv hist chains s -> action hist chains s s' ->
  Tally hist (fun _ => delta_zero) (sy_db s) -> Tally hist (fun _ => delta_zero) (sy_db s').
Proof.
  intros HI Ha. induction Ha as [| |d rts seen env new r d' H| | | | | |d rts seen j chain m env r d' Hch Hin H
    |d rts seen inst j chain rt env c to logs r d' cache' Hch Hrt Hl H
    |d rts seen inst j chain rt env batch logs r d' cache' Hch Hrt Hb Hl H| | | | |d rts seen d' rts' seen' _ IH];
    pose proof HI as [Hdb Hca _]; pose proof (ids_ok_of_inv _ _ Hdb) as Hids; cbn in *; try done; [..|by apply IH].
  - intros HT. eapply quiet_Tally; [|exact HT]. by eapply bootstrap_quiet.
  - intros HT. eapply quiet_Tally; [|exact HT]. by eapply create_watch_quiet.
  - intros HT. eapply quiet_Tally; [|exact HT]. by eapply record_pending_quiet.
  - pose proof (spec_at _ Hspecs _ _ Hch). by eapply apply_sweep_tally; eauto.
  - pose proof (spec_at _ Hspecs _ _ Hch). by eapply apply_backfill_tally; eauto.
  - intros HT. eapply quiet_Tally; [|exact HT]. by eapply fast_forward_quiet.
  - intros HT. eapply quiet_Tally; [|exact HT]. by eapply expire_watches_quiet.
  - intros HT. eapply quiet_Tally; [|exact HT]. by eapply cancel_watch_quiet.
  - intros HT. eapply quiet_Tally; [|exact HT]. by apply delivery_quiet.
Qed.

Lemma reachable_tally s : reachable hist chains s -> Tally hist (fun _ => delta_zero) (sy_db s).
Proof.
  unfold reachable. intros H.
  assert (G : forall s0, rtc (action hist chains) s0 s -> SysInv hist chains s0 -> Tally hist (fun _ => delta_zero) (sy_db s0) ->
    Tally hist (fun _ => delta_zero) (sy_db s)).
  { intros s0 Hs. induction Hs as [|s1 s2 s3 Ha _ IH]; [done|]. intros HI HT.
    apply (IH H); [by eapply SysInv_action|by eapply action_tally]. }
  apply (G _ H); [apply SysInv_init|]. intros kt. unfold stats_row, truth. cbn. rewrite lookup_empty, !map_sum_empty.
  by split; cbn.
Qed.

(** C11. The statistics are exact. In every reachable state the row of [stats_rollup] for a chain and a
    token counts exactly its confirmed transfers, its completed watches and its [payment.orphaned]
    events; its volume is at most what its watches have been credited, equal to it modulo 2^256, and
    hence equal to it while that total is below 2^256. *)
Theorem stats_exact (s : Sys) (cid token : Z) :
  reachable hist chains s ->
  let d := sy_db s in
  let row := stats_row d (cid, token) in
  s_confirmed_count row = map_sum (n_confirmed hist (cid, token)) (d_transfers d)
  /\ s_thresholds_reached row = map_sum (n_thresholds (cid, token)) (d_watches d)
  /\ s_orphaned_count row = map_sum (n_orphaned (cid, token)) (d_outbox d)
  /\ tallied (s_confirmed_volume row) (map_sum (n_volume (cid, token)) (d_watches d))
  /\ (map_sum (n_volume (cid, token)) (d_watches d) < 2 ^ 256 ->
      s_confirmed_volume row = map_sum (n_volume (cid, token)) (d_watches d)).
Proof.
  intros Hr d row. destruct (reachable_tally s Hr (cid, token)) as [B1 B2 B3 B4 _ _]. fold d row in B1, B2, B3, B4.
  cbn in B1, B2, B3, B4. rewrite Z.add_0_r in B1, B2, B3, B4. split_and!; [done..|].
  intros Hlt. destruct B4 as [[H1 H2] Hm]. apply Z.mod_divide in Hm as [q Hq]; [|done].
  assert (q = 0) by nia. lia.
Qed.
End invariant.
