(* ===== verification/Metrics.v ===== *)
(** * Metrics: what the program counts

    The metrics of [src/telemetry/mod.rs] and the places that update them: what one sweep reports, one
    RPC call, one log at the head. A metric update is a value ([Update]); [total] adds up the
    increments of a counter. A gauge holds an integer, a histogram sample is in milliseconds. Reports
    are compared with what the reported operation did to the database. *)

From S2P Require Import Prelude Text Config Registry Cache Matcher Events Health Rpc Store Sweep Runtime.
From S2P Require Import Source Outbox TxSpec Ledger LedgerTx SweepSpec.

Inductive Kind := Counter | Gauge | Histogram.

#[global] Instance Kind_eq_dec : EqDecision Kind.
Proof. solve_decision. Defined.

Definition Labels : Type := list (string * string).

Record Update := mkUpdate {
  u_kind : Kind;
  u_name : string;
  u_labels : Labels;
  u_value : Z;
}.

Definition increment (name : string) (labels : Labels) (n : Z) : Update := mkUpdate Counter name labels n.
Definition gauge (name : string) (labels : Labels) (v : Z) : Update := mkUpdate Gauge name labels v.
Definition sample (name : string) (labels : Labels) (v : Z) : Update := mkUpdate Histogram name labels v.

(** [src/telemetry/mod.rs:31-32 LATENCY_BUCKETS] In tenths of milliseconds. *)
Definition LATENCY_BUCKETS : list Z :=
  [10; 25; 50; 100; 250; 500; 1000; 2500; 5000; 10000; 25000; 50000; 100000; 300000; 600000; 3000000].

(** [src/telemetry/mod.rs:63-104 describe] *)
Definition describe : list (Kind * string) :=
  [(Counter, "gum_transfers_indexed_total"); (Counter, "gum_transfers_missed_by_push_total");
   (Counter, "gum_thresholds_reached_total"); (Counter, "gum_logs_scanned_total"); (Counter, "gum_logs_anomalous_total");
   (Histogram, "gum_detection_latency_seconds");
   (Gauge, "gum_chain_status"); (Gauge, "gum_chain_head_block"); (Gauge, "gum_chain_confirmed_block");
   (Gauge, "gum_chain_head_age_seconds"); (Gauge, "gum_chain_leader"); (Gauge, "gum_ws_connected");
   (Counter, "gum_ws_reconnects_total"); (Counter, "gum_ws_subscriptions_total"); (Gauge, "gum_ws_buckets");
   (Counter, "gum_ingest_mode_switches_total"); (Counter, "gum_sweeps_total"); (Counter, "gum_sweep_range_shrinks_total");
   (Counter, "gum_reorgs_total"); (Counter, "gum_rpc_requests_total"); (Histogram, "gum_rpc_latency_seconds");
   (Counter, "gum_rpc_credits_estimated_total"); (Gauge, "gum_quicknode_credits_used");
   (Gauge, "gum_quicknode_credits_remaining"); (Gauge, "gum_watches_active"); (Counter, "gum_watches_created_total");
   (Counter, "gum_webhook_deliveries_total"); (Histogram, "gum_webhook_latency_seconds");
   (Histogram, "gum_webhook_end_to_end_seconds"); (Gauge, "gum_outbox_pending"); (Gauge, "gum_outbox_dead");
   (Gauge, "gum_outbox_oldest_age_seconds"); (Counter, "gum_task_restarts_total")]%string.

(** An installed recorder: which histograms get the buckets, and the descriptions. *)
Record Recorder := mkRecorder { re_buckets : string -> option (list Z); re_described : list (Kind * string) }.

(** [src/telemetry/mod.rs:35-48 install_metrics] The static [HANDLE] before and after. *)
Definition install_metrics (handle : option Recorder) : Recorder * option Recorder :=
  match handle with
  | Some h => (h, Some h)
  | None =>
      let h := mkRecorder (fun name => if ends_with name "_seconds" then Some LATENCY_BUCKETS else None) describe in
      (h, Some h)
  end.

Definition is_described (u : Update) : bool := bool_decide ((u_kind u, u_name u) ∈ describe).

(** The increments of one counter with one value of a label. *)
Definition counts (name label value : string) (u : Update) : bool :=
  bool_decide (u_kind u = Counter) && String.eqb (u_name u) name
  && existsb (fun l => String.eqb l.1 label && String.eqb l.2 value) (u_labels u).
Definition total (p : Update -> bool) (us : list Update) : Z := sumZ u_value (List.filter p us).

Lemma total_app p us vs : total p (us ++ vs) = total p us + total p vs.
Proof. unfold total. by rewrite List.filter_app, sumZ_app. Qed.

(** ** The sweeper *)

Section chain.
Variable chain : ChainSpec.
Local Abbreviation name := (ch_name chain).

(** [src/ingest/sweeper.rs:313-321 Sweeper::report (confirmed)] [now] is in seconds. *)
Definition report_confirmed (logs : list Log) (now : Z) (m : MatchedTransfer) : list Update :=
  let token := from_option t_symbol EmptyString (ch_tokens chain !! Z.to_nat (m_token_idx m)) in
  increment "gum_transfers_indexed_total" [("chain", name); ("token", token); ("phase", "confirmed")]%string 1
  :: match find (fun l => bool_decide (l_block_hash l = Some (m_block_hash m))) logs ≫= l_block_timestamp with
     | Some ts => [sample "gum_detection_latency_seconds" [("chain", name); ("phase", "confirmed")]%string
                     (1000 * Z.max (now - ts) 0)]
     | None => []
     end.

(** [src/ingest/sweeper.rs:310-355 Sweeper::report] *)
Definition report (out : SweepOutcome) (reason : string) (logs : list Log) (now : Z) : list Update :=
  (out_confirmed out ≫= report_confirmed logs now)
  ++ (if (0 <? out_confirmed_without_pending out) && negb (String.eqb reason "backfill")
      then [increment "gum_transfers_missed_by_push_total" [("chain"%string, name)] (out_confirmed_without_pending out)]
      else [])
  ++ (if 0 <? out_orphaned out
      then [increment "gum_reorgs_total" [("chain"%string, name)] 1;
            increment "gum_transfers_indexed_total" [("chain", name); ("token", "all"); ("phase", "orphaned")]%string
              (out_orphaned out)]
      else [])
  ++ (if 0 <? out_ignored out
      then [increment "gum_transfers_indexed_total" [("chain", name); ("token", "all"); ("phase", "ignored")]%string
              (out_ignored out)]
      else [])
  ++ ((fun _ => increment "gum_thresholds_reached_total" [("chain"%string, name)] 1) <$> out_completed out).

(** ** RPC calls *)

(** [src/rpc/mod.rs:194-201 RpcClient::count] *)
Definition rpc_count (method outcome : string) (was_billed : bool) : list Update :=
  increment "gum_rpc_requests_total" [("chain", name); ("method", method); ("outcome", outcome)]%string 1
  :: if was_billed
     then [increment "gum_rpc_credits_estimated_total" [("chain", name); ("method", method)]%string
             (as_u64 (cc_credits_per_call (ch_cfg chain)))]
     else [].

(** [src/rpc/mod.rs:141-156 RpcClient::run (metrics of an attempt)] *)
Definition attempt_metrics {T} (method : string) (elapsed : Z) (r : result RpcFailure T) : list Update :=
  sample "gum_rpc_latency_seconds" [("chain", name); ("method", method)]%string elapsed
  :: match r with
     | Ok _ => rpc_count method "ok" true
     | Err f => rpc_count method (failure_kind f) (billed f)
     end.

(** ** Logs at the head *)

(** [src/ingest/source.rs:422-454 handle_log (metrics)] [recorded] is what [record_pending] returned;
    [now] is in milliseconds. *)
Definition handle_log_metrics (source : string) (now : Z) (log : Log) (matched : result Skip MatchedTransfer)
    (recorded : result StoreError bool) : list Update :=
  increment "gum_logs_scanned_total" [("chain", name); ("source", source)]%string 1
  :: match matched with
     | Err Malformed => [increment "gum_logs_anomalous_total" [("chain", name); ("reason", "malformed_transfer")]%string 1]
     | Err Incomplete => [increment "gum_logs_anomalous_total" [("chain", name); ("reason", "missing_block_fields")]%string 1]
     | Err _ => []
     | Ok m =>
         if m_removed m then []
         else match recorded with
         | Ok true =>
             let token := from_option t_symbol EmptyString (ch_tokens chain !! Z.to_nat (m_token_idx m)) in
             increment "gum_transfers_indexed_total" [("chain", name); ("token", token); ("phase", "pending")]%string 1
             :: match l_block_timestamp log with
                | Some ts => [sample "gum_detection_latency_seconds" [("chain", name); ("phase", "pending")]%string
                                (Z.max (now - 1000 * ts) 0)]
                | None => []
                end
         | _ => []
         end
     end.

(** [src/ingest/source.rs:375-376 session (lagged)] *)
Definition lagged_metrics (n : Z) : list Update := [increment "gum_ws_lagged_total" [("chain"%string, name)] n].

(** [src/ingest/mod.rs:140-142 ChainRuntime::publish_watch_gauge] *)
Definition publish_watch_gauge (rt : ChainRuntime) : list Update :=
  [gauge "gum_watches_active" [("chain"%string, name)] (Z.of_nat (cache_len (rt_cache rt)))].

(** [src/ingest/source.rs:319-322 Session::publish] *)
Definition publish_buckets (s : Session) : list Update :=
  [gauge "gum_ws_buckets" [("chain"%string, name)]
     (Z.of_nat (length (ss_sealed s)) + (if bool_decide (is_Some (ss_open s)) then 1 else 0))].

(** [src/ingest/source.rs:324-329 Session::close] The gauge; the buckets' tasks are aborted. *)
Definition close_buckets (s : Session) : list Update := [gauge "gum_ws_buckets" [("chain"%string, name)] 0].
End chain.

(** The gauge is the number of open subscriptions. *)
Lemma publish_buckets_count chain s :
  publish_buckets chain s = [gauge "gum_ws_buckets" [("chain"%string, ch_name chain)] (Z.of_nat (length (buckets s)))].
Proof. unfold publish_buckets, buckets. rewrite length_app. destruct (ss_open s); cbn; do 2 f_equal; lia. Qed.

(** ** Deliveries *)

(** [src/webhook/mod.rs:118-124 Dispatcher::publish_depth] *)
Definition publish_depth (now : Z) (d : DB) : list Update :=
  let o := depth now d in
  [gauge "gum_outbox_pending" [] (dp_pending o); gauge "gum_outbox_dead" [] (dp_dead o);
   gauge "gum_outbox_oldest_age_seconds" [] (dp_oldest_pending_age o)].

(** ** What a sweep did *)

Definition n_status (st : TransferStatus) (_ : TransferKey) (x : TransferRec) : Z := if decide (x_status x = st) then 1 else 0.
Definition n_done (_ : Z) (w : WatchRow) : Z := if decide (w_status w = Completed) then 1 else 0.

(** Confirmed, orphaned and ignored transfers, completed watches and events in the database. *)
Record Totals := mkTotals { to_confirmed : Z; to_orphaned : Z; to_ignored : Z; to_completed : Z; to_events : Z }.

Definition totals (d : DB) : Totals :=
  mkTotals (map_sum (n_status Confirmed) (d_transfers d)) (map_sum (n_status Orphaned) (d_transfers d))
    (map_sum (n_status Ignored) (d_transfers d)) (map_sum n_done (d_watches d)) (map_sum (fun _ _ => 1) (d_outbox d)).

(** Those of an outcome. *)
Definition claims (out : SweepOutcome) : Totals :=
  mkTotals (Z.of_nat (length (out_confirmed out))) (out_orphaned out) (out_ignored out)
    (Z.of_nat (length (out_completed out))) (out_events out).

Definition totals_add (a b : Totals) : Totals :=
  mkTotals (to_confirmed a + to_confirmed b) (to_orphaned a + to_orphaned b) (to_ignored a + to_ignored b)
    (to_completed a + to_completed b) (to_events a + to_events b).

(** The database is what it was at [d0], moved by what the outcome claims. *)
Record accounts (d0 : DB) (out : SweepOutcome) (d : DB) : Prop := {
  ac_totals : totals d = totals_add (totals d0) (claims out);
  ac_orphaned : 0 <= out_orphaned out;
  ac_ignored : 0 <= out_ignored out;
}.

Lemma n_status_put (st : TransferStatus) (ts : gmap TransferKey TransferRec) (key : TransferKey) (x : TransferRec) :
  map_sum (n_status st) (<[key := x]> ts) =
    map_sum (n_status st) ts + n_status st key x - match ts !! key with Some y => n_status st key y | None => 0 end.
Proof.
  destruct (ts !! key) as [y|] eqn:Hy; [rewrite (map_sum_insert_upd _ _ _ y x Hy)|rewrite map_sum_insert_new by done]; lia.
Qed.

Lemma countable_not (st : TransferStatus) (ts : gmap TransferKey TransferRec) (key : TransferKey) : st ≠ Pending -> countable (ts !! key) ->
  match ts !! key with Some y => n_status st key y | None => 0 end = 0.
Proof.
  intros Hst. destruct (ts !! key) as [y|]; [|done]. cbn. intros Hp. unfold n_status. rewrite Hp. by rewrite decide_False.
Qed.

Lemma n_status_of st s key x : x_status x = s -> n_status st key x = if decide (s = st) then 1 else 0.
Proof. by intros <-. Qed.

Lemma n_done_of i w s : w_status w = s -> n_done i w = if decide (s = Completed) then 1 else 0.
Proof. by intros <-. Qed.

Lemma totals_eq a b :
  to_confirmed a = to_confirmed b -> to_orphaned a = to_orphaned b -> to_ignored a = to_ignored b ->
  to_completed a = to_completed b -> to_events a = to_events b -> a = b.
Proof. destruct a, b. cbn. congruence. Qed.

Lemma count_accounts chain m env d0 d k st out st' out' d' k' :
  count_result chain m env d k st out st' out' d' k' -> accounts d0 out d -> accounts d0 out' d'.
Proof.
  intros H Ha. destruct Ha as [Ha Ho Hi]. injection Ha as E1 E2 E3 E4 E5.
  destruct H as [_|w w1 Hw Hact Hc Hr Hth Hev _|w w1 w2 Hw Hact Hc Hr Hr2 Hth Hev _ Hev2 Hne _];
    [by split; [apply totals_eq|..]|..];
    (assert (Hx : x_status (confirmed_rec env m (w_id w) (d_transfers d !! transfer_key chain m)) = Confirmed);
     [by destruct (d_transfers d !! _)|]).
  - assert (Eo : claims (out_add_confirmed m (out_add_event (if bool_decide (d_transfers d !! transfer_key chain m = None)
        then out_add_without_pending out else out))) = totals_add (claims out) (mkTotals 1 0 0 0 1)).
    { apply totals_eq; case_bool_decide; cbn; rewrite ?length_app; cbn; lia. }
    split; [|by case_bool_decide..]. rewrite Eo. apply totals_eq; cbn;
      rewrite ?n_status_put, ?countable_not, ?(map_sum_insert_upd _ _ _ w _ Hw), ?map_sum_insert_new by done;
      rewrite ?(n_status_of _ _ _ _ Hx), ?(n_done_of _ _ _ Hact), ?(n_done_of _ _ Active), ?(n_done_of _ _ Completed) by done;
      repeat case_decide; try congruence; lia.
  - assert (Eo : forall c, claims (out_add_confirmed m (out_add_completed c (out_add_event (out_add_event
        (if bool_decide (d_transfers d !! transfer_key chain m = None) then out_add_without_pending out else out)))))
        = totals_add (claims out) (mkTotals 1 0 0 1 2)).
    { intros c. apply totals_eq; case_bool_decide; cbn; rewrite ?length_app; cbn; lia. }
    split; [|by case_bool_decide..]. rewrite Eo. apply totals_eq; cbn;
      rewrite ?n_status_put, ?countable_not, ?(map_sum_insert_upd _ _ _ w _ Hw) by done;
      rewrite ?(map_sum_insert_new _ (<[e_ids env k := _]> _)) by (by rewrite lookup_insert_ne by done);
      rewrite ?map_sum_insert_new by done;
      rewrite ?(n_status_of _ _ _ _ Hx), ?(n_done_of _ _ _ Hact), ?(n_done_of _ _ Active), ?(n_done_of _ _ Completed) by done;
      repeat case_decide; try congruence; lia.
Qed.

Lemma resolve_accounts chain cs acs key x acc env d0 d k acc' d' k' :
  d_transfers d !! key = Some x -> x_status x = Pending ->
  resolve_leftover chain cs acs (key, x) acc env (d, k) = Ok (acc', (d', k')) ->
  accounts d0 acc.2 d -> accounts d0 acc'.2 d'.
Proof.
  intros Hx Hp H Ha. destruct Ha as [Ha Ho Hi]. injection Ha as E1 E2 E3 E4 E5. destruct acc as [stats out]. unfold resolve_leftover in H. cbv zeta in H.
  assert (Hput : forall s st, map_sum (n_status s) (<[key := set_transfer_status st x]> (d_transfers d))
    = map_sum (n_status s) (d_transfers d) + (if decide (st = s) then 1 else 0) - (if decide (Pending = s) then 1 else 0)).
  { intros s st. rewrite n_status_put, Hx, (n_status_of _ _ _ _ Hp), (n_status_of s st) by done. done. }
  destruct (_ || _).
  - tx_inv H. tx_simp Ht. tx_simp H. erewrite set_transfers_alter by done.
    split; [|cbn in *; lia..]. apply totals_eq; cbn in *; rewrite ?Hput; repeat case_decide; try congruence; lia.
  - tx_inv H. tx_simp Ht. erewrite set_transfers_alter in H by done. tx_inv H.
    apply lock_active_watch_Ok in Ht as [(-> & [= -> ->] & Hna)|(w & w' & Hw & Hact & Hr & -> & [= -> ->])].
    { tx_simp H. split; [|cbn in *; lia..]. apply totals_eq; cbn in *; rewrite ?Hput; repeat case_decide; try congruence; lia. }
    tx_inv H. unfold tx_lift in Ht. destruct (amount _); simplify_eq. tx_inv H.
    apply insert_event_Ok in Ht as ([= -> -> ->] & Hev & _). tx_simp H. cbn in Hw, Hev.
    split; [|cbn in *; lia..]. apply totals_eq; cbn in *; rewrite ?Hput, ?(map_sum_insert_upd _ _ _ w _ Hw), ?map_sum_insert_new by done;
      rewrite ?(n_done_of _ _ _ Hact), ?(n_done_of _ (bump w) Active) by done; repeat case_decide; try congruence; lia.
Qed.

Lemma count_all_accounts chain ms env acc d0 d k acc' d' k' :
  ids_ok d -> mfold (count_confirmed chain) ms acc env (d, k) = Ok (acc', (d', k')) ->
  accounts d0 acc.2 d -> accounts d0 acc'.2 d' /\ ids_ok d'.
Proof.
  intros Hids H Ha.
  eapply (mfold_Tx_inv (count_confirmed chain) (fun a d1 _ => accounts d0 a.2 d1 /\ ids_ok d1)) in H; [exact H| |done].
  intros m a d1 k1 a' d2 k2 _ [Ha1 Hids1] Hc. apply count_confirmed_Ok in Hc; [|done].
  split; [by eapply count_accounts|by eapply count_ids_ok].
Qed.

Lemma resolve_all_accounts chain cs acs ls acc env d0 d k acc' d' k' :
  NoDup ls.*1 -> (forall key x, (key, x) ∈ ls -> d_transfers d !! key = Some x /\ x_status x = Pending) ->
  mfold (resolve_leftover chain cs acs) ls acc env (d, k) = Ok (acc', (d', k')) ->
  accounts d0 acc.2 d -> accounts d0 acc'.2 d'.
Proof.
  revert acc d k. induction ls as [|[key x] ls IH]; intros acc d k Hnd Hls H Ha; cbn [mfold] in H; [by tx_simp H|].
  apply NoDup_cons in Hnd as [Hkey Hnd]. cbn in Hkey.
  destruct (Hls key x) as [Hx Hp]; [apply list_elem_of_here|]. tx_inv H. pose proof Ht as Hr.
  eapply resolve_accounts in Ht; [|done..]. destruct a as [stats1 out1]. apply resolve_leftover_Ok in Hr; [|done].
  apply (resolve_leftover_steps (fun _ => None)) in Hr as (_ & _ & st & _ & Etr); [|done..].
  eapply IH; [exact Hnd| |exact H|exact Ht]. intros key' x' Hin'. rewrite Etr, lookup_insert_ne.
  - apply Hls. by apply list_elem_of_further.
  - intros ->. apply Hkey, list_elem_of_fmap. by exists (key', x').
Qed.

(** The outcome of a sweep is what it did. *)
Lemma apply_sweep_accounts env d chain cache c to logs out d' cache' :
  ids_ok d -> apply_sweep env d chain cache c to logs = (Ok (Applied out), d', cache') -> accounts d out d'.
Proof.
  intros Hids H. unfold apply_sweep in H. destruct (cursor d _) as [actual|e]; [|done]. destruct (negb _); [done|].
  destruct (load_entries cache _) as [cache1 disc]. destruct (run_tx env d _) as [[o|e] d1] eqn:Hrun; simplify_eq.
  apply run_tx_Ok in Hrun as [[k Hrun]|[-> [s Hrun]]]; tx_inv Hrun; tx_simp Hrun.
  unfold sweep_account in Ht. cbv zeta in Ht. apply Tx_bind_Ok in Ht as (so & [d2 k2] & Hcount & Ht).
  assert (H0 : accounts d (out_set_discovered disc outcome_default) d).
  { split; [apply totals_eq; cbn; lia|done..]. }
  eapply count_all_accounts in Hcount as [Ha _]; [|done|exact H0].
  tx_inv Ht. tx_simp Ht0. tx_inv Ht. eapply resolve_all_accounts in Ht0; [|apply NoDup_leftovers| |exact Ha].
  2:{ intros key x (? & _ & ? & _)%elem_of_leftovers. done. }
  destruct a as [stats out1]. tx_inv Ht. apply write_stats_Ok in Ht1 as [f ->]. tx_inv Ht. tx_simp Ht1. tx_simp Ht.
  destruct Ht0 as [E1 E2 E3]. by split.
Qed.

(** ** What it reports *)

Definition in_phase (phase : string) : Update -> bool := counts "gum_transfers_indexed_total" "phase" phase.

Lemma total_bind {A} p (f : A -> list Update) l : total p (l ≫= f) = sumZ (fun a => total p (f a)) l.
Proof.
  induction l as [|a l IH]; [done|]. change ((a :: l) ≫= f) with (f a ++ (l ≫= f)). rewrite total_app, IH. done.
Qed.

Lemma sumZ_const {A} (c : Z) (l : list A) : sumZ (fun _ => c) l = c * Z.of_nat (length l).
Proof.
  induction l as [|a l IH]; [cbn; lia|].
  cbn [length]. change (sumZ _ (a :: l)) with (c + sumZ (fun _ : A => c) l). rewrite IH. lia.
Qed.

Lemma total_fmap {A} p u (l : list A) :
  total p ((fun _ => u) <$> l) = (if p u then u_value u else 0) * Z.of_nat (length l).
Proof.
  induction l as [|a l IH]; [cbn; lia|].
  change ((fun _ => u) <$> a :: l) with ([u] ++ ((fun _ => u) <$> l)). rewrite total_app, IH. cbn [length].
  unfold total. cbn [List.filter]. destruct (p u); cbn [sumZ fold_right]; unfold sumZ; cbn; lia.
Qed.

Lemma report_totals chain out reason logs now :
  0 <= out_orphaned out -> 0 <= out_ignored out ->
  let us := report chain out reason logs now in
  total (in_phase "confirmed") us = Z.of_nat (length (out_confirmed out))
  /\ total (in_phase "orphaned") us = out_orphaned out
  /\ total (in_phase "ignored") us = out_ignored out
  /\ total (counts "gum_thresholds_reached_total" "chain" (ch_name chain)) us = Z.of_nat (length (out_completed out)).
Proof.
  intros Ho Hi. cbv zeta. unfold report. rewrite !total_app, !total_bind.
  assert (Hc : forall phase, sumZ (fun m => total (in_phase phase) (report_confirmed chain logs now m)) (out_confirmed out)
    = (if String.eqb "confirmed" phase then 1 else 0) * Z.of_nat (length (out_confirmed out))).
  { intros phase. rewrite <- sumZ_const. apply sumZ_ext. intros m _. unfold report_confirmed, total, in_phase, counts.
    destruct (find _ _ ≫= _); cbn -[String.eqb]; change (String.eqb "phase" "phase") with true;
      destruct (String.eqb "confirmed" phase); reflexivity. }
  assert (Hth : sumZ (fun m => total (counts "gum_thresholds_reached_total" "chain" (ch_name chain))
    (report_confirmed chain logs now m)) (out_confirmed out) = 0 * Z.of_nat (length (out_confirmed out))).
  { rewrite <- sumZ_const. apply sumZ_ext. intros m _. unfold report_confirmed. by destruct (find _ _ ≫= _). }
  rewrite !Hc, Hth, !total_fmap. unfold total, in_phase, counts. cbn -[String.eqb].
  repeat match goal with |- context [String.eqb ?a ?b] => first
    [change (String.eqb a b) with true|change (String.eqb a b) with false|rewrite (String.eqb_refl a)] end.
  destruct (Z.ltb_spec 0 (out_orphaned out)), (Z.ltb_spec 0 (out_ignored out)), (0 <? _), (String.eqb reason _);
    cbn; change (bool_decide (Counter = Counter)) with true; rewrite ?String.eqb_refl; cbn; split_and!; lia.
Qed.

(** ** What the retry loop of a call reports *)

Section calls.
Context {T : Type} (render : TransportError -> string) (display : RpcFailure -> string) (method : string)
  (timeout : Z) (call : nat -> CallResult T) (clock elapsed : nat -> Z) (chain : ChainSpec).

Definition run_metrics (n k : nat) : list Update :=
  seq n k ≫= fun i => attempt_metrics chain method (elapsed i) (attempt render method timeout call i).

Definition requests : Update -> bool := counts "gum_rpc_requests_total" "chain" (ch_name chain).
Definition credits : Update -> bool := counts "gum_rpc_credits_estimated_total" "chain" (ch_name chain).

Definition billed_attempt (r : result RpcFailure T) : bool := match r with Ok _ => true | Err f => billed f end.

Lemma attempt_metrics_totals el r :
  total requests (attempt_metrics chain method el r) = 1
  /\ total credits (attempt_metrics chain method el r)
     = if billed_attempt r then as_u64 (cc_credits_per_call (ch_cfg chain)) else 0.
Proof.
  unfold requests, credits. destruct r as [v|f]; unfold attempt_metrics, billed_attempt, rpc_count; [|destruct (billed f)];
    unfold total, counts; cbn; change (bool_decide (Counter = Counter)) with true;
    change (bool_decide (Histogram = Counter)) with false; rewrite ?String.eqb_refl; cbn; lia.
Qed.

(** The attempts of a call, each billed or not. *)
Lemma run_billed backoff n :
  let '(r, t) := run render display method timeout call clock n backoff in
  Z.of_nat (ct_billed t)
  = sumZ (fun i => if billed_attempt (attempt render method timeout call i) then 1 else 0) (seq n (ct_attempts t)).
Proof.
  revert n. induction backoff as [|delay backoff IH]; intros n; cbn [run];
    destruct (attempt render method timeout call n) as [v|f] eqn:Ha; cbn; rewrite ?Ha; try done.
  - destruct (failure_class f); cbn; rewrite Ha; cbn; by destruct (billed f).
  - specialize (IH (S n)). destruct (run _ _ _ _ _ _ (S n) backoff) as [r t]. unfold sumZ in *.
    destruct (failure_class f); cbn; rewrite Ha; cbn; destruct (billed f); try done; lia.
Qed.

(** A call adds one to the requests of its chain for every attempt and the chain's credits for every
    attempt the provider bills. *)
Theorem run_reported backoff :
  let '(r, t) := run render display method timeout call clock 0 backoff in
  total requests (run_metrics 0 (ct_attempts t)) = Z.of_nat (ct_attempts t)
  /\ total credits (run_metrics 0 (ct_attempts t))
     = as_u64 (cc_credits_per_call (ch_cfg chain)) * Z.of_nat (ct_billed t).
Proof.
  pose proof (run_billed backoff 0) as Hb. destruct (run _ _ _ _ _ _ 0 backoff) as [r t]. rewrite Hb. clear Hb.
  unfold run_metrics. rewrite !total_bind. generalize 0%nat as n. generalize (ct_attempts t) as k.
  induction k as [|k IH]; intros n; [cbn; lia|].
  specialize (IH (S n)) as [IH1 IH2]. cbn [seq]. unfold sumZ in *. cbn [foldr].
  rewrite IH1, IH2. destruct (attempt_metrics_totals (elapsed n) (attempt render method timeout call n)) as [-> ->].
  destruct (billed_attempt _); lia.
Qed.
End calls.

(** C33. The sweep's report agrees with its transaction: the transfers it counts as confirmed, orphaned
    and ignored and the thresholds it counts as reached are exactly those by which the database
    moved, whatever was retried or replayed on the way. *)
Theorem sweep_reported (env : Env) (d : DB) (chain : ChainSpec) (cache : WatchCache) (c to : Z) (logs : list Log)
    (out : SweepOutcome) (d' : DB) (cache' : WatchCache) (reason : string) (now : Z) :
  ids_ok d ->
  apply_sweep env d chain cache c to logs = (Ok (Applied out), d', cache') ->
  let us := report chain out reason logs now in
  let before := totals d in
  let after := totals d' in
  total (in_phase "confirmed") us = to_confirmed after - to_confirmed before
  /\ total (in_phase "orphaned") us = to_orphaned after - to_orphaned before
  /\ total (in_phase "ignored") us = to_ignored after - to_ignored before
  /\ total (counts "gum_thresholds_reached_total" "chain" (ch_name chain)) us = to_completed after - to_completed before.
Proof.
  intros Hids H. apply apply_sweep_accounts in H as [Ha Ho Hi]; [|done]. cbv zeta. injection Ha as E1 E2 E3 E4 _.
  destruct (report_totals chain out reason logs now Ho Hi) as (-> & -> & -> & ->). unfold totals in *. cbn in *. lia.
Qed.

(** Everything the sweeper, the RPC client and the head path count is described, but one counter. *)
Lemma report_described chain out reason logs now : Forall (fun u => is_described u = true) (report chain out reason logs now).
Proof.
  unfold report. repeat apply Forall_app_2.
  - apply Forall_bind, Forall_forall. intros m _. cbn. unfold report_confirmed. destruct (find _ logs ≫= l_block_timestamp); repeat constructor.
  - destruct (_ && _); repeat constructor.
  - destruct (0 <? _); repeat constructor.
  - destruct (0 <? _); repeat constructor.
  - apply Forall_fmap, Forall_forall. intros ? _. done.
Qed.

Lemma attempt_described {T} chain method el (r : result RpcFailure T) :
  Forall (fun u => is_described u = true) (attempt_metrics chain method el r).
Proof. unfold attempt_metrics, rpc_count. destruct r as [v|f]; [|destruct (billed f)]; repeat constructor. Qed.

Lemma handle_log_described chain source now log matched recorded :
  Forall (fun u => is_described u = true) (handle_log_metrics chain source now log matched recorded).
Proof.
  unfold handle_log_metrics. constructor; [done|]. destruct matched as [m|[]]; try (by repeat constructor).
  destruct (m_removed m); [by constructor|]. destruct recorded as [[]|]; try by constructor.
  destruct (l_block_timestamp log); repeat constructor.
Qed.

(** The counter of the lagged broadcasts is emitted and never described. *)
Lemma lagged_undescribed chain n : Forall (fun u => is_described u = false) (lagged_metrics chain n).
Proof. repeat constructor. Qed.
