(* ===== verification/OneChain.v ===== *)
(** * OneChain: the transactions of a chain's tasks leave the other chains alone

    Which tables a sweep, a backfill, the head path, the fast-forward and expiry write, and that the
    transfers among their rows are of their own chain. *)

From S2P Require Import Prelude Config Registry Cache Matcher Events Health Rpc Store Sweep Runtime.
From S2P Require Import Outbox TxSpec Ledger LedgerTx SweepSpec RegisterSpec System.

(** Only transfers of the chain differ. *)
Definition elsewhere_kept (cid : Z) (d d' : DB) : Prop :=
  forall key : TransferKey, key.1.1 ≠ cid -> d_transfers d' !! key = d_transfers d !! key.

#[global] Instance elsewhere_kept_preorder cid : PreOrder (elsewhere_kept cid).
Proof. split; [done|]. intros d1 d2 d3 H1 H2 key Hk. by rewrite H2, H1. Qed.

Lemma elsewhere_insert cid d d' key x :
  key.1.1 = cid -> d_transfers d' = <[key := x]> (d_transfers d) -> elsewhere_kept cid d d'.
Proof. intros Hk E key' Hk'. rewrite E, lookup_insert_ne by congruence. done. Qed.

Lemma elsewhere_same cid d d' : d_transfers d' = d_transfers d -> elsewhere_kept cid d d'.
Proof. intros E key _. by rewrite E. Qed.

(** Expiry touches neither transfers nor cursors, and what it returns is retired. *)
Lemma expire_watches_frame (chain : ChainSpec) env d limit r d' :
  ids_ok d -> expire_watches env d chain limit = (r, d') ->
  d_transfers d' = d_transfers d /\ d_cursors d' = d_cursors d
  /\ (forall ws row, r = Ok ws -> row ∈ ws -> forall w, d_watches d' !! w_id row = Some w -> w_status w ≠ Active).
Proof.
  intros Hids H. destruct r as [l|e]; [|by apply run_tx_Err in H as ->].
  apply run_tx_Ok in H as [[k H]|[-> [s H]]]; unfold expire_watches_tx in H;
    tx_inv H; tx_simp Ht; tx_inv H; tx_simp Ht; tx_inv H; [|by tx_inv H; tx_simp H].
  destruct (overdue_ids_ok d (as_i64 (ch_chain_id chain)) (e_now env) limit Hids) as [Hnd Hov].
  apply expire_rows in Ht as (ps & Eps & -> & -> & -> & Hps); [|done].
  tx_inv H. tx_simp H.
  assert (Ed : forall ps d, d_transfers (put_expired (e_now env) ps d) = d_transfers d
                /\ d_cursors (put_expired (e_now env) ps d) = d_cursors d).
  { clear. induction ps as [|p ps IH]; intros d; [done|]. apply (IH (put_watch _ _ d)). }
  assert (Hexp : forall i w, (i, w) ∈ ps -> d_watches (put_expired (e_now env) ps d) !! i = Some (expired (e_now env) w)).
  { rewrite <- Eps in Hnd. clear - Hnd. revert d. induction ps as [|[j v] ps IH]; intros d i w Hin; [by apply not_elem_of_nil in Hin|].
    apply NoDup_fmap_cons in Hnd as [Hne Hnd]. apply elem_of_cons in Hin as [[= -> ->]|Hin].
    - cbn. change (foldl _ ?x ps) with (put_expired (e_now env) ps x).
      assert (Hfr : forall ps d, (forall y, y ∈ ps -> y.1 ≠ j) -> d_watches (put_expired (e_now env) ps d) !! j = d_watches d !! j).
      { clear. induction ps as [|p ps IH]; intros d Hne; [done|]. unfold put_expired. cbn [foldl].
        change (foldl _ ?x ps) with (put_expired (e_now env) ps x).
        rewrite IH; [|intros y Hy; apply Hne; by apply list_elem_of_further]. cbn. apply lookup_insert_ne.
        apply (Hne p), list_elem_of_here. }
      rewrite Hfr; [apply lookup_insert_eq|]. intros y Hy. apply (Hne y Hy).
    - apply (IH Hnd (put_watch j (expired (e_now env) v) d) i w Hin). }
  destruct (Ed ps d) as [Et Ec].
  eapply (mfold_Tx_inv _ (fun acc d1 _ => d_transfers d1 = d_transfers d /\ d_cursors d1 = d_cursors d
    /\ d_watches d1 = d_watches (put_expired (e_now env) ps d)
    /\ forall row, row ∈ acc -> exists i w, (i, w) ∈ ps /\ w_id row = w_id w)) in Ht.
  - destruct Ht as (E1 & E2 & E3 & Hrow). cbn in *. split_and!; [done..|]. intros ws row [= <-] Hin w Hw.
    destruct (Hrow row Hin) as (i & v & Hv & Eid). rewrite E3, Eid, (Hids _ _ (Hps _ _ Hv)), (Hexp _ _ Hv) in Hw.
    by simplify_eq.
  - intros row acc1 d1 k1 acc2 d2 k2 Hin (E1 & E2 & E3 & Hrow) Hb. tx_inv Hb. unfold tx_lift in Ht0.
    destruct (from_row row) as [w'|] eqn:Hr; simplify_eq. tx_inv Hb.
    apply insert_event_Ok in Ht0 as ([= -> -> ->] & _). tx_simp Hb. split_and!; [done..|].
    intros row' [Hrow'|E%list_elem_of_singleton]%elem_of_app; [by apply Hrow|subst row'].
    apply list_elem_of_fmap in Hin as (v & -> & Hv). apply list_elem_of_fmap in Hv as ([i v'] & -> & Hv).
    exists i, v'. split; [done|]. by apply from_row_fields in Hr as (-> & _).
  - split_and!; [done..|]. by intros row []%not_elem_of_nil.
Qed.
Section transactions.
Variable chain : ChainSpec.
Local Abbreviation cid := (as_i64 (ch_chain_id chain)).

Lemma count_elsewhere ms env acc d k acc' d' k' :
  ids_ok d -> mfold (count_confirmed chain) ms acc env (d, k) = Ok (acc', (d', k')) -> elsewhere_kept cid d d'.
Proof.
  intros Hids H.
  eapply (mfold_Tx_inv _ (fun _ e _ => ids_ok e /\ elsewhere_kept cid d e)) in H; [by destruct H| |done].
  intros m b1 e1 n1 b2 e2 n2 _ [Hi1 He] Hm. apply count_confirmed_Ok in Hm; [|done]. split; [by eapply count_ids_ok|].
  etrans; [exact He|]. intros key Hk. eapply count_transfers; [exact Hm|]. intros ->. by apply Hk.
Qed.

Lemma leftovers_elsewhere cs acs to acc env d k acc' d' k' :
  mfold (resolve_leftover chain cs acs) (leftovers d cid to) acc env (d, k) = Ok (acc', (d', k')) -> elsewhere_kept cid d d'.
Proof.
  intros H. apply (resolve_all_steps (fun _ => None)) in H as (_ & _ & Hout & _); [|apply NoDup_leftovers|].
  - intros key Hk. apply Hout. intros ([key' x] & -> & (_ & E & _)%elem_of_leftovers)%list_elem_of_fmap. by apply Hk.
  - by intros key x (? & _ & ? & _)%elem_of_leftovers.
Qed.

Lemma apply_sweep_elsewhere env d cache c to logs r d' cache' :
  ids_ok d -> apply_sweep env d chain cache c to logs = (r, d', cache') -> elsewhere_kept cid d d'.
Proof.
  intros Hids H. destruct r as [[out|e a]|e].
  - apply apply_sweep_Applied in H as (_ & disc & k & H & _).
    apply sweep_account_Ok in H as (so & d1 & k1 & so2 & d2 & k2 & f & Hc & Hr & ->).
    etrans; [by eapply count_elsewhere|]. etrans; [by eapply leftovers_elsewhere|]. by apply elsewhere_same.
  - unfold apply_sweep in H. destruct (cursor d _); [|done]. destruct (negb _); [by simplify_eq|].
    destruct (load_entries _ _). by destruct (run_tx _ _ _) as [[]].
  - unfold apply_sweep in H. destruct (cursor d _); [|by simplify_eq]. destruct (negb _); [done|].
    destruct (load_entries _ _). destruct (run_tx _ _ _) as [[] d1] eqn:Hr; simplify_eq.
    by apply run_tx_Err in Hr as ->.
Qed.

Lemma apply_backfill_elsewhere env d cache batch logs r d' cache' :
  ids_ok d -> apply_backfill env d chain cache batch logs = (r, d', cache') -> elsewhere_kept cid d d'.
Proof.
  intros Hids H. unfold apply_backfill in H. destruct (run_tx _ _ _) as [[out|e] d1] eqn:Hr; simplify_eq.
  2:{ by apply run_tx_Err in Hr as ->. }
  apply run_tx_Ok in Hr as [[k Hr]|[-> _]]; [|done]. unfold apply_backfill_tx in Hr.
  tx_inv Hr. destruct a as [stats o]. tx_inv Hr. tx_simp Ht0. tx_inv Hr. apply write_stats_Ok in Ht0 as [f ->]. tx_simp Hr.
  etrans; [by eapply count_elsewhere|]. by apply elsewhere_same.
Qed.

Lemma record_pending_elsewhere env d m r d' :
  ids_ok d -> record_pending env d chain m = (r, d') -> elsewhere_kept cid d d'.
Proof.
  intros Hids H. unfold record_pending in H. destruct r as [b|e]; [|by apply run_tx_Err in H as ->].
  apply run_tx_Ok in H as [[k H]|[-> _]]; [|done]. unfold record_pending_tx in H. tx_inv H.
  apply lock_active_watch_Ok in Ht as [(-> & [= -> ->] & _)|(w & w' & Hw & Ha & Hr & -> & [= -> ->])]; [tx_simp H; done|].
  tx_inv H. apply insert_pending_Ok in Ht as [(-> & [= -> ->] & _)|(-> & Hx & [= -> ->])]; [tx_simp H; done|].
  tx_inv H. apply insert_event_Ok in Ht as ([= -> -> ->] & Hev & _). tx_simp H.
  by eapply (elsewhere_insert _ _ _ (transfer_key chain m)).
Qed.

Lemma fast_forward_transfers d id target r d' :
  fast_forward_cursor d id target = (r, d') -> d_transfers d' = d_transfers d.
Proof. unfold fast_forward_cursor. intros H. by repeat case_match; simplify_eq. Qed.
End transactions.

(** What the API writes beside the watches. *)
Lemma create_watch_books env d new r d' :
  create_watch env d new = (r, d') -> d_transfers d' = d_transfers d /\ d_cursors d' = d_cursors d.
Proof.
  intros H. destruct r as [o|e]; [|by apply run_tx_Err in H as ->]. by apply create_watch_Ok in H as [].
Qed.

Lemma cancel_watch_books env d id r d' :
  cancel_watch env d id = (r, d') -> d_transfers d' = d_transfers d /\ d_cursors d' = d_cursors d.
Proof. unfold cancel_watch. intros H. by repeat case_match; simplify_eq. Qed.

(** What a dispatcher writes. *)
Lemma update_outbox_books id guard f d :
  d_transfers (update_outbox id guard f d) = d_transfers d /\ d_cursors (update_outbox id guard f d) = d_cursors d.
Proof. unfold update_outbox. by repeat case_match. Qed.

Lemma delivery_books d d' : delivery d d' -> d_transfers d' = d_transfers d /\ d_cursors d' = d_cursors d.
Proof.
  destruct 1; [|apply update_outbox_books..]. unfold lease_due. cbn [snd].
  generalize (due now locked d limit). intros rows. revert d.
  induction rows as [|[ev o] rows IH]; intros d; [done|]. cbn [fmap list_fmap foldl].
  exact (IH (set_outbox (<[ev := leased now lease o]>) d)).
Qed.
