(* ===== verification/Leader.v ===== *)
(** * Leader: [run_chain] and [lead] of [src/ingest/mod.rs]

    One supervisor per instance and chain: it bootstraps, opens a dedicated connection, polls the
    chain's advisory lock, runs the sweeper and the head path while it believes to lead, drains
    them and releases. A [Cluster] is any number of supervisors with the sessions and advisory
    locks of the database server and the system of [System] they act on. [cstep] is one step of
    one supervisor, written from the code; its event says how the awaits involved came out. [lstep]
    adds the work of the tasks a supervisor runs ([task_step]: the transactions of the sweeper and the
    head path on the supervisor's chain), of a task it has aborted while a transaction was in flight
    ([c_stray]), and of the tasks every instance runs ([serve_step]: API, notifications, dispatchers).

    A session can be lost at any time ([ELost]); the server then frees its locks at once, while the
    supervisor learns it at its next keepalive. *)

From S2P Require Import Prelude Config Registry Cache Matcher Events Health Rpc Store Sweep Runtime.
From S2P Require Import Outbox TxSpec Ledger LedgerTx System.

(** What a spawned task's handle yields. *)
Inductive Join := Joined (r : result IngestError unit) | JoinError.

(** [src/ingest/mod.rs:309-317 flatten] *)
Definition flatten (task : string) (r : Join) : result IngestError unit :=
  match r with
  | Joined inner => inner
  | JoinError => Err (LeadershipLost (task +:+ " panicked"))
  end.

Inductive Task := Running | Finished (r : Join).

Definition is_finished (t : Task) : bool := match t with Running => false | Finished _ => true end.

(** Where a supervisor is: the points of [run_chain] and, from [Connect] to [Unlocking], of [lead].
    [WaitLock] remembers whether the token was cancelled when the sleep began: then
    [sleep_or_cancel] returns at once. *)
Inductive Phase :=
  | Top
  | Booting
  | Sleeping (d : Z)
  | Connect
  | TryLock (session : Z)
  | WaitLock (session : Z) (was_cancelled : bool)
  | Leading (session : Z) (sweeper source : Task)
  | Draining (session : Z) (sweeper source : Task) (outcome : result IngestError unit)
  | Unlocking (session : Z) (outcome : result IngestError unit)
  | Stopped.

Record Sup := mkSup { su_phase : Phase; su_backoff : Z; su_cancelled : bool }.

Definition session_of (p : Phase) : option Z :=
  match p with
  | TryLock s | WaitLock s _ | Leading s _ _ | Draining s _ _ _ | Unlocking s _ => Some s
  | _ => None
  end.

(** From the answer of [pg_try_advisory_lock] to the return of [lead]. *)
Definition leads (p : Phase) : bool :=
  match p with Leading _ _ _ | Draining _ _ _ _ | Unlocking _ _ => true | _ => false end.

(** A task that has neither been told to abort nor ended. *)
Definition works (p : Phase) : bool :=
  match p with
  | Leading _ a b | Draining _ a b _ => negb (is_finished a) || negb (is_finished b)
  | _ => false
  end.

Record Cluster := mkCluster {
  c_sys : Sys;
  c_locks : gmap Z Z;                 (* advisory lock key, session *)
  c_live : gset Z;                    (* sessions the server knows *)
  c_next : Z;
  c_sups : gmap (nat * nat) Sup;      (* instance, position of the chain *)
  c_stray : list (nat * nat);         (* aborted tasks whose transaction may still commit *)
}.

Definition cluster_init : Cluster := mkCluster sys_init ∅ ∅ 0 ∅ [].

(** [pg_try_advisory_lock]: a session gets a free lock, and one it holds. *)
Definition try_advisory_lock (key session : Z) (locks : gmap Z Z) : bool * gmap Z Z :=
  match locks !! key with
  | None => (true, <[key := session]> locks)
  | Some s => (s =? session, locks)
  end.

(** The end of a session frees its locks. *)
Definition end_session (s : Z) (c : Cluster) : Cluster :=
  mkCluster (c_sys c) (filter (fun kv => kv.2 ≠ s) (c_locks c)) (c_live c ∖ {[s]}) (c_next c) (c_sups c) (c_stray c).

Definition put_sup (k : nat * nat) (s : Sup) (c : Cluster) : Cluster :=
  mkCluster (c_sys c) (c_locks c) (c_live c) (c_next c) (<[k := s]> (c_sups c)) (c_stray c).
Definition put_sys (s : Sys) (c : Cluster) : Cluster :=
  mkCluster s (c_locks c) (c_live c) (c_next c) (c_sups c) (c_stray c).

Definition strays (l : list (nat * nat)) (c : Cluster) : Cluster :=
  mkCluster (c_sys c) (c_locks c) (c_live c) (c_next c) (c_sups c) l.

Inductive TaskName := TSweeper | TSource.

(** The branches of [lead]'s [select], the keepalive apart. *)
Inductive Branch := BCancelled | BTask (t : TaskName).

Inductive Event :=
  | EStart (k : nat * nat)
  | ECancel (k : nat * nat)
  | ELost (session : Z)
  | ELoop (k : nat * nat)
  | EBootstrap (k : nat * nat) (now : Z) (chain_id : Reply Z) (decimals : Z -> Reply (option Z)) (head : Reply Z)
  | EWake (k : nat * nat)
  | EConnect (k : nat * nat) (error : option StoreError)
  | ETryLock (k : nat * nat) (error : option StoreError)
  | EWaited (k : nat * nat) (cancelled : bool)
  | ETaskEnd (k : nat * nat) (t : TaskName) (r : Join)
  | EKeepalive (k : nat * nat) (error : option string)
  | ESelect (k : nat * nat) (b : Branch)
  | EDrained (k : nat * nat)
  | ERelease (k : nat * nat) (unlocked : bool)
  | EPanic (k : nat * nat).

Definition rpc_op (op : HealthOp) : bool := match op with RpcOk _ | RpcErr _ _ => true | _ => false end.

Section leader.
Variable hist : TransferKey -> option (Z * Z * Z * Z).
Variable chains : list ChainSpec.

Definition rt_at (k : nat * nat) (c : Cluster) : option ChainRuntime := sy_rt (c_sys c) !! k.

Definition note (k : nat * nat) (chain : ChainSpec) (ops : list HealthOp) (c : Cluster) : Cluster :=
  match rt_at k c with
  | Some rt => put_sys (mkSys (sy_db (c_sys c)) (<[k := note_health chain ops rt]> (sy_rt (c_sys c)))
                          (sy_seen (c_sys c))) c
  | None => c
  end.

(** [src/ingest/mod.rs:226-243 run_chain (after lead)] Whatever [lead] returned, and also when its
    task panicked. *)
Definition restart (k : nat * nat) (chain : ChainSpec) (s : Sup) (c : Cluster) : Cluster :=
  let '(d, backoff) := restart_backoff (su_backoff s) in
  put_sup k (mkSup (Sleeping d) backoff (su_cancelled s)) (note k chain [SetLeader false] c).

(** [src/ingest/mod.rs:205-224 run_chain (bootstrap)] *)
Definition run_bootstrap (k : nat * nat) (chain : ChainSpec) (s : Sup) (rt : ChainRuntime) (now : Z)
    (cid : Reply Z) (decimals : Z -> Reply (option Z)) (head : Reply Z) (c : Cluster) : Cluster :=
  let '(r, db, rt) := bootstrap now chain cid decimals head (sy_db (c_sys c)) rt in
  let c := put_sys (mkSys db (<[k := rt]> (sy_rt (c_sys c))) (sy_seen (c_sys c))) c in
  match r with
  | Err e =>
      let '(d, backoff) := bootstrap_backoff (su_backoff s) e in
      put_sup k (mkSup (Sleeping d) backoff (su_cancelled s)) c
  | Ok _ => put_sup k (mkSup Connect 500 (su_cancelled s)) c
  end.

(** [src/ingest/mod.rs:254-274 lead (lock, start the tasks)] *)
Definition poll_lock (k : nat * nat) (chain : ChainSpec) (s : Sup) (session : Z) (c : Cluster) : Cluster :=
  let '(got, locks) := try_advisory_lock (leadership_key (ch_chain_id chain)) session (c_locks c) in
  let c := mkCluster (c_sys c) locks (c_live c) (c_next c) (c_sups c) (c_stray c) in
  if (got : bool) then
    put_sup k (mkSup (Leading session Running Running) (su_backoff s) (su_cancelled s)) (note k chain [SetLeader true] c)
  else put_sup k (mkSup (WaitLock session (su_cancelled s)) (su_backoff s) (su_cancelled s)) c.

Definition end_task (t : TaskName) (r : Join) (sweeper source : Task) : option (Task * Task) :=
  match t, sweeper, source with
  | TSweeper, Running, b => Some (Finished r, b)
  | TSource, a, Running => Some (a, Finished r)
  | _, _, _ => None
  end.

(** [src/ingest/mod.rs:299-300 lead (abort)] Aborting a task that has not ended, here or by dropping its
    handle when [lead] panics, does not call back a statement it has sent: its transaction may yet
    commit. *)
Definition abort (k : nat * nat) (p : Phase) (c : Cluster) : Cluster :=
  let unfinished (t : Task) := if is_finished t then [] else [k] in
  match p with
  | Leading _ a b | Draining _ a b _ => strays (unfinished a ++ unfinished b ++ c_stray c) c
  | _ => c
  end.

(** [src/ingest/mod.rs:277-289 lead (select)] *)
Definition select (s : Sup) (b : Branch) (sweeper source : Task) : option (result IngestError unit) :=
  match b, sweeper, source with
  | BCancelled, _, _ => if su_cancelled s then Some (Ok tt) else None
  | BTask TSweeper, Finished r, _ => Some (flatten "sweeper" r)
  | BTask TSource, _, Finished r => Some (flatten "source" r)
  | _, _, _ => None
  end.

(** [src/ingest/mod.rs:248-307 lead] The events of a supervisor inside [lead]; a step into
    [restart] is its return. *)
Definition lead_step (k : nat * nat) (chain : ChainSpec) (s : Sup) (e : Event) (c : Cluster) : option Cluster :=
  let goto p := put_sup k (mkSup p (su_backoff s) (su_cancelled s)) c in
  match e, su_phase s with
  | EConnect _ (Some _), Connect => Some (restart k chain s c)
  | EConnect _ None, Connect =>
      let session := c_next c in
      Some (put_sup k (mkSup (TryLock session) (su_backoff s) (su_cancelled s))
              (mkCluster (c_sys c) (c_locks c) ({[session]} ∪ c_live c) (session + 1) (c_sups c) (c_stray c)))
  | ETryLock _ (Some _), TryLock _ => Some (restart k chain s c)
  | ETryLock _ None, TryLock session =>
      if bool_decide (session ∈ c_live c) then Some (poll_lock k chain s session c) else None
  | EWaited _ true, WaitLock _ _ => if su_cancelled s then Some (restart k chain s c) else None
  | EWaited _ false, WaitLock session false => Some (goto (TryLock session))
  | ETaskEnd _ t r, Leading session a b =>
      '(a, b) ← end_task t r a b; Some (goto (Leading session a b))
  | ETaskEnd _ t r, Draining session a b o =>
      '(a, b) ← end_task t r a b; Some (goto (Draining session a b o))
  | EKeepalive _ None, Leading session _ _ => if bool_decide (session ∈ c_live c) then Some c else None
  | EKeepalive _ (Some error), Leading session a b =>
      Some (goto (Draining session a b (Err (LeadershipLost error))))
  | ESelect _ br, Leading session a b => o ← select s br a b; Some (goto (Draining session a b o))
  | EDrained _, Draining session _ _ o => Some (abort k (su_phase s) (goto (Unlocking session o)))
  | ERelease _ true, Unlocking session _ =>
      if bool_decide (session ∈ c_live c)
      then Some (restart k chain s (note k chain [SetLeader false; SetWs false false] (end_session session c)))
      else None
  | ERelease _ false, Unlocking session _ =>
      Some (restart k chain s (note k chain [SetLeader false; SetWs false false] c))
  | EPanic _, (Connect | TryLock _ | WaitLock _ _ | Leading _ _ _ | Draining _ _ _ _ | Unlocking _ _) =>
      Some (restart k chain s (abort k (su_phase s) c))
  | _, _ => None
  end.

Definition event_sup (e : Event) : option (nat * nat) :=
  match e with
  | ELost _ => None
  | EStart k | ECancel k | ELoop k | EBootstrap k _ _ _ _ | EWake k | EConnect k _ | ETryLock k _
  | EWaited k _ | ETaskEnd k _ _ | EKeepalive k _ | ESelect k _ | EDrained k | ERelease k _ | EPanic k => Some k
  end.

(** The replies a bootstrap gets report nothing but RPC outcomes to the health state. *)
Definition rpc_replies (chain : ChainSpec) (cid : Reply Z) (decimals : Z -> Reply (option Z)) (head : Reply Z) : bool :=
  forallb rpc_op cid.2 && forallb rpc_op head.2
  && forallb (fun t => forallb rpc_op (decimals (t_address t)).2) (ch_tokens chain).

(** [src/ingest/mod.rs:205-245 run_chain] One step of a supervisor. *)
Definition sup_step (k : nat * nat) (chain : ChainSpec) (s : Sup) (rt : ChainRuntime) (e : Event) (c : Cluster)
    : option Cluster :=
  let goto p := put_sup k (mkSup p (su_backoff s) (su_cancelled s)) c in
  match e, su_phase s with
  | ECancel _, _ => Some (put_sup k (mkSup (su_phase s) (su_backoff s) true) c)
  | ELoop _, Top =>
      Some (goto (if su_cancelled s then Stopped else if rt_hydrated rt then Connect else Booting))
  | EBootstrap _ now cid decimals head, Booting =>
      if rpc_replies chain cid decimals head then Some (run_bootstrap k chain s rt now cid decimals head c) else None
  | EWake _, Sleeping _ => Some (goto Top)
  | _, _ => lead_step k chain s e c
  end.

Definition cstep (e : Event) (c : Cluster) : option Cluster :=
  match e with
  | ELost s => if bool_decide (s ∈ c_live c) then Some (end_session s c) else None
  | EStart k =>
      match chains !! k.2, c_sups c !! k with
      | Some _, None =>
          Some (put_sup k (mkSup Top 500 false)
                  (put_sys (mkSys (sy_db (c_sys c)) (<[k := runtime_new]> (sy_rt (c_sys c))) (sy_seen (c_sys c))) c))
      | _, _ => None
      end
  | _ =>
      k ← event_sup e; chain ← chains !! k.2; s ← c_sups c !! k; rt ← rt_at k c; sup_step k chain s rt e c
  end.

(** ** The tasks at work *)

(** The flags only [run_chain] and [lead] set. *)
Definition flags (s : Sys) (k : nat * nat) : option (bool * bool) :=
  (fun rt => (rt_hydrated rt, h_leader (rt_health rt))) <$> sy_rt s !! k.

(** The calls on the health state outside [run_chain] and [lead]. *)
Definition task_op (op : HealthOp) : bool := match op with SetLeader _ => false | _ => true end.

(** One transaction, or one change of the runtime, of the sweeper or the head path that a supervisor of
    the chain has spawned. *)
Inductive task_step (k : nat * nat) (chain : ChainSpec) : Sys -> Sys -> Prop :=
  | k_see d rts seen rt log m :
      rts !! k = Some rt -> log_ok hist chain log -> match_log chain (rt_cache rt) log = Ok m ->
      task_step k chain (mkSys d rts seen) (mkSys d rts ((k.2, m) :: seen))
  | k_pending d rts seen m env r d' :
      (k.2, m) ∈ seen -> record_pending env d chain m = (r, d') ->
      task_step k chain (mkSys d rts seen) (mkSys d' rts seen)
  | k_sweep d rts seen rt env c to logs r d' cache' :
      rts !! k = Some rt -> Forall (fun l => l_removed l = false -> log_ok hist chain l) logs ->
      apply_sweep env d chain (rt_cache rt) c to logs = (r, d', cache') ->
      task_step k chain (mkSys d rts seen) (mkSys d' (<[k := with_cache cache' rt]> rts) seen)
  | k_backfill d rts seen rt env batch logs r d' cache' :
      rts !! k = Some rt -> Forall (backfill_ok chain d) batch ->
      Forall (fun l => l_removed l = false -> log_ok hist chain l) logs ->
      apply_backfill env d chain (rt_cache rt) batch logs = (r, d', cache') ->
      task_step k chain (mkSys d rts seen) (mkSys d' (<[k := with_cache cache' rt]> rts) seen)
  | k_fast_forward d rts seen target r d' :
      fast_forward_cursor d (ch_chain_id chain) target = (r, d') ->
      task_step k chain (mkSys d rts seen) (mkSys d' rts seen)
  | k_expire d rts seen env limit r d' :
      expire_watches env d chain limit = (r, d') -> task_step k chain (mkSys d rts seen) (mkSys d' rts seen)
  | k_remove d rts seen rt key id :
      rts !! k = Some rt -> task_step k chain (mkSys d rts seen) (mkSys d (<[k := remove_watch rt key id]> rts) seen)
  | k_runtime d rts seen rt ops sweep_q watch_q :
      (* health calls, and the channels *)
      rts !! k = Some rt -> forallb task_op ops = true ->
      task_step k chain (mkSys d rts seen)
        (mkSys d (<[k := mkRuntime (rt_cache rt) (health_run (stall_of chain) ops (rt_health rt)).1 sweep_q watch_q
                           (rt_hydrated rt)]> rts) seen).

(** One step of the API, of the notification listener or of the dispatcher of any instance. *)
Inductive serve_step : Sys -> Sys -> Prop :=
  | s_create d rts seen env new r d' :
      create_watch env d new = (r, d') -> serve_step (mkSys d rts seen) (mkSys d' rts seen)
  | s_add d rts seen inst j chain rt id row w key ref :
      chains !! j = Some chain -> rts !! (inst, j) = Some rt ->
      d_watches d !! id = Some row -> w_chain_id row = as_i64 (ch_chain_id chain) ->
      from_row row = Ok w -> cache_entry w chain = Some (key, ref) ->
      serve_step (mkSys d rts seen) (mkSys d (<[(inst, j) := add_watch rt key ref]> rts) seen)
  | s_trigger d rts seen k rt trigger :
      rts !! k = Some rt -> serve_step (mkSys d rts seen) (mkSys d (<[k := request_sweep rt trigger]> rts) seen)
  | s_cancel d rts seen env id r d' :
      cancel_watch env d id = (r, d') -> serve_step (mkSys d rts seen) (mkSys d' rts seen)
  | s_remove d rts seen k rt key id :
      rts !! k = Some rt -> serve_step (mkSys d rts seen) (mkSys d (<[k := remove_watch rt key id]> rts) seen)
  | s_notify d rts seen inst j chain rt op id :
      chains !! j = Some chain -> rts !! (inst, j) = Some rt ->
      serve_step (mkSys d rts seen) (mkSys d (<[(inst, j) := handle d chain op id rt]> rts) seen)
  | s_deliver d rts seen d' : delivery d d' -> serve_step (mkSys d rts seen) (mkSys d' rts seen).

Inductive lstep (c : Cluster) : option Event -> Cluster -> Prop :=
  | l_event e c' : cstep e c = Some c' -> lstep c (Some e) c'
  | l_work k s chain sys' :
      (* the sweeper or the head path of a supervisor that runs them *)
      c_sups c !! k = Some s -> works (su_phase s) = true -> chains !! k.2 = Some chain ->
      task_step k chain (c_sys c) sys' -> lstep c None (put_sys sys' c)
  | l_stray k chain before after sys' :
      (* the transaction an aborted task had in flight; what would follow it in memory does not *)
      c_stray c = before ++ k :: after -> chains !! k.2 = Some chain -> task_step k chain (c_sys c) sys' ->
      lstep c None (strays (before ++ after)
                      (put_sys (mkSys (sy_db sys') (sy_rt (c_sys c)) (sy_seen (c_sys c))) c))
  | l_serve sys' : serve_step (c_sys c) sys' -> lstep c None (put_sys sys' c).

Inductive lruns : Cluster -> list (option Event) -> Cluster -> Prop :=
  | lruns_nil c : lruns c [] c
  | lruns_cons c l c1 ls c2 : lstep c l c1 -> lruns c1 ls c2 -> lruns c (l :: ls) c2.

Definition lreachable (c : Cluster) : Prop := exists ls, lruns cluster_init ls c.
End leader.
