(* ===== verification/LeaderSpec.v ===== *)
(** * LeaderSpec: leadership is exclusive, hands over and ends

    Who holds the lock leads; what the tasks of a leader write stays on its chain and what the others
    do touches no transfer ([OneChain]); a transaction is left in flight only where tasks are aborted; a
    cancelled supervisor stops by its own steps; and a lost leader is replaced. *)

From S2P Require Import Prelude Config Registry Cache Matcher Events Health Rpc Store Sweep Runtime.
From S2P Require Import Outbox TxSpec Ledger LedgerTx System OneChain Leader.

Section spec.
Variable hist : TransferKey -> option (Z * Z * Z * Z).
Variable chains : list ChainSpec.

Local Abbreviation cstep := (cstep chains).
Local Abbreviation lstep := (lstep hist chains).
Local Abbreviation lruns := (lruns hist chains).
Local Abbreviation lreachable := (lreachable hist chains).

Definition key_of (chain : ChainSpec) : Z := leadership_key (ch_chain_id chain).

(** ** What a step does to sessions and locks *)

Definition same_locks (c c' : Cluster) : Prop :=
  c_locks c' = c_locks c /\ c_live c' = c_live c /\ c_next c' = c_next c.

Definition ended (s : Z) (c c' : Cluster) : Prop :=
  same_locks (end_session s c) c'.

Inductive pstep (c c' : Cluster) : Prop :=
  | p_none : same_locks c c' -> c_sups c' = c_sups c -> pstep c c'
  | p_lost s : ended s c c' -> c_sups c' = c_sups c -> pstep c c'
  | p_start k s' :
      same_locks c c' -> is_Some (chains !! k.2) -> session_of (su_phase s') = None ->
      c_sups c' = <[k := s']> (c_sups c) -> pstep c c'
  | p_keep k s s' :
      same_locks c c' -> c_sups c !! k = Some s ->
      session_of (su_phase s') = session_of (su_phase s) ->
      (leads (su_phase s') = true -> leads (su_phase s) = true) ->
      c_sups c' = <[k := s']> (c_sups c) -> pstep c c'
  | p_connect k s s' :
      c_sups c !! k = Some s -> su_phase s' = TryLock (c_next c) ->
      c_locks c' = c_locks c -> c_live c' = {[c_next c]} ∪ c_live c -> c_next c' = c_next c + 1 ->
      c_sups c' = <[k := s']> (c_sups c) -> pstep c c'
  | p_acquire k chain s s' ses :
      c_sups c !! k = Some s -> chains !! k.2 = Some chain ->
      session_of (su_phase s) = Some ses -> ses ∈ c_live c ->
      (c_locks c !! key_of chain = None \/ c_locks c !! key_of chain = Some ses) ->
      c_locks c' = <[key_of chain := ses]> (c_locks c) -> c_live c' = c_live c -> c_next c' = c_next c ->
      session_of (su_phase s') = Some ses -> c_sups c' = <[k := s']> (c_sups c) -> pstep c c'
  | p_release k s s' ses :
      c_sups c !! k = Some s -> session_of (su_phase s) = Some ses -> session_of (su_phase s') = None ->
      ended ses c c' -> c_sups c' = <[k := s']> (c_sups c) -> pstep c c'.

Lemma note_proto k chain ops c :
  same_locks c (note k chain ops c) /\ c_sups (note k chain ops c) = c_sups c.
Proof. unfold note, same_locks. by destruct (rt_at k c). Qed.

Lemma restart_proto k chain s c :
  same_locks c (restart k chain s c)
  /\ c_sups (restart k chain s c)
     = <[k := mkSup (Sleeping (su_backoff s)) (Z.min (su_backoff s * 2) 15000) (su_cancelled s)]> (c_sups c).
Proof. unfold restart, restart_backoff. cbn. destruct (note_proto k chain [SetLeader false] c) as [H E]. by rewrite E. Qed.

Lemma run_bootstrap_proto k chain s rt now cid decimals head c :
  let c' := run_bootstrap k chain s rt now cid decimals head c in
  same_locks c c' /\ exists s', c_sups c' = <[k := s']> (c_sups c) /\ su_cancelled s' = su_cancelled s
    /\ (su_phase s' = Connect \/ exists d, su_phase s' = Sleeping d).
Proof.
  unfold run_bootstrap. destruct (bootstrap _ _ _ _ _ _ _) as [[[[]|e] db] rt']; cbn; (split; [done|]);
    eexists; (split; [reflexivity|]); cbn; eauto.
Qed.

Lemma poll_lock_proto k chain s ses c :
  let c' := poll_lock k chain s ses c in
  if (try_advisory_lock (key_of chain) ses (c_locks c)).1 then
    (c_locks c !! key_of chain = None \/ c_locks c !! key_of chain = Some ses)
    /\ c_locks c' = <[key_of chain := ses]> (c_locks c) /\ c_live c' = c_live c /\ c_next c' = c_next c
    /\ c_sups c' = <[k := mkSup (Leading ses Running Running) (su_backoff s) (su_cancelled s)]> (c_sups c)
  else same_locks c c'
    /\ c_sups c' = <[k := mkSup (WaitLock ses (su_cancelled s)) (su_backoff s) (su_cancelled s)]> (c_sups c).
Proof.
  unfold poll_lock, try_advisory_lock. fold (key_of chain).
  destruct (c_locks c !! key_of chain) as [s0|] eqn:Hl; cbn.
  - destruct (Z.eqb_spec s0 ses) as [->|]; [|done].
    destruct (note_proto k chain [SetLeader true]
      (mkCluster (c_sys c) (c_locks c) (c_live c) (c_next c) (c_sups c) (c_stray c))) as [(E1 & E2 & E3) E4].
    cbn in *. rewrite E1, E2, E3, E4. split_and!; try done; [by right|by rewrite insert_id].
  - destruct (note_proto k chain [SetLeader true]
      (mkCluster (c_sys c) (<[key_of chain := ses]> (c_locks c)) (c_live c) (c_next c) (c_sups c) (c_stray c))) as [(E1 & E2 & E3) E4].
    cbn in *. rewrite E1, E2, E3, E4. split_and!; try done. by left.
Qed.

Lemma pstep_strays l c c' : pstep c c' -> pstep c (strays l c').
Proof.
  intros [];
    first [by eapply p_none|by eapply p_lost|by eapply p_connect|by eapply p_acquire|by eapply p_release|by eapply p_keep|by eapply p_start].
Qed.

(** A supervisor's own step, with what it reads looked up. *)
Lemma cstep_inv e c c' k :
  event_sup e = Some k -> (forall k', e ≠ EStart k') -> cstep e c = Some c' ->
  exists chain s rt, chains !! k.2 = Some chain /\ c_sups c !! k = Some s /\ rt_at k c = Some rt
    /\ sup_step k chain s rt e c = Some c'.
Proof.
  intros Hk Hns H. destruct e; try done; cbn in Hk; simplify_eq; try (by destruct (Hns k)); cbn [Leader.cstep event_sup] in H;
    cbn [mbind option_bind] in H;
    destruct (chains !! k.2) as [chain|]; cbn in H; try done;
    destruct (c_sups c !! k) as [s|]; cbn in H; try done;
    destruct (rt_at k c) as [rt|]; cbn in H; try done; by eauto 8.
Qed.

(** [su_phase s' = p]: a jump within the supervisor, with nothing else changed. *)
Lemma p_goto c k chain s p :
  chains !! k.2 = Some chain -> c_sups c !! k = Some s ->
  (session_of p = None \/ session_of p = session_of (su_phase s) /\ (leads p = true -> leads (su_phase s) = true)) ->
  forall b x, pstep c (put_sup k (mkSup p b x) c).
Proof.
  intros Hc Hs [Hp|[Hp Hl]] b x.
  - apply (p_start _ _ k (mkSup p b x)); [done|by eexists|done|done].
  - by apply (p_keep _ _ k s (mkSup p b x)).
Qed.

Lemma p_restart c k chain s c0 :
  chains !! k.2 = Some chain -> c_sups c !! k = Some s -> same_locks c c0 -> c_sups c0 = c_sups c ->
  pstep c (restart k chain s c0).
Proof.
  intros Hc Hs (A1 & A2 & A3) E. destruct (restart_proto k chain s c0) as [(B1 & B2 & B3) E'].
  eapply (p_start _ _ k); [unfold same_locks; split_and!; congruence|by eexists| |by rewrite E', E]. reflexivity.
Qed.

Lemma same_locks_refl c : same_locks c c.
Proof. done. Qed.

Lemma lead_step_pstep k chain s e c c' :
  chains !! k.2 = Some chain -> c_sups c !! k = Some s -> lead_step k chain s e c = Some c' -> pstep c c'.
Proof.
  intros Hc Hs H. pose proof (fun p => p_goto c k chain s p Hc Hs) as Hg.
  pose proof (p_restart c k chain s c Hc Hs (same_locks_refl c) eq_refl) as Hr.
  destruct (note_proto k chain [SetLeader false; SetWs false false] c) as [Hn En].
  pose proof (p_restart c k chain s _ Hc Hs Hn En) as Hrn.
  assert (Ha : forall l, pstep c (restart k chain s (strays l c))) by (intros l; by apply p_restart).
  unfold lead_step in H.
  destruct e as [| | | | | |? [err|]|? [err|]|? [|]|? t r|? [err|]|? br|?|? [|]|?], (su_phase s) as [| | | |ses|ses was|ses a b|ses a b o|ses o|] eqn:Hp;
    cbn in Hg; try done; try (injection H as <-; first [exact Hr|exact Hrn|apply Ha|apply Hg; by auto|apply pstep_strays, Hg; by auto]).
  - injection H as <-.
    by apply (p_connect _ _ k s (mkSup (TryLock (c_next c)) (su_backoff s) (su_cancelled s))).
  - case_bool_decide as Hl; [|done]. injection H as <-. pose proof (poll_lock_proto k chain s ses c) as Hpl. cbn in Hpl.
    destruct (try_advisory_lock _ _ _).1.
    + destruct Hpl as (Hf & E1 & E2 & E3 & E4). eapply (p_acquire _ _ k chain s); try eassumption; [by rewrite Hp|reflexivity].
    + destruct Hpl as (E1 & E2). eapply (p_keep _ _ k s); try eassumption; [by rewrite Hp|done].
  - destruct (su_cancelled s); [|done]. injection H as <-. exact Hr.
  - destruct was; [done|]. injection H as <-. apply Hg. auto.
  - destruct (end_task t r a b) as [[a' b']|]; [|done]. cbn in H. injection H as <-. apply Hg. auto.
  - destruct (end_task t r a b) as [[a' b']|]; [|done]. cbn in H. injection H as <-. apply Hg. auto.
  - case_bool_decide; [|done]. injection H as <-. by apply p_none.
  - destruct (select s br a b) as [o|]; [|done]. cbn in H. injection H as <-. apply Hg. auto.
  - case_bool_decide as Hl; [|done]. injection H as <-.
    destruct (note_proto k chain [SetLeader false; SetWs false false] (end_session ses c)) as [(A1 & A2 & A3) En'].
    destruct (restart_proto k chain s (note k chain [SetLeader false; SetWs false false] (end_session ses c))) as [(B1 & B2 & B3) E'].
    eapply (p_release _ _ k s); [done|by rewrite Hp| |unfold ended, same_locks; split_and!; congruence|by rewrite E', En']. reflexivity.
Qed.

Lemma sup_step_pstep k chain s rt e c c' :
  chains !! k.2 = Some chain -> c_sups c !! k = Some s -> sup_step k chain s rt e c = Some c' -> pstep c c'.
Proof.
  intros Hc Hs H. pose proof (fun p => p_goto c k chain s p Hc Hs) as Hg. unfold sup_step in H.
  destruct e; try (by eapply lead_step_pstep); destruct (su_phase s) eqn:Hp; try (by eapply lead_step_pstep); cbn in Hg, H;
    try (injection H as <-; apply Hg; by auto).
  - injection H as <-. apply Hg. left. by destruct (su_cancelled s), (rt_hydrated rt).
  - destruct (rpc_replies _ _ _ _); [|done]. injection H as <-.
    destruct (run_bootstrap_proto k chain s rt now chain_id decimals head c) as (Hsl & s' & E & _ & Hp').
    eapply (p_start _ _ k); eauto. by destruct Hp' as [->|[d ->]].
Qed.

Lemma cstep_pstep e c c' : cstep e c = Some c' -> pstep c c'.
Proof.
  intros H. destruct (event_sup e) as [k|] eqn:Hk.
  - assert ((exists k', e = EStart k') \/ forall k', e ≠ EStart k') as [[k' ->]|Hne].
    { destruct e; try (by right); left; eauto. }
    + cbn in H. destruct (chains !! k'.2) as [chain|] eqn:Hc; [|done]. destruct (c_sups c !! k'); [done|]. injection H as <-.
      apply (p_start _ _ k' (mkSup Top 500 false)); [done|by eexists|done|done].
    + eapply cstep_inv in H as (chain & s & rt & Hc & Hs & _ & H); eauto. by eapply sup_step_pstep.
  - destruct e; try done. cbn in H. case_bool_decide; [|done]. injection H as <-. by eapply p_lost.
Qed.

(** ** The locks *)

Record LockInv (c : Cluster) : Prop := {
  li_next : forall s, s ∈ c_live c -> s < c_next c;
  li_sup : forall k s ses, c_sups c !! k = Some s -> session_of (su_phase s) = Some ses -> ses < c_next c;
  li_inj : forall k k' s s' ses, c_sups c !! k = Some s -> c_sups c !! k' = Some s' ->
    session_of (su_phase s) = Some ses -> session_of (su_phase s') = Some ses -> k = k';
  li_holds : forall k s ses chain, c_sups c !! k = Some s -> chains !! k.2 = Some chain ->
    leads (su_phase s) = true -> session_of (su_phase s) = Some ses -> ses ∈ c_live c ->
    c_locks c !! key_of chain = Some ses;
}.

Lemma leads_session p : leads p = true -> is_Some (session_of p).
Proof. by destruct p. Qed.

Lemma LockInv_sups c c' :
  LockInv c -> same_locks c c' ->
  (forall k s' ses, c_sups c' !! k = Some s' -> session_of (su_phase s') = Some ses ->
     exists s, c_sups c !! k = Some s /\ session_of (su_phase s) = Some ses
       /\ (leads (su_phase s') = true -> leads (su_phase s) = true)) -> LockInv c'.
Proof.
  intros [Hn Hs Hi Hh] (E1 & E2 & E3) Hf. split; rewrite ?E1, ?E2, ?E3; [done|..].
  - intros k s' ses H P. destruct (Hf _ _ _ H P) as (s & ? & ? & _). eauto.
  - intros k k' s s' ses H1 H2 P1 P2. edestruct (Hf k) as (? & ? & ? & _); eauto. edestruct (Hf k') as (? & ? & ? & _); eauto.
  - intros k s ses chain H1 Hc Hl P1 Hlive. edestruct (Hf k) as (? & ? & ? & Hld); eauto.
Qed.

Lemma LockInv_ended ses c c' : LockInv c -> ended ses c c' -> c_sups c' = c_sups c -> LockInv c'.
Proof.
  intros [Hn Hs Hi Hh] (E1 & E2 & E3) E. split; rewrite ?E1, ?E2, ?E3, ?E; cbn; [set_solver|done..|].
  intros k s ses' chain H1 Hc Hl P1 [Hlive Hne%not_elem_of_singleton]%elem_of_difference.
  apply map_lookup_filter_Some. split; [eauto|done].
Qed.

Lemma put_sup_lookup (m : gmap (nat * nat) Sup) k s' k0 s0 :
  <[k := s']> m !! k0 = Some s0 -> (k0 = k /\ s0 = s') \/ (k0 ≠ k /\ m !! k0 = Some s0).
Proof. intros [[-> ->]|[? ?]]%lookup_insert_Some; auto. Qed.

Lemma LockInv_pstep c c' : LockInv c -> pstep c c' -> LockInv c'.
Proof.
  intros HI Hp. destruct Hp as [Hsl E|s He E|k s' Hsl Hc Hse E|k s s' Hsl Hs Hse Hl E|k s s' Hs Hp El Eli En E
    |k chain s s' ses Hs Hc Hses Hlive Hfree El Eli En Hse E|k s s' ses Hs Hses Hse He E].
  - eapply LockInv_sups; [done..|]. rewrite E. eauto.
  - by eapply LockInv_ended.
  - eapply LockInv_sups; [done..|]. rewrite E. intros k0 s0 ses [[-> ->]|[_ H]]%put_sup_lookup P; [congruence|eauto].
  - eapply LockInv_sups; [done..|]. rewrite E. intros k0 s0 ses [[-> ->]|[_ H]]%put_sup_lookup P; [|eauto].
    exists s. split_and!; [done|congruence|done].
  - destruct HI as [Hn Hsu Hi Hh]. assert (Hs' : session_of (su_phase s') = Some (c_next c)) by by rewrite Hp.
    split; rewrite ?El, ?Eli, ?En, ?E.
    + intros x [->%elem_of_singleton|Hx%Hn]%elem_of_union; lia.
    + intros k0 s0 ses [[-> ->]|[_ H]]%put_sup_lookup P; [simplify_eq; lia|]. specialize (Hsu _ _ _ H P). lia.
    + intros k0 k1 s0 s1 ses [[-> ->]|[_ H]]%put_sup_lookup [[-> ->]|[_ H']]%put_sup_lookup P P'; eauto; [..|].
      * simplify_eq. specialize (Hsu _ _ _ H' P'). lia.
      * simplify_eq. specialize (Hsu _ _ _ H P). lia.
    + intros k0 s0 ses chain [[-> ->]|[_ H]]%put_sup_lookup Hc Hl P Hlv; [by rewrite Hp in Hl|].
      apply (Hh k0 s0); try done. specialize (Hsu _ _ _ H P). set_solver by lia.
  - destruct HI as [Hn Hsu Hi Hh]. split; rewrite ?El, ?Eli, ?En, ?E; [done|..].
    + intros k0 s0 ses' [[-> ->]|[_ H]]%put_sup_lookup P; [|eauto]. simplify_eq. eauto.
    + intros k0 k1 s0 s1 ses' [[-> ->]|[_ H]]%put_sup_lookup [[-> ->]|[_ H']]%put_sup_lookup P P'; simplify_eq; eauto.
    + intros k0 s0 ses' chain' [[-> ->]|[Hne H]]%put_sup_lookup Hc' Hl P Hlv.
      * simplify_eq. by rewrite lookup_insert_eq.
      * pose proof (Hh _ _ _ _ H Hc' Hl P Hlv) as Hk.
        destruct (decide (key_of chain = key_of chain')) as [Ek|Hnk]; [|by rewrite lookup_insert_ne].
        rewrite <- Ek in Hk. destruct Hfree; simplify_eq. by destruct Hne; eapply Hi.
  - assert (HI' : LockInv (mkCluster (c_sys c) (c_locks c) (c_live c) (c_next c) (<[k := s']> (c_sups c)) (c_stray c))).
    { eapply LockInv_sups; [done..|]. cbn. intros k0 s0 ses0 [[-> ->]|[_ H]]%put_sup_lookup P; [congruence|eauto]. }
    eapply (LockInv_ended ses); [exact HI'|exact He|done].
Qed.

Lemma lstep_pstep c l c' : lstep c l c' -> pstep c c'.
Proof. destruct 1; [by eapply cstep_pstep|by apply p_none..]. Qed.

Lemma LockInv_init : LockInv cluster_init.
Proof.
  split; cbn; [set_solver|..].
  - intros k s ses H. by rewrite lookup_empty in H.
  - intros k k' s s' ses H. by rewrite lookup_empty in H.
  - intros k s ses chain H. by rewrite lookup_empty in H.
Qed.

(** Rule induction for what every step keeps. *)
Lemma lruns_ind (P : Cluster -> Prop) c ls c' :
  (forall c l c', P c -> lstep c l c' -> P c') -> lruns c ls c' -> P c -> P c'.
Proof. intros Hst. induction 1; eauto. Qed.

Lemma lreachable_LockInv c : lreachable c -> LockInv c.
Proof.
  intros [ls H]. refine (lruns_ind LockInv _ _ _ _ H LockInv_init).
  eauto using LockInv_pstep, lstep_pstep.
Qed.

(** ** Supervision is made of the system's actions *)

Local Abbreviation action := (action hist chains).

Lemma note_action k chain ops c : rtc action (c_sys c) (c_sys (note k chain ops c)).
Proof.
  unfold note, rt_at. destruct (sy_rt (c_sys c) !! k) as [rt|] eqn:H; [|done].
  destruct (c_sys c) as [db rts seen], k as [i j]. cbn. apply rtc_once. by eapply a_runtime.
Qed.

Lemma restart_action k chain s c : rtc action (c_sys c) (c_sys (restart k chain s c)).
Proof. apply (note_action k chain [SetLeader false]). Qed.

Lemma lead_step_action k chain s e c c' :
  lead_step k chain s e c = Some c' -> rtc action (c_sys c) (c_sys c').
Proof.
  intros H. unfold lead_step in H. pose proof (restart_action k chain s) as Hr.
  pose proof (note_action k chain) as Hn.
  repeat (case_match || case_bool_decide); simplify_option_eq; try done; try apply Hr; try (etrans; [apply Hn|apply Hr]).
  - unfold poll_lock. repeat case_match; [|done]. cbn. apply (Hn _ (mkCluster _ _ _ _ _ _)).
  - case_match. by simplify_eq.
  - case_match. by simplify_eq.
  - etrans; [apply (Hn [SetLeader false; SetWs false false] (end_session session c))|apply Hr].
  - apply (Hn [SetLeader false] (strays _ c)).
  - apply (Hn [SetLeader false] (strays _ c)).
Qed.

Lemma cstep_action e c c' : cstep e c = Some c' -> rtc action (c_sys c) (c_sys c').
Proof.
  intros H. unfold Leader.cstep in H.
  destruct e; [| |by repeat case_bool_decide; simplify_eq|..];
    try (apply bind_Some in H as (k' & [= <-] & H); apply bind_Some in H as (chain & Hc & H);
         apply bind_Some in H as (s & Hs & H); apply bind_Some in H as (rt & Hrt & H);
         unfold sup_step in H; cbv zeta in H);
    try (by eapply lead_step_action).
  - repeat case_match; simplify_eq. destruct k as [i j], (c_sys c) as [db rts seen]. apply rtc_once. by apply a_start.
  - by simplify_eq.
  - case_match; try (by eapply lead_step_action). by simplify_eq.
  - case_match; try (by eapply lead_step_action). case_match; [|done]. simplify_eq. unfold run_bootstrap.
    destruct (bootstrap _ _ _ _ _ _ _) as [[r db] rt'] eqn:Hb.
    apply rtc_once. unfold rt_at in Hrt. destruct k as [i j], (c_sys c) as [d rts seen]. cbn in *.
    destruct r as [[]|err]; by eapply a_bootstrap.
  - case_match; try (by eapply lead_step_action). by simplify_eq.
Qed.

(** What the tasks and the other parts of an instance do are actions. *)
Lemma task_action k chain s s' : chains !! k.2 = Some chain -> task_step hist k chain s s' -> action s s'.
Proof.
  destruct k as [i j]. cbn. intros Hc [].
  - by eapply a_see.
  - by eapply a_pending.
  - by eapply a_sweep.
  - by eapply a_backfill.
  - by eapply a_fast_forward.
  - by eapply a_expire.
  - by eapply a_remove.
  - by eapply a_runtime.
Qed.

Lemma serve_action s s' : serve_step chains s s' -> action s s'.
Proof.
  intros [].
  - by eapply a_create.
  - by eapply a_add.
  - destruct k as [i j]. by eapply a_runtime.
  - by eapply a_cancel.
  - destruct k as [i j]. by eapply a_remove.
  - by eapply a_notify.
  - by eapply a_deliver.
Qed.

Lemma stray_action k chain s s' :
  chains !! k.2 = Some chain -> task_step hist k chain s s' -> action s (mkSys (sy_db s') (sy_rt s) (sy_seen s)).
Proof.
  intros Hc H%task_action; [|done]. destruct s as [d rts seen], s' as [d' rts' seen']. by eapply a_abandoned.
Qed.

(** ** The books *)

(** The API, the listener and the dispatchers write neither transfers nor cursors. *)
Lemma serve_books s s' : serve_step chains s s' ->
  d_transfers (sy_db s') = d_transfers (sy_db s) /\ d_cursors (sy_db s') = d_cursors (sy_db s).
Proof. intros []; cbn; eauto using create_watch_books, cancel_watch_books, delivery_books. Qed.

(** A chain's tasks write no transfer of another chain. *)
Lemma task_books k chain s s' :
  ids_ok (sy_db s) -> task_step hist k chain s s' ->
  elsewhere_kept (as_i64 (ch_chain_id chain)) (sy_db s) (sy_db s').
Proof.
  intros Hids H. revert Hids. destruct H; cbn; intros Hids; try done.
  - by eapply record_pending_elsewhere.
  - by eapply apply_sweep_elsewhere.
  - by eapply apply_backfill_elsewhere.
  - by eapply elsewhere_same, fast_forward_transfers.
  - apply elsewhere_same. by eapply (expire_watches_frame chain).
Qed.

(** ** The leader flag *)

Lemma health_run_leader stall ops i :
  h_leader (health_run stall ops i).1
  = foldl (fun l op => match op with SetLeader b => b | _ => l end) (h_leader i) ops.
Proof.
  revert i. induction ops as [|op ops IH]; intros i; [done|]. cbn [health_run foldl].
  destruct (health_update stall (op_effect op) i) as [i1 t] eqn:Hu.
  specialize (IH i1). destruct (health_run stall ops i1) as [i2 ts]. cbn [fst] in *. rewrite IH. f_equal.
  unfold health_update in Hu. case_bool_decide; simplify_eq; by destruct op.
Qed.

Lemma health_run_keeps stall ops i :
  forallb task_op ops = true -> h_leader (health_run stall ops i).1 = h_leader i.
Proof.
  intros H. rewrite health_run_leader. generalize (h_leader i). induction ops as [|op ops IH]; intros l; [done|].
  cbn in *. apply andb_prop in H as [H1 H2]. rewrite (IH H2). by destruct op.
Qed.

Lemma rpc_ops_keep ops : forallb rpc_op ops = true -> forallb task_op ops = true.
Proof.
  intros H. apply forallb_forall. intros op Hin. eapply forallb_forall in H; [|exact Hin]. by destruct op.
Qed.

Lemma bootstrap_flags now chain cid decimals head db rt r db' rt' :
  rpc_replies chain cid decimals head = true -> bootstrap now chain cid decimals head db rt = (r, db', rt') ->
  h_leader (rt_health rt') = h_leader (rt_health rt).
Proof.
  intros Hr H. unfold rpc_replies in Hr. apply andb_prop in Hr as [[H1%rpc_ops_keep H2%rpc_ops_keep]%andb_prop H3].
  assert (Hcd : forall toks rt0 r0 rt1,
    forallb (fun t => forallb rpc_op (decimals (t_address t)).2) toks = true ->
    check_decimals chain decimals toks rt0 = (r0, rt1) -> h_leader (rt_health rt1) = h_leader (rt_health rt0)).
  { induction toks as [|t toks IH]; intros rt0 r0 rt1 Ht H0; cbn in H0; [by simplify_eq|].
    cbn in Ht. apply andb_prop in Ht as [Ht%rpc_ops_keep Hts].
    destruct (decimals _) as [[a|e] ops]; [case_bool_decide|].
    - apply IH in H0; [|done]. rewrite H0. by apply health_run_keeps.
    - simplify_eq. by apply health_run_keeps.
    - simplify_eq. by apply health_run_keeps. }
  unfold bootstrap in H. assert (E1 : h_leader (rt_health (note_health chain cid.2 rt)) = h_leader (rt_health rt)) by by apply health_run_keeps.
  destruct cid.1 as [actual|e]; [|by simplify_eq]. destruct (negb _); [by simplify_eq|].
  destruct (check_decimals _ _ _ _) as [[[]|e] rt1] eqn:Hc; apply Hcd in Hc; [|done| |done]; [|simplify_eq; congruence].
  assert (E2 : forallb task_op (block_number now head).2 = true).
  { unfold block_number. destruct head.1; [|done]. cbn. by rewrite forallb_app, H2. }
  destruct (block_number now head) as [[h|e] ops]; cbn in E2; [|simplify_eq; cbn; rewrite health_run_keeps; congruence].
  destruct (ensure_cursor _ _ _) as [cursor d1]. simplify_eq. cbn [note_health rt_health with_cache].
  rewrite !health_run_keeps; [congruence|done|done].
Qed.

(** The flags are the supervisor's: no task and no other part of an instance touches them. *)
Lemma flags_put d d' rts seen seen' k k' rt rt' :
  rts !! k = Some rt -> rt_hydrated rt' = rt_hydrated rt -> h_leader (rt_health rt') = h_leader (rt_health rt) ->
  flags (mkSys d' (<[k := rt']> rts) seen') k' = flags (mkSys d rts seen) k'.
Proof.
  intros Hk E1 E2. unfold flags. cbn. destruct (decide (k = k')) as [<-|Hne]; [|by rewrite lookup_insert_ne].
  rewrite lookup_insert_eq, Hk. cbn. by rewrite E1, E2.
Qed.

Lemma remove_watch_flags rt key id :
  rt_hydrated (remove_watch rt key id) = rt_hydrated rt /\ rt_health (remove_watch rt key id) = rt_health rt.
Proof. unfold remove_watch. by destruct (cache_remove _ _ _). Qed.

Lemma handle_flags d chain op id rt :
  rt_hydrated (handle d chain op id rt) = rt_hydrated rt /\ rt_health (handle d chain op id rt) = rt_health rt.
Proof. destruct op; cbn; repeat case_match; try done; apply remove_watch_flags. Qed.

Lemma task_flags k chain s s' k' : task_step hist k chain s s' -> flags s' k' = flags s k'.
Proof.
  intros []; try done; try (by eapply flags_put).
  - destruct (remove_watch_flags rt key id) as [E1 E2]. eapply flags_put; [done|done|by rewrite E2].
  - eapply flags_put; [done|done|by apply health_run_keeps].
Qed.

Lemma serve_flags s s' k' : serve_step chains s s' -> flags s' k' = flags s k'.
Proof.
  intros []; try done; try (by eapply flags_put).
  - destruct (remove_watch_flags rt key id) as [E1 E2]. eapply flags_put; [done|done|by rewrite E2].
  - destruct (handle_flags d chain op id rt) as [E1 E2]. eapply flags_put; [done|done|by rewrite E2].
Qed.

Definition FlagInv (c : Cluster) : Prop :=
  forall k s, c_sups c !! k = Some s -> exists h, flags (c_sys c) k = Some (h, leads (su_phase s)).

Definition last_leader (l : bool) (ops : list HealthOp) : bool :=
  foldl (fun l op => match op with SetLeader b => b | _ => l end) l ops.

Lemma note_flags k chain ops c k' :
  flags (c_sys (note k chain ops c)) k'
  = if decide (k' = k) then (fun hl => (hl.1, last_leader hl.2 ops)) <$> flags (c_sys c) k else flags (c_sys c) k'.
Proof.
  unfold note, rt_at, flags. destruct (sy_rt (c_sys c) !! k) as [rt|] eqn:H; cbn.
  - destruct (decide (k' = k)) as [->|Hne]; [|by rewrite lookup_insert_ne].
    rewrite lookup_insert_eq. cbn. by rewrite health_run_leader.
  - by destruct (decide (k' = k)) as [->|]; rewrite ?H.
Qed.

(** Only [k]'s flag and phase move. *)
Lemma FlagInv_put c c' k s' :
  FlagInv c -> c_sups c' = <[k := s']> (c_sups c) ->
  (forall k', k' ≠ k -> flags (c_sys c') k' = flags (c_sys c) k') ->
  (exists h, flags (c_sys c') k = Some (h, leads (su_phase s'))) -> FlagInv c'.
Proof.
  intros HI E Hk Hs k0 s0. rewrite E. intros [[-> ->]|[Hne H]]%put_sup_lookup; [done|]. rewrite Hk by done. eauto.
Qed.

Lemma FlagInv_goto c k s p b x :
  FlagInv c -> c_sups c !! k = Some s -> leads p = leads (su_phase s) -> FlagInv (put_sup k (mkSup p b x) c).
Proof. intros HI Hs El. eapply FlagInv_put; eauto. cbn. rewrite El. eauto. Qed.

Lemma FlagInv_restart c k chain s c0 :
  FlagInv c -> c_sups c !! k = Some s -> c_sups c0 = c_sups c ->
  (forall k', k' ≠ k -> flags (c_sys c0) k' = flags (c_sys c) k') -> is_Some (flags (c_sys c0) k) ->
  FlagInv (restart k chain s c0).
Proof.
  intros HI Hs E Hk [[h l] Hf]. destruct (restart_proto k chain s c0) as [_ E'].
  assert (En : forall k', flags (c_sys (restart k chain s c0)) k' = flags (c_sys (note k chain [SetLeader false] c0)) k') by done.
  eapply FlagInv_put; [exact HI|by rewrite E', E|..].
  - intros k' Hne. rewrite En, note_flags, decide_False by done. auto.
  - exists h. by rewrite En, note_flags, decide_True, Hf by done.
Qed.

Lemma FlagInv_strays l c : FlagInv c -> FlagInv (strays l c).
Proof. done. Qed.

Lemma lead_step_flags k chain s e c c' :
  FlagInv c -> c_sups c !! k = Some s -> lead_step k chain s e c = Some c' -> FlagInv c'.
Proof.
  intros HI Hs H. destruct (HI k s Hs) as [h Hf].
  pose proof (fun p b x => FlagInv_goto c k s p b x HI Hs) as Hg.
  assert (Hr : FlagInv (restart k chain s c)) by (eapply FlagInv_restart; eauto).
  assert (Hrn : forall c0, c_sups c0 = c_sups c -> c_sys c0 = c_sys c ->
    FlagInv (restart k chain s (note k chain [SetLeader false; SetWs false false] c0))).
  { intros c0 E Es. apply (FlagInv_restart c); [done|done|..].
    - rewrite <- E. apply note_proto.
    - intros k' Hne. by rewrite note_flags, decide_False, Es by done.
    - rewrite note_flags, decide_True, Es, Hf by done. by eexists. }
  assert (Ha : forall l, FlagInv (restart k chain s (strays l c))) by (intros l; eapply (FlagInv_restart c); eauto).
  unfold lead_step in H.
  destruct e as [| | | | | |? [err|]|? [err|]|? [|]|? t r|? [err|]|? br|?|? [|]|?], (su_phase s) as [| | | |ses|ses was|ses a b|ses a b o|ses o|] eqn:Hp;
    cbn in Hg, Hf; try done; try (injection H as <-; first [exact Hr|by apply Hrn|by apply Hg|apply Ha|by apply FlagInv_strays, Hg]).
  - case_bool_decide as Hl; [|done]. injection H as <-. pose proof (poll_lock_proto k chain s ses c) as Hpl. cbn in Hpl.
    unfold poll_lock in *. fold (key_of chain) in *.
    destruct (try_advisory_lock _ _ _) as [[|] locks] eqn:Ht; cbn in Hpl.
    + destruct Hpl as (_ & _ & _ & _ & E4). eapply (FlagInv_put c); [done|exact E4|..]; cbn [put_sup c_sys].
      * intros k' Hne. by rewrite note_flags, decide_False.
      * exists h. rewrite note_flags, decide_True by done. cbn. by rewrite Hf.
    + eapply (FlagInv_put c); [done|exact (proj2 Hpl)|done|]. cbn. eauto.
  - destruct (su_cancelled s); [|done]. injection H as <-. exact Hr.
  - destruct was; [done|]. injection H as <-. by apply Hg.
  - destruct (end_task t r a b) as [[a' b']|]; [|done]. cbn in H. injection H as <-. by apply Hg.
  - destruct (end_task t r a b) as [[a' b']|]; [|done]. cbn in H. injection H as <-. by apply Hg.
  - case_bool_decide; [|done]. by injection H as <-.
  - destruct (select s br a b) as [o|]; [|done]. cbn in H. injection H as <-. by apply Hg.
  - case_bool_decide as Hl; [|done]. injection H as <-. by apply Hrn.
Qed.

Lemma sup_step_flags k chain s rt e c c' :
  FlagInv c -> c_sups c !! k = Some s -> rt_at k c = Some rt -> sup_step k chain s rt e c = Some c' -> FlagInv c'.
Proof.
  intros HI Hs Hrt H. pose proof (fun p b x => FlagInv_goto c k s p b x HI Hs) as Hg. destruct (HI k s Hs) as [h Hf].
  unfold sup_step in H. destruct e; try (by eapply lead_step_flags); destruct (su_phase s) eqn:Hp; try (by eapply lead_step_flags);
    cbn in Hg, H, Hf; try (injection H as <-; by apply Hg).
  - injection H as <-. apply Hg. by destruct (su_cancelled s), (rt_hydrated rt).
  - destruct (rpc_replies _ _ _ _) eqn:Hrr; [|done]. injection H as <-.
    destruct (run_bootstrap_proto k chain s rt now chain_id decimals head c) as (_ & s' & E & _ & Hp').
    eapply (FlagInv_put c); [done|exact E|..]; unfold run_bootstrap;
      destruct (bootstrap _ _ _ _ _ _ _) as [[r db] rt'] eqn:Hb; (eapply bootstrap_flags in Hb; [|done]).
    + intros k' Hne. destruct r as [[]|]; unfold flags; cbn; by rewrite lookup_insert_ne.
    + exists (rt_hydrated rt'). unfold flags, rt_at in *. rewrite Hrt in Hf. cbn in Hf. injection Hf as _ Hfl.
      assert (leads (su_phase s') = false) as -> by by destruct Hp' as [->|[d ->]].
      destruct r as [[]|]; cbn; rewrite lookup_insert_eq; cbn; by rewrite Hb, Hfl.
Qed.

Lemma lstep_flags c l c' : FlagInv c -> lstep c l c' -> FlagInv c'.
Proof.
  intros HI. destruct 1 as [e c' H|k s chain sys' _ _ _ Ht|k chain before after sys' _ _ _|sys' Ht].
  2:{ intros k0 s0 H0. cbn. rewrite (task_flags _ _ _ _ _ Ht). by apply HI. }
  2:{ exact HI. }
  2:{ intros k0 s0 H0. cbn. rewrite (serve_flags _ _ _ Ht). by apply HI. }
  destruct (event_sup e) as [k|] eqn:Hk.
  - assert ((exists k', e = EStart k') \/ forall k', e ≠ EStart k') as [[k' ->]|Hne].
    { destruct e; try (by right); left; eauto. }
    + cbn in H. destruct (chains !! k'.2) as [chain|] eqn:Hc; [|done]. destruct (c_sups c !! k'); [done|]. injection H as <-.
      eapply (FlagInv_put c); [done|reflexivity|..]; unfold flags; cbn.
      * intros k0 Hne. by rewrite lookup_insert_ne.
      * exists false. by rewrite lookup_insert_eq.
    + eapply cstep_inv in H as (chain & s & rt & Hc & Hs & Hrt & H); eauto. by eapply sup_step_flags.
  - destruct e; try done. cbn in H. case_bool_decide; [|done]. by injection H as <-.
Qed.

Lemma lstep_action c l c' : lstep c l c' -> rtc action (c_sys c) (c_sys c').
Proof.
  destruct 1; [by eapply cstep_action|apply rtc_once..].
  - by eapply task_action.
  - by eapply stray_action.
  - by apply serve_action.
Qed.

(** ** Shutting down *)

Lemma lreachable_chain c k s : lreachable c -> c_sups c !! k = Some s -> is_Some (chains !! k.2).
Proof.
  intros [ls H]. revert k s. refine (lruns_ind (fun c => forall k s, c_sups c !! k = Some s -> is_Some (chains !! k.2)) _ _ _ _ H _);
    [|intros k s Hk; cbn in Hk; by rewrite lookup_empty in Hk].
  intros c0 l c1 HI Hl%lstep_pstep k s.
  destruct Hl; match goal with E : c_sups c1 = _ |- _ => rewrite E end; try (by eauto);
    intros [[-> ->]|[_ ?]]%put_sup_lookup; eauto.
Qed.

Lemma lreachable_FlagInv c : lreachable c -> FlagInv c.
Proof.
  intros [ls H]. refine (lruns_ind FlagInv _ _ _ _ H _); [by eauto using lstep_flags|].
  intros k s Hk. cbn in Hk. by rewrite lookup_empty in Hk.
Qed.

Definition running (t : Task) : nat := if is_finished t then 0 else 1.

(** How far a cancelled supervisor is from its end. *)
Definition rank (p : Phase) : nat :=
  match p with
  | Stopped => 0
  | Top => 1
  | Sleeping _ => 2
  | Unlocking _ _ | WaitLock _ true => 3
  | Draining _ a b _ => 4 + running a + running b
  | Leading _ a b => 5 + running a + running b
  | TryLock _ => 8
  | WaitLock _ false | Connect => 9
  | Booting => 10
  end.

(** A step of [k] itself, other than a keepalive that found the connection alive. *)
Definition progress (k : nat * nat) (l : option Event) : bool :=
  match l with
  | Some (ECancel _ | EKeepalive _ None | EStart _) | None => false
  | Some e => bool_decide (event_sup e = Some k)
  end.

(** A step [k] takes by itself when it has been cancelled, once the await it stands at returns, one way
    or the other: no panic, no end of a task, no loss of its session. *)
Definition own_step (k : nat * nat) (e : Event) : bool :=
  match e with
  | ELoop k' | EBootstrap k' _ _ _ _ | EWake k' | EConnect k' _ | ETryLock k' _ | EWaited k' true
  | ESelect k' BCancelled | EDrained k' | ERelease k' _ => bool_decide (k' = k)
  | _ => false
  end.

Lemma own_step_progress k e : own_step k e = true -> progress k (Some e) = true.
Proof.
  destruct e as [| | | | | | | |? [|]| |? [|]|? [|]| | |]; cbn; try done; intros ->%bool_decide_eq_true; by apply bool_decide_true.
Qed.

Lemma rank_bound p : (rank p <= 10)%nat.
Proof. destruct p as [| | | | |? []|? [|] [|]|? [|] [|] ?| |]; cbn; lia. Qed.

Lemma end_task_running t r a b a' b' :
  end_task t r a b = Some (a', b') -> (running a' + running b' < running a + running b)%nat.
Proof. destruct t, a, b; cbn; intros [= <- <-]; cbn; lia. Qed.

Definition cancelled_at (k : nat * nat) (n : nat) (c : Cluster) : Prop :=
  exists s, c_sups c !! k = Some s /\ su_cancelled s = true /\ rank (su_phase s) = n.

Lemma cancelled_put k p b c : cancelled_at k (rank p) (put_sup k (mkSup p b true) c).
Proof. eexists. cbn. by rewrite lookup_insert_eq. Qed.

Lemma cancelled_restart k chain s c : su_cancelled s = true -> cancelled_at k 2 (restart k chain s c).
Proof.
  intros Hx. destruct (restart_proto k chain s c) as [_ E]. eexists. rewrite E, lookup_insert_eq. by split_and!.
Qed.

Lemma lead_step_rank k chain s e c c' :
  lead_step k chain s e c = Some c' -> c_sups c !! k = Some s -> su_cancelled s = true ->
  event_sup e = Some k ->
  if progress k (Some e) then exists n, cancelled_at k n c' /\ (n < rank (su_phase s))%nat
  else cancelled_at k (rank (su_phase s)) c'.
Proof.
  intros H Hs Hx Hk.
  assert (Hg : forall p, (rank p < rank (su_phase s))%nat ->
    exists n, cancelled_at k n (put_sup k (mkSup p (su_backoff s) (su_cancelled s)) c) /\ (n < rank (su_phase s))%nat).
  { intros p Hp. rewrite Hx. eauto using cancelled_put. }
  assert (Hr : forall c0, (2 < rank (su_phase s))%nat ->
    exists n, cancelled_at k n (restart k chain s c0) /\ (n < rank (su_phase s))%nat).
  { eauto using cancelled_restart. }
  unfold lead_step in H.
  destruct e as [| | | | | |? [err|]|? [err|]|? [|]|? t r|? [err|]|? br|?|? [|]|?], (su_phase s) as [| | | |ses|ses was|ses a b|ses a b o|ses o|] eqn:Hp;
    cbn in Hk; try done; injection Hk as ->; cbn [progress event_sup]; rewrite ?bool_decide_true by done; cbn [rank] in *;
    try (injection H as <-; first [by apply Hr; lia|by apply Hg; cbn; lia]).
  - case_bool_decide; [|done]. injection H as <-. pose proof (poll_lock_proto k chain s ses c) as Hpl. cbn in Hpl.
    destruct (try_advisory_lock _ _ _).1; [destruct Hpl as (_ & _ & _ & _ & E)|destruct Hpl as [_ E]].
    + exists 7%nat. split; [|lia]. eexists. by rewrite E, lookup_insert_eq.
    + exists 3%nat. split; [|lia]. eexists. rewrite E, lookup_insert_eq. split_and!; [done|done|]. cbn. by rewrite Hx.
  - destruct was; rewrite Hx in H; injection H as <-; apply Hr; lia.
  - destruct was; [done|]. injection H as <-. apply Hg. cbn. lia.
  - destruct (end_task t r a b) as [[a' b']|] eqn:Ht; [|done]. cbn in H. injection H as <-.
    apply end_task_running in Ht. apply Hg. cbn. lia.
  - destruct (end_task t r a b) as [[a' b']|] eqn:Ht; [|done]. cbn in H. injection H as <-.
    apply end_task_running in Ht. apply Hg. cbn. lia.
  - case_bool_decide; [|done]. injection H as <-. exists s. by rewrite Hp.
  - destruct (select s br a b) as [o|]; [|done]. cbn in H. injection H as <-. apply Hg. cbn. lia.
  - case_bool_decide; [|done]. injection H as <-. apply Hr. lia.
  - destruct was; injection H as <-; apply Hr; lia.
Qed.

Lemma sup_step_rank k chain s rt e c c' :
  sup_step k chain s rt e c = Some c' -> c_sups c !! k = Some s -> su_cancelled s = true ->
  event_sup e = Some k ->
  if progress k (Some e) then exists n, cancelled_at k n c' /\ (n < rank (su_phase s))%nat
  else cancelled_at k (rank (su_phase s)) c'.
Proof.
  intros H Hs Hx Hk. unfold sup_step in H.
  destruct e; try (by eapply lead_step_rank); destruct (su_phase s) eqn:Hp;
    try (by (rewrite <- Hp; eapply lead_step_rank)); cbn in Hk; injection Hk as ->;
    cbn [progress event_sup]; rewrite ?bool_decide_true by done; rewrite ?Hx in H; cbn [rank];
    try (injection H as <-; apply cancelled_put).
  - injection H as <-. exists 0%nat. split; [apply (cancelled_put k Stopped)|lia].
  - destruct (rpc_replies _ _ _ _); [|done]. injection H as <-.
    destruct (run_bootstrap_proto k chain s rt now chain_id decimals head c) as (_ & s' & E & Ex & Hp').
    exists (rank (su_phase s')). split; [exists s'; rewrite E, lookup_insert_eq; split_and!; congruence|].
    destruct Hp' as [->|[d ->]]; cbn; lia.
  - injection H as <-. exists 1%nat. split; [apply (cancelled_put k Top)|lia].
Qed.

(** The others leave a supervisor where it is. *)
Lemma lead_step_frame k chain s e c c' k0 :
  k0 ≠ k -> lead_step k chain s e c = Some c' -> c_sups c' !! k0 = c_sups c !! k0.
Proof.
  intros Hne H. assert (Hr : forall c0, c_sups (restart k chain s c0) !! k0 = c_sups c0 !! k0).
  { intros c0. destruct (restart_proto k chain s c0) as [_ ->]. by rewrite lookup_insert_ne. }
  assert (Hn : forall ops c0, c_sups (note k chain ops c0) = c_sups c0) by (intros; apply note_proto).
  unfold lead_step in H. pose proof (fun ses => poll_lock_proto k chain s ses c) as Hpl.
  repeat (case_match || case_bool_decide); simplify_option_eq; repeat case_match; simplify_eq; rewrite ?Hr, ?Hn; cbn;
    rewrite ?lookup_insert_ne by done; try done.
  match goal with |- context [poll_lock _ _ _ ?ses _] => specialize (Hpl ses) end. cbn in Hpl.
  destruct (try_advisory_lock _ _ _).1; [destruct Hpl as (_ & _ & _ & _ & ->)|destruct Hpl as [_ ->]];
    by rewrite lookup_insert_ne.
Qed.

Lemma cstep_frame e c c' k0 :
  event_sup e ≠ Some k0 -> cstep e c = Some c' -> c_sups c' !! k0 = c_sups c !! k0.
Proof.
  intros Hne H. destruct (event_sup e) as [k|] eqn:Hk.
  2:{ destruct e; try done. cbn in H. case_bool_decide; [|done]. by injection H as <-. }
  assert ((exists k', e = EStart k') \/ forall k', e ≠ EStart k') as [[k' ->]|Hns].
  { destruct e; try (by right); left; eauto. }
  - cbn in H, Hk. simplify_eq. repeat case_match; simplify_eq. cbn. by rewrite lookup_insert_ne by congruence.
  - eapply cstep_inv in H as (chain & s & rt & Hc & Hs & _ & H); eauto. assert (k0 ≠ k) by congruence.
    unfold sup_step in H. destruct e; try (by eapply lead_step_frame); destruct (su_phase s);
      try (by eapply lead_step_frame); try (injection H as <-; cbn; by rewrite lookup_insert_ne).
    destruct (rpc_replies _ _ _ _); [|done]. injection H as <-.
    destruct (run_bootstrap_proto k chain s rt now chain_id decimals head c) as (_ & s' & -> & _).
    by rewrite lookup_insert_ne.
Qed.

Lemma lstep_rank c l c' k n :
  lstep c l c' -> cancelled_at k n c ->
  if progress k l then exists m, cancelled_at k m c' /\ (m < n)%nat else cancelled_at k n c'.
Proof.
  intros Hl (s & Hs & Hx & <-). destruct Hl as [e c' H| | |]; [|by exists s..].
  destruct (decide (event_sup e = Some k)) as [Hk|Hk].
  - assert (Hns : forall k', e ≠ EStart k').
    { intros k' ->. cbn in H, Hk. simplify_eq. rewrite Hs in H. by repeat case_match. }
    eapply cstep_inv in H as (chain & s0 & rt & Hc & Hs0 & _ & H); eauto. simplify_eq. by eapply sup_step_rank.
  - assert (progress k (Some e) = false) as ->.
    { destruct e as [| | | | | | | | | |? [|]| | | |]; cbn in Hk |- *; try done; by rewrite bool_decide_false. }
    exists s. by erewrite cstep_frame.
Qed.

Lemma lruns_rank c ls c' k n :
  lruns c ls c' -> cancelled_at k n c ->
  exists m, cancelled_at k m c' /\ (length (List.filter (progress k) ls) + m <= n)%nat.
Proof.
  intros Hr. revert n. induction Hr as [c|c l c1 ls c2 Hl Hr IH]; intros n Hn; [exists n; cbn; auto with lia|].
  pose proof (lstep_rank _ _ _ _ _ Hl Hn) as H1. cbn [List.filter]. destruct (progress k l).
  - destruct H1 as (m & Hm & Hlt). destruct (IH m Hm) as (m' & ? & ?). exists m'. cbn. auto with lia.
  - apply IH, H1.
Qed.

(** A cancelled supervisor is never stuck. *)
Lemma cancelled_enabled c k s chain rt :
  c_sups c !! k = Some s -> su_cancelled s = true -> chains !! k.2 = Some chain -> rt_at k c = Some rt ->
  su_phase s ≠ Stopped -> exists e c', own_step k e = true /\ cstep e c = Some c'.
Proof.
  intros Hs Hx Hc Hrt Hp.
  assert (Hgo : forall e, (forall k', e ≠ EStart k') -> event_sup e = Some k ->
    cstep e c = sup_step k chain s rt e c).
  { intros e Hne Hk. destruct e; try done; cbn in Hk; simplify_eq; cbn; rewrite ?Hc; cbn; rewrite ?Hs; cbn;
      rewrite ?Hrt; done. }
  assert (Hpr : bool_decide (k = k) = true) by by apply bool_decide_true.
  destruct (su_phase s) as [| |d| |ses|ses was|ses a b|ses a b o|ses o|] eqn:Ep; [..|done].
  - exists (ELoop k). eexists. split; [exact Hpr|]. rewrite Hgo by done. cbn. by rewrite Ep.
  - pose (bad := @Err RpcFailure Z (BadUrl EmptyString EmptyString)).
    pose (dec := fun _ : Z => (@Err RpcFailure (option Z) (BadUrl EmptyString EmptyString), @nil HealthOp)).
    assert (Hrr : rpc_replies chain (bad, []) dec (bad, []) = true) by by apply forallb_forall.
    exists (EBootstrap k 0 (bad, []) dec (bad, [])). eexists. split; [exact Hpr|]. rewrite Hgo by done.
    unfold sup_step. rewrite Ep, Hrr. reflexivity.
  - exists (EWake k). eexists. split; [exact Hpr|]. rewrite Hgo by done. cbn. by rewrite Ep.
  - exists (EConnect k None). eexists. split; [exact Hpr|]. rewrite Hgo by done. cbn. by rewrite Ep.
  - destruct (bool_decide (ses ∈ c_live c)) eqn:Hl; [exists (ETryLock k None)|exists (ETryLock k (Some Migrate))];
      eexists; (split; [exact Hpr|]); rewrite Hgo by done; cbn; rewrite Ep; [by rewrite Hl|done].
  - exists (EWaited k true). eexists. split; [exact Hpr|]. rewrite Hgo by done. cbn. by rewrite Ep, Hx.
  - exists (ESelect k BCancelled). eexists. split; [exact Hpr|]. rewrite Hgo by done. cbn. rewrite Ep. cbn. by rewrite Hx.
  - exists (EDrained k). eexists. split; [exact Hpr|]. rewrite Hgo by done. cbn. by rewrite Ep.
  - exists (ERelease k false). eexists. split; [exact Hpr|]. rewrite Hgo by done. cbn. by rewrite Ep.
Qed.

(** Supervision itself writes nothing but a first cursor. *)
Lemma note_db k chain ops c : sy_db (c_sys (note k chain ops c)) = sy_db (c_sys c).
Proof. unfold note. by destruct (rt_at k c). Qed.

Lemma restart_db k chain s c : sy_db (c_sys (restart k chain s c)) = sy_db (c_sys c).
Proof. apply (note_db k chain [SetLeader false]). Qed.

Lemma bootstrap_transfers now chain cid decimals head db rt r db' rt' :
  bootstrap now chain cid decimals head db rt = (r, db', rt') -> d_transfers db' = d_transfers db.
Proof.
  unfold bootstrap, ensure_cursor. intros H. repeat case_match; simplify_eq; done.
Qed.

Lemma lead_step_db k chain s e c c' : lead_step k chain s e c = Some c' -> sy_db (c_sys c') = sy_db (c_sys c).
Proof.
  intros H. unfold lead_step in H. pose proof (restart_db k chain s) as Hr. pose proof (note_db k chain) as Hn.
  repeat (case_match || case_bool_decide); simplify_option_eq; repeat case_match; simplify_eq; rewrite ?Hr, ?Hn; try done.
  unfold poll_lock. repeat case_match; [|done]. cbn. by rewrite Hn.
Qed.

Lemma cstep_transfers e c c' : cstep e c = Some c' -> d_transfers (sy_db (c_sys c')) = d_transfers (sy_db (c_sys c)).
Proof.
  intros H. destruct (event_sup e) as [k|] eqn:Hk.
  2:{ destruct e; try done. cbn in H. case_bool_decide; [|done]. by injection H as <-. }
  assert ((exists k', e = EStart k') \/ forall k', e ≠ EStart k') as [[k' ->]|Hns].
  { destruct e; try (by right); left; eauto. }
  - cbn in H. by repeat case_match; simplify_eq.
  - eapply cstep_inv in H as (chain & s & rt & Hc & Hs & _ & H); eauto. unfold sup_step in H.
    destruct e; try (by f_equal; eapply lead_step_db); destruct (su_phase s); try (by f_equal; eapply lead_step_db);
      try (by injection H as <-).
    destruct (rpc_replies _ _ _ _); [|done]. injection H as <-. unfold run_bootstrap.
    destruct (bootstrap _ _ _ _ _ _ _) as [[r db] rt'] eqn:Hb. apply bootstrap_transfers in Hb. by destruct r.
Qed.

(** ** Properties *)

Lemma lruns_app c ls c1 ls' c2 : lruns c ls c1 -> lruns c1 ls' c2 -> lruns c (ls ++ ls') c2.
Proof. induction 1 as [c|c l c0 ls c1 Hl _ IH]; intros H; cbn; [done|]. eapply lruns_cons; [done|by apply IH]. Qed.

Lemma lreachable_system c : lreachable c -> System.reachable hist chains (c_sys c).
Proof.
  intros [ls H]. refine (lruns_ind (fun c => System.reachable hist chains (c_sys c)) _ _ _ _ H _); [|apply rtc_refl].
  intros c0 l c1 H0 Hl. eapply rtc_trans; [exact H0|by eapply lstep_action].
Qed.

(** A transfer changes by the work of a chain's tasks only. *)
Lemma lstep_books c l c' key :
  ids_ok (sy_db (c_sys c)) -> lstep c l c' ->
  d_transfers (sy_db (c_sys c')) !! key ≠ d_transfers (sy_db (c_sys c)) !! key ->
  exists k chain, chains !! k.2 = Some chain /\ key.1.1 = as_i64 (ch_chain_id chain)
    /\ ((exists s, c_sups c !! k = Some s /\ works (su_phase s) = true) \/ k ∈ c_stray c).
Proof.
  intros Hids Hl Hne. destruct Hl as [e c' H|k s chain sys' Hs Hw Hc Ht|k chain before after sys' Hb Hc Ht|sys' Ht].
  - destruct Hne. by rewrite (cstep_transfers _ _ _ H).
  - exists k, chain. pose proof (task_books _ _ _ _ Hids Ht key) as Hk. split_and!; [done| |eauto].
    destruct (decide (key.1.1 = as_i64 (ch_chain_id chain))); [done|]. by destruct Hne; apply Hk.
  - exists k, chain. pose proof (task_books _ _ _ _ Hids Ht key) as Hk. split_and!; [done| |right; rewrite Hb; set_solver].
    destruct (decide (key.1.1 = as_i64 (ch_chain_id chain))); [done|]. by destruct Hne; apply Hk.
  - destruct Hne. cbn. by destruct (serve_books _ _ Ht) as [-> _].
Qed.

(** A task becomes a stray only when its supervisor gives up on it. *)
Lemma note_stray k chain ops c : c_stray (note k chain ops c) = c_stray c.
Proof. unfold note. by destruct (rt_at k c). Qed.

Lemma restart_stray k chain s c : c_stray (restart k chain s c) = c_stray c.
Proof. apply (note_stray k chain [SetLeader false]). Qed.

Lemma lead_step_stray k chain s e c c' :
  event_sup e = Some k -> lead_step k chain s e c = Some c' ->
  c_stray c' = c_stray c \/ (works (su_phase s) = true /\ (e = EDrained k \/ e = EPanic k)).
Proof.
  intros Hk H. unfold lead_step in H.
  destruct e as [| | | | | |? [err|]|? [err|]|? [|]|? t r|? [err|]|? br|?|? [|]|?], (su_phase s) as [| | | |ses|ses was|ses a b|ses a b o|ses o|] eqn:Hp;
    cbn in Hk; try done; injection Hk as ->;
    try (injection H as <-; cbn [c_stray put_sup]; rewrite ?restart_stray, ?note_stray; by left).
  - case_bool_decide; [|done]. injection H as <-. left. unfold poll_lock. destruct (try_advisory_lock _ _ _) as [[] ?]; [|done].
    cbn [c_stray put_sup]. by rewrite note_stray.
  - destruct (su_cancelled s); [|done]. injection H as <-. left. apply restart_stray.
  - destruct was; [done|]. injection H as <-. by left.
  - destruct (end_task t r a b) as [[a' b']|]; [|done]. cbn in H. injection H as <-. by left.
  - destruct (end_task t r a b) as [[a' b']|]; [|done]. cbn in H. injection H as <-. by left.
  - case_bool_decide; [|done]. injection H as <-. by left.
  - destruct (select s br a b) as [o|]; [|done]. cbn in H. injection H as <-. by left.
  - injection H as <-. cbn. destruct (is_finished a), (is_finished b); cbn; auto.
  - case_bool_decide; [|done]. injection H as <-. left. by rewrite restart_stray, note_stray.
  - injection H as <-. rewrite restart_stray. cbn. destruct (is_finished a), (is_finished b); cbn; auto.
  - injection H as <-. rewrite restart_stray. cbn. destruct (is_finished a), (is_finished b); cbn; auto.
Qed.

Lemma lstep_stray c l c' k :
  lstep c l c' -> k ∈ c_stray c' -> k ∈ c_stray c
  \/ exists s, c_sups c !! k = Some s /\ works (su_phase s) = true /\ (l = Some (EDrained k) \/ l = Some (EPanic k)).
Proof.
  intros [e c1 H|k0 s chain sys' _ _ _ _|k0 chain before after sys' Hb _ _|sys' _] Hin; [|by left| |by left].
  2:{ left. cbn in Hin. rewrite Hb. set_solver. }
  destruct (event_sup e) as [k0|] eqn:Hk.
  2:{ destruct e; try done. cbn in H. case_bool_decide; [|done]. injection H as <-. by left. }
  assert ((exists k', e = EStart k') \/ forall k', e ≠ EStart k') as [[k' ->]|Hns].
  { destruct e; try (by right); left; eauto. }
  - cbn in H. destruct (chains !! k'.2); [|done]. destruct (c_sups c !! k'); [done|]. injection H as <-. by left.
  - pose proof H as H0. eapply cstep_inv in H as (chain & s & rt & Hc & Hs & _ & H); eauto.
    assert (Hor : c_stray c1 = c_stray c \/ (works (su_phase s) = true /\ (e = EDrained k0 \/ e = EPanic k0))).
    { unfold sup_step in H. destruct e; try (by eapply lead_step_stray); destruct (su_phase s) eqn:Hp;
        try (by rewrite <- Hp; eapply lead_step_stray); try (by injection H as <-; left).
      destruct (rpc_replies _ _ _ _); [|done]. injection H as <-. left. unfold run_bootstrap.
      destruct (bootstrap _ _ _ _ _ _ _) as [[[]] ?]; done. }
    destruct Hor as [E|[Hw He]]; [left; congruence|]. destruct (decide (k ∈ c_stray c)) as [|Hn]; [by left|right].
    assert (k = k0) as ->; [|exists s; split_and!; [done|done|destruct He; subst; auto]].
    destruct He as [-> | ->]; cbn in H0; rewrite Hc in H0; cbn in H0; rewrite Hs in H0; cbn in H0;
      destruct (rt_at k0 c) in H0; try done; cbn in H0; destruct (su_phase s); try done; injection H0 as <-;
      cbn [c_stray put_sup] in Hin; rewrite ?note_stray in Hin; cbn in Hin;
      repeat match type of Hin with context [is_finished ?t] => destruct (is_finished t) end; set_solver.
Qed.

(** C17. One leader per chain. While the sessions of two supervisors that lead chains of one id are
    both alive, the two are the same supervisor and the server's lock table names its session. A stored
    transfer changes only by a transaction of its own chain's tasks: of a supervisor that leads the chain
    and runs them, or the one a task still had in flight when its supervisor aborted it. And a task is
    left in flight only by a supervisor that gave up waiting for it (after the timeouts, or by a panic)
    while it ran: a drain that waits for both tasks leaves none. *)
Theorem one_leader (c : Cluster) :
  Forall SpecOk chains -> lreachable c ->
  (forall k k' s s' ses ses' chain chain',
     c_sups c !! k = Some s -> c_sups c !! k' = Some s' ->
     leads (su_phase s) = true -> leads (su_phase s') = true ->
     chains !! k.2 = Some chain -> chains !! k'.2 = Some chain' -> ch_chain_id chain = ch_chain_id chain' ->
     session_of (su_phase s) = Some ses -> session_of (su_phase s') = Some ses' ->
     ses ∈ c_live c -> ses' ∈ c_live c ->
     k = k' /\ c_locks c !! leadership_key (ch_chain_id chain) = Some ses)
  /\ (forall l c' key, lstep c l c' ->
       d_transfers (sy_db (c_sys c')) !! key ≠ d_transfers (sy_db (c_sys c)) !! key ->
       exists k chain, chains !! k.2 = Some chain /\ key.1.1 = as_i64 (ch_chain_id chain)
         /\ ((exists s, c_sups c !! k = Some s /\ works (su_phase s) = true /\ leads (su_phase s) = true) \/ k ∈ c_stray c))
  /\ (forall l c' k, lstep c l c' -> k ∈ c_stray c' -> k ∉ c_stray c ->
       exists s, c_sups c !! k = Some s /\ works (su_phase s) = true /\ (l = Some (EDrained k) \/ l = Some (EPanic k))).
Proof.
  intros Hspecs Hr. pose proof (lreachable_LockInv c Hr) as [_ _ Hi Hh].
  pose proof (reachable_SysInv hist chains Hspecs _ (lreachable_system c Hr)) as [HI _ _]. split_and!.
  - intros k k' s s' ses ses' chain chain' Hs Hs' Hl Hl' Hc Hc' E P P' Hv Hv'.
    pose proof (Hh _ _ _ _ Hs Hc Hl P Hv) as H1. pose proof (Hh _ _ _ _ Hs' Hc' Hl' P' Hv') as H2.
    unfold key_of in *. rewrite <- E in H2. split; [|done]. simplify_eq. by eapply Hi.
  - intros l c' key Hst Hne. destruct (lstep_books c l c' key) as (k & chain & Hc & Hk & Hor); [by eapply ids_ok_of_inv|done..|].
    exists k, chain. split_and!; [done..|]. destruct Hor as [(s & Hs & Hw)|?]; [left|by right].
    exists s. split_and!; [done..|]. by destruct (su_phase s).
  - intros l c' k Hst Hin Hn. by destruct (lstep_stray c l c' k Hst Hin).
Qed.

(** The leader flag tells the truth: in every reachable cluster the flag an instance reports
    (and its gauge) is set exactly from the moment it obtained the lock to the return of [lead]. *)
Theorem leader_flag (c : Cluster) (k : nat * nat) (s : Sup) (rt : ChainRuntime) :
  lreachable c -> c_sups c !! k = Some s -> sy_rt (c_sys c) !! k = Some rt ->
  h_leader (rt_health rt) = leads (su_phase s).
Proof.
  intros HI%lreachable_FlagInv Hs Hrt. destruct (HI k s Hs) as [h Hf]. unfold flags in Hf. rewrite Hrt in Hf. by simplify_eq/=.
Qed.

(** Own steps bring a cancelled supervisor to its end. *)
Lemma cancelled_stops k n c :
  lreachable c -> cancelled_at k n c ->
  exists es c', Forall (fun e => own_step k e = true) es /\ lruns c (Some <$> es) c' /\ cancelled_at k 0 c'.
Proof.
  revert c. induction (lt_wf n) as [n _ IH]. intros c Hr Hn. destruct (decide (n = 0%nat)) as [->|Hnz].
  { exists [], c. split_and!; [constructor|constructor|done]. }
  pose proof Hn as (s & Hs & Hx & Hrank). destruct (lreachable_chain _ _ _ Hr Hs) as [chain Hc].
  destruct (lreachable_FlagInv _ Hr k s Hs) as [h Hf]. unfold flags in Hf.
  destruct (sy_rt (c_sys c) !! k) as [rt|] eqn:Hrt; [|done].
  destruct (cancelled_enabled c k s chain rt) as (e & c1 & He & H1); [done..|by intros Ep; rewrite Ep in Hrank; cbn in Hrank; lia|].
  apply l_event with (hist := hist) in H1. pose proof (lstep_rank _ _ _ _ _ H1 Hn) as Hm.
  rewrite (own_step_progress _ _ He) in Hm. destruct Hm as (m & Hm & Hlt).
  destruct (IH m Hlt c1) as (es & c' & Hes & Hruns & H0); [|done|].
  { destruct Hr as [ls0 Hr]. exists (ls0 ++ [Some e]). eapply lruns_app; [exact Hr|]. eapply lruns_cons; [exact H1|apply lruns_nil]. }
  exists (e :: es), c'. split_and!; [by constructor| |done]. cbn. by eapply lruns_cons.
Qed.

Lemma rank_stopped p : rank p = 0%nat -> p = Stopped.
Proof. by destruct p as [| | | | |? []|? [|] [|]|? [|] [|] ?| |]. Qed.

(** C31. Shutdown completes: once its token is cancelled a supervisor takes at most ten more steps
    of its own, keepalives apart, whatever the database, its tasks and the other instances do.
    Wherever that leaves it, steps it takes by itself, each the return of the await it stands at and
    none a panic, an end of a task or a lost session, bring it to its end; and when it has stopped its
    leader flag is off. *)
Theorem shutdown_completes (c : Cluster) (k : nat * nat) (s : Sup) :
  lreachable c -> c_sups c !! k = Some s -> su_cancelled s = true ->
  forall ls c', lruns c ls c' ->
  (length (List.filter (progress k) ls) <= 10)%nat
  /\ (exists s', c_sups c' !! k = Some s' /\ su_cancelled s' = true
      /\ (su_phase s' = Stopped -> exists h, flags (c_sys c') k = Some (h, false)))
  /\ exists es c'' s'', Forall (fun e => own_step k e = true) es /\ lruns c' (Some <$> es) c''
      /\ c_sups c'' !! k = Some s'' /\ su_phase s'' = Stopped.
Proof.
  intros Hr Hs Hx ls c' Hls.
  destruct (lruns_rank _ _ _ k (rank (su_phase s)) Hls) as (m & Hm & Hle); [by exists s|].
  pose proof (rank_bound (su_phase s)).
  assert (Hr' : lreachable c').
  { destruct Hr as [ls0 Hr]. exists (ls0 ++ ls). by eapply lruns_app. }
  split_and!; [lia| |].
  - destruct Hm as (s' & Hs' & Hx' & _). exists s'. split_and!; [done..|]. intros Ep.
    destruct (lreachable_FlagInv _ Hr' k s' Hs') as [h Hf]. rewrite Ep in Hf. eauto.
  - destruct (cancelled_stops k m c' Hr' Hm) as (es & c'' & Hes & Hruns & s'' & Hs'' & _ & E).
    exists es, c'', s''. split_and!; [done..|by apply rank_stopped].
Qed.

(** Failover: when the session that holds a chain's lock ends, by a release or by a crash of
    its instance, an instance that polls the lock leads after its next poll. *)
Theorem failover (c : Cluster) (k : nat * nat) (s : Sup) (ses other : Z) (chain : ChainSpec) :
  lreachable c -> chains !! k.2 = Some chain -> c_sups c !! k = Some s ->
  su_phase s = WaitLock ses false -> ses ∈ c_live c -> other ∈ c_live c -> ses ≠ other ->
  c_locks c !! leadership_key (ch_chain_id chain) = Some other ->
  exists c', lruns c [Some (ELost other); Some (EWaited k false); Some (ETryLock k None)] c'
    /\ c_locks c' !! leadership_key (ch_chain_id chain) = Some ses
    /\ c_sups c' !! k = Some (mkSup (Leading ses Running Running) (su_backoff s) (su_cancelled s)).
Proof.
  intros Hr Hc Hs Hp Hl Ho Hne Hk. destruct (lreachable_FlagInv _ Hr k s Hs) as [h Hf].
  unfold flags in Hf. destruct (sy_rt (c_sys c) !! k) as [rt|] eqn:Hrt; [|done].
  set (c1 := end_session other c). set (c2 := put_sup k (mkSup (TryLock ses) (su_backoff s) (su_cancelled s)) c1).
  set (s2 := mkSup (TryLock ses) (su_backoff s) (su_cancelled s)).
  pose proof (poll_lock_proto k chain s2 ses c2) as Hpl. cbn in Hpl.
  assert (Hfree : c_locks c2 !! key_of chain = None).
  { cbn. apply map_lookup_filter_None. right. intros x Hx. cbn. unfold key_of in Hx. simplify_eq. by intros []. }
  assert ((try_advisory_lock (key_of chain) ses (c_locks c2)).1 = true) as Ht by (unfold try_advisory_lock; by rewrite Hfree).
  unfold c2 in Ht at 1. cbn in Ht. rewrite Ht in Hpl. destruct Hpl as (_ & El & _ & _ & Es).
  exists (poll_lock k chain s2 ses c2). split_and!.
  - econstructor; [apply l_event; cbn; by rewrite bool_decide_true|].
    econstructor; [apply l_event; cbn; rewrite Hc; cbn; rewrite Hs; cbn; unfold rt_at; cbn; rewrite Hrt; cbn; by rewrite Hp|].
    econstructor; [|constructor]. apply l_event. cbn. rewrite Hc. cbn. rewrite lookup_insert_eq. cbn. unfold rt_at. cbn.
    rewrite Hrt. cbn. rewrite bool_decide_true by set_solver. done.
  - fold (key_of chain). rewrite El. by rewrite lookup_insert_eq.
  - rewrite Es. by rewrite lookup_insert_eq.
Qed.
End spec.
