(* ===== verification/App.v ===== *)
(** * App: [src/app.rs], [src/main.rs] and the listener loop of [src/ingest/notify.rs]

    How the parts are put together: what [App::start] builds from a configuration, which tasks it
    spawns and when it gives up; what [shutdown] waits for; the loop that hears other instances'
    announcements. Building an HTTP client, binding a socket and migrating the schema either work or
    not: fields of [Outside]. *)

From S2P Require Import Prelude Text Config Registry Load Cache Matcher Events Health Rpc Store Sweep Runtime.
From S2P Require Import Target Telemetry Outbox TxSpec Ledger LedgerTx System Leader LeaderSpec.

(** ** Starting *)

Inductive AppTask :=
  | RunChain (chain_id : Z)
  | NotifyListener
  | DispatcherTask
  | Upkeep
  | UsagePoller
  | Server.

#[global] Instance AppTask_eq_dec : EqDecision AppTask.
Proof. solve_decision. Defined.

(** [src/api/mod.rs:31-41 ApiState] Durations in nanoseconds. *)
Record ApiSettings := mkApiSettings {
  as_registry : list ChainSpec;
  as_chains : gmap Z ChainSpec;
  as_default_ttl : option Z;
  as_max_backfill : Z;
  as_target_policy : TargetPolicy;
}.

(** [src/app.rs:18-24 App] [ap_tasks] are the handles [shutdown] awaits. *)
Record App := mkApp {
  ap_addr : string;
  ap_chains : gmap Z ChainSpec;
  ap_tasks : list AppTask;
  ap_api : ApiSettings;
}.

Inductive StartError :=
  | MigrateFailed
  | ChainFailed (e : IngestError)
  | ClientFailed
  | BindFailed (addr : string).

(** What happens outside: [ou_url] is [Url::parse], [ou_bind] binds and returns the address. *)
Record Outside := mkOutside {
  ou_migrates : bool;
  ou_url : string -> result string unit;
  ou_client : bool;
  ou_usage_client : bool;
  ou_bind : string -> option string;
}.

(** [src/config.rs:83-88 WebhookConfig::target_policy] *)
Definition target_policy (w : WebhookConfig) : TargetPolicy :=
  mkPolicy (wc_allow_insecure_targets w) (wc_host_allowlist w).

(** [src/rpc/mod.rs:75-84 RpcClient] The timeout in milliseconds, throttle and limiter in nanoseconds; the
    provider and the health are the chain's. *)
Record RpcClient := mkRpcClient {
  cl_chain : string;
  cl_credits_per_call : Z;
  cl_timeout : Z;
  cl_max_retries : Z;
  cl_throttle : Throttle;
  cl_limiter : LogLimiter;
}.

(** [src/rpc/mod.rs:87-101 RpcClient::new] *)
Definition client_new (out : Outside) (now : Z) (spec : ChainSpec) : result RpcFailure RpcClient :=
  match ou_url out (cc_http_url (ch_cfg spec)) with
  | Ok _ =>
      let cfg := ch_cfg spec in
      Ok (mkRpcClient (ch_name spec) (cc_credits_per_call cfg) (rpc_timeout cfg) (cc_rpc_max_retries cfg)
            (throttle_new (cc_rpc_max_rps cfg) now) (limiter_new (30 * 10 ^ 9)))
  | Err e => Err (BadUrl (ch_name spec) e)
  end.

(** Whether a chain's client can be built. *)
Definition client_url (out : Outside) (spec : ChainSpec) : result IngestError unit :=
  match client_new out 0 spec with
  | Ok _ => Ok tt
  | Err e => Err (IRpc e)
  end.

(** [src/app.rs:38-43 App::start (chains)] Also when it gives up, the tasks spawned before run on. *)
Fixpoint start_chains (out : Outside) (specs : list ChainSpec) (chains : gmap Z ChainSpec) (tasks : list AppTask)
    : result StartError (gmap Z ChainSpec) * list AppTask :=
  match specs with
  | [] => (Ok chains, tasks)
  | spec :: specs =>
      match client_url out spec with
      | Err e => (Err (ChainFailed e), tasks)
      | Ok _ => start_chains out specs (<[ch_chain_id spec := spec]> chains) (tasks ++ [RunChain (ch_chain_id spec)])
      end
  end.

(** [src/app.rs:69-73 App::start (bind)] *)
Definition bind_address (cfg : Config) : string :=
  if contains (cfg_bind cfg) ":" then "[" +:+ cfg_bind cfg +:+ "]:" +:+ show_u64 (cfg_port cfg)
  else cfg_bind cfg +:+ ":" +:+ show_u64 (cfg_port cfg).

(** [src/app.rs:58-66 App::start (ApiState)] *)
Definition api_settings (cfg : Config) (chains : gmap Z ChainSpec) : ApiSettings :=
  mkApiSettings (from_config cfg) chains
    (if 0 <? cfg_default_ttl_secs cfg then Some (cfg_default_ttl_secs cfg * 10 ^ 9) else None)
    (cfg_max_backfill_secs cfg * 10 ^ 9) (target_policy (cfg_webhook cfg)).

(** [src/app.rs:29-87 App::start] The result, and every task that was spawned. *)
Definition start (out : Outside) (cfg : Config) : result StartError App * list AppTask :=
  if negb (ou_migrates out) then (Err MigrateFailed, [])
  else match start_chains out (from_config cfg) ∅ [] with
  | (Err e, tasks) => (Err e, tasks)
  | (Ok chains, tasks) =>
      let tasks := tasks ++ [NotifyListener] in
      if negb (ou_client out) then (Err ClientFailed, tasks)
      else
        let tasks := tasks ++ [DispatcherTask] in
        let detached := Upkeep :: match usage_spawn (F := unit) (cfg_quicknode_api_key cfg) (ou_usage_client out) with
                                  | Some _ => [UsagePoller] | None => [] end in
        match ou_bind out (bind_address cfg) with
        | None => (Err (BindFailed (bind_address cfg)), tasks ++ detached)
        | Some addr => (Ok (mkApp addr chains (tasks ++ [Server]) (api_settings cfg chains)), tasks ++ detached ++ [Server])
        end
  end.

(** ** Stopping *)

(** [src/app.rs:95-109 App::shutdown] Cancels, then awaits the tasks one after the other. [finish]
    says when, in milliseconds after the cancellation, a task ends, if it does. Returns how long it
    took and whether it gave up waiting. *)
Definition shutdown (finish : AppTask -> option Z) (app : App) : Z * bool :=
  let all := foldl (fun acc t => now ← acc; at_ ← finish t; Some (Z.max now at_)) (Some 0) (ap_tasks app) in
  match all with
  | Some d => if d <=? 25000 then (d, false) else (25000, true)
  | None => (25000, true)
  end.

(** [src/app.rs:112-121 App::kill] The tasks that are aborted, in order; what is left hears the
    cancellation. *)
Definition kill (app : App) : list AppTask := ap_tasks app.

Inductive Exit := ExitCode (code : Z) | ExitError (e : StartError) | NoDatabase.

(** [src/main.rs:5-25 main] How the process ends, and the tasks it spawned. *)
Definition main {E} (loaded : result (LoadError E) Config) (connected : bool) (out : Outside)
    (finish : AppTask -> option Z) : Exit * list AppTask :=
  match loaded with
  | Err _ => (ExitCode 2, [])
  | Ok cfg =>
      if negb connected then (NoDatabase, [])
      else match start out cfg with
      | (Err e, tasks) => (ExitError e, tasks)
      | (Ok app, tasks) => let '(_, _) := shutdown finish app in (ExitCode 0, tasks)
      end
  end.

(** ** The listener *)

Inductive LPhase := LConnecting | LListening | LReceiving | LWaiting | LStopped.

(** The flag of the loop, and the runtimes of the instance with their chains. *)
Record Listener := mkListener {
  li_phase : LPhase;
  li_failing : bool;
  li_chains : gmap Z (ChainSpec * ChainRuntime);
}.

Inductive LEvent :=
  | LConnected (ok : bool)
  | LListened (ok : bool)
  | LReceived (db : DB) (payload : string)
  | LLost
  | LWoke
  | LCancelled.

(** [src/ingest/notify.rs:71-91 handle] *)
Definition handle_payload (parse_id : string -> option Z) (db : DB) (payload : string)
    (chains : gmap Z (ChainSpec * ChainRuntime)) : gmap Z (ChainSpec * ChainRuntime) :=
  match parse_payload parse_id payload with
  | Some (op, chain_id, id) =>
      match chains !! chain_id with
      | Some (spec, rt) => <[chain_id := (spec, handle db spec op id rt)]> chains
      | None => chains
      end
  | None => chains
  end.

(** [src/ingest/notify.rs:33-69 run] *)
Definition listener_step (parse_id : string -> option Z) (e : LEvent) (l : Listener) : option Listener :=
  let goto p failing := Some (mkListener p failing (li_chains l)) in
  match li_phase l, e with
  | LStopped, _ => None
  | LConnecting, LConnected true => goto LListening (li_failing l)
  | LConnecting, LConnected false => goto LWaiting true
  | LListening, LListened true => goto LReceiving false
  | LListening, LListened false => goto LWaiting (li_failing l)
  | LWaiting, LWoke => goto LConnecting (li_failing l)
  | LReceiving, LReceived db payload =>
      Some (mkListener LReceiving (li_failing l) (handle_payload parse_id db payload (li_chains l)))
  | LReceiving, LLost => goto LConnecting true
  | (LConnecting | LReceiving), LCancelled => goto LStopped (li_failing l)
  | LWaiting, LCancelled => goto LConnecting (li_failing l)
  | _, _ => None
  end.

Fixpoint listener_run (parse_id : string -> option Z) (es : list LEvent) (l : Listener) : option Listener :=
  match es with
  | [] => Some l
  | e :: es => l ← listener_step parse_id e l; listener_run parse_id es l
  end.

(** ** Properties of starting *)

Lemma start_chains_Ok out specs chains tasks chains' tasks' :
  start_chains out specs chains tasks = (Ok chains', tasks') ->
  tasks' = tasks ++ (RunChain ∘ ch_chain_id <$> specs)
  /\ Forall (fun spec => is_ok (client_url out spec) = true) specs
  /\ (forall spec, spec ∈ specs -> NoDup (ch_chain_id <$> specs) -> chains' !! ch_chain_id spec = Some spec)
  /\ (forall id, id ∉ (ch_chain_id <$> specs) -> chains' !! id = chains !! id).
Proof.
  revert chains tasks. induction specs as [|spec specs IH]; intros chains tasks H; cbn in H.
  { injection H as <- <-. rewrite app_nil_r. split_and!; [done|by apply List.Forall_nil|set_solver|done]. }
  destruct (client_url out spec) as [[]|e] eqn:E; [|done].
  destruct (IH _ _ H) as (-> & Hf & Hin & Hout). split_and!.
  - by rewrite <- app_assoc.
  - apply Forall_cons. split; [by rewrite E|done].
  - intros s [->|Hs]%elem_of_cons Hnd; rewrite fmap_cons in Hnd; apply NoDup_cons in Hnd as [Hni Hnd].
    + rewrite Hout by done. by rewrite lookup_insert_eq.
    + by apply Hin.
  - intros id [Hne Hni]%not_elem_of_cons. rewrite Hout by done. by rewrite lookup_insert_ne.
Qed.

Lemma start_Ok out cfg app tasks :
  start out cfg = (Ok app, tasks) ->
  ap_tasks app = (RunChain ∘ ch_chain_id <$> from_config cfg) ++ [NotifyListener; DispatcherTask; Server]
  /\ ap_api app = api_settings cfg (ap_chains app)
  /\ (config_ok cfg -> forall spec, spec ∈ from_config cfg -> ap_chains app !! ch_chain_id spec = Some spec)
  /\ (forall t, t ∈ ap_tasks app -> t ∈ tasks).
Proof.
  unfold start. destruct (ou_migrates out); cbn; [|done].
  destruct (start_chains out (from_config cfg) ∅ []) as [[chains|e] ts] eqn:E; [|done].
  destruct (ou_client out); cbn; [|done]. destruct (ou_bind out _) as [addr|]; [|done]. intros [= <- <-]. cbn.
  destruct (start_chains_Ok _ _ _ _ _ _ E) as (-> & _ & Hin & _). cbn. split_and!.
  - by rewrite <- !app_assoc.
  - done.
  - intros Hok spec Hs. apply Hin; [done|by apply from_config_ids].
  - intros t. rewrite !elem_of_app, !elem_of_cons, !elem_of_app, !elem_of_cons. tauto.
Qed.

Section started.
Variable hist : TransferKey -> option (Z * Z * Z * Z).

(** Starting the supervisors of an instance one after the other. *)
Lemma start_supervisors (chains : list ChainSpec) inst c n :
  (n <= length chains)%nat -> (forall j, c_sups c !! (inst, j) = None) ->
  exists c', lruns hist chains c ((fun j => Some (EStart (inst, j))) <$> seq 0 n) c'
    /\ (forall j, c_sups c' !! (inst, j) = if decide (j < n)%nat then Some (mkSup Top 500 false) else None).
Proof.
  intros Hn Hfree. induction n as [|n IH].
  { exists c. split; [apply lruns_nil|]. intros j. case_decide; [lia|done]. }
  destruct IH as (c1 & Hr & Hs); [lia|]. destruct (lookup_lt_is_Some_2 chains n ltac:(lia)) as [spec Hspec].
  eexists. rewrite seq_S, fmap_app. split.
  - eapply lruns_app; [done|]. eapply lruns_cons; [|apply lruns_nil]. eapply l_event. cbn. rewrite Hspec. rewrite (Hs n). case_decide; [lia|reflexivity].
  - intros j. cbn. destruct (decide (j = n)) as [->|Hne].
    + rewrite lookup_insert_eq. by case_decide; [|lia].
    + rewrite lookup_insert_ne by congruence. rewrite Hs. by repeat case_decide; try lia.
Qed.

(** A service started from a valid configuration runs every chain it configures: if [start]
    succeeds it has spawned one supervisor per enabled chain, in order, besides the listener, the
    dispatcher and the server; the API and the listener know each chain's runtime under its id; and
    from any reachable state of the cluster the supervisors of a new instance all come to their
    loops, in a cluster whose database refines the ledger. *)
Theorem start_runs_chains (out : Outside) (cfg : Config) (app : App) (tasks : list AppTask) (inst : nat) (c : Cluster) :
  config_ok cfg -> start out cfg = (Ok app, tasks) ->
  lreachable hist (from_config cfg) c -> (forall j, c_sups c !! (inst, j) = None) ->
  ap_tasks app = (RunChain ∘ ch_chain_id <$> from_config cfg) ++ [NotifyListener; DispatcherTask; Server]
  /\ NoDup (ap_tasks app) /\ (forall t, t ∈ ap_tasks app -> t ∈ tasks)
  /\ (forall spec, spec ∈ from_config cfg -> ap_chains app !! ch_chain_id spec = Some spec)
  /\ exists c', lruns hist (from_config cfg) c
         ((fun j => Some (EStart (inst, j))) <$> seq 0 (length (from_config cfg))) c'
     /\ System.reachable hist (from_config cfg) (c_sys c')
     /\ (forall j spec, from_config cfg !! j = Some spec -> c_sups c' !! (inst, j) = Some (mkSup Top 500 false)).
Proof.
  intros Hok Hstart Hr Hfree. destruct (start_Ok _ _ _ _ Hstart) as (Ht & _ & Hch & Hin).
  destruct (start_supervisors (from_config cfg) inst c (length (from_config cfg)) ltac:(lia) Hfree) as (c' & Hls & Hs).
  split_and!; [done| |done|by apply Hch|].
  - rewrite Ht. apply NoDup_app. split_and!.
    + rewrite list_fmap_compose. apply NoDup_fmap_2; [by intros x y [=]|by apply from_config_ids].
    + intros t (spec & -> & _)%list_elem_of_fmap. set_solver.
    + repeat (apply NoDup_cons; split; [set_solver|]). by apply NoDup_nil.
  - exists c'. split_and!; [done| |].
    + destruct Hr as [ls0 Hr]. apply lreachable_system. eexists. by eapply lruns_app.
    + intros j spec Hj. rewrite Hs. apply lookup_lt_Some in Hj. by case_decide.
Qed.
End started.

(** A killed program leaves nothing running but the two detached tasks, which the cancellation ends. *)
Lemma kill_reaches out cfg app tasks t :
  start out cfg = (Ok app, tasks) -> t ∈ tasks -> t ∈ kill app \/ t = Upkeep \/ t = UsagePoller.
Proof.
  unfold start, kill. destruct (negb _); [done|]. destruct (start_chains _ _ _ _) as [[chains|e] ts]; [|done].
  destruct (negb _); [done|]. destruct (ou_bind _ _) as [addr|]; [|done]. intros [= <- <-]. cbn [ap_tasks].
  destruct (usage_spawn _ _); set_solver.
Qed.

(** ** Properties of the listener *)

(** Whatever broke, the listener hears again after at most three steps that go well. *)
Lemma listener_recovers parse_id l :
  li_phase l ≠ LStopped ->
  exists es, (length es <= 3)%nat
    /\ exists failing, listener_run parse_id es l = Some (mkListener LReceiving failing (li_chains l)).
Proof.
  destruct l as [p f cs]. destruct p; intros H; try done.
  - exists [LConnected true; LListened true]. split; [cbn; lia|]. by exists false.
  - exists [LListened true]. split; [cbn; lia|]. by exists false.
  - exists []. split; [cbn; lia|]. by exists f.
  - exists [LWoke; LConnected true; LListened true]. split; [cbn; lia|]. by exists false.
Qed.

(** An announcement of another instance changes the runtime of its chain and no other, by the
    handler; a payload that names no chain of this instance changes nothing. *)
Lemma announcement_handled (show_id : Z -> string) (parse_id : string -> option Z) l db chain_id id spec rt :
  (forall id, parse_id (show_id id) = Some id) -> in_u64 chain_id -> li_phase l = LReceiving ->
  li_chains l !! chain_id = Some (spec, rt) ->
  exists l', listener_step parse_id (LReceived db (announce_added show_id chain_id id)) l = Some l'
    /\ li_chains l' = <[chain_id := (spec, handle db spec NotifyAdd id rt)]> (li_chains l).
Proof.
  intros Hid Hc Hp Hl. unfold listener_step. rewrite Hp. eexists. split; [reflexivity|]. cbn.
  unfold handle_payload. rewrite announce_added_parse by done. by rewrite Hl.
Qed.
