(* ===== verification/Dispatch.v ===== *)
(** * Dispatch: the dispatcher's loop and its permits ([Dispatcher::run], [src/webhook/mod.rs])

    The loop leases what is due, never more than it has free permits for, and spawns one task per
    item; a task checks that the host is not parked, waits for one of the host's slots, posts, and
    gives permit and slot back. [dstep] is one step of the loop or of a task, with what the outside
    decides in the event. [Webhook.deliver] is the same delivery run without interruption. *)

From S2P Require Import Prelude Text Config Registry Cache Matcher Events Health Rpc Store Sweep Runtime.
From S2P Require Import Outbox Webhook TxSpec Ledger LedgerTx System.

(** Where a spawned delivery is. *)
Inductive Stage := Begun | WaitingSlot | Posting.

#[global] Instance Stage_eq_dec : EqDecision Stage.
Proof. solve_decision. Defined.

Record Delivery := mkDelivery { dl_item : OutboxItem; dl_host : string; dl_stage : Stage }.

(** Where the loop is. *)
Inductive DPhase := Draining | Spawning (items : list OutboxItem) | Selecting | Stopping | Done.

Record Dispatch := mkDispatch {
  dp_db : DB;
  dp_hosts : Hosts;
  dp_free : Z;                    (* available permits *)
  dp_running : list Delivery;     (* spawned tasks, each with its permit *)
  dp_wake : bool;                 (* the permit of the [Notify] *)
  dp_cancelled : bool;
  dp_phase : DPhase;
}.

(** [src/webhook/mod.rs:49-70 Dispatcher::new] *)
Definition dispatcher_new (cfg : WebhookConfig) (db : DB) : Dispatch :=
  mkDispatch db ∅ (Z.max (wc_max_concurrency cfg) 1) [] false false Draining.

Inductive DEvent :=
  | DCancel
  | DWake                                              (* another task announces new events *)
  | DStatement (db : DB)                               (* another statement commits *)
  | DLease (now : Z) (locked : Z -> bool) (failed : bool)
  | DSpawn
  | DSelect                                            (* notified, the second's sleep or the gauge tick *)
  | DBegin (i : nat) (now_ms now : Z) (saved : bool)
  | DSlot (i : nat)
  | DBusy (i : nat) (now : Z) (saved : bool)
  | DPost (i : nat) (ck : Clocks) (saved : bool) (body : option string) (resp : Response)
  | DStop.

Section dispatch.
Variable cfg : WebhookConfig.
Variable pick : Z -> Z -> Z.
Variable host_of : string -> string.

(** The statement on the outbox that ends a delivery commits, or its error is logged or ignored. *)
Definition save (saved : bool) (d d' : DB) : DB := if saved then d' else d.

(** [src/webhook/mod.rs:140-198 Dispatcher::deliver (post)] What follows once the slot is held. *)
Definition post (ck : Clocks) (saved : bool) (host : string) (body : option string) (resp : Response)
    (item : OutboxItem) (d : DB) (hosts : Hosts) : DB * Hosts :=
  match body with
  | None => (save saved d (mark_dead d (i_id item) None "unserialisable payload"), hosts)
  | Some _ =>
      let failed status error :=
        let hosts := host_failed cfg (ck_end ck) hosts host in
        if 1000000 * wc_max_age_secs cfg <=? Z.max 0 (ck_utc ck - i_created_at item)
        then (save saved d (mark_dead d (i_id item) status error), hosts)
        else
          let delay := backoff pick (wc_retry_base_ms cfg) (wc_retry_cap_ms cfg) (i_attempts item) in
          (save saved d (mark_retry (ck_db ck) d (i_id item) (1000 * delay) status error), hosts) in
      match resp with
      | Responded status text =>
          if is_success status then (save saved d (mark_delivered (ck_db ck) d (i_id item) status), host_ok hosts host)
          else failed (Some status) ("HTTP " +:+ text)
      | NoResponse description => failed None description
      end
  end.

(** The uninterrupted delivery of [Webhook]. *)
Lemma deliver_post ck saved host slot body send item d hosts :
  deliver cfg pick ck saved host slot body send item d hosts =
  match parked_for (ck_start ck) hosts host with
  | Some wait => (save saved d (release (ck_db ck) d (i_id item) (1000 * wait)), hosts, None)
  | None => if slot then (post ck saved host body (send (default EmptyString body)) item d hosts, body)
            else (save saved d (release (ck_db ck) d (i_id item) (1000 * HOST_BUSY_REQUEUE)), hosts, None)
  end.
Proof.
  unfold deliver, post. destruct (parked_for _ _ _), slot, body as [b|]; try done. cbn.
  destruct (send b) as [st ?|?]; [destruct (is_success st); [done|]|]; by destruct (_ <=? _).
Qed.

(** Slots of a host in use. *)
Definition holds (host : string) (r : Delivery) : bool :=
  bool_decide (dl_stage r = Posting) && String.eqb (dl_host r) host.
Definition slots_used (host : string) (rs : list Delivery) : Z := Z.of_nat (length (List.filter (holds host) rs)).
(** [src/webhook/mod.rs:201-207 Dispatcher::host_slot] There are [max_per_host] slots per host, created
    on first use. *)
Definition slot_free (host : string) (rs : list Delivery) : bool :=
  slots_used host rs <? Z.max (wc_max_per_host cfg) 1.

Definition set_stage (st : Stage) (r : Delivery) : Delivery := mkDelivery (dl_item r) (dl_host r) st.

(** [src/webhook/mod.rs:96-104 Dispatcher::run (task)] The task ends: its slot and its permit go
    back and the loop is woken. *)
Definition finish (i : nat) (db : DB) (hosts : Hosts) (s : Dispatch) : Dispatch :=
  mkDispatch db hosts (dp_free s + 1) (delete i (dp_running s)) true (dp_cancelled s) (dp_phase s).

Definition goto (p : DPhase) (s : Dispatch) : Dispatch :=
  mkDispatch (dp_db s) (dp_hosts s) (dp_free s) (dp_running s) (dp_wake s) (dp_cancelled s) p.

(** [src/webhook/mod.rs:76-94 Dispatcher::run (lease)] *)
Definition drain_step (now : Z) (locked : Z -> bool) (failed : bool) (s : Dispatch) : Dispatch :=
  if (dp_free s =? 0) || dp_cancelled s || failed then goto Selecting s
  else
    let '(items, db) := lease_batch cfg now locked (dp_db s) (dp_free s) in
    let s := mkDispatch db (dp_hosts s) (dp_free s) (dp_running s) (dp_wake s) (dp_cancelled s) (dp_phase s) in
    match items with [] => goto Selecting s | _ => goto (Spawning items) s end.

(** [src/webhook/mod.rs:72-116 Dispatcher::run] *)
Definition dstep (e : DEvent) (s : Dispatch) : option Dispatch :=
  match e, dp_phase s with
  | DCancel, _ => Some (mkDispatch (dp_db s) (dp_hosts s) (dp_free s) (dp_running s) (dp_wake s) true (dp_phase s))
  | DWake, _ => Some (mkDispatch (dp_db s) (dp_hosts s) (dp_free s) (dp_running s) true (dp_cancelled s) (dp_phase s))
  | DStatement db, _ => Some (mkDispatch db (dp_hosts s) (dp_free s) (dp_running s) (dp_wake s) (dp_cancelled s) (dp_phase s))
  | DLease now locked failed, Draining => Some (drain_step now locked failed s)
  | DSpawn, Spawning [] => Some (goto Draining s)
  | DSpawn, Spawning (item :: items) =>
      if 0 <? dp_free s then
        Some (mkDispatch (dp_db s) (dp_hosts s) (dp_free s - 1)
                (dp_running s ++ [mkDelivery item (host_of (i_url item)) Begun]) (dp_wake s) (dp_cancelled s)
                (Spawning items))
      else None
  | DSelect, Selecting =>
      if dp_cancelled s then Some (goto Stopping s)
      else Some (mkDispatch (dp_db s) (dp_hosts s) (dp_free s) (dp_running s) false (dp_cancelled s) Draining)
  | DBegin i now_ms now saved, _ =>
      r ← dp_running s !! i;
      if bool_decide (dl_stage r = Begun) then
        Some (match parked_for now_ms (dp_hosts s) (dl_host r) with
              | Some wait =>
                  finish i (save saved (dp_db s) (release now (dp_db s) (i_id (dl_item r)) (1000 * wait))) (dp_hosts s) s
              | None => mkDispatch (dp_db s) (dp_hosts s) (dp_free s) (<[i := set_stage WaitingSlot r]> (dp_running s))
                          (dp_wake s) (dp_cancelled s) (dp_phase s)
              end)
      else None
  | DSlot i, _ =>
      r ← dp_running s !! i;
      if bool_decide (dl_stage r = WaitingSlot) && slot_free (dl_host r) (dp_running s) then
        Some (mkDispatch (dp_db s) (dp_hosts s) (dp_free s) (<[i := set_stage Posting r]> (dp_running s))
                (dp_wake s) (dp_cancelled s) (dp_phase s))
      else None
  | DBusy i now saved, _ =>
      r ← dp_running s !! i;
      if bool_decide (dl_stage r = WaitingSlot) then
        Some (finish i (save saved (dp_db s) (release now (dp_db s) (i_id (dl_item r)) (1000 * HOST_BUSY_REQUEUE)))
                (dp_hosts s) s)
      else None
  | DPost i ck saved body resp, _ =>
      r ← dp_running s !! i;
      if bool_decide (dl_stage r = Posting) then
        let '(db, hosts) := post ck saved (dl_host r) body resp (dl_item r) (dp_db s) (dp_hosts s) in
        Some (finish i db hosts s)
      else None
  | DStop, Stopping => Some (goto Done s)
  | _, _ => None
  end.

Fixpoint druns (es : list DEvent) (s : Dispatch) : option Dispatch :=
  match es with [] => Some s | e :: es => s ← dstep e s; druns es s end.

(** ** The invariant *)

Local Abbreviation permits := (Z.max (wc_max_concurrency cfg) 1).
Local Abbreviation slots := (Z.max (wc_max_per_host cfg) 1).

Record DInv (s : Dispatch) : Prop := {
  di_permits : dp_free s + Z.of_nat (length (dp_running s)) = permits;
  di_free : 0 <= dp_free s;
  di_slots : forall host, slots_used host (dp_running s) <= slots;
  di_spawn : forall items, dp_phase s = Spawning items -> Z.of_nat (length items) <= dp_free s;
}.

Lemma slots_used_app host rs rs' : slots_used host (rs ++ rs') = slots_used host rs + slots_used host rs'.
Proof. unfold slots_used. rewrite List.filter_app, length_app. lia. Qed.

Lemma slots_used_at host rs i r :
  rs !! i = Some r ->
  slots_used host rs = slots_used host (delete i rs) + (if holds host r then 1 else 0).
Proof.
  intros Hi. rewrite <- (take_drop_middle rs i r Hi) at 1. rewrite delete_take_drop, !slots_used_app.
  unfold slots_used at 2. cbn [List.filter]. destruct (holds host r); cbn [length]; unfold slots_used; lia.
Qed.

Lemma slots_used_insert host rs i r r' :
  rs !! i = Some r ->
  slots_used host (<[i := r']> rs)
  = slots_used host rs - (if holds host r then 1 else 0) + (if holds host r' then 1 else 0).
Proof.
  intros Hi. rewrite (slots_used_at host rs i r Hi), delete_take_drop, insert_take_drop by by eapply lookup_lt_Some.
  rewrite !slots_used_app. unfold slots_used at 2. cbn [List.filter]. destruct (holds host r'); cbn [length];
    unfold slots_used; destruct (holds host r); lia.
Qed.

Lemma holds_other host r : dl_stage r ≠ Posting -> holds host r = false.
Proof. intros H. unfold holds. by rewrite bool_decide_false. Qed.

Lemma holds_posting host r : holds host (set_stage Posting r) = String.eqb (dl_host r) host.
Proof. done. Qed.

Lemma slots_used_nonneg host rs : 0 <= slots_used host rs.
Proof. unfold slots_used. lia. Qed.

Lemma DInv_finish i r db hosts s : DInv s -> dp_running s !! i = Some r -> DInv (finish i db hosts s).
Proof.
  intros [Hp Hf Hs Hsp] Hi. pose proof (lookup_lt_Some _ _ _ Hi) as Hlt. split; cbn.
  - rewrite length_delete by (by eexists). lia.
  - lia.
  - intros host. specialize (Hs host). rewrite (slots_used_at host _ i r Hi) in Hs. destruct (holds host r); lia.
  - intros items E. specialize (Hsp items E). lia.
Qed.

Lemma length_lease_batch now locked d free :
  0 <= free -> Z.of_nat (length (lease_batch cfg now locked d free).1) <= free.
Proof.
  intros Hf. unfold lease_batch. destruct (Z.eqb_spec free 0) as [->|Hne]; [done|].
  unfold lease_due, due. cbn [fst]. rewrite !length_fmap, length_take. lia.
Qed.

Lemma DInv_dstep e s s' : DInv s -> dstep e s = Some s' -> DInv s'.
Proof.
  intros HI H. pose proof HI as [Hp Hf Hs Hsp].
  destruct e as [| |db|now locked failed| | |i now_ms now saved|i|i now saved|i ck saved body resp|]; cbn in H.
  - injection H as <-. by split.
  - injection H as <-. by split.
  - injection H as <-. by split.
  - destruct (dp_phase s) eqn:Ep; try done. injection H as <-. unfold drain_step.
    destruct (_ || _); [by split|]. pose proof (length_lease_batch now locked (dp_db s) (dp_free s) Hf) as Hl.
    destruct (lease_batch _ _ _ _ _) as [items db]. cbn in Hl.
    destruct items as [|it items]; split; cbn; try done. intros items' [= <-]. exact Hl.
  - destruct (dp_phase s) as [|[|it items]| | |] eqn:Ep; try done; [injection H as <-; by split|].
    destruct (Z.ltb_spec 0 (dp_free s)); [|done]. injection H as <-. specialize (Hsp _ eq_refl). cbn in Hsp.
    split; cbn; [rewrite length_app; cbn; lia|lia| |].
    + intros host. rewrite slots_used_app. specialize (Hs host).
      change (slots_used host [_]) with 0. lia.
    + intros items' [= <-]. lia.
  - destruct (dp_phase s); try done. destruct (dp_cancelled s); injection H as <-; by split.
  - apply bind_Some in H as (r & Hi & H). case_bool_decide as Est; [|done]. injection H as <-.
    destruct (parked_for _ _ _); [by eapply DInv_finish|]. split; cbn; [by rewrite length_insert|done| |done].
    intros host. rewrite (slots_used_insert host _ i r _ Hi). specialize (Hs host). rewrite !holds_other by (cbn; congruence). lia.
  - apply bind_Some in H as (r & Hi & H). destruct (bool_decide _ && _) eqn:E; [|done]. injection H as <-.
    apply andb_prop in E as [Est%bool_decide_eq_true Hfree%Z.ltb_lt].
    split; cbn; [by rewrite length_insert|done| |done].
    intros host. rewrite (slots_used_insert host _ i r _ Hi). specialize (Hs host).
    rewrite (holds_other host r) by congruence. rewrite holds_posting.
    destruct (String.eqb_spec (dl_host r) host) as [<-|]; lia.
  - apply bind_Some in H as (r & Hi & H). case_bool_decide as Est; [|done]. injection H as <-. by eapply DInv_finish.
  - apply bind_Some in H as (r & Hi & H). case_bool_decide as Est; [|done].
    destruct (post _ _ _ _ _ _ _ _) as [db hosts]. injection H as <-. by eapply DInv_finish.
  - destruct (dp_phase s); try done. injection H as <-. by split.
Qed.

Lemma DInv_druns es s s' : DInv s -> druns es s = Some s' -> DInv s'.
Proof.
  revert s. induction es as [|e es IH]; intros s HI H; cbn in H; [by simplify_eq|].
  apply bind_Some in H as (s1 & H1 & H). eauto using DInv_dstep.
Qed.

Lemma DInv_new db : DInv (dispatcher_new cfg db).
Proof. split; cbn; [lia|lia|intros; unfold slots_used; cbn; lia|done]. Qed.

(** ** What the dispatcher writes *)

(** Statements on the outbox: none, or one of the dispatcher's. *)
Definition writes (d d' : DB) : Prop := d' = d \/ delivery d d'.

Lemma save_writes saved d d' : delivery d d' -> writes d (save saved d d').
Proof. destruct saved; [by right|by left]. Qed.

Lemma post_writes ck saved host body resp item d hosts : writes d (post ck saved host body resp item d hosts).1.
Proof.
  unfold post. destruct body as [b|]; [|apply save_writes, dl_dead].
  destruct resp as [st text|desc]; [destruct (is_success st)|]; try destruct (_ <=? _); apply save_writes; constructor.
Qed.

Lemma lease_batch_writes now locked d free : writes d (lease_batch cfg now locked d free).2.
Proof. unfold lease_batch. destruct (free =? 0); [by left|right; apply dl_lease]. Qed.

Lemma dstep_writes e s s' : dstep e s = Some s' -> (forall db, e ≠ DStatement db) -> writes (dp_db s) (dp_db s').
Proof.
  intros H Hne. destruct e as [| |db|now locked failed| | |i now_ms now saved|i|i now saved|i ck saved body resp|]; cbn in H;
    [by injection H as <-; left|by injection H as <-; left|by destruct (Hne db)|..].
  - destruct (dp_phase s); try done. injection H as <-. unfold drain_step. destruct (_ || _); [by left|].
    pose proof (lease_batch_writes now locked (dp_db s) (dp_free s)) as Hl.
    destruct (lease_batch _ _ _ _ _) as [[|it items] db]; exact Hl.
  - left. destruct (dp_phase s) as [|[|it items]| | |]; try done; [by injection H as <-|].
    destruct (0 <? _); [|done]. by injection H as <-.
  - left. destruct (dp_phase s); try done. destruct (dp_cancelled s); by injection H as <-.
  - apply bind_Some in H as (r & Hi & H). case_bool_decide; [|done]. injection H as <-.
    destruct (parked_for _ _ _); [apply save_writes, dl_release|by left].
  - left. apply bind_Some in H as (r & Hi & H). destruct (_ && _); [|done]. by injection H as <-.
  - apply bind_Some in H as (r & Hi & H). case_bool_decide; [|done]. injection H as <-. apply save_writes, dl_release.
  - apply bind_Some in H as (r & Hi & H). case_bool_decide; [|done].
    pose proof (post_writes ck saved (dl_host r) body resp (dl_item r) (dp_db s) (dp_hosts s)) as Hd.
    destruct (post _ _ _ _ _ _ _ _) as [db hosts]. injection H as <-. exact Hd.
  - left. destruct (dp_phase s); try done. by injection H as <-.
Qed.
End dispatch.

(** ** Properties *)

(** C29. Deliveries are bounded: in every state the dispatcher reaches, whatever hosts, database and
    cancellation do, at most [max_concurrency] deliveries are in progress and at most [max_per_host]
    of them post to one host; every permit not free belongs to a running delivery; and what has
    been leased but not yet spawned always finds a free permit, so that no lease runs down while
    its item waits. *)
Theorem deliveries_bounded (cfg : WebhookConfig) (pick : Z -> Z -> Z) (host_of : string -> string) (db : DB)
    (es : list DEvent) (s : Dispatch) :
  druns cfg pick host_of es (dispatcher_new cfg db) = Some s ->
  Z.of_nat (length (dp_running s)) <= Z.max (wc_max_concurrency cfg) 1
  /\ dp_free s + Z.of_nat (length (dp_running s)) = Z.max (wc_max_concurrency cfg) 1
  /\ (forall host, slots_used host (dp_running s) <= Z.max (wc_max_per_host cfg) 1)
  /\ (forall item items, dp_phase s = Spawning (item :: items) -> is_Some (dstep cfg pick host_of DSpawn s)).
Proof.
  intros [Hp Hf Hs Hsp]%DInv_druns; [|apply DInv_new]. split_and!; [lia|lia|done|].
  intros item items E. cbn. rewrite E. specialize (Hsp _ E). cbn in Hsp.
  destruct (Z.ltb_spec 0 (dp_free s)); [by eexists|lia].
Qed.
