(* ===== verification/DispatchLive.v ===== *)
(** * DispatchLive: the dispatcher empties the outbox

    With consumers that answer, a database that answers and no shutdown, every event that is due is
    delivered, in whatever order the loop and its tasks run: the work left ([backlog]) shrinks with
    every step of the loop or of a task, and while an event is undelivered such a step is at most
    two away. *)

From S2P Require Import Prelude Text Config Registry Cache Matcher Events Health Rpc Store Sweep Runtime.
From S2P Require Import Outbox Webhook TxSpec Ledger LedgerTx System Dispatch.

(** The events still to be delivered. *)
Definition undelivered (d : DB) : gmap Z OutboxRec := filter (fun e => o_status e.2 = OPending) (d_outbox d).

Lemma undelivered_Some d id o : undelivered d !! id = Some o <-> d_outbox d !! id = Some o /\ o_status o = OPending.
Proof. unfold undelivered. by rewrite map_lookup_filter_Some. Qed.

(** What deliveries do to an event. *)
Definition fate (o o' : OutboxRec) : Prop :=
  same_event o o' /\ (o_status o' = o_status o \/ (o_status o = OPending /\ o_status o' = ODelivered)).

#[global] Instance fate_preorder : PreOrder fate.
Proof.
  split; [intros o; split; [done|by left]|].
  intros o1 o2 o3 [(A1 & A2 & A3 & A4 & A5 & A6) A] [(B1 & B2 & B3 & B4 & B5 & B6) B].
  split; [split_and!; congruence|]. destruct A as [A|[? A]], B as [B|[? B]]; rewrite ?B, ?A in *; tauto || congruence.
Qed.

(** A watch with an undelivered event has one that no other blocks. *)
Lemma first_undelivered d id o :
  undelivered d !! id = Some o -> exists id' o', undelivered d !! id' = Some o' /\ blocked d o' = false.
Proof.
  intros Ho. set (X := filter (fun e => o_watch_id e.2 = o_watch_id o) (undelivered d)).
  assert (HX : forall i e, X !! i = Some e <-> undelivered d !! i = Some e /\ o_watch_id e = o_watch_id o).
  { intros i e. unfold X. by rewrite map_lookup_filter_Some. }
  destruct (list_min ((fun e => o_seq e.2) <$> map_to_list X)) as [n|] eqn:Hn.
  2:{ apply list_min_None, fmap_nil_inv, map_to_list_empty_iff in Hn.
      assert (X !! id = Some o) as Hid by (by apply HX). by rewrite Hn, lookup_empty in Hid. }
  pose proof (list_min_elem _ _ Hn) as ([i e] & En & He%elem_of_map_to_list)%list_elem_of_fmap.
  apply HX in He as [He Ew]. exists i, e. split; [done|]. apply blocked_false.
  intros i' e' He' Ew' Hlt Hp. assert (X !! i' = Some e') as Hin by (apply HX; rewrite undelivered_Some; split_and!; [done..|congruence]).
  assert (n <= o_seq e') by (eapply list_min_le; [exact Hn|]; apply list_elem_of_fmap; exists (i', e'); by rewrite elem_of_map_to_list).
  cbn in En. lia.
Qed.

(** ** The work left *)

(** How far a delivery has come: leased, spawned, waiting for a slot, posting; seven steps deliver. *)
Definition come (st : Stage) : Z := match st with Begun => 4 | WaitingSlot => 5 | Posting => 6 end.

Definition spawning (s : Dispatch) : list OutboxItem := match dp_phase s with Spawning items => items | _ => [] end.

(** The events the dispatcher has in hand. *)
Definition held (s : Dispatch) : list Z := (i_id ∘ dl_item <$> dp_running s) ++ (i_id <$> spawning s).

Definition progress (rs : list Delivery) : Z := foldr (fun r n => come (dl_stage r) + n) 0 rs.

Definition backlog (s : Dispatch) : Z :=
  7 * Z.of_nat (size (undelivered (dp_db s))) - 2 * Z.of_nat (length (spawning s))
  + (match dp_phase s with Spawning _ => 1 | _ => 0 end) - progress (dp_running s).

Lemma progress_cons r rs : progress (r :: rs) = come (dl_stage r) + progress rs.
Proof. done. Qed.

Lemma progress_app rs rs' : progress (rs ++ rs') = progress rs + progress rs'.
Proof. induction rs as [|r rs IH]; [done|]. cbn [app]. rewrite !progress_cons, IH. lia. Qed.

Lemma progress_bound rs : 0 <= progress rs <= 6 * Z.of_nat (length rs).
Proof. induction rs as [|r rs IH]; [done|]. rewrite progress_cons. cbn [length]. destruct (dl_stage r); cbn [come]; lia. Qed.

Lemma progress_delete rs i r : rs !! i = Some r -> progress rs = come (dl_stage r) + progress (delete i rs).
Proof.
  intros Hi. rewrite <- (take_drop_middle rs i r Hi) at 1. rewrite delete_take_drop, !progress_app, progress_cons. lia.
Qed.

Lemma progress_insert rs i r st :
  rs !! i = Some r -> progress (<[i := set_stage st r]> rs) = progress rs - come (dl_stage r) + come st.
Proof.
  intros Hi. rewrite (progress_delete rs i r Hi), delete_take_drop, insert_take_drop by by eapply lookup_lt_Some.
  rewrite !progress_app, progress_cons. cbn [set_stage dl_stage]. lia.
Qed.

(** A step of the loop or of a task, other than looking for work. *)
Definition advances (e : DEvent) : bool :=
  match e with DSpawn | DBegin _ _ _ _ | DSlot _ | DPost _ _ _ _ _ => true | _ => false end.

Lemma lease_ms_pos cfg :
  0 <= wc_request_timeout_ms cfg < 2 ^ 62 -> 0 <= wc_connect_timeout_ms cfg < 2 ^ 62 -> 0 < 1000 * lease_ms cfg.
Proof. intros Hr Hc. unfold lease_ms. rewrite u64_add_id by (unfold in_u64; lia). lia. Qed.

(** With nothing undelivered, every event has met its fate. *)
Lemma settled_fate db d id o :
  option_Forall2 fate (d_outbox db !! id) (d_outbox d !! id) -> undelivered d = ∅ -> d_outbox db !! id = Some o ->
  exists o', d_outbox d !! id = Some o' /\ same_event o o'
    /\ o_status o' = match o_status o with ODead => ODead | _ => ODelivered end.
Proof.
  intros Hf Hu Ho. rewrite Ho in Hf. inversion Hf as [o1 o' [Hs Hst] E1 E2|]. subst o1. exists o'. split_and!; [done..|].
  assert (o_status o' ≠ OPending).
  { intros Hp. assert (undelivered d !! id = Some o') as H by (by apply undelivered_Some). by rewrite Hu, lookup_empty in H. }
  destruct Hst as [E|[E1' ->]]; [|by rewrite E1']. rewrite E in *. by destruct (o_status o).
Qed.

Section drain.
Variable cfg : WebhookConfig.
Variable pick : Z -> Z -> Z.
Variable host_of : string -> string.
Variable t0 : Z.
Local Abbreviation lease := (1000 * lease_ms cfg).
Local Abbreviation dstep := (dstep cfg pick host_of).
Local Abbreviation druns := (druns cfg pick host_of).

(** The surroundings cooperate: nobody stops the dispatcher, the outbox is not touched by others,
    its statements succeed and leases happen within a lease's time from [t0], slots come free in time, and the
    consumers answer with a success. *)
Definition cooperates (e : DEvent) : Prop :=
  match e with
  | DLease now locked failed => t0 <= now < t0 + lease /\ (forall ev, locked ev = false) /\ failed = false
  | DPost _ _ saved body resp => saved = true /\ is_Some body /\ exists status text, resp = Responded status text /\ is_success status = true
  | DWake | DSpawn | DSelect | DBegin _ _ _ _ | DSlot _ => True
  | DCancel | DStatement _ | DBusy _ _ _ | DStop => False
  end.

Record DL (db : DB) (s : Dispatch) : Prop := {
  dl_inv : DInv cfg s;
  dl_open : dp_cancelled s = false /\ dp_phase s ≠ Stopping /\ dp_phase s ≠ Done;
  dl_calm : dp_hosts s = ∅;
  dl_nodup : NoDup (held s);
  dl_held : forall id, id ∈ held s -> exists o, undelivered (dp_db s) !! id = Some o /\ t0 + lease <= o_next_attempt_at o;
  dl_due : forall id o, undelivered (dp_db s) !! id = Some o -> id ∉ held s -> o_next_attempt_at o <= t0;
  dl_fate : forall id, option_Forall2 fate (d_outbox db !! id) (d_outbox (dp_db s) !! id);
}.

Lemma DL_new db :
  (forall id o, undelivered db !! id = Some o -> o_next_attempt_at o <= t0) -> DL db (dispatcher_new cfg db).
Proof.
  intros H. split; try done; [apply DInv_new|constructor|..]; cbn.
  - by intros id ?%not_elem_of_nil.
  - intros id o Ho _. by eapply H.
Qed.

(** A lease takes something when something is due. *)
Lemma lease_takes now locked d free id o :
  1 <= free -> t0 <= now -> (forall ev, locked ev = false) -> undelivered d !! id = Some o ->
  (forall i e, undelivered d !! i = Some e -> o_next_attempt_at e <= t0) ->
  (lease_batch cfg now locked d free).1 ≠ [].
Proof.
  intros Hf Hnow Hl Ho Hdue. apply first_undelivered in Ho as (i & e & He & Hb). pose proof (Hdue i e He) as Hn.
  apply undelivered_Some in He as [He Hp]. unfold lease_batch. destruct (Z.eqb_spec free 0); [lia|].
  unfold lease_due, due. cbn [fst]. intros E. apply fmap_nil_inv, fmap_nil_inv in E.
  assert (Hin : (i, e) ∈ sort_by (fun e => o_next_attempt_at e.2)
    (List.filter (fun e => is_pending e.2 && (o_next_attempt_at e.2 <=? now) && negb (blocked d e.2) && negb (locked e.1))
       (map_to_list (d_outbox d)))).
  { rewrite elem_of_sort_by, list_elem_of_In, List.filter_In, <- list_elem_of_In, elem_of_map_to_list. split; [done|].
    cbn. rewrite (pending_true e Hp), Hb, Hl, (proj2 (Z.leb_le _ _)) by lia. done. }
  destruct (sort_by _ _) as [|x l]; [by apply not_elem_of_nil in Hin|].
  replace (Z.to_nat free) with (S (Z.to_nat (free - 1))) in E by lia. done.
Qed.

(** ** Every step keeps the invariant and does some of the work *)

Lemma DL_same db s s' :
  DL db s -> DInv cfg s' -> dp_cancelled s' = false /\ dp_phase s' ≠ Stopping /\ dp_phase s' ≠ Done ->
  dp_db s' = dp_db s -> dp_hosts s' = ∅ -> held s' = held s -> DL db s'.
Proof. intros [H1 H2 H3 H4 H5 H6 H7] HI Ho Ed Eh El. split; rewrite ?El, ?Ed; done. Qed.

Lemma held_set (rs : list Delivery) i r st :
  rs !! i = Some r -> i_id ∘ dl_item <$> <[i := set_stage st r]> rs = (i_id ∘ dl_item <$> rs).
Proof.
  intros Hi. rewrite list_fmap_insert. apply list_insert_id. by rewrite list_lookup_fmap, Hi.
Qed.

(** The events a lease pushes back are still undelivered, and nothing else changes. *)
Lemma undelivered_lease now locked d limit l id :
  undelivered (lease_due now locked d limit l).2 !! id =
  (fun o => if decide (id ∈ (due now locked d limit).*1) then leased now l o else o) <$> undelivered d !! id.
Proof.
  apply option_eq. intros o'. rewrite undelivered_Some, lease_due_outbox, fmap_Some. split.
  - intros [H Hp]. case_decide.
    + apply fmap_Some in H as (o & Ho & ->). exists o. by rewrite undelivered_Some.
    + exists o'. by rewrite undelivered_Some.
  - intros (o & [Ho Hp]%undelivered_Some & ->). rewrite Ho. by case_decide.
Qed.

Lemma size_undelivered_lease now locked d limit l :
  size (undelivered (lease_due now locked d limit l).2) = size (undelivered d).
Proof.
  rewrite <- !size_dom. f_equal. apply leibniz_equiv. intros id.
  by rewrite !elem_of_dom, undelivered_lease, fmap_is_Some.
Qed.

Lemma undelivered_delivered now d id status : undelivered (mark_delivered now d id status) = delete id (undelivered d).
Proof.
  apply map_eq. intros i. apply option_eq. intros o. rewrite lookup_delete_Some, !undelivered_Some.
  unfold mark_delivered. rewrite update_outbox_lookup. case_decide as E; [subst i|naive_solver].
  split; [|naive_solver]. intros [H Hp]. apply fmap_Some in H as (o0 & _ & ->). done.
Qed.

Lemma leased_ids now locked d limit l : i_id <$> (lease_due now locked d limit l).1 = (due now locked d limit).*1.
Proof. unfold lease_due. cbn [fst]. by rewrite <- !list_fmap_compose. Qed.

(** What a turn of the loop that may lease does. *)
Lemma drain_step_leases now locked s :
  dp_cancelled s = false ->
  let s' := drain_step cfg now locked false s in
  let l := lease_batch cfg now locked (dp_db s) (dp_free s) in
  dp_db s' = l.2 /\ dp_hosts s' = dp_hosts s /\ dp_running s' = dp_running s /\ spawning s' = l.1
  /\ dp_cancelled s' = false
  /\ (dp_phase s' = Selecting /\ l.1 = [] \/ dp_phase s' = Spawning l.1 /\ l.1 ≠ []).
Proof.
  intros Hc s' l. unfold s', l, drain_step, lease_batch. rewrite Hc, !orb_false_r.
  destruct (dp_free s =? 0); [cbn; split_and!; try done; by left|].
  destruct (lease_due _ _ _ _ _) as [[|it items] d']; cbn; split_and!; try done; [by left|by right].
Qed.

Lemma DL_lease db now locked s :
  0 < lease -> DL db s -> dp_phase s = Draining -> cooperates (DLease now locked false) ->
  DInv cfg (drain_step cfg now locked false s) ->
  DL db (drain_step cfg now locked false s) /\ backlog (drain_step cfg now locked false s) <= backlog s
  /\ ((lease_batch cfg now locked (dp_db s) (dp_free s)).1 ≠ [] -> backlog (drain_step cfg now locked false s) < backlog s).
Proof.
  intros Hpos [H1 [H2 H2'] H3 H4 H5 H6 H7] Hph (Hnow & Hl & _) HI.
  assert (Hs : spawning s = []) by (unfold spawning; by rewrite Hph).
  destruct (drain_step_leases now locked s H2) as (Ed & Eh & Er & Esp & Ec & Ep).
  set (s1 := drain_step cfg now locked false s) in *. clearbody s1. unfold lease_batch in *.
  unfold held in H4, H5, H6. rewrite Hs, app_nil_r in H4, H5, H6.
  destruct (Z.eqb_spec (dp_free s) 0) as [Hf|Hf]; cbn [fst snd] in *.
  { destruct Ep as [[Ep _]|[_ []]]; [|done]. split.
    - split; unfold held; rewrite ?Eh, ?Er, ?Esp, ?Ed, ?Ep, ?app_nil_r; done.
    - split; [|done]. unfold backlog. rewrite Er, Esp, Ed, Ep, Hs, Hph. done. }
  pose proof (leased_ids now locked (dp_db s) (dp_free s) lease) as Hids.
  pose proof (undelivered_lease now locked (dp_db s) (dp_free s) lease) as Hund.
  pose proof (size_undelivered_lease now locked (dp_db s) (dp_free s) lease) as Hsz.
  pose proof (lease_due_outbox now locked (dp_db s) (dp_free s) lease) as Hob.
  destruct (lease_due now locked (dp_db s) (dp_free s) lease) as [items d']. cbn [fst snd] in *.
  assert (Hdue : forall id, id ∈ (due now locked (dp_db s) (dp_free s)).*1 ->
    exists o, undelivered (dp_db s) !! id = Some o /\ o_next_attempt_at o <= now).
  { intros id ([i o] & -> & (Ho & Hp & Hn & _)%elem_of_due)%list_elem_of_fmap. exists o. by rewrite undelivered_Some. }
  split.
  - split; [done| |by rewrite Eh|..]; unfold held; rewrite ?Er, ?Esp, ?Hids, ?Ed.
    + split; [done|]. destruct Ep as [[-> _]|[-> _]]; done.
    + apply NoDup_app. split_and!; [done| |apply NoDup_due].
      intros id (o & Ho & Hn)%H5 (o' & Ho' & Hn')%Hdue. simplify_eq. lia.
    + intros id [(o & Ho & Hn)%H5|Hin]%elem_of_app; rewrite Hund.
      * rewrite Ho. eexists. split; [reflexivity|]. case_decide; cbn; lia.
      * destruct (Hdue id Hin) as (o & Ho & _). rewrite Ho. eexists. split; [reflexivity|].
        rewrite decide_True by done. cbn. lia.
    + intros id o' Ho' [Hn1 Hn2]%not_elem_of_app. rewrite Hund in Ho'.
      apply fmap_Some in Ho' as (o & Ho & ->). rewrite decide_False by done. by eapply H6.
    + intros id. rewrite Hob. specialize (H7 id). case_decide; [|done].
      destruct H7 as [o o' Hf'|]; cbn; constructor. etrans; [exact Hf'|]. split; [done|by left].
  - unfold backlog. rewrite Er, Esp, Ed, Hsz, Hs, Hph.
    destruct Ep as [[-> ->]|[-> Hne]]; [split; [cbn [length]; lia|done]|].
    destruct items; [done|]. cbn [length]. lia.
Qed.

Lemma DL_post db i r ck status text body s :
  DL db s -> dp_running s !! i = Some r -> dl_stage r = Posting -> is_success status = true ->
  let s' := finish i (mark_delivered (ck_db ck) (dp_db s) (i_id (dl_item r)) status) (host_ok (dp_hosts s) (dl_host r)) s in
  post cfg pick ck true (dl_host r) (Some body) (Responded status text) (dl_item r) (dp_db s) (dp_hosts s) = (dp_db s', dp_hosts s')
  /\ DL db s' /\ backlog s' + 1 <= backlog s.
Proof.
  intros [H1 H2 H3 H4 H5 H6 H7] Hi Hst Hok s'. set (id := i_id (dl_item r)) in *.
  assert (Hperm : held s ≡ₚ id :: held s').
  { unfold held. change (spawning s') with (spawning s). cbn [s' finish dp_running].
    rewrite (delete_Permutation _ _ _ Hi) at 1. done. }
  assert (Hid : exists o, undelivered (dp_db s) !! id = Some o).
  { destruct (H5 id) as (o & Ho & _); [rewrite Hperm; apply list_elem_of_here|by exists o]. }
  destruct Hid as [o0 Ho0]. rewrite Hperm in H4. apply NoDup_cons in H4 as [Hnin Hnd].
  split; [cbn; by rewrite Hok|]. split.
  - split; [by eapply DInv_finish|done|cbn; unfold host_ok; rewrite H3; apply delete_empty|done|..];
      cbn [s' finish dp_db]; fold id.
    + intros id' Hin. destruct (H5 id') as (o & Ho & Hn); [rewrite Hperm; by apply list_elem_of_further|].
      exists o. rewrite undelivered_delivered, lookup_delete_ne; [done|]. by intros <-.
    + intros id' o. rewrite undelivered_delivered, lookup_delete_Some. intros [Hne Ho] Hin.
      apply (H6 id'); [done|]. rewrite Hperm. apply not_elem_of_cons. by split.
    + intros id'. unfold mark_delivered. rewrite update_outbox_lookup. specialize (H7 id').
      case_decide as E; [|done]. subst id'. apply undelivered_Some in Ho0 as [Ho0 Hp0]. rewrite Ho0 in *.
      inversion H7 as [o1 o2 Hf E1 E2|]. subst o2. cbn. constructor. etrans; [exact Hf|].
      split; [done|]. right. done.
  - unfold backlog. change (spawning s') with (spawning s). cbn [s' finish dp_db dp_phase dp_running]. fold id.
    rewrite undelivered_delivered, map_size_delete_Some by by eexists.
    rewrite (progress_delete _ _ _ Hi), Hst. cbn [come].
    assert (size (undelivered (dp_db s)) ≠ 0%nat) by (intros E; apply map_size_empty_inv in E; by rewrite E, lookup_empty in Ho0).
    lia.
Qed.
Lemma parked_none now host : parked_for now ∅ host = None.
Proof. unfold parked_for. by rewrite lookup_empty. Qed.

Lemma DL_dstep db e s s' :
  0 < lease -> DL db s -> cooperates e -> dstep e s = Some s' ->
  DL db s' /\ backlog s' + (if advances e then 1 else 0) <= backlog s.
Proof.
  intros Hpos HD Hco H. pose proof (DInv_dstep _ _ _ _ _ _ (dl_inv _ _ HD) H) as HI.
  pose proof HD as [_ [Hc Hop] Hh _ _ _ _].
  destruct e as [| |d|now locked failed| | |i now_ms now saved|i|i now saved|i ck saved body resp|]; try done; cbn in H.
  - injection H as <-. cbn [advances]. split; [by apply (DL_same db s)|]. unfold backlog, spawning. cbn [dp_db dp_phase dp_running]. lia.
  - destruct Hco as (Hnow & Hl & ->). destruct (dp_phase s) eqn:Hph; try done. injection H as <-. cbn [advances].
    destruct (DL_lease db now locked s Hpos HD Hph) as (? & ? & _); [done..|]. split; [done|lia].
  - cbn [advances]. destruct (dp_phase s) as [|[|it items]| | |] eqn:Hph; try done.
    { injection H as <-. split; [apply (DL_same db s); try done; unfold held, spawning; cbn; by rewrite Hph|].
      unfold backlog, spawning. cbn [goto dp_db dp_phase dp_running]. rewrite Hph. cbn [length]. lia. }
    destruct (0 <? dp_free s); [|done]. injection H as <-. split.
    + apply (DL_same db s); try done. unfold held, spawning. cbn [dp_running dp_phase]. rewrite Hph, fmap_app.
      cbn [fmap list_fmap]. by rewrite <- app_assoc.
    + unfold backlog, spawning. cbn [dp_db dp_phase dp_running]. rewrite Hph, progress_app.
      unfold progress at 2. cbn [length foldr dl_stage come]. lia.
  - destruct (dp_phase s) eqn:Hph; try done. rewrite Hc in H. injection H as <-. cbn [advances]. split.
    + apply (DL_same db s); try done. unfold held, spawning. cbn. by rewrite Hph.
    + unfold backlog, spawning. cbn [dp_db dp_phase dp_running]. rewrite Hph. lia.
  - apply bind_Some in H as (r & Hi & H). case_bool_decide as Hst; [|done]. rewrite Hh, parked_none in H. injection H as <-.
    split; [apply (DL_same db s); try done; unfold held, spawning; cbn [dp_running dp_phase]; f_equal; by apply held_set|].
    unfold backlog, spawning. cbn [dp_db dp_phase dp_running advances]. rewrite (progress_insert _ _ _ _ Hi), Hst.
    cbn [come]. lia.
  - apply bind_Some in H as (r & Hi & H). destruct (bool_decide _ && _) eqn:E; [|done]. injection H as <-.
    apply andb_prop in E as [Hst%bool_decide_eq_true _].
    split; [apply (DL_same db s); try done; unfold held, spawning; cbn [dp_running dp_phase]; f_equal; by apply held_set|].
    unfold backlog, spawning. cbn [dp_db dp_phase dp_running advances]. rewrite (progress_insert _ _ _ _ Hi), Hst.
    cbn [come]. lia.
  - destruct Hco as (-> & [b ->] & status & text & -> & Hok).
    apply bind_Some in H as (r & Hi & H). case_bool_decide as Hst; [|done].
    destruct (DL_post db i r ck status text b s HD Hi Hst Hok) as (E & HD' & Hb).
    rewrite E in H. injection H as <-. cbn [advances]. exact (conj HD' Hb).
Qed.

Lemma DL_druns db es s s' :
  0 < lease -> DL db s -> Forall cooperates es -> druns es s = Some s' ->
  DL db s' /\ backlog s' + Z.of_nat (length (List.filter advances es)) <= backlog s.
Proof.
  intros Hpos. revert s. induction es as [|e es IH]; intros s HD Hco H; cbn in H.
  { simplify_eq. split; [done|]. cbn. lia. }
  apply Forall_cons in Hco as [He Hco]. apply bind_Some in H as (s1 & H1 & H).
  destruct (DL_dstep db e s s1 Hpos HD He H1) as [HD1 Hb1]. destruct (IH s1 HD1 Hco H) as [HD' Hb].
  split; [done|]. cbn [List.filter]. destruct (advances e); cbn [length]; lia.
Qed.

(** ** While something is undelivered, work can be done *)

Lemma busy_host host rs :
  slot_free cfg host rs = false -> exists i r, rs !! i = Some r /\ dl_stage r = Posting.
Proof.
  unfold slot_free, slots_used. intros H%Z.ltb_ge. destruct (List.filter (holds host) rs) as [|r l] eqn:E; [cbn in H; lia|].
  assert (Hin : r ∈ List.filter (holds host) rs) by (rewrite E; apply list_elem_of_here).
  apply list_elem_of_In, List.filter_In in Hin as [Hin Hh]. apply list_elem_of_In, list_elem_of_lookup_1 in Hin as [i Hi].
  exists i, r. split; [done|]. unfold holds in Hh. apply andb_prop in Hh as [Hh _]. by apply bool_decide_eq_true in Hh.
Qed.

Definition ok_post (i : nat) : DEvent := DPost i (mkClocks 0 0 0 0) true (Some EmptyString) (Responded 200 EmptyString).

(** A spawned delivery, or the one that holds its slot, can go on. *)
Lemma delivery_next db s r i :
  DL db s -> dp_running s !! i = Some r ->
  exists e s', cooperates e /\ advances e = true /\ dstep e s = Some s'.
Proof.
  intros HD Hi. pose proof (dl_calm _ _ HD) as Hh.
  assert (Hpost : forall j x, dp_running s !! j = Some x -> dl_stage x = Posting ->
    exists e s', cooperates e /\ advances e = true /\ dstep e s = Some s').
  { intros j x Hj Hx. exists (ok_post j). eexists. split; [|split; [done|]].
    - split; [done|]. split; [by eexists|]. eexists _, _. split; [reflexivity|]. done.
    - cbn. rewrite Hj. cbn. rewrite bool_decide_true by done. reflexivity. }
  destruct (dl_stage r) eqn:Hst; [| |by eapply Hpost].
  - exists (DBegin i 0 0 true). eexists. split_and!; [done..|]. cbn. rewrite Hi. cbn. by rewrite bool_decide_true, Hh, parked_none by done.
  - destruct (slot_free cfg (dl_host r) (dp_running s)) eqn:Hf.
    + exists (DSlot i). eexists. split_and!; [done..|]. cbn. rewrite Hi. cbn. by rewrite bool_decide_true, Hf by done.
    + apply busy_host in Hf as (j & x & Hj & Hx). by eapply Hpost.
Qed.

Lemma idle_lease db s id o :
  0 < lease -> DL db s -> dp_phase s = Draining -> dp_running s = [] -> undelivered (dp_db s) !! id = Some o ->
  backlog (drain_step cfg t0 (fun _ => false) false s) < backlog s.
Proof.
  intros Hpos HD Hph Hr Ho. pose proof HD as [[Hp _ _ _] _ _ _ _ Hdue _]. rewrite Hr in Hp. cbn in Hp.
  assert (Hco : cooperates (DLease t0 (fun _ => false) false)) by (cbn; split_and!; [lia..|done|done]).
  destruct (DL_lease db t0 (fun _ => false) s Hpos HD Hph Hco) as (_ & _ & Hlt).
  { eapply (DInv_dstep cfg pick host_of (DLease t0 (fun _ => false) false) s); [apply HD|]. cbn. by rewrite Hph. }
  apply Hlt. eapply lease_takes; [lia|lia|done|exact Ho|]. intros i e He. apply (Hdue i e He).
  unfold held, spawning. rewrite Hr, Hph. apply not_elem_of_nil.
Qed.

Lemma work_goes_on db s id o :
  0 < lease -> DL db s -> undelivered (dp_db s) !! id = Some o ->
  exists es s', (length es <= 2)%nat /\ Forall cooperates es /\ druns es s = Some s' /\ backlog s' < backlog s.
Proof.
  intros Hpos HD Ho.
  assert (Hstep : forall e s', cooperates e -> advances e = true -> dstep e s = Some s' ->
    exists es s', (length es <= 2)%nat /\ Forall cooperates es /\ druns es s = Some s' /\ backlog s' < backlog s).
  { intros e s' Hco Ha H. destruct (DL_dstep db e s s' Hpos HD Hco H) as [_ Hb]. rewrite Ha in Hb.
    exists [e], s'. split_and!; [cbn; lia|by constructor|cbn; by rewrite H|lia]. }
  destruct (dp_running s) as [|r rs] eqn:Hr.
  2:{ destruct (delivery_next db s r 0 HD) as (e & s' & ? & ? & ?); [by rewrite Hr|]. eauto. }
  assert (Hco : cooperates (DLease t0 (fun _ => false) false)) by (cbn; split_and!; [lia..|done|done]).
  destruct (dl_open _ _ HD) as (Hc & Hns & Hnd). destruct (dp_phase s) as [|items| | |] eqn:Hph; try done.
  - exists [DLease t0 (fun _ => false) false]. eexists. split_and!; [cbn; lia|by constructor|cbn; by rewrite Hph|].
    by eapply idle_lease.
  - destruct items as [|it items].
    + eapply (Hstep DSpawn); [done..|]. cbn. by rewrite Hph.
    + pose proof (dl_inv _ _ HD) as [Hp Hf _ Hsp]. specialize (Hsp _ Hph). cbn in Hsp.
      eapply (Hstep DSpawn); [done..|]. cbn. rewrite Hph, (proj2 (Z.ltb_lt 0 (dp_free s))) by lia. reflexivity.
  - destruct (dstep DSelect s) as [s1|] eqn:H1; [|by cbn in H1; rewrite Hph, Hc in H1].
    destruct (DL_dstep db DSelect s s1 Hpos HD I H1) as [HD1 Hb1]. cbn in H1. rewrite Hph, Hc in H1.
    assert (E : dp_phase s1 = Draining /\ dp_running s1 = [] /\ dp_db s1 = dp_db s) by (injection H1 as <-; done).
    destruct E as (E1 & E2 & E3).
    exists [DSelect; DLease t0 (fun _ => false) false]. eexists.
    split_and!; [done|by apply Forall_cons_2; [|apply Forall_cons_2]|cbn; rewrite Hph, Hc; cbn; reflexivity|].
    injection H1 as H1. eapply Z.lt_le_trans; [|cbn [advances] in Hb1; rewrite Z.add_0_r in Hb1; exact Hb1].
    rewrite H1. eapply idle_lease; [done..|by rewrite E3].
Qed.

(** The work left is never negative: what is in hand is undelivered. *)
Lemma backlog_nonneg db s : DL db s -> 0 <= backlog s.
Proof.
  intros HD. assert (Hle : (length (held s) <= size (undelivered (dp_db s)))%nat).
  { rewrite <- (size_list_to_set (C := gset Z) (held s)) by apply HD. rewrite <- size_dom. apply subseteq_size.
    intros id Hid%elem_of_list_to_set. destruct (dl_held _ _ HD id Hid) as (o & Ho & _). apply elem_of_dom. by exists o. }
  unfold held in Hle. rewrite length_app, !length_fmap in Hle. pose proof (progress_bound (dp_running s)).
  unfold backlog. destruct (dp_phase s); lia.
Qed.

Lemma drains db n s :
  0 < lease -> DL db s -> backlog s <= Z.of_nat n ->
  exists es s', (length es <= 2 * n)%nat /\ Forall cooperates es /\ druns es s = Some s' /\ undelivered (dp_db s') = ∅.
Proof.
  intros Hpos. revert s. induction n as [|n IH]; intros s HD Hn.
  all: destruct (decide (undelivered (dp_db s) = ∅)) as [E|E]; [exists [], s; split_and!; [cbn; lia|constructor|done|done]|].
  all: apply map_choose in E as (id & o & Ho); destruct (work_goes_on db s id o Hpos HD Ho) as (es & s1 & Hl & Hco & H1 & Hlt).
  all: destruct (DL_druns db es s s1 Hpos HD Hco H1) as [HD1 _]; pose proof (backlog_nonneg db s1 HD1).
  - lia.
  - destruct (IH s1 HD1 ltac:(lia)) as (es' & s' & Hl' & Hco' & H' & Hu).
    exists (es ++ es'), s'. split_and!; [rewrite length_app; lia|by apply Forall_app| |done].
    clear - H1 H'. revert s H1. induction es as [|e es IH]; intros s H1; cbn in *; [by simplify_eq|].
    apply bind_Some in H1 as (s2 & -> & H1). cbn. by apply IH.
Qed.
End drain.

(** ** Properties *)

(** C26. The outbox drains: when every undelivered event is due and the surroundings cooperate for the
    time of a lease (consumers answer with a success, slots come free, the database answers), then
    under any interleaving of the loop and its tasks the dispatcher's steps are bounded by seven for
    each undelivered event, no event is lost or changed, while one is undelivered a step that does
    some of the remaining work is at most two events away, and from wherever the run stands it can be
    finished, with every event delivered that had not been given up before. *)
Theorem outbox_drains (cfg : WebhookConfig) (pick : Z -> Z -> Z) (host_of : string -> string) (t0 : Z) (db : DB)
    (es : list DEvent) (s : Dispatch) :
  0 <= wc_request_timeout_ms cfg < 2 ^ 62 -> 0 <= wc_connect_timeout_ms cfg < 2 ^ 62 ->
  (forall id o, undelivered db !! id = Some o -> o_next_attempt_at o <= t0) ->
  Forall (cooperates cfg t0) es -> druns cfg pick host_of es (dispatcher_new cfg db) = Some s ->
  let n := (7 * size (undelivered db))%nat in
  (length (List.filter advances es) <= n)%nat
  /\ (forall id, option_Forall2 fate (d_outbox db !! id) (d_outbox (dp_db s) !! id))
  /\ (undelivered (dp_db s) ≠ ∅ -> exists es' s', (length es' <= 2)%nat /\ Forall (cooperates cfg t0) es'
       /\ druns cfg pick host_of es' s = Some s' /\ backlog s' < backlog s)
  /\ exists es' s', (length es' <= 2 * n)%nat /\ Forall (cooperates cfg t0) es'
       /\ druns cfg pick host_of es' s = Some s'
       /\ forall id o, d_outbox db !! id = Some o -> exists o', d_outbox (dp_db s') !! id = Some o'
            /\ same_event o o' /\ o_status o' = match o_status o with ODead => ODead | _ => ODelivered end.
Proof.
  intros Hr Hc Hdue Hco Hrun n. assert (Hpos : 0 < 1000 * lease_ms cfg) by (apply lease_ms_pos; lia).
  pose proof (DL_new cfg t0 db Hdue) as HD0.
  destruct (DL_druns cfg pick host_of t0 db es _ s Hpos HD0 Hco Hrun) as [HD Hb].
  pose proof (backlog_nonneg cfg t0 db s HD) as Hnn. change (backlog (dispatcher_new cfg db))
    with (7 * Z.of_nat (size (undelivered db)) - 0 + 0 - 0) in Hb.
  split_and!; [unfold n; lia|apply HD| |].
  - intros (id & o & Ho)%map_choose. by eapply (work_goes_on cfg pick host_of t0 db).
  - destruct (drains cfg pick host_of t0 db n s Hpos HD) as (es' & s' & Hl & Hco' & H' & Hu); [unfold n; lia|].
    exists es', s'. split_and!; [done..|]. intros id o Ho.
    destruct (DL_druns cfg pick host_of t0 db es' s s' Hpos HD Hco' H') as [HD' _].
    by eapply settled_fate; [apply HD'|..].
Qed.

(** A queue of two events of one watch and one of another, and a dispatcher that has just started. *)
Module Queue.
Definition cfg := mkWebhookConfig "s3cret" 3000 10000 64 8 1000 3600000 86400 5 30000 false [].
Definition event (ev wid seq : Z) : OutboxRec :=
  mkOutbox wid seq PaymentConfirmed "https://shop.example/hook"
    (mkPayload ev PaymentConfirmed 0 seq (mkWatchView wid "base" 8453 "USDC" 0 0 0 0 Active) None)
    OPending 0 5 None None 0 None.
Definition db : DB := set_outbox (fun _ => <[7 := event 7 1 1]> (<[8 := event 8 1 2]> {[9 := event 9 2 1]})) db_empty.
Definition started : list DEvent := [DLease 10 (fun _ => false) false; DSpawn; DSpawn; DSpawn; DBegin 0 0 0 true].
Definition s : Dispatch := default (dispatcher_new cfg db) (druns cfg (fun lo _ => lo) id started (dispatcher_new cfg db)).
End Queue.

Lemma outbox_drains_witness :
  exists es' s', Forall (cooperates Queue.cfg 10) es' /\ druns Queue.cfg (fun lo _ => lo) id es' Queue.s = Some s'
    /\ o_status <$> d_outbox (dp_db s') !! 8 = Some ODelivered.
Proof.
  destruct (outbox_drains Queue.cfg (fun lo _ => lo) id 10 Queue.db Queue.started Queue.s) as (_ & _ & _ & es' & s' & _ & Hco & H & Hd).
  - split; [vm_compute; congruence|vm_compute; reflexivity].
  - split; [vm_compute; congruence|vm_compute; reflexivity].
  - intros i o [H _]%undelivered_Some. cbn in H.
    apply lookup_insert_Some in H as [[_ <-]|[_ H]]; [cbn; lia|].
    apply lookup_insert_Some in H as [[_ <-]|[_ H]]; [cbn; lia|].
    apply lookup_singleton_Some in H as [_ <-]. cbn. lia.
  - repeat apply Forall_cons_2; try exact I; [|constructor]. cbn. split_and!; [lia|vm_compute; reflexivity|done|done].
  - vm_compute. reflexivity.
  - exists es', s'. destruct (Hd 8 (Queue.event 8 1 2) ltac:(reflexivity)) as (o' & Ho & _ & Hst).
    split; [exact Hco|split; [exact H|]]. rewrite Ho. cbn. f_equal. exact Hst.
Defined.
