(* ===== verification/SweeperSpec.v ===== *)
(** * SweeperSpec: what a pass of the sweeper guarantees

    Whatever the node answers and the other instances do: the pass ends, the chunks it commits
    partition the blocks it advances over, each fetched by a request for exactly those blocks, and
    a provider's range limit is learned once. The whole pass is a sequence of actions of the
    system, so every property of the reachable states holds during and after it. *)

From S2P Require Import Prelude Text Config Registry Cache Matcher Events Health Rpc Store Sweep.
From S2P Require Import Runtime Sweeper Outbox TxSpec Ledger LedgerTx SweepSpec System.

(** ** Reading a trace *)

(** The committed chunks. *)
Definition chunks (tr : list Effect) : list (Z * Z) :=
  omap (fun e => match e with Swept a b => Some (a, b) | _ => None end) tr.

(** Each committed chunk with the request answered just before it. *)
Fixpoint fetched (tr : list Effect) : list (Filter * (Z * Z)) :=
  match tr with
  | Asked f (Ok _) :: (Swept a b :: _) as tr' => (f, (a, b)) :: fetched tr'
  | _ :: tr' => fetched tr'
  | [] => []
  end.

(** The ranges the node answered, and what it answered. *)
Definition answers (tr : list Effect) : list ((Z * Z) * list Log) :=
  omap (fun e => match e with Asked f (Ok l) => Some ((f_from_block f, f_to_block f), l) | _ => None end) tr.

Definition rejections (tr : list Effect) : nat :=
  length (List.filter (fun e => match e with Asked _ (Err RangeTooLarge) => true | _ => false end) tr).

(** [cs] cuts the blocks after [from] up to [to] into pieces of at most [n]. *)
Fixpoint contiguous (n from : Z) (cs : list (Z * Z)) (to : Z) : Prop :=
  match cs with
  | [] => from = to
  | (a, b) :: cs => a = from + 1 /\ from < b <= from + n /\ contiguous n b cs to
  end.

Lemma contiguous_le n from cs to : contiguous n from cs to -> from <= to.
Proof. revert from. induction cs as [|[a b] cs IH]; cbn; [lia|]. intros from (_ & ? & H%IH). lia. Qed.

Lemma chunks_app tr tr' : chunks (tr ++ tr') = chunks tr ++ chunks tr'.
Proof. apply omap_app. Qed.

Lemma chunks_wake b : chunks (wake_if b) = [].
Proof. by destruct b. Qed.

(** What one turn of the loop appends, before the turns that follow. *)
Lemma fetched_wake b tr : fetched (wake_if b ++ tr) = fetched tr.
Proof. by destruct b. Qed.

Section chunks.
Variable w : World.
Variable chain : ChainSpec.
Local Abbreviation M := (cc_max_log_range (ch_cfg chain)).
Hypothesis Hmax : 1 <= M < 2 ^ 63.

Definition chunk_filter (ab : Z * Z) : Filter := mkFilter (log_addresses chain) None ab.1 ab.2.

(** How a run that ends with [r] at [reached] looks. *)
Record pass_ok (cursor target : Z) (r : chunks_end) (new : list Effect) (reached : Z) : Prop := {
  po_chunks : contiguous M cursor (chunks new) reached;
  po_fetched : fetched new = (fun ab => (chunk_filter ab, ab)) <$> chunks new;
  po_target : reached <= Z.max cursor target;
  po_end : forall c, r = Reached c -> c = reached
    /\ (c < target -> exists f, last new = Some (Asked f (Err AheadOfHead)));
}.

Lemma asked_trace target cursor st r st1 :
  asked w chain target cursor st = (r, st1) ->
  st_trace st1 = st_trace st ++ [Asked (chunk_filter (u64_add cursor 1, chunk_to cursor target st))
    (match r with Ok l => Ok l | Err e => Err (failure_class e) end)].
Proof. intros H. unfold asked in H. pose proof (get_logs_trace w chain (mkFilter (log_addresses chain) None (u64_add cursor 1) (chunk_to cursor target st)) st) as E. by rewrite H in E. Qed.

(** A failed or rejected request in front changes nothing. *)
Lemma pass_rejected cursor target r new reached f c :
  c ≠ AheadOfHead -> pass_ok cursor target r new reached ->
  pass_ok cursor target r (Asked f (Err c) :: new) reached.
Proof.
  intros Hc [H1 H2 H3 H4]. split; [done..|]. intros c' E. destruct (H4 c' E) as [-> Hl]. split; [done|].
  intros Hlt. destruct (Hl Hlt) as [f' Hf]. exists f'. by destruct new.
Qed.

Lemma pass_single cursor target r f a :
  (forall c, r = Reached c -> c = cursor /\ a = Err AheadOfHead) ->
  pass_ok cursor target r [Asked f a] cursor.
Proof.
  intros H. split; [done|by destruct a|lia|]. intros c E. destruct (H c E) as [-> ->]. split; [done|].
  intros _. by exists f.
Qed.

Lemma pass_chunk cursor target r to logs wk new reached :
  cursor < to <= target -> to - cursor <= M ->
  pass_ok to target r new reached ->
  pass_ok cursor target r
    (Asked (chunk_filter (cursor + 1, to)) (Ok logs) :: Swept (cursor + 1) to :: wake_if wk ++ new) reached.
Proof.
  intros Hb Hm [H1 H2 H3 H4]. split.
  - cbn. rewrite chunks_app, chunks_wake. cbn. split_and!; [done|lia|lia|exact H1].
  - cbn. rewrite fetched_wake, chunks_app, chunks_wake, H2. done.
  - lia.
  - intros c E. destruct (H4 c E) as [-> Hl]. split; [done|]. intros Hlt. destruct (Hl Hlt) as [f Hf].
    exists f. destruct new as [|e new]; [done|]. by destruct wk.
Qed.

(** Nobody else moves this chain's cursor. *)
Definition alone : Prop :=
  forall t p, cursor (wo_others w t p).1 (ch_chain_id chain) = cursor p.1 (ch_chain_id chain).

Lemma await_cursor st :
  alone -> cursor (st_db (await w st)) (ch_chain_id chain) = cursor (st_db st) (ch_chain_id chain).
Proof.
  intros H. unfold await. specialize (H (st_t st) (st_db st, st_rt st)).
  by destruct (wo_others _ _ _) as [db rt].
Qed.

Lemma asked_cursor target cur st r st1 :
  alone -> asked w chain target cur st = (r, st1) ->
  cursor (st_db (await w st1)) (ch_chain_id chain) = cursor (st_db st) (ch_chain_id chain).
Proof.
  intros Hal H. rewrite await_cursor by done. unfold asked, get_logs in H. destruct (wo_logs _ _ _).
  simplify_eq. cbn. by apply await_cursor.
Qed.

Lemma apply_sweep_cursor env d cache c to logs out d' cache' :
  apply_sweep env d chain cache c to logs = (Ok (Applied out), d', cache') -> in_u64 to ->
  cursor d' (ch_chain_id chain) = Ok to.
Proof.
  intros H Hto. apply apply_sweep_Applied in H as (_ & disc & k & H & _).
  apply sweep_account_Ok in H as (so & d1 & k1 & so2 & d2 & k2 & f & _ & _ & ->).
  unfold cursor. cbn. rewrite lookup_insert_eq. by rewrite as_u64_as_i64.
Qed.

Lemma apply_sweep_frozen env d cache c to logs r d' cache' :
  apply_sweep env d chain cache c to logs = (r, d', cache') ->
  (forall out, r ≠ Ok (Applied out)) -> d' = d.
Proof.
  unfold apply_sweep. intros H Hr. destruct (cursor d _); [|by simplify_eq].
  destruct (negb _); [by simplify_eq|]. destruct (load_entries _ _).
  destruct (run_tx _ _ _) as [[out|e] d1] eqn:Hrun; simplify_eq; [by destruct (Hr out)|].
  by apply run_tx_Err in Hrun.
Qed.

Lemma chunks_run_pass target cur st r st' :
  chunks_run w chain target cur st r st' ->
  span_ok chain (st_s st) -> 0 <= cur -> target + M < 2 ^ 64 ->
  span_ok chain (st_s st') /\ exists new reached, st_trace st' = st_trace st ++ new
    /\ pass_ok cur target r new reached
    /\ (alone -> cursor (st_db st) (ch_chain_id chain) = Ok cur ->
        cursor (st_db st') (ch_chain_id chain) = Ok reached /\ r ≠ Yielded).
Proof.
  induction 1 as [cur st Hge|cur st e st1 r st' Hlt Ha Hc Hgt Hrun IH|cur st e st1 Hlt Ha Hc
    |cur st e st1 Hlt Ha Hc|cur st logs st1 e db cache Hlt Ha Hs|cur st logs st1 c c' db cache Hlt Ha Hs
    |cur st logs st1 out db cache r st' Hlt Ha Hs Hrun IH]; intros Hok Hcur Ht;
    try (pose proof (asked_s _ _ _ _ _ _ _ Ha) as Es; pose proof (asked_trace _ _ _ _ _ Ha) as Et;
         pose proof (fun Hal => asked_cursor _ _ _ _ _ Hal Ha) as Ec).
  - split; [done|]. exists [], cur. rewrite app_nil_r. split_and!; [done| |done].
    split; cbn; [done|done|lia|]. intros c [= <-]. split; [done|lia].
  - rewrite Es in Hgt. destruct (shrunk_ok w chain Hmax target cur e st st1 Es Hok ltac:(lia) Ht Hgt) as (Hok' & _ & _).
    destruct (IH Hok' Hcur Ht) as (Hok2 & new & reached & E & Hp & Hd). split; [done|].
    eexists _, reached. split; [rewrite E; cbn; rewrite Et, <- app_assoc; reflexivity|]. split.
    + apply pass_rejected; [by rewrite Hc|done].
    + intros Hal Hdb. apply Hd; [done|]. cbn. rewrite <- (await_cursor st1 Hal), (Ec Hal). done.
  - split; [by rewrite Es|]. eexists _, cur. split; [exact Et|]. split.
    + apply pass_single. rewrite Hc. intros c [= <-]. done.
    + intros Hal Hdb. rewrite <- (await_cursor st1 Hal), (Ec Hal). done.
  - split; [by rewrite Es|]. eexists _, cur. split; [exact Et|]. split; [by apply pass_single|].
    intros Hal Hdb. rewrite <- (await_cursor st1 Hal), (Ec Hal). done.
  - split; [cbn; by rewrite await_s, Es|]. eexists _, cur.
    split; [cbn; rewrite await_trace; exact Et|]. split; [by apply pass_single|].
    intros Hal Hdb. apply apply_sweep_frozen in Hs as ->; [|done]. cbn. by rewrite (Ec Hal).
  - split; [cbn; by rewrite await_s, Es|]. eexists _, cur.
    split; [cbn; rewrite await_trace; exact Et|]. split; [by apply pass_single|].
    intros Hal Hdb. unfold apply_sweep in Hs. rewrite (Ec Hal), Hdb, Z.eqb_refl in Hs. cbn [negb] in Hs.
    destruct (load_entries _ _). by destruct (run_tx _ _ _) as [[]].
  - destruct (chunk_to_bounds chain Hmax cur target st Hok ltac:(lia) Ht) as (E1 & Hb & Hsp & _).
    destruct IH as (Hok2 & new & reached & E & Hp & Hd); [|lia|done|].
    { apply applied_ok; [done|]. by rewrite await_s, Es. }
    split; [done|]. eexists _, reached. split_and!.
    + rewrite E. cbn. rewrite await_trace, Et, E1, <- !app_assoc. reflexivity.
    + cbn. apply pass_chunk; [done| |done]. destruct Hok as [Hr Hcl]. lia.
    + intros Hal Hdb. apply Hd; [done|]. cbn. eapply apply_sweep_cursor; [done|]. unfold in_u64. lia.
Qed.
(** ** A provider with a range limit *)

(** The provider refuses a range as too large only above [n] blocks, and names [n] when it does. *)
Record limited (n : Z) : Prop := {
  li_pos : 1 <= n;
  li_named : forall t f e, in_u64 (f_from_block f) -> in_u64 (f_to_block f) ->
    (wo_logs w t f).1 = Err e -> failure_class e = RangeTooLarge ->
    n < f_to_block f - f_from_block f + 1 /\ range_limit_hint (wo_display w e) = Some n;
}.

Definition within_hour (s : Sweeper) : Prop :=
  forall t, wo_now w t - s_ceiling_set_at s <= 3600 * 10 ^ 9.

Lemma grow_within now s :
  now - s_ceiling_set_at s <= 3600 * 10 ^ 9 ->
  s_ceiling (grow_range M now s) = s_ceiling s /\ s_ceiling_set_at (grow_range M now s) = s_ceiling_set_at s.
Proof.
  intros H. unfold grow_range. cbn. destruct (s_ceiling s <? M); cbn [andb]; [|done].
  destruct (Z.ltb_spec (3600 * 10 ^ 9) (now - s_ceiling_set_at s)); [lia|done].
Qed.

Lemma asked_reply target cur st r st1 :
  asked w chain target cur st = (r, st1) ->
  (wo_logs w (S (st_t st)) (chunk_filter (u64_add cur 1, chunk_to cur target st))).1 = r.
Proof.
  unfold asked, get_logs. rewrite await_t. unfold chunk_filter. cbn [fst snd].
  by destruct (wo_logs _ _ _) as [r' ops]; intros [= -> _].
Qed.

(** A refused request leaves the span at the limit. *)
Lemma shrunk_limit n target cur e st st1 :
  limited n -> span_ok chain (st_s st) -> 0 <= cur < target -> target + M < 2 ^ 64 ->
  asked w chain target cur st = (Err e, st1) -> failure_class e = RangeTooLarge ->
  n < s_ceiling (st_s st) /\ s_ceiling (st_s (shrunk w target cur e st st1)) = n
  /\ s_ceiling_set_at (st_s (shrunk w target cur e st st1)) = wo_now w (st_t st1).
Proof.
  intros [Hn Hnamed] Hok Hct Ht Ha Hc. pose proof (asked_reply _ _ _ _ _ Ha) as Hr.
  destruct (chunk_to_bounds chain Hmax cur target st Hok Hct Ht) as (E1 & Hb & Hsp & _).
  rewrite E1 in Hr. destruct (Hnamed (S (st_t st)) (chunk_filter (cur + 1, chunk_to cur target st)) e) as [Hbig Hh];
    [unfold in_u64; cbn; lia..|done|done|]. cbn in Hbig.
  destruct Hok as [[Hr1 Hr2] Hcl]. split; [lia|].
  unfold shrunk, shrink_range. cbn. rewrite E1, Hh.
  assert (E : u64_add (u64_sub (chunk_to cur target st) (cur + 1)) 1 = chunk_to cur target st - cur) by int_lia.
  rewrite E. destruct (Z.ltb_spec n (chunk_to cur target st - cur)); [|lia]. split; [lia|done].
Qed.

Lemma rejections_app tr tr' : rejections (tr ++ tr') = (rejections tr + rejections tr')%nat.
Proof. unfold rejections. rewrite List.filter_app, length_app. done. Qed.

Lemma rejections_wake b : rejections (wake_if b) = 0%nat.
Proof. by destruct b. Qed.

Lemma rejections_chunk f l a b wk new :
  rejections ([Asked f (Ok l)] ++ (Swept a b :: wake_if wk) ++ new) = rejections new.
Proof. rewrite rejections_app. cbn. change (rejections (wake_if wk ++ new) = rejections new). by rewrite rejections_app, rejections_wake. Qed.

Lemma rejections_asked f e :
  e ≠ RangeTooLarge -> rejections [Asked f (Err e)] = 0%nat.
Proof. by destruct e. Qed.

Lemma chunks_run_limit n target cur st r st' :
  chunks_run w chain target cur st r st' -> limited n -> (forall t t', wo_now w t' - wo_now w t <= 3600 * 10 ^ 9) ->
  span_ok chain (st_s st) -> 0 <= cur -> target + M < 2 ^ 64 -> within_hour (st_s st) ->
  exists new, st_trace st' = st_trace st ++ new
    /\ (rejections new <= if decide (s_ceiling (st_s st) <= n)%Z then 0 else 1)%nat.
Proof.
  intros Hrun Hn Hclock. induction Hrun as [cur st Hge|cur st e st1 r st' Hlt Ha Hc Hgt Hrun IH|cur st e st1 Hlt Ha Hc
    |cur st e st1 Hlt Ha Hc|cur st logs st1 e db cache Hlt Ha Hs|cur st logs st1 c c' db cache Hlt Ha Hs
    |cur st logs st1 out db cache r st' Hlt Ha Hs Hrun IH]; intros Hok Hcur Ht Hh;
    try (pose proof (asked_s _ _ _ _ _ _ _ Ha) as Es; pose proof (asked_trace _ _ _ _ _ Ha) as Et).
  - exists []. rewrite app_nil_r. split; [done|]. cbn. lia.
  - rewrite Es in Hgt. destruct (shrunk_ok w chain Hmax target cur e st st1 Es Hok ltac:(lia) Ht Hgt) as (Hok' & _ & _).
    destruct (shrunk_limit n target cur e st st1 Hn Hok ltac:(lia) Ht Ha Hc) as (Hbig & El & Ew).
    destruct (IH Hok' Hcur Ht) as (new & E & Hrej). { intros t. rewrite Ew. apply Hclock. }
    eexists. split; [rewrite E; cbn; rewrite Et, <- app_assoc; reflexivity|].
    rewrite rejections_app, Hc. destruct (decide (s_ceiling (st_s st) <= n)); [lia|].
    rewrite El in Hrej. destruct (decide (n <= n)); [|lia]. cbn. lia.
  - eexists. split; [exact Et|]. cbv beta iota. rewrite Hc. cbn. lia.
  - eexists. split; [exact Et|]. destruct (decide (failure_class e = RangeTooLarge)) as [Hc'|Hc'].
    + destruct (shrunk_limit n target cur e st st1 Hn Hok ltac:(lia) Ht Ha Hc') as (Hbig & _).
      rewrite Hc'. destruct (decide _); [lia|]. cbn. lia.
    + rewrite rejections_asked by done. lia.
  - eexists. split; [cbn; rewrite await_trace; exact Et|]. cbn. lia.
  - eexists. split; [cbn; rewrite await_trace; exact Et|]. cbn. lia.
  - destruct (chunk_to_bounds chain Hmax cur target st Hok ltac:(lia) Ht) as (E1 & Hb & Hsp & _).
    destruct (grow_within (now_of w (await w st1)) (st_s st)) as [G1 G2]; [apply Hh|].
    destruct IH as (new & E & Hrej); [|lia|done| |].
    { apply applied_ok; [done|]. by rewrite await_s, Es. }
    { intros t. rewrite applied_s, await_s, Es, G2. apply Hh. }
    eexists. split.
    + rewrite E. cbn. rewrite await_trace, Et, <- !app_assoc. reflexivity.
    + rewrite applied_s, await_s, Es, G1 in Hrej. by rewrite rejections_chunk.
Qed.
End chunks.

(** ** A pass is a sequence of actions *)

Section refine.
Variable hist : TransferKey -> option (Z * Z * Z * Z).
Variable chains : list ChainSpec.
Hypothesis Hspecs : Forall SpecOk chains.
Variables (inst j : nat) (chain : ChainSpec) (w : World).
Hypothesis Hchain : chains !! j = Some chain.

(** The node returns logs of the chain's history. *)
Definition honest_node : Prop := forall t f logs, (wo_logs w t f).1 = Ok logs ->
  Forall (fun l => l_removed l = false -> log_ok hist chain l) logs.

(** What happens meanwhile are actions of the system. *)
Definition others_act : Prop := forall t s rt, reachable hist chains s -> sy_rt s !! (inst, j) = Some rt ->
  exists s', rtc (action hist chains) s s' /\ sy_db s' = (wo_others w t (sy_db s, rt)).1
    /\ sy_rt s' !! (inst, j) = Some (wo_others w t (sy_db s, rt)).2.

Hypothesis Hlogs : honest_node.
Hypothesis Hothers : others_act.

(** The sweeper of instance [inst] is in state [st] in the system state [s]. *)
Record in_sys (s : Sys) (st : St) : Prop := {
  is_reach : reachable hist chains s;
  is_db : sy_db s = st_db st;
  is_rt : sy_rt s !! (inst, j) = Some (st_rt st);
}.

Definition moves (st st' : St) : Prop :=
  forall s, in_sys s st -> exists s', rtc (action hist chains) s s' /\ in_sys s' st'.

#[local] Instance moves_preorder : PreOrder moves.
Proof.
  split; [intros st s Hs; by exists s|]. intros st1 st2 st3 H1 H2 s Hs.
  destruct (H1 s Hs) as (s2 & Hr2 & Hs2). destruct (H2 s2 Hs2) as (s3 & Hr3 & Hs3).
  exists s3. split; [by etrans|done].
Qed.

Lemma moves_one st st' :
  (forall rts seen, rts !! (inst, j) = Some (st_rt st) -> exists rts' seen', rts' !! (inst, j) = Some (st_rt st')
     /\ action hist chains (mkSys (st_db st) rts seen) (mkSys (st_db st') rts' seen')) ->
  moves st st'.
Proof.
  intros H [d rts seen] [Hr Hd Hrt]. cbn in *. subst d. destruct (H rts seen Hrt) as (rts' & seen' & Hrt' & Ha).
  exists (mkSys (st_db st') rts' seen'). split; [by apply rtc_once|]. split; [|done..].
  unfold reachable in *. by eapply rtc_r.
Qed.

Lemma moves_same st st' : st_db st' = st_db st -> st_rt st' = st_rt st -> moves st st'.
Proof. intros E1 E2 s [? ? ?]. exists s. split; [done|]. split; [done|congruence..]. Qed.

Lemma moves_emit es st : moves st (emit es st).
Proof. by apply moves_same. Qed.
Lemma moves_s f st : moves st (set_s f st).
Proof. by apply moves_same. Qed.

Lemma moves_rt st f : (forall rt, rt_cache (f rt) = rt_cache rt) -> moves st (set_rt f st).
Proof.
  intros Hf. apply moves_one. intros rts seen Hrt. eexists _, seen. split; [apply lookup_insert_eq|].
  eapply a_runtime; [exact Hrt|apply Hf].
Qed.

Lemma moves_await st : moves st (await w st).
Proof.
  intros s [Hr Hd Hrt]. destruct (Hothers (st_t st) s (st_rt st) Hr Hrt) as (s' & Ha & Hd' & Hrt').
  exists s'. split; [done|]. unfold await. rewrite Hd in Hd', Hrt'. destruct (wo_others _ _ _) as [db rt].
  split; [|done..]. unfold reachable in *. by etrans.
Qed.

Lemma moves_get_logs f st : moves st (get_logs w chain f st).2.
Proof.
  unfold get_logs. destruct (wo_logs _ _ _) as [r ops]. cbn [snd].
  etrans; [apply moves_await|]. etrans; [|apply moves_emit]. by apply moves_rt.
Qed.

Lemma get_logs_honest f st logs st' :
  get_logs w chain f st = (Ok logs, st') -> Forall (fun l => l_removed l = false -> log_ok hist chain l) logs.
Proof.
  unfold get_logs. destruct (wo_logs w _ f) as [r ops] eqn:E. intros [= -> _].
  apply (Hlogs (st_t (await w st)) f). by rewrite E.
Qed.

Lemma moves_expire st : moves st (expire w chain st).
Proof.
  unfold expire. etrans; [apply moves_await|].
  destruct (expire_watches _ _ _ _) as [r db] eqn:He.
  assert (H1 : moves (await w st) (set_db db (await w st))).
  { apply moves_one. intros rts seen Hrt. exists rts, seen. split; [done|]. by eapply a_expire. }
  etrans; [exact H1|]. destruct r as [[|row rows]|]; [done| |done].
  etrans; [|apply moves_emit]. generalize (row :: rows). clear. intros expired.
  generalize (set_db db (await w st)). induction expired as [|row expired IH]; intros st0; [by apply moves_same|].
  cbn [foldl]. destruct (cache_entry row chain) as [[key ref]|]; [|apply IH].
  etrans; [|apply (IH (set_rt (fun rt => remove_watch rt key (w_id row)) st0))].
  apply moves_one. intros rts seen Hrt. eexists _, seen. split; [apply lookup_insert_eq|]. by eapply a_remove.
Qed.

Lemma moves_applied cur to out env logs db cache st :
  apply_sweep env (st_db st) chain (rt_cache (st_rt st)) cur to logs = (out, db, cache) ->
  Forall (fun l => l_removed l = false -> log_ok hist chain l) logs ->
  moves st (set_rt (with_cache cache) (set_db db st)).
Proof.
  intros H Hl. apply moves_one. intros rts seen Hrt. eexists _, seen. split; [apply lookup_insert_eq|].
  by eapply a_sweep.
Qed.

Lemma moves_asked target cur st r st1 : asked w chain target cur st = (r, st1) -> moves st st1.
Proof. intros H. unfold asked in H. pose proof (moves_get_logs (mkFilter (log_addresses chain) None (u64_add cur 1) (chunk_to cur target st)) st) as Hm. by rewrite H in Hm. Qed.

Lemma moves_chunks target cur st r st' : chunks_run w chain target cur st r st' -> moves st st'.
Proof.
  induction 1 as [cur st Hge|cur st e st1 r st' Hlt Ha Hc Hgt Hrun IH|cur st e st1 Hlt Ha Hc
    |cur st e st1 Hlt Ha Hc|cur st logs st1 e db cache Hlt Ha Hs|cur st logs st1 c c' db cache Hlt Ha Hs
    |cur st logs st1 out db cache r st' Hlt Ha Hs Hrun IH]; [done|..];
    (etrans; [exact (moves_asked _ _ _ _ _ Ha)|]; try done).
  - etrans; [|exact IH]. apply moves_s.
  - etrans; [apply moves_await|]. eapply moves_applied; [done|]. by eapply get_logs_honest.
  - etrans; [apply moves_await|]. eapply moves_applied; [done|]. by eapply get_logs_honest.
  - etrans; [apply moves_await|]. etrans; [eapply moves_applied; [done|by eapply get_logs_honest]|].
    etrans; [|exact IH]. unfold applied. etrans; [|apply moves_s]. etrans; [|apply moves_emit].
    by apply moves_rt.
Qed.

Lemma moves_backfill_fetch fuel tokens recipients at_ to logs st r st' :
  backfill_fetch w chain fuel tokens recipients at_ to logs st = Some (r, st') ->
  Forall (fun l => l_removed l = false -> log_ok hist chain l) logs ->
  moves st st' /\ forall ls, r = Ok ls -> Forall (fun l => l_removed l = false -> log_ok hist chain l) ls.
Proof.
  revert at_ logs st. induction fuel as [|fuel IH]; intros at_ logs st H Hl; [done|]. cbn [backfill_fetch] in H.
  destruct (negb _). { simplify_eq. split; [done|]. by intros ls [= <-]. }
  cbv zeta in H. set (f := mkFilter _ _ _ _) in H. pose proof (moves_get_logs f st) as Hm.
  pose proof (get_logs_honest f st) as Hh.
  destruct (get_logs w chain f st) as [[found|e] st1]; cbn [snd] in Hm.
  - apply IH in H as [H1 H2]; [|apply Forall_app; split; [done|by eapply Hh]]. split; [by etrans|done].
  - destruct (_ && _).
    + apply IH in H as [H1 H2]; [|done]. split; [|done]. etrans; [exact Hm|]. etrans; [apply moves_s|exact H1].
    + by simplify_eq.
Qed.

Lemma actions_grow s s' :
  reachable hist chains s -> rtc (action hist chains) s s' -> targets_grow (sy_db s) (sy_db s').
Proof.
  intros Hr%(reachable_SysInv hist chains Hspecs) Ha. induction Ha as [|s1 s2 s3 Ha _ IH]; [done|].
  etrans; [|apply IH; by eapply SysInv_action]. eapply steps_targets, action_steps; eauto.
Qed.

Lemma backfill_ok_grow d d' b : targets_grow d d' -> backfill_ok chain d b -> backfill_ok chain d' b.
Proof. intros Hg (v & Hv & E). destruct (Hg _ _ Hv) as (v' & Hv' & E'). exists v'. split; [done|congruence]. Qed.

(** The batch is read before the fetch and applied after it. *)
Lemma moves_batch limit st st2 env logs r db cache :
  let batch := pending_backfills (st_db st) (ch_chain_id chain) limit in
  moves st st2 -> Forall (fun l => l_removed l = false -> log_ok hist chain l) logs ->
  apply_backfill env (st_db st2) chain (rt_cache (st_rt st2)) batch logs = (r, db, cache) ->
  moves st (set_rt (with_cache cache) (set_db db st2)).
Proof.
  intros batch Hm Hl H s Hs. destruct (Hm s Hs) as ([d rts seen] & Ha & [Hr2 Hd2 Hrt2]). cbn in Hd2, Hrt2. subst d.
  assert (Hb : Forall (backfill_ok chain (st_db st2)) batch).
  { destruct Hs as [Hr Hd _]. eapply Forall_impl; [apply pending_backfills_ok|].
    - rewrite <- Hd. eapply ids_ok_of_inv, si_db, reachable_SysInv; eauto.
    - intros b. apply backfill_ok_grow. rewrite <- Hd. by apply (actions_grow s (mkSys (st_db st2) rts seen)). }
  assert (Hstep : action hist chains (mkSys (st_db st2) rts seen)
                    (mkSys db (<[(inst, j) := with_cache cache (st_rt st2)]> rts) seen)) by (by eapply a_backfill).
  eexists. split; [by eapply rtc_r|]. split; [|done|apply lookup_insert_eq].
  unfold reachable in *. by eapply rtc_r.
Qed.

Lemma moves_backfill fuel st r st' : backfill w chain fuel st = Some (r, st') -> moves st st'.
Proof.
  revert st. induction fuel as [|fuel IH]; intros st H; [done|]. cbn [backfill] in H. cbv zeta in H.
  etrans; [apply moves_await|]. revert H. generalize (await w st). clear st. intros st H.
  destruct (list_min _) as [from|]; [|by simplify_eq]. destruct (list_max _) as [to|]; [|by simplify_eq].
  destruct (backfill_fetch _ _ _ _ _ _ _ _ _) as [[fr st1]|] eqn:Hf; [|done]. cbn [mbind option_bind] in H.
  apply moves_backfill_fetch in Hf as [Hm Hl]; [|constructor]. destruct fr as [logs|e]; [|by simplify_eq].
  assert (Hm1 : moves st (await w st1)) by (etrans; [exact Hm|apply moves_await]).
  destruct (apply_backfill _ _ _ _ _ _) as [[[out|e] db] cache] eqn:Hb.
  - pose proof (moves_batch _ _ _ _ _ _ _ _ Hm1 (Hl _ eq_refl) Hb) as Hm2.
    etrans; [exact Hm2|]. revert H. generalize (set_rt (with_cache cache) (set_db db (await w st1))). intros st2 H.
    assert (Hn : moves st2 (emit (Backfilled (b_id <$> pending_backfills (st_db st) (ch_chain_id chain) BACKFILL_BATCH)
      :: wake_if (0 <? out_events out)) (set_rt (fun rt => note_cache_changed rt [] (length (out_completed out))) st2))).
    { etrans; [|apply moves_emit]. by apply moves_rt. }
    destruct (_ <? BACKFILL_BATCH); [by simplify_eq|]. etrans; [exact Hn|]. by apply IH.
  - simplify_eq. by apply (moves_batch _ _ _ _ _ _ _ _ Hm1 (Hl _ eq_refl) Hb).
Qed.

Lemma moves_sweep fuel st r st' : sweep w chain fuel st = Some (r, st') -> moves st st'.
Proof.
  unfold sweep. intros H. cbv zeta in H. etrans; [apply moves_expire|].
  etrans; [apply (moves_s (with_head_probe (now_of w (expire w chain st))))|]. etrans; [apply moves_await|].
  revert H. generalize (await w (set_s (with_head_probe (now_of w (expire w chain st))) (expire w chain st))).
  clear st. intros st H.
  destruct (block_number _ _) as [head ops]. etrans; [apply (moves_rt st (note_health chain ops)); done|].
  revert H. generalize (set_rt (note_health chain ops) st). clear st. intros st H.
  destruct head as [head|e]; [|by simplify_eq]. etrans; [apply moves_await|].
  revert H. generalize (await w st). clear st. intros st H.
  destruct (fast_forward_cursor _ _ _) as [c db] eqn:Hff.
  assert (H1 : moves st (set_db db st)).
  { apply moves_one. intros rts seen Hrt. exists rts, seen. split; [done|]. by eapply a_fast_forward. }
  etrans; [exact H1|]. destruct c as [c|e]; [|by simplify_eq].
  destruct (sweep_chunks _ _ _ _ _ _) as [[e st1]|] eqn:Hc; [|done]. cbn [mbind option_bind] in H.
  apply sweep_chunks_run, moves_chunks in Hc. etrans; [exact Hc|]. destruct e as [c'| |e]; [|by simplify_eq..].
  destruct (backfill _ _ _ _) as [[rb st2]|] eqn:Hb; [|done]. cbn [mbind option_bind] in H.
  apply moves_backfill in Hb. etrans; [apply (moves_s (with_pending_blocks (filter (fun b => c' < b))))|].
  etrans; [exact Hb|]. destruct rb; by simplify_eq.
Qed.
End refine.

(** ** The backfill's fetch *)

Section backfill_fetch.
Variable w : World.
Variable chain : ChainSpec.
Local Abbreviation M := (cc_max_log_range (ch_cfg chain)).
Hypothesis Hmax : 1 <= M < 2 ^ 63.
Variables (tokens recipients : list Z) (to : Z).
Hypothesis Hto : to + M < 2 ^ 64.

Lemma answers_app tr tr' : answers (tr ++ tr') = answers tr ++ answers tr'.
Proof. apply omap_app. Qed.

Lemma fetch_end_bounds at_ st :
  span_ok chain (st_s st) -> 0 < at_ <= to ->
  let end_ := Z.min (u64_sub (u64_add at_ (s_range (st_s st))) 1) to in
  at_ <= end_ <= to /\ end_ - at_ + 1 <= s_range (st_s st) /\ u64_add end_ 1 = end_ + 1.
Proof.
  intros [Hr Hc] Ha. cbv zeta.
  assert (E : u64_sub (u64_add at_ (s_range (st_s st))) 1 = at_ + s_range (st_s st) - 1) by int_lia.
  rewrite E. split_and!; [lia..|]. apply u64_add_id. unfold in_u64. lia.
Qed.

(** Total, and complete when it succeeds. *)
Definition fetch_ok (at_ : Z) (logs : list Log) (st : St) (res : result IngestError (list Log) * St) : Prop :=
  span_ok chain (st_s res.2) /\ exists new, st_trace res.2 = st_trace st ++ new
    /\ forall ls, res.1 = Ok ls -> contiguous M (at_ - 1) (answers new).*1 (Z.max (at_ - 1) to)
                               /\ ls = logs ++ concat (answers new).*2.

Lemma backfill_fetch_ok fuel at_ logs st :
  span_ok chain (st_s st) -> 0 < at_ ->
  Z.max 0 (to + 1 - at_) * M + s_range (st_s st) < Z.of_nat fuel ->
  exists res, backfill_fetch w chain fuel tokens recipients at_ to logs st = Some res
    /\ fetch_ok at_ logs st res.
Proof.
  revert at_ logs st. induction fuel as [|fuel IH]; intros at_ logs st Hok Hat Hf; [destruct Hok; nia|].
  cbn [backfill_fetch]. destruct (Z.leb_spec at_ to) as [Hle|Hgt]; cbn [negb].
  2:{ eexists. split; [done|]. split; [done|]. exists []. rewrite app_nil_r. split; [done|].
      intros ls [= <-]. cbn. rewrite app_nil_r. split; [lia|done]. }
  cbv zeta. destruct (fetch_end_bounds at_ st Hok ltac:(lia)) as (Hb & Hsp & E1).
  set (end_ := Z.min _ to) in *. set (f := mkFilter _ _ _ _).
  pose proof (get_logs_s w chain f st) as Es. pose proof (get_logs_trace w chain f st) as Et.
  destruct (get_logs w chain f st) as [[found|e] st1]; cbn [fst snd] in Es, Et.
  - destruct (IH (u64_add end_ 1) (logs ++ found) st1) as (res & Hres & Hok' & new & Enew & Hls);
      [by rewrite Es|lia|rewrite Es, E1; destruct Hok; nia|].
    exists res. split; [done|]. split; [done|]. eexists. split; [rewrite Enew, Et, <- app_assoc; reflexivity|].
    intros ls Hr. destruct (Hls ls Hr) as [Hc ->]. rewrite answers_app, E1 in *. cbn.
    replace (end_ + 1 - 1) with end_ in Hc by lia. replace (Z.max end_ to) with (Z.max (at_ - 1) to) in Hc by lia.
    split; [|by rewrite <- app_assoc]. destruct Hok. split_and!; [lia|lia|lia|exact Hc].
  - destruct (_ && _) eqn:Hr.
    + apply andb_prop in Hr as [_ Hgt%Z.ltb_lt]. rewrite Es in Hgt.
      destruct (shrink_ok chain Hmax (now_of w st1) at_ end_ (wo_display w e) (st_s st) Hok) as (Hok' & Hlt & _);
        [lia..|].
      destruct (IH at_ logs (set_s (shrink_range (now_of w st1) at_ end_ (wo_display w e)) st1))
        as (res & Hres & Hok2 & new & Enew & Hls); [by rewrite <- Es in Hok'|done| |].
      { change (st_s (set_s ?g st1)) with (g (st_s st1)). rewrite Es. lia. }
      exists res. split; [done|]. split; [done|]. eexists.
      split; [rewrite Enew; cbn; rewrite Et, <- app_assoc; reflexivity|]. exact Hls.
    + eexists. split; [done|]. split; [cbn; by rewrite Es|]. eexists. split; [exact Et|]. done.
Qed.
End backfill_fetch.

(** ** Properties *)

(** C13. A pass over a chain ends and skips nothing: whatever the node answers and the other
    instances commit, with enough fuel the chunk loop returns; the chunks it committed cut the
    blocks between the cursor it started from and the block it reached into consecutive pieces of
    at most [max_log_range] blocks, each fetched by the request just before it, for exactly those
    blocks and all the chain's emitters; it stops short of the target only when it fails, finds
    the cursor moved, or the node says it is behind; and if nobody else moves the cursor it is
    never found moved and the stored cursor ends at the block reached. *)
Theorem sweep_chunks_cover (w : World) (chain : ChainSpec) (fuel : nat) (target cur : Z) (st : St) :
  let max := cc_max_log_range (ch_cfg chain) in
  1 <= max < 2 ^ 63 -> span_ok chain (st_s st) -> 0 <= cur -> target + max < 2 ^ 64 ->
  Z.max 0 (target - cur) * max + s_range (st_s st) < Z.of_nat fuel ->
  exists r st' new reached, sweep_chunks w chain fuel target cur st = Some (r, st')
    /\ st_trace st' = st_trace st ++ new /\ span_ok chain (st_s st')
    /\ pass_ok chain cur target r new reached
    /\ (alone w chain -> cursor (st_db st) (ch_chain_id chain) = Ok cur ->
        cursor (st_db st') (ch_chain_id chain) = Ok reached /\ r ≠ Yielded).
Proof.
  intros max Hmax Hok Hcur Ht Hf. destruct (chunks_total w chain Hmax fuel target cur st Hok Hcur Ht Hf) as [[r st'] Hs].
  pose proof (sweep_chunks_run _ _ _ _ _ _ _ _ Hs) as Hrun.
  destruct (chunks_run_pass w chain Hmax _ _ _ _ _ Hrun Hok Hcur Ht) as (Hok' & new & reached & E & Hp & Hd).
  by exists r, st', new, reached.
Qed.

(** A provider's limit costs one rejected request: against a node that refuses only ranges
    above [n] blocks and names [n] when it does, a pass that takes less than an hour is
    refused at most once, and not at all if the span is already within the limit. *)
Theorem provider_limit_learned (w : World) (chain : ChainSpec) (n : Z) (fuel : nat) (target cur : Z) (st st' : St)
    (r : chunks_end) :
  let max := cc_max_log_range (ch_cfg chain) in
  1 <= max < 2 ^ 63 -> span_ok chain (st_s st) -> 0 <= cur -> target + max < 2 ^ 64 ->
  limited w n -> (forall t t', wo_now w t' - wo_now w t <= 3600 * 10 ^ 9) -> within_hour w (st_s st) ->
  sweep_chunks w chain fuel target cur st = Some (r, st') ->
  exists new, st_trace st' = st_trace st ++ new
    /\ (rejections new <= if decide (s_ceiling (st_s st) <= n)%Z then 0 else 1)%nat.
Proof.
  intros max Hmax Hok Hcur Ht Hn Hclock Hh Hs. apply sweep_chunks_run in Hs.
  by eapply (chunks_run_limit w chain Hmax n).
Qed.

(** C12. The sweeper keeps to the protocol: a whole pass — expiry, fast-forward, chunks, backfill,
    in any order of replies and errors and with other instances acting at every await — takes the
    system from a reachable state to a reachable state by its actions, so the invariants of the
    ledger hold throughout. *)
Theorem sweep_is_actions (hist : TransferKey -> option (Z * Z * Z * Z)) (chains : list ChainSpec) (inst j : nat)
    (chain : ChainSpec) (w : World) (fuel : nat) (s : Sys) (st st' : St) (r : result IngestError (option Z)) :
  Forall SpecOk chains -> chains !! j = Some chain -> honest_node hist chain w ->
  others_act hist chains inst j w ->
  in_sys hist chains inst j s st -> sweep w chain fuel st = Some (r, st') ->
  exists s', rtc (action hist chains) s s' /\ in_sys hist chains inst j s' st'.
Proof.
  intros Hspecs Hch Hlogs Hothers Hs H. by apply (moves_sweep hist chains Hspecs inst j chain w Hch Hlogs Hothers fuel st r st').
Qed.

(** The backfill reads every block it must: with enough fuel the fetch returns, and when it
    succeeds the ranges the node answered cut the blocks from [at_] to [to] into consecutive
    pieces, and the logs are those answers in order. *)
Theorem backfill_fetch_complete (w : World) (chain : ChainSpec) (tokens recipients : list Z) (fuel : nat)
    (at_ to : Z) (st : St) :
  let max := cc_max_log_range (ch_cfg chain) in
  1 <= max < 2 ^ 63 -> span_ok chain (st_s st) -> 0 < at_ <= to -> to + max < 2 ^ 64 ->
  (to + 1 - at_) * max + s_range (st_s st) < Z.of_nat fuel ->
  exists r st' new, backfill_fetch w chain fuel tokens recipients at_ to [] st = Some (r, st')
    /\ st_trace st' = st_trace st ++ new /\ span_ok chain (st_s st')
    /\ forall logs, r = Ok logs ->
         contiguous max (at_ - 1) (answers new).*1 to /\ logs = concat (answers new).*2.
Proof.
  intros max Hmax Hok Hat Ht Hf.
  destruct (backfill_fetch_ok w chain Hmax tokens recipients to Ht fuel at_ [] st Hok ltac:(lia) ltac:(lia))
    as ([r st'] & Hs & Hok' & new & E & Hl).
  exists r, st', new. split_and!; [done..|]. intros logs ->. destruct (Hl logs eq_refl) as [Hc ->].
  replace (Z.max (at_ - 1) to) with to in Hc by lia. done.
Qed.
