(* ===== verification/Proxy.v ===== *)
(** * Proxy: [src/testkit/proxy.rs]

    The fault injection the end-to-end tests put between the indexer and the node: [RpcProxy], which
    answers JSON-RPC errors, emulates a provider's range limit and counts calls, and [TcpProxy],
    which severs connections. The request is the JSON value the body parses to; what the node
    behind the proxy answers is the parameter [upstream]. *)

From S2P Require Import Prelude Text Json Registry Config Matcher Health Rpc Sweeper SweeperSpec.
From Stdlib Require Import Ascii.

(** ** JSON requests *)

(** [Value::pointer("/params/0")]: the token [0] indexes an array or names a field. *)
Definition pointer_params_0 (v : Value) : option Value :=
  params ← value_get "params" v;
  match params with
  | Array l => l !! 0%nat
  | _ => value_get "0" params
  end.

(** ** Hexadecimal quantities *)

Definition hex_digit (c : ascii) : option Z :=
  let n := nat_of_ascii c in
  if (48 <=? n)%nat && (n <=? 57)%nat then Some (Z.of_nat n - 48)
  else if (97 <=? n)%nat && (n <=? 102)%nat then Some (Z.of_nat n - 87)
  else if (65 <=? n)%nat && (n <=? 70)%nat then Some (Z.of_nat n - 55)
  else None.

Fixpoint hex_value (acc : Z) (s : string) : option Z :=
  match s with
  | EmptyString => Some acc
  | String c s => d ← hex_digit c; hex_value (acc * 16 + d) s
  end.

(** [u64::from_str_radix(s, 16).ok()] *)
Definition from_str_radix_16 (s : string) : option Z :=
  let digits s := match s with
                  | EmptyString => None
                  | _ => v ← hex_value 0 s; if v <=? u64_max then Some v else None
                  end in
  match s with String "+" s => digits s | _ => digits s end.

(** [{:x}] of a [u64]. *)
Definition hex_char (d : Z) : ascii := ascii_of_nat (Z.to_nat (if d <? 10 then 48 + d else 87 + d)).
Fixpoint show_hex_digits (fuel : nat) (n : Z) : string :=
  match fuel with
  | O => EmptyString
  | S fuel =>
      if n <? 16 then String (hex_char n) EmptyString
      else show_hex_digits fuel (n `div` 16) +:+ String (hex_char (n `mod` 16)) EmptyString
  end.
Definition show_hex (n : Z) : string := show_hex_digits 16 n.

(** [src/testkit/proxy.rs:174-176 block_param] *)
Definition block_param (v : option Value) : option Z :=
  v ← v; s ← value_as_str v; digits ← strip_prefix "0x" s; from_str_radix_16 digits.

(** ** The RPC proxy *)

(** [src/testkit/proxy.rs:95-99 Fault] *)
Inductive Fault :=
  | FaultHttp (status : Z)
  | FaultRpc (code : Z) (message : string)
  | FaultHang (d : Z).

(** [src/testkit/proxy.rs:102-106 RpcProxyState] *)
Record RpcProxyState := mkProxy {
  px_faults : gmap string (Z * Fault);
  px_calls : gmap string Z;
  px_max_log_range : option Z;
}.

(** [src/testkit/proxy.rs:123-123 RpcProxy::start (state: Arc::default())] *)
Definition proxy_new : RpcProxyState := mkProxy ∅ ∅ None.

(** [src/testkit/proxy.rs:138-140 RpcProxy::fail] *)
Definition proxy_fail (method : string) (times : Z) (fault : Fault) (p : RpcProxyState) : RpcProxyState :=
  mkProxy (<[method := (times, fault)]> (px_faults p)) (px_calls p) (px_max_log_range p).

(** [src/testkit/proxy.rs:142-144 RpcProxy::clear_faults] *)
Definition clear_faults (p : RpcProxyState) : RpcProxyState := mkProxy ∅ (px_calls p) (px_max_log_range p).

(** [src/testkit/proxy.rs:147-149 RpcProxy::limit_log_range] *)
Definition limit_log_range (blocks : Z) (p : RpcProxyState) : RpcProxyState :=
  mkProxy (px_faults p) (px_calls p) (Some blocks).

(** [src/testkit/proxy.rs:151-153 RpcProxy::calls] *)
Definition calls (method : string) (p : RpcProxyState) : Z := default 0 (px_calls p !! method).

(** [src/testkit/proxy.rs:159-161 RpcProxy::call_counts] *)
Definition call_counts (p : RpcProxyState) : gmap string Z := px_calls p.

(** [src/testkit/proxy.rs:155-157 RpcProxy::total_calls] *)
Definition total_calls (p : RpcProxyState) : Z := map_sum (fun _ n => n) (px_calls p).

(** What the proxy does with a request once it has let go of its state. *)
Inductive Plan :=
  | Refuse (code : Z) (message : string)
  | AnswerStatus (status : Z)
  | Relay (after : Z).

(** [src/testkit/proxy.rs:203-203 forward (the range error)] *)
Definition limit_message (max : Z) : string := "eth_getLogs is limited to a " +:+ show_u64 max +:+ " range".

(** [StatusCode::from_u16(status).unwrap_or(BAD_GATEWAY)] *)
Definition status_or_bad_gateway (status : Z) : Z := if (100 <=? status) && (status <=? 999) then status else 502.

Definition request_method (request : Value) : string := default EmptyString (value_get "method" request ≫= value_as_str).

(** [src/testkit/proxy.rs:185-192 forward (count, take a fault)] *)
Definition take_fault (method : string) (p : RpcProxyState) : option Fault * RpcProxyState :=
  let counted := <[method := u64_add (calls method p) 1]> (px_calls p) in
  match px_faults p !! method with
  | Some (n_left, fault) =>
      if 0 <? n_left
      then (Some fault, mkProxy (<[method := (n_left - 1, fault)]> (px_faults p)) counted (px_max_log_range p))
      else (None, mkProxy (px_faults p) counted (px_max_log_range p))
  | None => (None, mkProxy (px_faults p) counted (px_max_log_range p))
  end.

(** [src/testkit/proxy.rs:193-205 forward (range limit)] *)
Definition over_limit (method : string) (request : Value) (p : RpcProxyState) : option Z :=
  if String.eqb method "eth_getLogs" then
    max ← px_max_log_range p;
    let filter := pointer_params_0 request in
    from ← block_param (filter ≫= value_get "fromBlock");
    to ← block_param (filter ≫= value_get "toBlock");
    if max <? saturating_sub to from then Some max else None
  else None.

(** [src/testkit/proxy.rs:178-215 forward (decide)] *)
Definition forward (request : Value) (p : RpcProxyState) : Plan * RpcProxyState :=
  let method := request_method request in
  let '(fault, p') := take_fault method p in
  (match fault with
   | Some (FaultHttp status) => AnswerStatus (status_or_bad_gateway status)
   | Some (FaultRpc code message) => Refuse code message
   | Some (FaultHang d) => Relay d
   | None => match over_limit method request p' with
             | Some max => Refuse (-32602) (limit_message max)
             | None => Relay 0
             end
   end, p').

(** The HTTP response: a JSON-RPC error under the request's id, a bare status, or a relayed body. *)
Inductive Response (B : Type) :=
  | RpcErrorBody (id : Value) (code : Z) (message : string)
  | BareStatus (status : Z)
  | Relayed (status : Z) (body : B).
Arguments RpcErrorBody {B} id code message.
Arguments BareStatus {B} status.
Arguments Relayed {B} status body.

(** [src/testkit/proxy.rs:208-223 forward (answer)] [upstream] is the node's answer, if any came. *)
Definition respond {B} (upstream : option (Z * B)) (request : Value) (plan : Plan) : Response B :=
  let id := default Null (value_get "id" request) in
  match plan with
  | Refuse code message => RpcErrorBody id code message
  | AnswerStatus status => BareStatus status
  | Relay _ => match upstream with
               | Some (status, body) => Relayed (status_or_bad_gateway status) body
               | None => BareStatus 502
               end
  end.

(** The proxy over a sequence of requests. *)
Fixpoint forwards (requests : list Value) (p : RpcProxyState) : list Plan * RpcProxyState :=
  match requests with
  | [] => ([], p)
  | r :: requests => let '(plan, p) := forward r p in let '(plans, p) := forwards requests p in (plan :: plans, p)
  end.

(** ** The hexadecimal round trip *)

Lemma hex_digit_char d : 0 <= d < 16 -> hex_digit (hex_char d) = Some d.
Proof.
  intros H. assert (Hd : Forall (fun d => hex_digit (hex_char d) = Some d) (Z.of_nat <$> seq 0 16)).
  { repeat (apply List.Forall_cons; [reflexivity|]). apply List.Forall_nil. }
  rewrite Forall_forall in Hd. apply Hd. apply list_elem_of_fmap. exists (Z.to_nat d). split; [lia|].
  apply elem_of_seq. lia.
Qed.

Lemma hex_value_app acc s t : hex_value acc (s +:+ t) = hex_value acc s ≫= fun v => hex_value v t.
Proof.
  revert acc. induction s as [|c s IH]; intros acc; [done|]. rewrite string_app_cons. cbn [hex_value].
  destruct (hex_digit c); cbn [mbind option_bind]; [apply IH|done].
Qed.

Lemma hex_value_show fuel n :
  (0 < fuel)%nat -> 0 <= n < 16 ^ Z.of_nat fuel -> hex_value 0 (show_hex_digits fuel n) = Some n.
Proof.
  revert n. induction fuel as [|fuel IH]; intros n Hf Hn; [lia|]. cbn [show_hex_digits].
  destruct (Z.ltb_spec n 16) as [Hlt|Hge].
  { cbn. rewrite hex_digit_char by lia. done. }
  rewrite Nat2Z.inj_succ, Z.pow_succ_r in Hn by lia.
  assert (0 < fuel)%nat. { destruct fuel; [|lia]. change (16 ^ Z.of_nat 0) with 1 in Hn. lia. }
  pose proof (Z.div_mod n 16). pose proof (Z.mod_pos_bound n 16).
  rewrite hex_value_app, IH; [|done|split; [apply Z.div_pos|apply Z.div_lt_upper_bound]; lia].
  cbn. rewrite hex_digit_char by lia. cbn. f_equal. lia.
Qed.

(** The proxy reads back the block numbers a client writes. *)
Lemma block_param_hex n : in_u64 n -> block_param (Some (Str ("0x" +:+ show_hex n))) = Some n.
Proof.
  intros Hn. unfold block_param. cbn [mbind option_bind value_as_str]. rewrite strip_prefix_app. cbn [mbind option_bind].
  assert (Hv : hex_value 0 (show_hex n) = Some n).
  { apply hex_value_show; [lia|]. unfold in_u64 in Hn. change (16 ^ Z.of_nat 16) with (2 ^ 64). lia. }
  assert (Hd : forall c s, show_hex n = String c s -> is_Some (hex_digit c)).
  { intros c s E. rewrite E in Hv. cbn in Hv. destruct (hex_digit c); [done|discriminate]. }
  unfold from_str_radix_16. destruct (show_hex n) as [|c s] eqn:E.
  { injection Hv as <-. vm_compute in E. done. }
  specialize (Hd c s eq_refl). assert (Hc : c ≠ "+"%char) by (intros ->; by destruct Hd).
  assert (Hle : (n <=? u64_max) = true). { apply Z.leb_le. unfold u64_max. unfold in_u64 in Hn. lia. }
  destruct c as [[] [] [] [] [] [] [] []]; try (by rewrite Hv; cbn; rewrite Hle); done.
Qed.

(** ** The emulated limit is understood *)

(** The text of the limit error is recognised as a range error... *)
Lemma limit_message_class max : in_u64 max -> classify_code (-32602) (limit_message max) = RangeTooLarge.
Proof.
  intros Hm. destruct (show_u64_digits max Hm) as [Hd Hne]. unfold classify_code, classify_message.
  assert (E : to_ascii_lowercase (limit_message max)
    = "eth_getlogs is limited to a " +:+ show_u64 max +:+ " range").
  { transitivity ("eth_getlogs is limited to a " +:+ to_ascii_lowercase (show_u64 max +:+ " range")); [reflexivity|].
    by rewrite (lowercase_digits (show_u64 max) " range" Hd). }
  rewrite E. assert (Ha : existsb (contains ("eth_getlogs is limited to a " +:+ show_u64 max +:+ " range")) AHEAD = false).
  { apply not_true_is_false. intros (p & Hp & Hc)%existsb_exists.
    rewrite contains_around in Hc; try done; repeat (destruct Hp as [<-|Hp]; [done|]); done. }
  rewrite Ha. unfold TOO_LARGE. cbn [existsb]. assert (Hc : contains ("eth_getlogs is limited to a " +:+ show_u64 max +:+ " range") "limited to a" = true) by reflexivity.
  by rewrite Hc.
Qed.

(** ... and the limit is read out of it, wherever the message stands in the rendered failure. *)
Lemma limit_message_hint max :
  in_u64 max -> 0 < max ->
  range_limit_hint ("eth_getLogs: RangeTooLarge: server returned an error response: error code -32602: "
    +:+ limit_message max) = Some max.
Proof.
  intros Hm Hpos. destruct (show_u64_digits max Hm) as [Hd Hne]. unfold range_limit_hint.
  assert (E : after_first "limited to" (to_ascii_lowercase
    ("eth_getLogs: RangeTooLarge: server returned an error response: error code -32602: " +:+ limit_message max))
    = Some (" a " +:+ to_ascii_lowercase (show_u64 max +:+ " range"))) by reflexivity.
  rewrite E. cbn [mbind option_bind]. rewrite (lowercase_digits (show_u64 max) " range" Hd).
  change (to_ascii_lowercase " range") with " range"%string.
  destruct (show_u64 max) as [|c s] eqn:Es; [done|].
  assert (Hc : is_ascii_digit c = true) by (cbn in Hd; by apply andb_prop in Hd as [? _]).
  change (skip_while (fun c => negb (is_ascii_digit c)) (" a " +:+ String c s +:+ " range"))
    with (skip_while (fun c => negb (is_ascii_digit c)) (String c (s +:+ " range"))).
  rewrite skip_while_stop by (by rewrite Hc). rewrite <- string_app_cons.
  rewrite (take_while_app _ (String c s) " "%char "range"); [| |reflexivity].
  2:{ revert Hd. apply all_chars_impl. intros x ->. done. }
  rewrite filter_chars_all.
  2:{ revert Hd. apply all_chars_impl. intros x. destruct x as [[] [] [] [] [] [] [] []]; (reflexivity || discriminate). }
  rewrite <- Es, parse_show_u64 by done. cbn. by destruct (Z.ltb_spec 0 max); [|lia].
Qed.

(** ** The sweeper behind the proxy *)

Section behind.
(** The client library: how it writes an [eth_getLogs] request, what it makes of a response, how it
    renders a transport error; and the node behind the proxy. *)
Context {B : Type}.
Variable encode : Filter -> Value.
Variable decode : Response B -> CallResult (list Log).
Variable render : TransportError -> string.
Variable debug_duration : Z -> string.
Variable upstream : nat -> Filter -> option (Z * B).

(** JSON-RPC 2.0: quantities are written in hexadecimal, an error object carries code and message;
    the client renders it behind the words it uses for every error response. *)
Record client_library : Prop := {
  cl_method : forall f, value_get "method" (encode f) = Some (Str "eth_getLogs");
  cl_from : forall f, pointer_params_0 (encode f) ≫= value_get "fromBlock" = Some (Str ("0x" +:+ show_hex (f_from_block f)));
  cl_to : forall f, pointer_params_0 (encode f) ≫= value_get "toBlock" = Some (Str ("0x" +:+ show_hex (f_to_block f)));
  cl_error : forall id code message, decode (RpcErrorBody id code message) = CallErr (ErrorResp code message);
  cl_render : forall message,
    render (ErrorResp (-32602) message) = "server returned an error response: error code -32602: " +:+ message;
}.

(** The node itself does not refuse ranges. *)
Definition unlimited_node : Prop := forall n f e,
  decode (respond (upstream n f) (encode f) (Relay 0)) = CallErr e -> classify e ≠ RangeTooLarge.

(** The proxy emulates a limit of [max] and injects no fault into [eth_getLogs]. *)
Definition emulates (max : Z) (p : RpcProxyState) : Prop :=
  px_max_log_range p = Some max /\ (forall k fault, px_faults p !! "eth_getLogs" = Some (k, fault) -> k <= 0).

Lemma over_limit_hex max p f :
  client_library -> px_max_log_range p = Some max -> in_u64 (f_from_block f) -> in_u64 (f_to_block f) ->
  over_limit "eth_getLogs" (encode f) p =
  if max <? saturating_sub (f_to_block f) (f_from_block f) then Some max else None.
Proof.
  intros [_ Hf Ht _ _] Hmax Hfrom Hto. unfold over_limit. rewrite String.eqb_refl, Hmax. cbn [mbind option_bind] in *.
  by rewrite Hf, Ht, !block_param_hex.
Qed.

Lemma forward_limit max p f :
  client_library -> emulates max p -> in_u64 (f_from_block f) -> in_u64 (f_to_block f) ->
  (forward (encode f) p).1 = (if max <? saturating_sub (f_to_block f) (f_from_block f)
                              then Refuse (-32602) (limit_message max) else Relay 0).
Proof.
  intros Hcl [Hmax Hfaults] Hfrom Hto. unfold forward, request_method. rewrite (cl_method Hcl).
  change (default EmptyString (Some (Str "eth_getLogs") ≫= value_as_str)) with "eth_getLogs"%string.
  assert (E : exists p', take_fault "eth_getLogs" p = (None, p') /\ px_max_log_range p' = Some max).
  { unfold take_fault. destruct (px_faults p !! "eth_getLogs") as [[k fault]|]; [|eauto].
    destruct (Z.ltb_spec 0 k); [|eauto]. specialize (Hfaults k fault eq_refl). lia. }
  destruct E as (p' & -> & E). cbn [fst]. rewrite (over_limit_hex max p') by done. by destruct (max <? _).
Qed.

(** Every [eth_getLogs] of [w] is a run of the client's retry loop whose attempts go through the
    proxy, in whatever state its counters are. *)
Definition behind (w : World) (max : Z) : Prop := forall t f,
  in_u64 (f_from_block f) -> in_u64 (f_to_block f) ->
  exists px display timeout clock backoff, (forall n, emulates max (px n))
    /\ (wo_logs w t f).1 = (run render display "eth_getLogs" timeout
          (fun n => decode (respond (upstream n f) (encode f) (forward (encode f) (px n)).1)) clock 0 backoff).1.

(** What the retry loop returns is what one of the attempts returned. *)
Lemma run_attempt {T} rend disp method timeout (call : nat -> CallResult T) clock n backoff :
  exists k, (run rend disp method timeout call clock n backoff).1 = attempt rend method timeout call k.
Proof.
  revert n. induction backoff as [|delay backoff IH]; intros n.
  - destruct (run_step rend disp method timeout call clock n []) as [_ H].
    destruct H as (t & -> & _); [by right|]. by exists n.
  - destruct (run_step rend disp method timeout call clock n (delay :: backoff)) as [Hgo Hstop].
    destruct (attempt_retryable (attempt rend method timeout call n)) as [[[v Hv]|(f & Hf & Hr)]|(f & Hf & Hr)].
    + destruct Hstop as (t & -> & _); [by intros f; rewrite Hv|]. by exists n.
    + specialize (Hgo f delay backoff Hf Hr eq_refl). destruct (IH (S n)) as [k Hk].
      destruct (run _ _ _ _ _ _ (S n) backoff) as [r t]. destruct Hgo as (t' & -> & _). by exists k.
    + destruct Hstop as (t & -> & _); [intros f'; rewrite Hf; intros [= <-]; by left|]. by exists n.
Qed.

Lemma behind_limited w max :
  client_library -> unlimited_node -> 0 < max -> in_u64 max -> wo_display w = failure_display debug_duration ->
  behind w max -> limited w max.
Proof.
  intros Hcl Hnode Hpos Hmax Hdisp Hb. split; [lia|]. intros t f e Hf Ht He Hc.
  destruct (Hb t f Hf Ht) as (px & display & timeout & clock & backoff & Hpx & E). rewrite He in E.
  destruct (run_attempt render display "eth_getLogs" timeout
    (fun n => decode (respond (upstream n f) (encode f) (forward (encode f) (px n)).1)) clock 0 backoff) as [k Hk].
  rewrite Hk in E. clear Hk. unfold attempt in E. rewrite (forward_limit max) in E by done.
  destruct (Z.ltb_spec max (saturating_sub (f_to_block f) (f_from_block f))) as [Hover|Hwithin].
  - unfold respond in E. rewrite (cl_error Hcl) in E. injection E as ->. unfold saturating_sub in Hover.
    split; [lia|]. rewrite Hdisp. cbn [failure_display classify class_debug]. rewrite limit_message_class, (cl_render Hcl) by done.
    by apply limit_message_hint.
  - destruct (decode _) as [v|te|] eqn:Ed; [done| |injection E as ->; done]. injection E as ->.
    exfalso. by apply (Hnode k f te).
Qed.

(** The range limit the proxy emulates is learned from its first refusal: for a sweeper whose
    [eth_getLogs] calls all go through an [RpcProxy] limited to [max] blocks, a pass over any number of
    blocks that takes less than an hour is refused at most once, and not at all once its span is
    within the limit. *)
Theorem proxy_limit_learned (w : World) (chain : ChainSpec) (max : Z) (fuel : nat) (target cur : Z)
    (st st' : St) (r : chunks_end) :
  client_library -> unlimited_node -> 0 < max -> in_u64 max ->
  wo_display w = failure_display debug_duration -> behind w max ->
  1 <= cc_max_log_range (ch_cfg chain) < 2 ^ 63 -> span_ok chain (st_s st) -> 0 <= cur ->
  target + cc_max_log_range (ch_cfg chain) < 2 ^ 64 ->
  (forall t t', wo_now w t' - wo_now w t <= 3600 * 10 ^ 9) -> within_hour w (st_s st) ->
  sweep_chunks w chain fuel target cur st = Some (r, st') ->
  exists new, st_trace st' = st_trace st ++ new
    /\ (rejections new <= if decide (s_ceiling (st_s st) <= max)%Z then 0 else 1)%nat.
Proof.
  intros Hcl Hnode Hpos Hmax Hdisp Hb Hr Hok Hcur Ht Hclock Hh Hs.
  apply sweep_chunks_run in Hs. pose proof (behind_limited w max Hcl Hnode Hpos Hmax Hdisp Hb) as Hlim.
  by eapply (chunks_run_limit w chain Hr max).
Qed.
End behind.

(** ** Faults and counts *)

(** The plans the proxy made for the requests of [method], in order. *)
Definition plans_of (method : string) (requests : list Value) (plans : list Plan) : list Plan :=
  snd <$> List.filter (fun rp => String.eqb (request_method rp.1) method) (zip requests plans).

Definition fault_plan (fault : Fault) : Plan :=
  match fault with
  | FaultHttp status => AnswerStatus (status_or_bad_gateway status)
  | FaultRpc code message => Refuse code message
  | FaultHang d => Relay d
  end.

(** The answer to a request no fault applies to. *)
Definition clean_plan (request : Value) (p : RpcProxyState) : Plan :=
  match over_limit (request_method request) request p with
  | Some max => Refuse (-32602) (limit_message max)
  | None => Relay 0
  end.

Lemma over_limit_state method request p p' :
  px_max_log_range p = px_max_log_range p' -> over_limit method request p = over_limit method request p'.
Proof. intros E. unfold over_limit. by rewrite E. Qed.

Lemma forward_range request p : px_max_log_range (forward request p).2 = px_max_log_range p.
Proof. unfold forward, take_fault. by repeat case_match; simplify_eq. Qed.

Lemma forward_calls request p method :
  (forward request p).2 = (take_fault (request_method request) p).2
  /\ calls method (forward request p).2
     = if String.eqb (request_method request) method then u64_add (calls method p) 1 else calls method p.
Proof.
  assert (E : (forward request p).2 = (take_fault (request_method request) p).2)
    by (unfold forward; by destruct (take_fault _ _)). split; [done|]. rewrite E.
  assert (Ec : px_calls (take_fault (request_method request) p).2
    = <[request_method request := u64_add (calls (request_method request) p) 1]> (px_calls p))
    by (unfold take_fault; by repeat case_match; simplify_eq).
  unfold calls at 1. rewrite Ec. destruct (String.eqb_spec (request_method request) method) as [<-|Hne].
  - by rewrite lookup_insert_eq.
  - by rewrite lookup_insert_ne.
Qed.

(** How often the fault of a method still applies. *)
Definition armed (method : string) (p : RpcProxyState) : option (nat * Fault) :=
  '(k, fault) ← px_faults p !! method; if 0 <? k then Some (Z.to_nat k, fault) else None.

Lemma forward_armed request p method :
  let p' := (forward request p).2 in
  armed method p' =
  (if String.eqb (request_method request) method then
     match armed method p with Some (S (S k), fault) => Some (S k, fault) | _ => None end
   else armed method p)
  /\ (request_method request = method ->
      (forward request p).1 = match armed method p with
                              | Some (_, fault) => fault_plan fault
                              | None => clean_plan request p
                              end).
Proof.
  cbv zeta. rewrite (proj1 (forward_calls request p method)). unfold armed, take_fault.
  destruct (String.eqb_spec (request_method request) method) as [<-|Hne].
  - split; [|intros _].
    + destruct (px_faults p !! request_method request) as [[k fault]|] eqn:E; cbn; [|by rewrite E].
      destruct (Z.ltb_spec 0 k) as [Hk|Hk]; cbn; [|rewrite E; cbn; by destruct (Z.ltb_spec 0 k); [lia|]].
      rewrite lookup_insert_eq. cbn. destruct (Z.to_nat k) as [|[|k']] eqn:Ek; [lia| |].
      * destruct (Z.ltb_spec 0 (k - 1)); [lia|done].
      * destruct (Z.ltb_spec 0 (k - 1)); [|lia]. repeat f_equal. lia.
    + unfold forward, take_fault, clean_plan. destruct (px_faults p !! request_method request) as [[k fault]|]; cbn.
      * destruct (Z.ltb_spec 0 k); [by destruct fault|]. by rewrite (over_limit_state _ _ _ p).
      * by rewrite (over_limit_state _ _ _ p).
  - split; [|done]. destruct (px_faults p !! request_method request) as [[k fault]|]; cbn; [|done].
    destruct (0 <? k); cbn; [|done]. by rewrite lookup_insert_ne.
Qed.

Definition mine (method : string) (requests : list Value) : list Value :=
  List.filter (fun r => String.eqb (request_method r) method) requests.

Lemma forwards_plans method fault requests p range :
  px_max_log_range p = px_max_log_range range ->
  (forall k f, armed method p = Some (k, f) -> f = fault) ->
  let k := from_option fst 0%nat (armed method p) in
  plans_of method requests (forwards requests p).1
  = replicate (min k (length (mine method requests))) (fault_plan fault)
    ++ ((fun r => clean_plan r range) <$> drop k (mine method requests)).
Proof.
  revert p. induction requests as [|r requests IH]; intros p Hr Hf.
  { cbv zeta. change (mine method []) with (@nil Value). rewrite drop_nil. cbn [length]. by rewrite Nat.min_0_r. }
  cbv zeta in *. cbn [forwards]. pose proof (forward_armed r p method) as [Ha Hp]. pose proof (forward_range r p) as Er.
  destruct (forward r p) as [plan p1]. cbn [fst snd] in *. specialize (IH p1 ltac:(congruence)).
  destruct (forwards requests p1) as [plans p2]. cbn [fst] in *. unfold plans_of, mine in *. cbn.
  destruct (String.eqb_spec (request_method r) method) as [E|Hne]; cbn.
  - specialize (Hp E). destruct (armed method p) as [[k f]|] eqn:Earm; cbn.
    + rewrite (Hf k f eq_refl) in *. rewrite IH.
      2:{ intros k' f'. rewrite Ha. destruct k as [|[|k]]; congruence. }
      rewrite Ha, Hp. assert (k ≠ 0%nat).
      { intros ->. revert Earm. unfold armed. destruct (px_faults p !! method) as [[z g]|]; cbn; [|done].
        destruct (Z.ltb_spec 0 z); [intros [= Hz _]; lia|done]. }
      destruct k as [|[|k]]; [done|by rewrite Nat.min_0_l|done].
    + rewrite IH by (intros k f; by rewrite Ha). rewrite Ha, Hp. cbn. unfold clean_plan at 1 3.
      by rewrite (over_limit_state _ _ p range).
  - rewrite IH; [by rewrite Ha|]. intros k f. rewrite Ha. apply Hf.
Qed.

Lemma forwards_calls method requests p :
  0 <= calls method p -> calls method p + Z.of_nat (length requests) < 2 ^ 64 ->
  calls method (forwards requests p).2 = calls method p + Z.of_nat (length (mine method requests)).
Proof.
  revert p. induction requests as [|r requests IH]; intros p Hge Hlt; [cbn; lia|]. cbn [forwards length] in *.
  pose proof (proj2 (forward_calls r p method)) as Hc. destruct (forward r p) as [plan p1]. cbn [snd] in *.
  specialize (IH p1). destruct (forwards requests p1) as [plans p2]. cbn [snd] in *. unfold mine in *. cbn.
  destruct (String.eqb (request_method r) method); cbn [length].
  - rewrite u64_add_id in Hc by (unfold in_u64; lia). rewrite IH; lia.
  - rewrite IH; lia.
Qed.

(** An injected fault hits exactly the next calls: after [fail method k fault], whatever requests
    arrive and whatever other methods they mix in, the first [k] of the method get the fault and every
    later one is answered as if there were none, and the counter has counted each of them once. *)
Theorem faults_exact (method : string) (k : Z) (fault : Fault) (p : RpcProxyState) (requests : list Value) :
  0 <= k -> 0 <= calls method p -> calls method p + Z.of_nat (length requests) < 2 ^ 64 ->
  let '(plans, p') := forwards requests (proxy_fail method k fault p) in
  plans_of method requests plans
  = replicate (min (Z.to_nat k) (length (mine method requests))) (fault_plan fault)
    ++ ((fun r => clean_plan r p) <$> drop (Z.to_nat k) (mine method requests))
  /\ calls method p' = calls method p + Z.of_nat (length (mine method requests)).
Proof.
  intros Hk Hge Hlt. assert (Ea : armed method (proxy_fail method k fault p) = if 0 <? k then Some (Z.to_nat k, fault) else None).
  { unfold armed. cbn. by rewrite lookup_insert_eq. }
  pose proof (forwards_plans method fault requests (proxy_fail method k fault p) p eq_refl) as Hp.
  pose proof (forwards_calls method requests (proxy_fail method k fault p) Hge Hlt) as Hc.
  destruct (forwards requests _) as [plans p']. cbn [fst snd] in *. split; [|done]. rewrite Hp.
  - rewrite Ea. destruct (Z.ltb_spec 0 k); [done|]. by replace (Z.to_nat k) with 0%nat by lia.
  - intros k' f. rewrite Ea. destruct (0 <? k); congruence.
Qed.

(** ** The TCP proxy *)

(** [src/testkit/proxy.rs:29-34 TcpProxy] [tp_gen] numbers the cancellation tokens; [tp_checked]: the
    accept loop has seen [accepting] set for a connection and not yet taken its token; [tp_conns]:
    the token of every connection being copied. *)
Record TcpProxy := mkTcp { tp_accepting : bool; tp_gen : nat; tp_checked : bool; tp_conns : list nat }.

(** [src/testkit/proxy.rs:40-41 TcpProxy::start (state)] *)
Definition tcp_new : TcpProxy := mkTcp true 0 false [].

(** [src/testkit/proxy.rs:45-48 TcpProxy::start (accept, check)] *)
Definition tcp_accept (p : TcpProxy) : TcpProxy :=
  if tp_checked p then p else mkTcp (tp_accepting p) (tp_gen p) (tp_accepting p) (tp_conns p).

(** [src/testkit/proxy.rs:49-56 TcpProxy::start (take a token, copy)] *)
Definition tcp_open (p : TcpProxy) : TcpProxy :=
  if tp_checked p then mkTcp (tp_accepting p) (tp_gen p) false (tp_gen p :: tp_conns p) else p.

(** [src/testkit/proxy.rs:71-75 TcpProxy::sever] Cancelling a token ends the connections that hold it. *)
Definition sever (p : TcpProxy) : TcpProxy :=
  mkTcp (tp_accepting p) (S (tp_gen p)) (tp_checked p) (List.filter (fun g => negb (g =? tp_gen p)%nat) (tp_conns p)).

(** [src/testkit/proxy.rs:79-79 TcpProxy::outage (accepting.store(false))] *)
Definition stop_accepting (p : TcpProxy) : TcpProxy := mkTcp false (tp_gen p) (tp_checked p) (tp_conns p).

(** [src/testkit/proxy.rs:78-81 TcpProxy::outage] *)
Definition outage (p : TcpProxy) : TcpProxy := sever (stop_accepting p).

(** [src/testkit/proxy.rs:83-85 TcpProxy::restore] *)
Definition restore (p : TcpProxy) : TcpProxy := mkTcp true (tp_gen p) (tp_checked p) (tp_conns p).

(** A connection that ends by itself. *)
Definition tcp_close (i : nat) (p : TcpProxy) : TcpProxy :=
  mkTcp (tp_accepting p) (tp_gen p) (tp_checked p) (delete i (tp_conns p)).

(** Everything but [restore]. *)
Inductive tcp_step : TcpProxy -> TcpProxy -> Prop :=
  | tcp_step_accept p : tcp_step p (tcp_accept p)
  | tcp_step_open p : tcp_step p (tcp_open p)
  | tcp_step_close i p : tcp_step p (tcp_close i p)
  | tcp_step_stop p : tcp_step p (stop_accepting p)
  | tcp_step_sever p : tcp_step p (sever p).

Inductive tcp_reachable : TcpProxy -> Prop :=
  | tcp_start : tcp_reachable tcp_new
  | tcp_run p p' : tcp_reachable p -> tcp_step p p' -> tcp_reachable p'
  | tcp_restored p : tcp_reachable p -> tcp_reachable (restore p).

(** No connection holds a cancelled token. *)
Lemma tcp_tokens p : tcp_reachable p -> Forall (fun g => g = tp_gen p) (tp_conns p).
Proof.
  induction 1 as [|p p' _ IH Hs|p _ IH]; [by apply List.Forall_nil| |done].
  destruct Hs; cbn; try done.
  - unfold tcp_accept. by case_match.
  - unfold tcp_open. case_match; [|done]. cbn. by apply Forall_cons.
  - by apply Forall_delete.
  - apply Forall_forall. intros g [Hin Hg]%list_elem_of_In%List.filter_In. rewrite Forall_forall in IH.
    rewrite (IH g) in Hg by (by apply list_elem_of_In). by rewrite Nat.eqb_refl in Hg.
Qed.

(** What can still get through once the proxy has stopped accepting. *)
Definition slipping (p : TcpProxy) : nat := (length (tp_conns p) + if tp_checked p then 1 else 0)%nat.

Lemma tcp_step_slipping p p' :
  tcp_step p p' -> tp_accepting p = false -> tp_accepting p' = false /\ (slipping p' <= slipping p)%nat.
Proof.
  intros Hs Ha. destruct Hs; unfold slipping; cbn; try (split; [done|lia]).
  - unfold tcp_accept. destruct (tp_checked p) eqn:E; cbn; rewrite ?E, ?Ha; split; (done || lia).
  - unfold tcp_open. destruct (tp_checked p) eqn:E; cbn; rewrite ?E; split; (done || lia).
  - split; [done|]. pose proof (sublist_length _ _ (sublist_delete (tp_conns p) i)). lia.
  - split; [done|]. pose proof (List.filter_length_le (fun g => negb (g =? tp_gen p)%nat) (tp_conns p)). lia.
Qed.

Lemma tcp_rtc_slipping p p' :
  rtc tcp_step p p' -> tp_accepting p = false -> tp_accepting p' = false /\ (slipping p' <= slipping p)%nat.
Proof.
  induction 1 as [p|p p1 p2 Hs _ IH]; [by split; [|lia]|]. intros Ha.
  destruct (tcp_step_slipping p p1 Hs Ha) as [Ha1 Hle]. destruct (IH Ha1). split; [done|lia].
Qed.

Lemma tcp_reachable_steps p p' : rtc tcp_step p p' -> tcp_reachable p -> tcp_reachable p'.
Proof. induction 1 as [|p p1 p2 Hs _ IH]; [done|]. intros Hr. apply IH. by eapply tcp_run. Qed.

(** An outage cuts the indexer off, but for one connection: however accepting, closing and
    severing interleave before, within and after [outage], until [restore] at most one connection is
    open, and none if no connection was between the check of [accepting] and its token when the
    outage severed. *)
Theorem outage_cuts_off (p p1 p2 : TcpProxy) :
  tcp_reachable p -> rtc tcp_step (stop_accepting p) p1 -> rtc tcp_step (sever p1) p2 ->
  (length (tp_conns p2) <= if tp_checked p1 then 1 else 0)%nat /\ tp_accepting p2 = false.
Proof.
  intros Hp H1 H2. assert (Hr1 : tcp_reachable p1).
  { apply (tcp_reachable_steps (stop_accepting p) p1 H1). eapply tcp_run; [done|]. apply tcp_step_stop. }
  destruct (tcp_rtc_slipping _ _ H1 eq_refl) as [Ha1 _].
  destruct (tcp_rtc_slipping (sever p1) p2 H2 Ha1) as [Ha2 Hle]. split; [|done].
  assert (E : tp_conns (sever p1) = []).
  { destruct (tp_conns (sever p1)) as [|g l] eqn:E; [done|]. exfalso.
    assert (Hin : g ∈ tp_conns (sever p1)) by (rewrite E; apply list_elem_of_here).
    cbn in Hin. apply list_elem_of_In, List.filter_In in Hin as [Hin Hg]. apply list_elem_of_In in Hin.
    pose proof (tcp_tokens p1 Hr1) as Ht. rewrite Forall_forall in Ht. rewrite (Ht g Hin), Nat.eqb_refl in Hg. done. }
  unfold slipping in Hle. rewrite E in Hle. cbn in Hle. lia.
Qed.

(** A connection accepted just before an outage gets the token made for those after it. *)
Lemma outage_cuts_off_witness :
  let p := tcp_accept tcp_new in
  tp_conns (tcp_open (sever (stop_accepting p))) = [1%nat]
  /\ (length (tp_conns (tcp_open (sever (stop_accepting p)))) <= 1)%nat.
Proof.
  intros p. split; [reflexivity|].
  apply (outage_cuts_off p (stop_accepting p) (tcp_open (sever (stop_accepting p)))).
  - eapply tcp_run; [apply tcp_start|]. apply tcp_step_accept.
  - reflexivity.
  - apply rtc_once, tcp_step_open.
Defined.
