(* ===== verification/Sink.v ===== *)
(** * Sink: [src/testkit/sink.rs]

    The webhook receiver of the end-to-end tests: what it answers, what it records, how many
    requests it saw at once; and a delivery of the dispatcher to it, from the outbox row to the
    recorded event: the payload is written to the outbox as JSON, read back, sent as text and
    decoded. The text of JSON values is [serde_json]'s and a parameter, as are the digest and the
    codec of the signature. *)

From S2P Require Import Prelude Text Json Config Cache Events Wire Store Outbox Sign Webhook.
From Stdlib Require Import Ascii.

(** [str::parse::<u32>] *)
Definition parse_u32 (s : string) : option Z :=
  match s with
  | String "+" s => parse_digits u32_max s
  | _ => parse_digits u32_max s
  end.

(** [src/testkit/sink.rs:23-29 Received] *)
Record Received := mkReceived {
  rc_at : Z;
  rc_payload : EventPayload;
  rc_body : string;
  rc_signature : string;
  rc_attempt : Z;
}.

(** [src/testkit/sink.rs:32-40 Shared] *)
Record Sink := mkSink {
  sk_received : list Received;
  sk_fail_next : Z;
  sk_down : bool;
  sk_rejected : Z;
  sk_delay_ms : Z;
  sk_in_flight : Z;
  sk_max_in_flight : Z;
}.

(** [src/testkit/sink.rs:54-54 WebhookSink::start_on (Shared::default())] *)
Definition sink_new : Sink := mkSink [] 0 false 0 0 0 0.

(** [src/testkit/sink.rs:69-71 WebhookSink::fail_next] *)
Definition fail_next (n : Z) (s : Sink) : Sink :=
  mkSink (sk_received s) n (sk_down s) (sk_rejected s) (sk_delay_ms s) (sk_in_flight s) (sk_max_in_flight s).

(** [src/testkit/sink.rs:74-76 WebhookSink::set_down] *)
Definition set_down (down : bool) (s : Sink) : Sink :=
  mkSink (sk_received s) (sk_fail_next s) down (sk_rejected s) (sk_delay_ms s) (sk_in_flight s) (sk_max_in_flight s).

(** [src/testkit/sink.rs:83-85 WebhookSink::set_delay] *)
Definition set_delay (ms : Z) (s : Sink) : Sink :=
  mkSink (sk_received s) (sk_fail_next s) (sk_down s) (sk_rejected s) (as_u64 ms) (sk_in_flight s) (sk_max_in_flight s).

(** [src/testkit/sink.rs:96-98 WebhookSink::event_types] *)
Definition event_types (s : Sink) : list string := (fun r => as_str (p_event_type (rc_payload r))) <$> sk_received s.

Definition reject (fail : Z) (s : Sink) : Sink :=
  mkSink (sk_received s) fail (sk_down s) (as_u32 (sk_rejected s + 1)) (sk_delay_ms s) (sk_in_flight s)
    (sk_max_in_flight s).

Section sink.
(** [serde_json::from_slice] at [EventPayload]. *)
Variable parse : string -> option EventPayload.

Definition header (headers : list (string * string)) (name : string) : string :=
  default EmptyString (snd <$> find (fun kv => String.eqb kv.1 name) headers).

(** [src/testkit/sink.rs:146-165 respond] *)
Definition sink_respond (now : Z) (headers : list (string * string)) (body : string) (s : Sink) : Z * Sink :=
  if sk_down s then (503, reject (sk_fail_next s) s)
  else if 0 <? sk_fail_next s then (500, reject (sk_fail_next s - 1) s)
  else match parse body with
  | None => (400, s)
  | Some payload =>
      let r := mkReceived now payload body (header headers "x-gum-signature")
                 (default 0 (parse_u32 (header headers "x-gum-delivery-attempt"))) in
      (200, mkSink (sk_received s ++ [r]) (sk_fail_next s) (sk_down s) (sk_rejected s) (sk_delay_ms s) (sk_in_flight s)
              (sk_max_in_flight s))
  end.

(** [src/testkit/sink.rs:135-136 receive (enter)] *)
Definition enter (s : Sink) : Sink :=
  let now := as_u32 (sk_in_flight s + 1) in
  mkSink (sk_received s) (sk_fail_next s) (sk_down s) (sk_rejected s) (sk_delay_ms s) now (Z.max (sk_max_in_flight s) now).

(** [src/testkit/sink.rs:141-143 receive (answer)] *)
Definition answer (now : Z) (headers : list (string * string)) (body : string) (s : Sink) : Z * Sink :=
  let '(status, s) := sink_respond now headers body s in
  (status, mkSink (sk_received s) (sk_fail_next s) (sk_down s) (sk_rejected s) (sk_delay_ms s)
             (as_u32 (sk_in_flight s - 1)) (sk_max_in_flight s)).

(** [src/testkit/sink.rs:134-144 receive] Without other requests meanwhile; the sleep does not touch
    the state. *)
Definition receive (now : Z) (headers : list (string * string)) (body : string) (s : Sink) : Z * Sink :=
  answer now headers body (enter s).

(** ** The sink under concurrent requests *)

Inductive SinkEvent :=
  | SEnter
  | SAnswer (now : Z) (headers : list (string * string)) (body : string)
  | SFailNext (n : Z)
  | SSetDown (down : bool)
  | SSetDelay (ms : Z).

(** One event, with the requests inside before and after it; a request can only be answered inside. *)
Definition sink_step (e : SinkEvent) (st : nat * Sink) : option (nat * Sink) :=
  let '(inside, s) := st in
  match e with
  | SEnter => Some (S inside, enter s)
  | SAnswer now headers body =>
      match inside with O => None | S k => Some (k, (answer now headers body s).2) end
  | SFailNext n => Some (inside, fail_next n s)
  | SSetDown down => Some (inside, set_down down s)
  | SSetDelay ms => Some (inside, set_delay ms s)
  end.

(** A run, and how many requests were inside after each event. *)
Fixpoint sink_run (es : list SinkEvent) (st : nat * Sink) : option (list nat * (nat * Sink)) :=
  match es with
  | [] => Some ([], st)
  | e :: es =>
      st' ← sink_step e st;
      '(ns, st'') ← sink_run es st';
      Some (st'.1 :: ns, st'')
  end.

Lemma sink_respond_counters now headers body s :
  sk_in_flight (sink_respond now headers body s).2 = sk_in_flight s
  /\ sk_max_in_flight (sink_respond now headers body s).2 = sk_max_in_flight s.
Proof. unfold sink_respond. by repeat case_match. Qed.

Lemma sink_step_counters e inside s inside' s' :
  sink_step e (inside, s) = Some (inside', s') -> sk_in_flight s = Z.of_nat inside -> Z.of_nat inside + 1 < 2 ^ 32 ->
  Z.of_nat inside <= sk_max_in_flight s ->
  sk_in_flight s' = Z.of_nat inside' /\ sk_max_in_flight s' = Z.max (sk_max_in_flight s) (Z.of_nat inside')
  /\ (inside' <= S inside)%nat.
Proof.
  intros H Hin Hlt Hm. destruct e; cbn in H; simplify_eq.
  - cbn. unfold as_u32. rewrite Hin, Z.mod_small by lia. lia.
  - destruct inside as [|k]; [done|]. injection H as <- <-. unfold answer.
    pose proof (sink_respond_counters now headers body s) as [E1 E2]. destruct (sink_respond _ _ _ _) as [st s1].
    cbn in *. rewrite E1, E2, Hin. unfold as_u32. rewrite Z.mod_small by lia. lia.
  - cbn. lia.
  - cbn. lia.
  - cbn. lia.
Qed.

Lemma sink_run_counters es inside s ns inside' s' :
  sink_run es (inside, s) = Some (ns, (inside', s')) -> sk_in_flight s = Z.of_nat inside ->
  Z.of_nat inside + Z.of_nat (length es) < 2 ^ 32 -> Z.of_nat inside <= sk_max_in_flight s ->
  sk_in_flight s' = Z.of_nat inside'
  /\ sk_max_in_flight s' = foldl Z.max (sk_max_in_flight s) (Z.of_nat <$> ns).
Proof.
  revert inside s ns. induction es as [|e es IH]; intros inside s ns H Hin Hlt Hm; cbn [sink_run] in H.
  { by simplify_eq. }
  destruct (sink_step e (inside, s)) as [[k s1]|] eqn:E; [|done]. cbn in H.
  destruct (sink_run es (k, s1)) as [[ns' [inside2 s2]]|] eqn:E2; [|done]. cbn in H. injection H as <- <- <-.
  cbn [length] in Hlt. destruct (sink_step_counters _ _ _ _ _ E Hin ltac:(lia) Hm) as (H1 & H2 & H3).
  cbn. rewrite <- H2. apply (IH k s1 ns' E2 H1); lia.
Qed.

(** The peak the sink reports is the largest number of requests that were inside at once. *)
Lemma sink_peak es ns inside s :
  sink_run es (0%nat, sink_new) = Some (ns, (inside, s)) -> Z.of_nat (length es) < 2 ^ 32 ->
  sk_in_flight s = Z.of_nat inside /\ sk_max_in_flight s = foldl Z.max 0 (Z.of_nat <$> ns).
Proof. intros H Hlt. by apply (sink_run_counters es 0 sink_new ns inside s H). Qed.
End sink.

(** ** A delivery, end to end *)

(** [src/webhook/mod.rs:152-157 Dispatcher::deliver (request headers)] *)
Definition request_headers (show_id : Z -> string) (signature : string) (item : OutboxItem) : list (string * string) :=
  [("content-type", "application/json");
   ("x-gum-event-id", show_id (i_id item));
   ("x-gum-event-type", as_str (i_event_type item));
   ("x-gum-delivery-attempt", show_i64 (i_attempts item));
   ("x-gum-signature", signature)].

Section delivery.
Variable hmac : string -> string -> list Z.
Variable hex_encode : list Z -> string.
Variable hex_decode : string -> option (list Z).
Hypothesis hmac_bytes : forall key msg, Forall byte_ok (hmac key msg).
Hypothesis hex_roundtrip : forall bs, Forall byte_ok bs -> hex_decode (hex_encode bs) = Some bs.
Hypothesis hex_alphabet : forall bs, all_chars hex_char (hex_encode bs) = true.
Variable show_id : Z -> string.
Context `{HS : Scalars} `{!ScalarsOk HS}.
(** The [payload] column, and [serde_json]'s text of a value: what comes back is the value, up to the
    order of fields. *)
Variable column : Value -> Value.
Hypothesis column_stores : forall v, exact v -> stored v (column v).
Variable print : Value -> string.
Variable read : string -> option Value.
Hypothesis print_back : forall v, exact v -> exists v', read (print v) = Some v' /\ stored v v'.
Variables (cfg : WebhookConfig) (pick : Z -> Z -> Z) (reason : Z -> string).

(** [src/webhook/mod.rs:140-140 Dispatcher::deliver (serde_json::to_vec)] The body sent for the payload
    of an outbox row. *)
Definition event_body (p : EventPayload) : string := print (column (enc payload_codec p)).

(** [src/testkit/sink.rs:155-155 respond (serde_json::from_slice)] *)
Definition from_slice (body : string) : option EventPayload := v ← read body; dec payload_codec v.

Lemma event_body_back p : payload_fits p -> from_slice (event_body p) = Some p.
Proof.
  intros Hp. pose proof (column_stores _ (payload_exact p)) as Hc.
  destruct (print_back _ (stored_exact _ _ Hc)) as (v & Hv & Hs). unfold from_slice, event_body. rewrite Hv. cbn [mbind option_bind].
  apply (codec_back p); [exact Hp|by etrans].
Qed.

(** The POST of the dispatcher, answered by the sink: status and the sink afterwards. *)
Definition post_to_sink (now : Z) (item : OutboxItem) (timestamp : Z) (body : string) (s : Sink) : Z * Sink :=
  receive from_slice now
    (request_headers show_id (signature_header hmac hex_encode (wc_secret cfg) timestamp body) item) body s.

Lemma attempt_header n : 0 <= n < 2 ^ 31 -> default 0 (parse_u32 (show_i64 n)) = n.
Proof.
  intros Hn. pose proof (show_digits_digits n ltac:(lia)) as Hd. pose proof (parse_digits_show u32_max n) as Hp.
  unfold u32_max in Hp. specialize (Hp ltac:(lia) ltac:(lia)).
  unfold show_i64. destruct (Z.ltb_spec n 0); [lia|]. unfold parse_u32, u32_max.
  destruct (show_digits 20 n) as [|c s]; [done|]. cbn in Hd. apply andb_prop in Hd as [Hc _].
  destruct c as [[] [] [] [] [] [] [] []]; try discriminate Hc; by rewrite Hp.
Qed.

(** C30. A delivery reaches its consumer, or is not counted as delivered: the dispatcher's POST of an
    event to the sink is recorded exactly once — with the payload of the event, its attempt number and
    a signature the consumer can verify — and the event is then marked delivered, though the payload
    went through the JSON column, the text of the body and the consumer's decoder; or, while the sink
    is down or told to fail, nothing is recorded, the rejection is counted and the event is retried
    or, past its maximal age, given up. If the statement that records the outcome fails, the outbox is
    left as it was. *)
Theorem delivery_recorded (ck : Clocks) (saved : bool) (host : string) (now ts : Z) (item : OutboxItem) (d : DB)
    (hosts : Hosts) (s : Sink) :
  let body := event_body (i_payload item) in
  parked_for (ck_start ck) hosts host = None -> payload_fits (i_payload item) ->
  0 <= i_attempts item < 2 ^ 31 -> 0 <= ts < 2 ^ 62 -> 0 <= sk_rejected s < u32_max ->
  let '(status, s') := post_to_sink now item ts body s in
  let '(d', hosts', posted) := deliver cfg pick ck saved host true (Some body)
                                 (fun _ => Responded status (reason status)) item d hosts in
  let save now := if saved then now else d in
  posted = Some body /\
  if sk_down s || (0 <? sk_fail_next s) then
    sk_received s' = sk_received s /\ sk_rejected s' = sk_rejected s + 1
    /\ status = (if sk_down s then 503 else 500)
    /\ hosts' = host_failed cfg (ck_end ck) hosts host
    /\ (d' = save (mark_dead d (i_id item) (Some status) ("HTTP " +:+ reason status))
        \/ exists delay, d' = save (mark_retry (ck_db ck) d (i_id item) delay (Some status) ("HTTP " +:+ reason status)))
  else
    (exists r, sk_received s' = sk_received s ++ [r] /\ rc_payload r = i_payload item
      /\ rc_attempt r = i_attempts item /\ rc_body r = body
      /\ forall at_, 0 <= at_ < 2 ^ 62 -> Z.abs (at_ - ts) <= 300 ->
           verify hmac hex_decode (wc_secret cfg) (rc_signature r) (rc_body r) at_ 300 = true)
    /\ sk_rejected s' = sk_rejected s
    /\ d' = save (mark_delivered (ck_db ck) d (i_id item) 200) /\ hosts' = host_ok hosts host.
Proof.
  intros body Hpark Hfits Hatt Hts Hrej. unfold deliver. rewrite Hpark. cbn [negb].
  unfold post_to_sink, receive, answer, sink_respond. cbn [sk_down sk_fail_next enter].
  destruct (sk_down s) eqn:Ed; cbn [orb]; [|destruct (0 <? sk_fail_next s)].
  - cbn. unfold as_u32. unfold u32_max in Hrej. rewrite Z.mod_small by lia. destruct (_ <=? _); (split; [done|]); split_and!; eauto.
  - cbn. unfold as_u32. unfold u32_max in Hrej. rewrite Z.mod_small by lia. destruct (_ <=? _); (split; [done|]); split_and!; eauto.
  - rewrite (event_body_back _ Hfits : from_slice body = _). cbn. split; [done|]. split_and!; [|done..]. eexists. split_and!; [reflexivity|done| |done|].
    + by apply attempt_header.
    + intros at_ Hat Hclose. cbn [rc_signature rc_body].
      etransitivity; [apply (verify_header hmac hex_encode hex_decode hmac_bytes hex_roundtrip hex_alphabet); lia|].
      by rewrite !bool_decide_true.
Qed.
End delivery.
