(* ===== verification/Tools.v ===== *)
(** * Tools: the logic of [src/bin/gum-qn-probe.rs] and [src/bin/gum-bench.rs]

    The probe that measures a provider's limits and suggests a configuration, and the load
    benchmark's addresses and verdict. What the provider accepts is a parameter; the printing is left
    out. *)

From S2P Require Import Prelude Text Config Registry Matcher Events Sink.

(** ** Addresses *)

(** [src/bin/gum-bench.rs:61-65 watched_address] The bytes of the address. *)
Definition watched_address (i : Z) : list Z := replicate 12 0 ++ be_bytes 8 i.

(** [src/bin/gum-bench.rs:116-117 main (bulk load)] [decode(lpad(to_hex(g), 40, '0'), 'hex')]: the
    twenty-byte big-endian rendering of [g]. *)
Definition loaded_address (g : Z) : list Z := be_bytes 20 g.

(** [src/bin/gum-qn-probe.rs:65-74 recipients] Addresses left-padded to a word. *)
Definition recipient (i : Z) : list Z :=
  replicate 12 0 ++ (replicate 4 0 ++ be_bytes 8 (u64_mul i 0x9E3779B97F4A7C15) ++ be_bytes 8 i).
Definition recipients (n : nat) : list (list Z) := (recipient ∘ Z.of_nat) <$> seq 1 n.

Lemma be_bytes_inj n v v' :
  0 <= v < 256 ^ Z.of_nat n -> 0 <= v' < 256 ^ Z.of_nat n -> be_bytes n v = be_bytes n v' -> v = v'.
Proof. intros H H' E. rewrite <- (be_value_be_bytes n v H), <- (be_value_be_bytes n v' H'). by rewrite E. Qed.

Lemma be_bytes_zero n : be_bytes n 0 = replicate n 0.
Proof. induction n as [|n IH]; [done|]. cbn [be_bytes]. rewrite Z.div_0_l, Z.mod_0_l, IH by lia. by rewrite <- replicate_cons_app. Qed.

Lemma be_bytes_app n m v :
  0 <= v -> be_bytes (n + m) v = be_bytes n (v `div` 256 ^ Z.of_nat m) ++ be_bytes m v.
Proof.
  intros Hv. revert v Hv. induction m as [|m IH]; intros v Hv.
  { rewrite Nat.add_0_r, Z.div_1_r. by rewrite app_nil_r. }
  rewrite Nat.add_succ_r. cbn [be_bytes]. rewrite IH by (apply Z.div_pos; lia).
  rewrite <- app_assoc. do 2 f_equal. rewrite Z.div_div by lia. f_equal.
  rewrite Nat2Z.inj_succ, Z.pow_succ_r by lia. lia.
Qed.

(** The benchmark pays the addresses it has loaded. *)
Lemma watched_loaded i : in_u64 i -> watched_address i = loaded_address i.
Proof.
  intros [H0 H1]. unfold watched_address, loaded_address. change 20%nat with (12 + 8)%nat.
  rewrite be_bytes_app by lia. change (256 ^ Z.of_nat 8) with (2 ^ 64). rewrite Z.div_small by lia.
  by rewrite be_bytes_zero.
Qed.

(** The probe's recipients are as many as asked for, and each is an address. *)
Lemma recipients_distinct n :
  Z.of_nat n < 2 ^ 64 -> NoDup (recipients n) /\ length (recipients n) = n
  /\ Forall (fun w => length w = 32%nat /\ take 12 w = replicate 12 0) (recipients n).
Proof.
  intros Hn. unfold recipients. split_and!.
  - apply NoDup_fmap_2_strong; [|apply NoDup_seq]. intros x y Hx Hy E. apply elem_of_seq in Hx, Hy.
    unfold recipient, compose in E. rewrite !app_assoc in E.
    apply app_inj_2 in E as [_ E]; [|by rewrite !length_be_bytes].
    apply be_bytes_inj in E; [lia|change (256 ^ Z.of_nat 8) with (2 ^ 64); lia..].
  - by rewrite length_fmap, length_seq.
  - apply Forall_fmap, Forall_forall. intros x _. unfold recipient, compose.
    split; [by rewrite !length_app, !length_replicate, !length_be_bytes|]. by rewrite take_app_length'.
Qed.

(** ** The probe *)

(** [src/bin/gum-qn-probe.rs:95-109 limits (probe until rejected)] *)
Fixpoint probe (accepts : Z -> bool) (best : Z) (steps : list Z) : Z :=
  match steps with
  | [] => best
  | n :: steps => if accepts n then probe accepts n steps else best
  end.

(** [src/bin/gum-qn-probe.rs:93-109 limits (eth_getLogs recipients)] The largest number of recipients one
    filter may have, of those tried. *)
Definition getlogs_ok (accepts : Z -> bool) : Z := probe accepts 0 [100; 500; 1000; 2000; 5000; 10000; 20000].

(** [src/bin/gum-qn-probe.rs:134-143 limits (subscriptions)] [accepts i]: the [i]-th is accepted. *)
Fixpoint hold (accepts : nat -> bool) (i n : nat) : nat :=
  match n with
  | O => 0%nat
  | S n => if accepts i then S (hold accepts (S i) n) else 0%nat
  end.

(** What a provider accepts: recipients in a subscription, subscriptions of one size on a
    connection, and the distance between the first and the last block of an [eth_getLogs]. *)
Record Provider := mkProvider {
  pr_subscribe : Z -> bool;
  pr_hold : Z -> nat -> bool;
  pr_span : Z -> bool;
}.

Record Suggestion := mkSuggestion { su_bucket_size : Z; su_targeted_max : Z; su_max_log_range : Z }.

(** [src/bin/gum-qn-probe.rs:117-176 limits] The suggestions it prints, for a chain at [head]. *)
Definition limits (p : Provider) (head : Z) (max_subscriptions : nat) : Suggestion :=
  let subscribe_ok := probe (pr_subscribe p) 0 [100; 500; 1000; 2000; 5000; 10000] in
  let bucket := Z.min 1000 (Z.max 100 subscribe_ok) in
  let held := Z.of_nat (hold (pr_hold p bucket) 1 max_subscriptions) in
  let range_ok := probe (fun span => (span <=? head) && pr_span p span) 0 [100; 500; 1000; 2000; 5000; 10000; 20000] in
  let bucket_size := Z.max (subscribe_ok `div` 2) 100 in
  mkSuggestion bucket_size (bucket_size * Z.max (held `div` 2) 1) (Z.max range_ok 100).

Lemma probe_cases accepts best steps :
  probe accepts best steps = best \/ (probe accepts best steps ∈ steps /\ accepts (probe accepts best steps) = true).
Proof.
  revert best. induction steps as [|n steps IH]; intros best; cbn; [by left|].
  destruct (accepts n) eqn:E; [|by left]. right. destruct (IH n) as [->|[Hin Ha]]; [|set_solver]. split; [set_solver|done].
Qed.

Lemma hold_le accepts i n : (hold accepts i n <= n)%nat.
Proof. revert i. induction n as [|n IH]; intros i; cbn; [lia|]. destruct (accepts i); [|lia]. specialize (IH (S i)). lia. Qed.

(** What the probe suggests the provider accepts: a provider that takes at least a hundred
    recipients and blocks, and with a value every smaller one, takes the suggested bucket size, and a
    chunk of the suggested range; the configuration passes the check for zero limits; and the
    suggested number of watches needs at most half of the subscriptions that were held at once. *)
Lemma limits_accepted (p : Provider) (head : Z) (max_subscriptions : nat) :
  (forall n m, 0 <= m <= n -> pr_subscribe p n = true -> pr_subscribe p m = true) ->
  (forall n m, 0 <= m <= n -> pr_span p n = true -> pr_span p m = true) ->
  pr_subscribe p 100 = true -> pr_span p 100 = true ->
  let s := limits p head max_subscriptions in
  pr_subscribe p (su_bucket_size s) = true /\ pr_span p (su_max_log_range s - 1) = true
  /\ 0 < su_bucket_size s /\ 0 < su_max_log_range s
  /\ su_targeted_max s `mod` su_bucket_size s = 0
  /\ su_targeted_max s `div` su_bucket_size s <= Z.max (Z.of_nat max_subscriptions `div` 2) 1.
Proof.
  intros Hsub Hspan Hs100 Hr100. unfold limits. cbn [su_bucket_size su_max_log_range su_targeted_max].
  set (sub := probe (pr_subscribe p) 0 _). set (held := Z.of_nat _). set (range := probe _ 0 _).
  assert (Hs : sub = 0 \/ (0 <= sub /\ pr_subscribe p sub = true)).
  { destruct (probe_cases (pr_subscribe p) 0 [100; 500; 1000; 2000; 5000; 10000]) as [E|[Hin Ha]]; [by left|right].
    fold sub in Hin, Ha. split; [|done]. set_solver by lia. }
  assert (Hr : range = 0 \/ (0 <= range /\ pr_span p range = true)).
  { destruct (probe_cases (fun span => (span <=? head) && pr_span p span) 0 [100; 500; 1000; 2000; 5000; 10000; 20000])
      as [E|[Hin Ha]]; [by left|right]. fold range in Hin, Ha. apply andb_prop in Ha as [_ Ha].
    split; [|done]. set_solver by lia. }
  assert (Hheld : held <= Z.of_nat max_subscriptions).
  { unfold held. pose proof (hold_le (pr_hold p (Z.min 1000 (Z.max 100 sub))) 1 max_subscriptions). lia. }
  assert (Hb : 0 < Z.max (sub `div` 2) 100) by lia. split_and!.
  - destruct Hs as [->|[Hge Hs]]; [done|]. destruct (Z.le_gt_cases (sub `div` 2) 100).
    + by rewrite Z.max_r.
    + rewrite Z.max_l by lia. apply (Hsub sub); [|done]. Z.to_euclidean_division_equations; lia.
  - destruct Hr as [->|[Hge Hr]]; [by apply (Hspan 100)|]. destruct (Z.le_gt_cases range 100).
    + rewrite Z.max_r by done. by apply (Hspan 100).
    + rewrite Z.max_l by lia. by apply (Hspan range); [lia|].
  - done.
  - lia.
  - rewrite Z.mul_comm. apply Z_mod_mult.
  - rewrite Z.mul_comm, Z_div_mult by lia. apply Z.max_le_compat_r. apply Z.div_le_mono; lia.
Qed.

(** ** The benchmark's verdict *)

(** [src/bin/gum-bench.rs:192-201 main (analyse)] Deliveries by event type, once per event id, and the
    repeats. *)
Fixpoint analyse (rs : list Received) (ids : gset Z) (counts : gmap string Z) (duplicates : Z) : gmap string Z * Z :=
  match rs with
  | [] => (counts, duplicates)
  | r :: rs =>
      let id := p_id (rc_payload r) in
      if bool_decide (id ∈ ids) then analyse rs ids counts (u64_add duplicates 1)
      else
        let kind := as_str (p_event_type (rc_payload r)) in
        analyse rs ({[id]} ∪ ids) (<[kind := u64_add (default 0 (counts !! kind)) 1]> counts) duplicates
  end.

(** [src/bin/gum-bench.rs:241-241 main (missed)] *)
Definition missed (payments : Z) (counts : gmap string Z) : Z :=
  u64_sub payments (default 0 (counts !! "threshold.reached")).

(** [src/bin/gum-bench.rs:285-288 main (ensure)] *)
Definition bench_passes (payments : Z) (rs : list Received) : bool :=
  let '(counts, duplicates) := analyse rs ∅ ∅ 0 in (missed payments counts =? 0) && (duplicates =? 0).

Definition thresholds (rs : list Received) : list Received :=
  List.filter (fun r => String.eqb (as_str (p_event_type (rc_payload r))) "threshold.reached") rs.

Lemma analyse_spec rs ids counts dups :
  0 <= dups -> dups + Z.of_nat (length rs) < 2 ^ 64 ->
  0 <= default 0 (counts !! "threshold.reached") ->
  default 0 (counts !! "threshold.reached") + Z.of_nat (length rs) < 2 ^ 64 ->
  let '(counts', dups') := analyse rs ids counts dups in
  let fresh := NoDup (p_id ∘ rc_payload <$> rs) /\ Forall (fun r => p_id (rc_payload r) ∉ ids) rs in
  dups <= dups'
  /\ (dups' = dups <-> fresh)
  /\ (fresh -> default 0 (counts' !! "threshold.reached")
               = default 0 (counts !! "threshold.reached") + Z.of_nat (length (thresholds rs))).
Proof.
  revert ids counts dups. induction rs as [|r rs IH]; intros ids counts dups Hd Hdl Hc Hcl.
  { cbn. split_and!; [lia| |lia]. split; [|done]. intros _. split; [by apply NoDup_nil|by apply List.Forall_nil]. }
  cbn [length] in *. cbn [analyse]. case_bool_decide as Hid.
  - specialize (IH ids counts (u64_add dups 1)). rewrite u64_add_id in * by (unfold in_u64; lia).
    specialize (IH ltac:(lia) ltac:(lia) Hc ltac:(lia)). destruct (analyse rs ids counts (dups + 1)) as [counts' dups'].
    destruct IH as (Hle & _ & _). split_and!; [lia| |].
    + split; [lia|]. intros [_ Hf]. rewrite Forall_cons in Hf. tauto.
    + intros [_ Hf]. rewrite Forall_cons in Hf. tauto.
  - set (kind := as_str (p_event_type (rc_payload r))).
    set (counts1 := <[kind := u64_add (default 0 (counts !! kind)) 1]> counts).
    assert (E1 : default 0 (counts1 !! "threshold.reached") = default 0 (counts !! "threshold.reached")
      + (if String.eqb kind "threshold.reached" then 1 else 0)).
    { unfold counts1. destruct (String.eqb_spec kind "threshold.reached") as [->|Hne].
      - rewrite lookup_insert_eq. cbn. apply u64_add_id. unfold in_u64. lia.
      - rewrite lookup_insert_ne by done. lia. }
    specialize (IH ({[p_id (rc_payload r)]} ∪ ids) counts1 dups Hd ltac:(lia)).
    rewrite E1 in IH. specialize (IH ltac:(destruct (String.eqb kind "threshold.reached"); lia)
      ltac:(destruct (String.eqb kind "threshold.reached"); lia)).
    destruct (analyse rs _ counts1 dups) as [counts' dups']. destruct IH as (Hle & Hiff & Hcount).
    assert (Hfresh : (NoDup (p_id ∘ rc_payload <$> r :: rs) /\ Forall (fun r => p_id (rc_payload r) ∉ ids) (r :: rs))
      <-> (NoDup (p_id ∘ rc_payload <$> rs)
           /\ Forall (fun r0 => p_id (rc_payload r0) ∉ {[p_id (rc_payload r)]} ∪ ids) rs)).
    { rewrite fmap_cons, NoDup_cons, Forall_cons, !Forall_forall, list_elem_of_fmap. split.
      - intros [[Hni Hnd] [_ Hf]]. split; [done|]. intros x Hx [Heq%elem_of_singleton|Hin]%elem_of_union; [|by apply (Hf x)].
        apply Hni. by exists x.
      - intros [Hnd Hf]. split_and!; [|done|done|set_solver]. intros (x & Heq & Hx). apply (Hf x Hx).
        apply elem_of_union_l, elem_of_singleton. done. }
    rewrite Hfresh. split_and!; [done|done|]. intros Hfr. rewrite (Hcount Hfr). unfold thresholds. cbn.
    fold kind. destruct (String.eqb kind "threshold.reached"); cbn [length]; lia.
Qed.

(** The benchmark passes exactly when every event was delivered once and every payment's threshold
    was reported. *)
Lemma bench_verdict (payments : Z) (rs : list Received) :
  in_u64 payments -> Z.of_nat (length rs) < 2 ^ 64 ->
  bench_passes payments rs = true <->
  NoDup (p_id ∘ rc_payload <$> rs) /\ Z.of_nat (length (thresholds rs)) = payments.
Proof.
  intros Hp Hl. unfold bench_passes. pose proof (analyse_spec rs ∅ ∅ 0) as H. rewrite lookup_empty in H. cbn in H.
  specialize (H ltac:(lia) Hl ltac:(lia) Hl). destruct (analyse rs ∅ ∅ 0) as [counts dups].
  destruct H as (_ & Hiff & Hc). assert (length (thresholds rs) <= length rs)%nat by apply List.filter_length_le.
  unfold missed, u64_sub, as_u64, in_u64 in *. split.
  - intros [Hm%Z.eqb_eq Hd%Z.eqb_eq]%andb_prop. destruct (proj1 Hiff Hd) as [Hnd Hf]. specialize (Hc (conj Hnd Hf)).
    split; [done|]. rewrite Hc in Hm. apply Z.mod_divide in Hm; [|lia]. destruct Hm as [q Hq]. nia.
  - intros [Hnd Hlen]. assert (Hf : Forall (fun r => p_id (rc_payload r) ∉ (∅ : gset Z)) rs)
      by (apply Forall_forall; intros x _; set_solver).
    rewrite (Hc (conj Hnd Hf)), Hlen, (proj2 Hiff (conj Hnd Hf)). replace (payments - (0 + payments)) with 0 by lia. done.
Qed.
