(* ===== verification/Debt.v ===== *)
(** * Debt: a whole pass of the sweeper ends

    A watch registered with a lookback owes a scan of blocks the cursor has already passed. [debts]
    is what a chain owes; only registration adds to it and only a committed backfill clears it.
    [Keeps] is the class of transactions that leave it alone, resolved by the shape of their
    bodies. From it: the outer loop of [Sweeper.backfill] ends and leaves no debt, and so does the
    whole of [Sweeper.sweep]. *)

From S2P Require Import Prelude Text Config Registry Cache Matcher Events Health Rpc Store Sweep.
From S2P Require Import Runtime Sweeper TxSpec SweeperSpec.

(** ** What is owed *)

Definition wview (w : WatchRow) : Z * Z * Z * option Z :=
  (w_id w, w_chain_id w, w_start_block w, w_backfill_to w).
Definition dview (d : DB) : gmap Z (Z * Z * Z * option Z) := wview <$> d_watches d.

Definition debt_of (cid : Z) (v : Z * Z * Z * option Z) : option (Z * Z) :=
  let '(_, c, start, to) := v in
  if c =? cid then to ← to; Some (as_u64 start, as_u64 to) else None.

(** The blocks owed to the watches of a chain. *)
Definition debts (chain : ChainSpec) (d : DB) : gmap Z (Z * Z) := omap (debt_of (as_i64 (ch_chain_id chain))) (dview d).

Lemma lookup_debts chain d i :
  debts chain d !! i = w ← d_watches d !! i; debt_of (as_i64 (ch_chain_id chain)) (wview w).
Proof. unfold debts, dview. rewrite lookup_omap, lookup_fmap. by destruct (d_watches d !! i). Qed.

Lemma dview_ids_ok d d' : dview d' = dview d -> ids_ok d -> ids_ok d'.
Proof.
  intros E Hids i w Hi. assert (Hv : dview d !! i = Some (wview w)) by (rewrite <- E; unfold dview; by rewrite lookup_fmap, Hi).
  unfold dview in Hv. rewrite lookup_fmap in Hv. destruct (d_watches d !! i) as [v|] eqn:Hv'; [|done].
  apply Hids in Hv'. cbn in Hv. injection Hv as Hv _ _ _. congruence.
Qed.

(** ** Transactions that keep the debts *)

Class Keeps {A} (t : Tx A) : Prop :=
  keeps : forall env s a s', t env s = Ok (a, s') -> dview s'.1 = dview s.1.

#[global] Instance keeps_ret {A} (a : A) : Keeps (mret a).
Proof. intros env s a' s' [= <- <-]. done. Qed.
#[global] Instance keeps_bind {A B} (t : Tx A) (f : A -> Tx B) : Keeps t -> (forall a, Keeps (f a)) -> Keeps (t ≫= f).
Proof. intros Ht Hf env s b s' (a & s1 & H1 & H2)%Tx_bind_Ok. rewrite (Hf a _ _ _ _ H2). by apply (Ht _ _ _ _ H1). Qed.
#[global] Instance keeps_get : Keeps tx_get.
Proof. intros env s a s' [= <- <-]. done. Qed.
#[global] Instance keeps_now : Keeps tx_now.
Proof. intros env s a s' [= <- <-]. done. Qed.
#[global] Instance keeps_lift {A} (r : result StoreError A) : Keeps (tx_lift r).
Proof. intros env s a s'. unfold tx_lift. destruct r; [|done]. by intros [= <- <-]. Qed.
#[global] Instance keeps_transfers f : Keeps (tx_mod (set_transfers f)).
Proof. intros env s a s' [= <- <-]. done. Qed.
#[global] Instance keeps_stats f : Keeps (tx_mod (set_stats f)).
Proof. intros env s a s' [= <- <-]. done. Qed.
#[global] Instance keeps_cursors f : Keeps (tx_mod (set_cursors f)).
Proof. intros env s a s' [= <- <-]. done. Qed.
#[global] Instance keeps_mfold {A B} (f : B -> A -> Tx A) l a : (forall b a, Keeps (f b a)) -> Keeps (mfold f l a).
Proof.
  intros Hf. revert a. induction l as [|b l IH]; intros a; cbn [mfold]; [apply keeps_ret|].
  apply keeps_bind; [apply Hf|exact IH].
Qed.
#[global] Instance keeps_event chain w et tv : Keeps (insert_event chain w et tv).
Proof. intros env [d k] a s' ([= -> ->] & _)%insert_event_Ok. done. Qed.

Lemma keeps_update i p f : (forall w, wview (f w) = wview w) -> Keeps (update_watch i p f).
Proof.
  intros Hf env [d k] a s' H. rewrite update_watch_eq in H.
  destruct (d_watches d !! i) as [w|] eqn:Hi; [destruct (p w)|]; simplify_eq; try done.
  unfold dview. cbn. rewrite fmap_insert, Hf. apply insert_id. by rewrite lookup_fmap, Hi.
Qed.
#[global] Hint Extern 0 (Keeps (update_watch _ _ _)) => apply keeps_update; intros; reflexivity : typeclass_instances.

(** Bodies by their shape. *)
Ltac keeps_step :=
  match goal with
  | |- Keeps (match ?x with _ => _ end) => destruct x
  | |- Keeps (if ?b then _ else _) => destruct b
  | |- Keeps (_ ≫= _) => apply keeps_bind; [|intros ?]
  | |- Keeps (let '_ := ?x in _) => destruct x
  | |- _ => apply _
  end.
Ltac solve_keeps := cbv zeta; repeat keeps_step.

#[global] Instance keeps_fetch_one {A} (o : option A) : Keeps (fetch_one o).
Proof. apply keeps_lift. Qed.
#[global] Instance keeps_lock i : Keeps (lock_active_watch i).
Proof. unfold lock_active_watch, transpose_row. solve_keeps. Qed.
#[global] Instance keeps_upsert chain m i : Keeps (upsert_confirmed chain m i).
Proof. unfold upsert_confirmed. solve_keeps. Qed.
#[global] Instance keeps_add i amt : Keeps (add_confirmed_amount i amt).
Proof. unfold add_confirmed_amount. solve_keeps. Qed.
#[global] Instance keeps_complete i : Keeps (complete_watch i).
Proof. unfold complete_watch. solve_keeps. Qed.
#[global] Instance keeps_count chain m acc : Keeps (count_confirmed chain m acc).
Proof. unfold count_confirmed. solve_keeps. Qed.
#[global] Instance keeps_resolve chain cs acs kx acc : Keeps (resolve_leftover chain cs acs kx acc).
Proof. unfold resolve_leftover. solve_keeps. Qed.
#[global] Instance keeps_apply_stats cid tok d : Keeps (apply_stats cid tok d).
Proof. unfold apply_stats. solve_keeps. Qed.
#[global] Instance keeps_write_stats chain stats : Keeps (write_stats chain stats).
Proof. unfold write_stats. solve_keeps. Qed.
#[global] Instance keeps_account chain cache to logs ks : Keeps (sweep_account chain cache to logs ks).
Proof. unfold sweep_account. solve_keeps. Qed.
#[global] Instance keeps_expire chain limit : Keeps (expire_watches_tx chain limit).
Proof. unfold expire_watches_tx. solve_keeps. Qed.

Lemma run_tx_keeps {A} (t : Tx (tx_end A)) env d r d' : Keeps t -> run_tx env d t = (r, d') -> dview d' = dview d.
Proof.
  intros Ht H. destruct r as [a|e]; [|by apply run_tx_Err in H as ->].
  apply run_tx_Ok in H as [[k H]|[-> _]]; [|done]. by apply (Ht _ _ _ _ H).
Qed.

Lemma expire_keeps env d chain limit r d' : expire_watches env d chain limit = (r, d') -> dview d' = dview d.
Proof. by apply run_tx_keeps, _. Qed.

Lemma apply_sweep_keeps env d chain cache c to logs r d' cache' :
  apply_sweep env d chain cache c to logs = (r, d', cache') -> dview d' = dview d.
Proof.
  unfold apply_sweep. intros H. destruct (cursor d _) as [actual|e]; [|by simplify_eq].
  destruct (negb _); [by simplify_eq|]. destruct (load_entries _ _) as [cache1 ks].
  destruct (run_tx _ _ _) as [r1 d1] eqn:Hr. apply run_tx_keeps in Hr; [|solve_keeps]. by destruct r1; simplify_eq.
Qed.

Lemma fast_forward_keeps d cid target r d' : fast_forward_cursor d cid target = (r, d') -> dview d' = dview d.
Proof. unfold fast_forward_cursor. destruct (cursor d cid); [|by intros [= _ <-]]. destruct (negb _); by intros [= _ <-]. Qed.

(** ** What a committed backfill clears *)

Lemma lookup_clear_backfills ids ws i :
  clear_backfills ids ws !! i = if decide (i ∈ ids) then with_backfill_to None <$> ws !! i else ws !! i.
Proof.
  induction ids as [|j ids IH].
  { by rewrite decide_False by apply not_elem_of_nil. }
  change (clear_backfills (j :: ids) ws) with (alter (with_backfill_to None) j (clear_backfills ids ws)).
  rewrite lookup_alter. destruct (decide (j = i)) as [->|Hne]; rewrite IH.
  - rewrite (decide_True (P := i ∈ i :: ids)) by apply list_elem_of_here.
    destruct (decide (i ∈ ids)); by destruct (ws !! i).
  - destruct (decide (i ∈ ids)) as [Hin|Hni].
    + by rewrite decide_True by by apply list_elem_of_further.
    + rewrite decide_False; [done|]. intros [?|?]%elem_of_cons; congruence.
Qed.

Lemma apply_backfill_debts env d chain cache bs logs out d' cache' i :
  apply_backfill env d chain cache bs logs = (Ok out, d', cache') ->
  debts chain d' !! i = (if decide (i ∈ b_id <$> bs) then None else debts chain d !! i).
Proof.
  intros H. unfold apply_backfill in H. destruct (run_tx _ _ _) as [[out1|e] d1] eqn:Hr; [|done]. simplify_eq.
  apply run_tx_Ok in Hr as [[k Hr]|[_ [s Hr]]]; unfold apply_backfill_tx in Hr.
  2:{ tx_inv Hr. destruct a as [stats o]. tx_inv Hr. tx_inv Hr. by tx_simp Hr. }
  tx_inv Hr. destruct a as [stats o]. assert (E1 : dview d0 = dview d).
  { exact (keeps_mfold _ _ _ _ env (d, 0%nat) _ _ Ht). }
  clear Ht. tx_inv Hr. tx_simp Ht. tx_inv Hr. apply keeps_write_stats in Ht. tx_simp Hr. cbn in Ht.
  assert (Ed : debts chain d' = debts chain (set_watches (clear_backfills (b_id <$> bs)) d0)) by (unfold debts; by rewrite Ht).
  assert (Ed0 : debts chain d0 = debts chain d) by (unfold debts; by rewrite E1).
  rewrite Ed, <- Ed0, !lookup_debts. cbn [d_watches set_watches]. rewrite lookup_clear_backfills.
  destruct (decide _); [|done]. destruct (d_watches d0 !! i) as [w|]; [|done]. cbn. by destruct (_ =? _).
Qed.

Lemma apply_backfill_ids env d chain cache bs logs r d' cache' :
  apply_backfill env d chain cache bs logs = (r, d', cache') -> ids_ok d -> ids_ok d'.
Proof.
  intros H Hids. unfold apply_backfill in H. destruct (run_tx _ _ _) as [[out1|e] d1] eqn:Hr; simplify_eq.
  2:{ by apply run_tx_Err in Hr as ->. }
  apply run_tx_Ok in Hr as [[k Hr]|[-> _]]; [|done]. unfold apply_backfill_tx in Hr.
  tx_inv Hr. destruct a as [stats o].
  assert (E1 : dview d0 = dview d) by exact (keeps_mfold _ _ _ _ env (d, 0%nat) _ _ Ht).
  clear Ht. tx_inv Hr. tx_simp Ht. tx_inv Hr. apply keeps_write_stats in Ht. tx_simp Hr. cbn in Ht.
  apply (dview_ids_ok (set_watches (clear_backfills (b_id <$> bs)) d0)); [exact Ht|]. intros i w. cbn. rewrite lookup_clear_backfills.
  pose proof (dview_ids_ok _ _ E1 Hids) as Hi0.
  destruct (decide _); [|apply Hi0]. destruct (d_watches d0 !! i) as [v|] eqn:Hv; [|done]. cbn. intros [= <-]. by apply Hi0 in Hv.
Qed.

Lemma apply_backfill_err env d chain cache bs logs e d' cache' :
  apply_backfill env d chain cache bs logs = (Err e, d', cache') -> d' = d.
Proof.
  unfold apply_backfill. intros H. destruct (run_tx _ _ _) as [[out1|e1] d1] eqn:Hr; simplify_eq.
  by apply run_tx_Err in Hr.
Qed.

(** ** The batch *)

Definition owing (chain : ChainSpec) (w : WatchRow) : bool :=
  (w_chain_id w =? as_i64 (ch_chain_id chain)) && bool_decide (is_Some (w_backfill_to w)).

Lemma owing_debt chain w : owing chain w = true <-> is_Some (debt_of (as_i64 (ch_chain_id chain)) (wview w)).
Proof.
  unfold owing, debt_of. cbn. rewrite andb_true_iff, bool_decide_eq_true. destruct (w_chain_id w =? _); cbn.
  - destruct (w_backfill_to w); cbn; split; [intros _; by eexists|intros _; split; [done|by eexists]|intros [_ [? ?]]; done|intros [? ?]; done].
  - split; [intros [? _]; done|intros [? ?]; done].
Qed.

Definition backfill_row (w : WatchRow) : option PendingBackfill :=
  to ← w_backfill_to w;
  Some (mkBackfill (w_id w) (w_seq w) (w_token_address w) (w_payment_address w) (as_u64 (w_start_block w)) (as_u64 to)).

Lemma batch_unfold chain d limit :
  pending_backfills d (ch_chain_id chain) limit = omap backfill_row (take (Z.to_nat limit) (select_watches d (owing chain))).
Proof. done. Qed.

Lemma elem_of_owing chain d w :
  w ∈ select_watches d (owing chain) <-> owing chain w = true /\ exists i, d_watches d !! i = Some w.
Proof.
  unfold select_watches. rewrite elem_of_sort_by, list_elem_of_In, List.filter_In, <- list_elem_of_In, list_elem_of_fmap.
  split.
  - intros [([i w'] & -> & Hin) Ho]. apply elem_of_map_to_list in Hin. cbn. eauto.
  - intros [Ho [i Hi]]. split; [|done]. exists (i, w). by rewrite elem_of_map_to_list.
Qed.

Lemma batch_debt chain d limit b :
  ids_ok d -> b ∈ pending_backfills d (ch_chain_id chain) limit ->
  debts chain d !! b_id b = Some (b_start_block b, b_backfill_to b).
Proof.
  intros Hids. rewrite batch_unfold, list_elem_of_omap. intros (w & Hin & Hb).
  assert (Hw : w ∈ select_watches d (owing chain)) by by eapply subseteq_take.
  apply elem_of_owing in Hw as [Ho [i Hi]]. unfold backfill_row in Hb.
  destruct (w_backfill_to w) as [to|] eqn:Hto; [|done]. cbn in Hb. injection Hb as <-. cbn.
  rewrite (Hids _ _ Hi), lookup_debts, Hi. cbn. rewrite Hto. cbn. unfold owing in Ho.
  apply andb_prop in Ho as [-> _]. done.
Qed.

Lemma length_batch chain d limit :
  length (pending_backfills d (ch_chain_id chain) limit) = length (take (Z.to_nat limit) (select_watches d (owing chain))).
Proof.
  rewrite batch_unfold.
  assert (H : Forall (fun w => owing chain w = true) (take (Z.to_nat limit) (select_watches d (owing chain)))).
  { apply Forall_take, Forall_forall. intros w Hw. by apply elem_of_owing in Hw as [? _]. }
  induction H as [|w ws Hw _ IH]; [done|]. cbn. apply andb_prop in Hw as [_ [to Hto]%bool_decide_eq_true].
  unfold backfill_row at 1. rewrite Hto. cbn. by rewrite IH.
Qed.

(** A batch that is not full is everything owed. *)
Lemma batch_all chain d limit i :
  ids_ok d -> Z.of_nat (length (pending_backfills d (ch_chain_id chain) limit)) < limit ->
  is_Some (debts chain d !! i) -> i ∈ b_id <$> pending_backfills d (ch_chain_id chain) limit.
Proof.
  intros Hids Hlen [x Hx]. rewrite length_batch in Hlen. rewrite lookup_debts in Hx.
  destruct (d_watches d !! i) as [w|] eqn:Hi; [|done]. cbn in Hx.
  assert (Ho : owing chain w = true) by (apply owing_debt; by eexists).
  assert (Hin : w ∈ select_watches d (owing chain)) by (apply elem_of_owing; eauto).
  rewrite length_take in Hlen. assert (length (select_watches d (owing chain)) <= Z.to_nat limit)%nat by lia.
  apply list_elem_of_fmap. apply andb_prop in Ho as [_ [to Hto]%bool_decide_eq_true].
  eexists. split; [|rewrite batch_unfold; apply list_elem_of_omap; exists w; split; [by rewrite take_ge|];
    unfold backfill_row; by rewrite Hto]. cbn. by rewrite (Hids _ _ Hi).
Qed.

(** ** The loops *)

Section frame.
Variable w : World.
Variable chain : ChainSpec.

(** A condition on the debts that the others keep is kept by every statement of a pass but the
    settling of a batch. *)
Variable P : DB -> Prop.
Hypothesis HPothers : forall t d rt, P d -> P (wo_others w t (d, rt)).1.
Hypothesis HPview : forall d d', dview d' = dview d -> P d -> P d'.

Lemma frame_await st : P (st_db st) -> P (st_db (await w st)).
Proof.
  intros H. unfold await. apply (HPothers (st_t st) _ (st_rt st)) in H.
  by destruct (wo_others w (st_t st) (st_db st, st_rt st)) as [d rt].
Qed.

Lemma frame_get_logs f st : P (st_db st) -> P (st_db (get_logs w chain f st).2).
Proof. intros H%frame_await. unfold get_logs. destruct (wo_logs _ _ _). exact H. Qed.

Lemma frame_expire st : P (st_db st) -> P (st_db (expire w chain st)).
Proof.
  intros H%frame_await. unfold expire. destruct (expire_watches _ _ _ _) as [r db] eqn:He. apply expire_keeps in He.
  destruct r as [[|]|]; by eapply HPview.
Qed.

Lemma frame_chunks target cur st r st' : chunks_run w chain target cur st r st' -> P (st_db st) -> P (st_db st').
Proof.
  assert (Ha : forall target cur st r st1, asked w chain target cur st = (r, st1) -> P (st_db st) -> P (st_db st1)).
  { intros tg c s r1 s1 H Ho. change s1 with (r1, s1).2. rewrite <- H. by apply frame_get_logs. }
  induction 1 as [cur st Hge|cur st e st1 r st' Hlt Has Hc Hgt Hrun IH|cur st e st1 Hlt Has Hc
    |cur st e st1 Hlt Has Hc|cur st logs st1 e db cache Hlt Has Hs|cur st logs st1 c c' db cache Hlt Has Hs
    |cur st logs st1 out db cache r st' Hlt Has Hs Hrun IH]; intros Ho; eauto.
  - apply IH. cbn. eauto.
  - apply apply_sweep_keeps in Hs. eapply HPview; [exact Hs|]. eauto using frame_await.
  - apply apply_sweep_keeps in Hs. eapply HPview; [exact Hs|]. eauto using frame_await.
  - apply apply_sweep_keeps in Hs. apply IH. eapply HPview; [exact Hs|]. eauto using frame_await.
Qed.

Lemma frame_backfill_fetch fuel tokens recipients at_ to logs st r st' :
  backfill_fetch w chain fuel tokens recipients at_ to logs st = Some (r, st') -> P (st_db st) -> P (st_db st').
Proof.
  revert at_ logs st. induction fuel as [|fuel IH]; intros at_ logs st H Ho; [done|]. cbn [backfill_fetch] in H.
  destruct (negb _); [by simplify_eq|]. cbv zeta in H. set (f := mkFilter _ _ _ _) in H.
  pose proof (frame_get_logs f st Ho) as Ho1. destruct (get_logs w chain f st) as [[found|e] st1]; cbn in Ho1.
  - by eapply IH.
  - destruct (_ && _); [|by simplify_eq]. by eapply IH.
Qed.
End frame.

Section loops.
Variable w : World.
Variable chain : ChainSpec.
Local Abbreviation M := (cc_max_log_range (ch_cfg chain)).
Hypothesis Hmax : 1 <= M < 2 ^ 63.

(** The other tasks and instances register no watch with a lookback meanwhile (they may settle
    debts). *)
Definition others_owe_nothing : Prop := forall t d rt, ids_ok d ->
  ids_ok (wo_others w t (d, rt)).1 /\ debts chain (wo_others w t (d, rt)).1 ⊆ debts chain d.
Hypothesis Hothers : others_owe_nothing.

(** At most [D] is owed. *)
Definition owes_at_most (D : gmap Z (Z * Z)) (d : DB) : Prop := ids_ok d /\ debts chain d ⊆ D.
Definition owes (D : gmap Z (Z * Z)) (st : St) : Prop := owes_at_most D (st_db st).

Lemma owes_at_most_others D t d rt : owes_at_most D d -> owes_at_most D (wo_others w t (d, rt)).1.
Proof. intros [Hi Hd]. destruct (Hothers t d rt Hi). split; [done|]. by etrans. Qed.

Lemma owes_at_most_view D d d' : dview d' = dview d -> owes_at_most D d -> owes_at_most D d'.
Proof. intros E [Hi Hd]. split; [by eapply dview_ids_ok|]. unfold debts in *. by rewrite E. Qed.

Lemma owes_view D st st' : dview (st_db st') = dview (st_db st) -> owes D st -> owes D st'.
Proof. apply owes_at_most_view. Qed.

Lemma owes_await D st : owes D st -> owes D (await w st).
Proof. apply (frame_await w (owes_at_most D)), owes_at_most_others. Qed.

Lemma owes_expire D st : owes D st -> owes D (expire w chain st).
Proof. apply (frame_expire w chain (owes_at_most D)); [apply owes_at_most_others|apply owes_at_most_view]. Qed.

Lemma owes_chunks D target cur st r st' : chunks_run w chain target cur st r st' -> owes D st -> owes D st'.
Proof. apply (frame_chunks w chain (owes_at_most D)); [apply owes_at_most_others|apply owes_at_most_view]. Qed.

Lemma owes_backfill_fetch D fuel tokens recipients at_ to logs st r st' :
  backfill_fetch w chain fuel tokens recipients at_ to logs st = Some (r, st') -> owes D st -> owes D st'.
Proof. apply (frame_backfill_fetch w chain (owes_at_most D)), owes_at_most_others. Qed.

(** All debts end below [B], and no watch starts at block zero. *)
Definition debts_below (B : Z) (D : gmap Z (Z * Z)) : Prop :=
  forall i start to, D !! i = Some (start, to) -> 0 < start /\ to < B.

(** One turn of the outer loop, with the fetch known to return. *)
Lemma backfill_turn B D n st :
  owes D st -> debts_below B D -> 0 <= B -> B + M < 2 ^ 64 -> span_ok chain (st_s st) ->
  B * M + M < Z.of_nat n ->
  forall fuel, (n <= S fuel)%nat ->
  let st1 := await w st in
  let batch := pending_backfills (st_db st1) (ch_chain_id chain) BACKFILL_BATCH in
  match list_min (b_start_block <$> batch), list_max (b_backfill_to <$> batch) with
  | Some from, Some to =>
      exists r st2, backfill_fetch w chain (S fuel) (backfill_tokens chain batch)
        (into_word ∘ b_payment_address <$> batch) from to [] st1 = Some (r, st2)
      /\ span_ok chain (st_s st2) /\ owes (debts chain (st_db st1)) st2
  | _, _ => True
  end.
Proof.
  intros Ho HB H0 HB2 Hok Hn fuel Hf st1 batch. pose proof (owes_await D st Ho) as [Hi1 Hd1]. fold st1 in Hi1, Hd1.
  destruct (list_min _) as [from|] eqn:Hmin; [|done]. destruct (list_max _) as [to|] eqn:Hmx; [|done].
  assert (Hb : forall b, b ∈ batch -> 0 < b_start_block b /\ b_backfill_to b < B).
  { intros b Hb%batch_debt; [|done]. eapply HB. by eapply lookup_weaken. }
  assert (Hfrom : 0 < from). { apply list_min_elem in Hmin as (b & -> & Hin)%list_elem_of_fmap. by destruct (Hb b Hin). }
  assert (Hto : to < B). { apply list_max_elem in Hmx as (b & -> & Hin)%list_elem_of_fmap. by destruct (Hb b Hin). }
  assert (Hok1 : span_ok chain (st_s st1)) by (unfold st1; by rewrite await_s).
  destruct (backfill_fetch_ok w chain Hmax (backfill_tokens chain batch) (into_word ∘ b_payment_address <$> batch) to
    ltac:(lia) (S fuel) from [] st1 Hok1 Hfrom) as ([r st2] & Hr & Hok2 & _).
  { destruct Hok1 as [? ?]. nia. }
  exists r, st2. split_and!; [done|exact Hok2|]. by eapply owes_backfill_fetch.
Qed.

Lemma minmax_Some {A} (f g : A -> Z) (l : list A) :
  (l = [] /\ list_min (f <$> l) = None) \/ (l ≠ [] /\ exists a b, list_min (f <$> l) = Some a /\ list_max (g <$> l) = Some b).
Proof. destruct l; [by left|]. right. split; [done|]. cbn. eauto. Qed.

(** The debts after a batch of [d1] has been settled on top of what others settled. *)
Lemma settled_debts d1 d2 d3 (batch : list PendingBackfill) :
  debts chain d2 ⊆ debts chain d1 ->
  (forall i, debts chain d3 !! i = if decide (i ∈ b_id <$> batch) then None else debts chain d2 !! i) ->
  debts chain d3 ⊆ debts chain d1.
Proof.
  intros H12 H3. apply map_subseteq_spec. intros i x Hi. rewrite H3 in Hi. destruct (decide _); [done|]. by eapply lookup_weaken.
Qed.

(** The outer loop ends, and leaves nothing owed unless it fails. *)
Lemma backfill_total B D m n st :
  owes D st -> debts_below B D -> 0 <= B -> B + M < 2 ^ 64 -> span_ok chain (st_s st) ->
  B * M + M < Z.of_nat n -> (size (debts chain (st_db st)) < m)%nat ->
  exists r st', backfill w chain (m + n) st = Some (r, st') /\ owes D st' /\ span_ok chain (st_s st')
    /\ (r = Ok tt -> debts chain (st_db st') = ∅).
Proof.
  intros Ho HB H0 HB2 Hok Hn. revert st Ho Hok. induction m as [|m IH]; intros st Ho Hok Hm; [lia|].
  pose proof (backfill_turn B D n st Ho HB H0 HB2 Hok Hn (m + n) ltac:(lia)) as Hturn. cbv zeta in Hturn.
  pose proof (owes_await D st Ho) as Ho1.
  assert (Hsz : (size (debts chain (st_db (await w st))) <= size (debts chain (st_db st)))%nat).
  { apply map_subseteq_size. destruct (owes_await (debts chain (st_db st)) st) as [_ H]; [|done]. by destruct Ho. }
  cbn [backfill Nat.add]. set (st1 := await w st) in *.
  set (batch := pending_backfills (st_db st1) (ch_chain_id chain) BACKFILL_BATCH) in *.
  assert (Hall : Z.of_nat (length batch) < BACKFILL_BATCH -> forall i, is_Some (debts chain (st_db st1) !! i) -> i ∈ b_id <$> batch).
  { intros Hl i. by apply batch_all; [destruct Ho1|]. }
  destruct (minmax_Some b_start_block b_backfill_to batch) as [[Eb ->]|(Hne & from & to & Emin & Emax)].
  - exists (Ok tt), st1. split_and!; [done|done|unfold st1; by rewrite await_s|]. intros _. apply map_empty. intros i.
    apply eq_None_not_Some. intros Hi%Hall; [|by rewrite Eb]. rewrite Eb in Hi. by apply not_elem_of_nil in Hi.
  - rewrite Emin, Emax in Hturn |- *. destruct Hturn as (r & st2 & Hf & Hok2 & Ho2). rewrite Hf. cbn [mbind option_bind].
    assert (Ho2' : owes D st2). { destruct Ho2 as [? ?]. destruct Ho1 as [_ ?]. split; [done|by etrans]. }
    destruct r as [logs|e]; [|exists (Err e), st2; by split_and!].
    set (st3 := await w st2). pose proof (owes_await _ _ Ho2) as [Hi3 Hd3]. pose proof (owes_await _ _ Ho2') as Ho3. fold st3 in Hi3, Hd3, Ho3.
    assert (Hok3 : span_ok chain (st_s st3)) by (unfold st3; by rewrite await_s).
    destruct (apply_backfill _ _ _ _ _ _) as [[r db] cache] eqn:Hap.
    pose proof (apply_backfill_ids _ _ _ _ _ _ _ _ _ Hap Hi3) as Hi4.
    destruct r as [out|e].
    2:{ apply apply_backfill_err in Hap as ->. eexists _, _. split_and!; [reflexivity|..]; [|exact Hok3|done].
        by eapply (owes_view _ st3). }
    pose proof (fun i => apply_backfill_debts _ _ _ _ _ _ _ _ _ i Hap) as Hd4.
    assert (Hsub : debts chain db ⊆ debts chain (st_db st1)) by (eapply settled_debts; eauto).
    assert (Ho4 : forall st4, st_db st4 = db -> owes D st4).
    { intros st4 E. split; rewrite E; [done|]. etrans; [exact Hsub|]. by destruct Ho1. }
    destruct (Z.ltb_spec (Z.of_nat (length batch)) BACKFILL_BATCH) as [Hlt|Hge].
    + eexists _, _. split_and!; [reflexivity|by apply Ho4|exact Hok3|]. intros _. cbn. apply map_empty. intros i.
      rewrite Hd4. destruct (decide _) as [|Hni]; [done|]. apply eq_None_not_Some. intros [x Hx].
      apply Hni, (Hall Hlt). exists x. by eapply lookup_weaken.
    + apply IH; [by apply Ho4|exact Hok3|]. cbn.
      destruct batch as [|b bs] eqn:Eb; [done|].
      assert (Hb : is_Some (debts chain (st_db st1) !! b_id b)).
      { rewrite (batch_debt chain (st_db st1) BACKFILL_BATCH b); [by eexists|by destruct Ho1|]. fold batch. rewrite Eb. apply list_elem_of_here. }
      assert (Hstrict : debts chain db ⊂ debts chain (st_db st1)).
      { split; [done|]. intros Hback. destruct Hb as [x Hx]. eapply lookup_weaken in Hx; [|exact Hback].
        rewrite Hd4, decide_True in Hx by apply list_elem_of_here. done. }
      apply map_subset_size in Hstrict. lia.
Qed.

Lemma fast_forward_cursor_at d cid target cur d' :
  fast_forward_cursor d cid target = (Ok cur, d') -> in_u64 target -> 0 <= cur /\ cursor d' cid = Ok cur.
Proof.
  unfold fast_forward_cursor. destruct (cursor d cid) as [c|e] eqn:Hc; [|done]. intros [= <- <-] Ht.
  assert (Hcu : in_u64 c) by (unfold cursor in Hc; destruct (d_cursors d !! _); simplify_eq; apply as_u64_range).
  set (new := if has_pending _ _ then _ else _).
  assert (Hn : in_u64 new) by (unfold new; destruct (has_pending _ _); [done|]; unfold in_u64 in *; lia).
  split; [unfold in_u64 in Hn; lia|]. destruct (Z.eqb_spec new c) as [->|Hne]; cbn [negb]; [done|].
  unfold cursor. cbn. rewrite lookup_insert_eq. f_equal. by apply as_u64_as_i64.
Qed.

(** The whole pass. *)
Lemma sweep_total B D m n st :
  owes D st -> debts_below B D -> 0 <= B -> B + M < 2 ^ 64 -> span_ok chain (st_s st) ->
  0 <= cc_confirmations (ch_cfg chain) -> (forall t head, (wo_head w t).1 = Ok head -> 0 <= head < B) ->
  B * M + M < Z.of_nat n -> (size D < m)%nat ->
  exists r st', sweep w chain (m + n) st = Some (r, st') /\ owes D st' /\ span_ok chain (st_s st')
    /\ (alone w chain -> is_ok r = true -> debts chain (st_db st') = ∅).
Proof.
  intros Ho HB H0 HB2 Hok Hconf Hhead Hn Hm. unfold sweep.
  pose proof (owes_expire D st Ho) as Ho1. assert (Hs1 : st_s (expire w chain st) = st_s st).
  { unfold expire. destruct (expire_watches _ _ _ _) as [[[|]|] db]; cbn; apply await_s. }
  set (st1 := await w (set_s (with_head_probe (now_of w (expire w chain st))) (expire w chain st))).
  assert (Ho2 : owes D st1) by (apply owes_await; by eapply owes_view).
  assert (Hok1 : span_ok chain (st_s st1)) by (unfold st1; rewrite await_s; cbn; rewrite Hs1; exact Hok).
  assert (Hh : forall head, (block_number (now_of w st1 `div` 10 ^ 6) (wo_head w (st_t st1))).1 = Ok head -> 0 <= head < B).
  { intros head. unfold block_number. destruct (wo_head w (st_t st1)).1 eqn:E; cbn; [|by rewrite E]. intros [= <-]. eauto. }
  destruct (block_number _ _) as [[head|e] ops]; cbn in Hh.
  2:{ eexists _, _. split_and!; [reflexivity|by eapply owes_view|exact Hok1|done]. }
  specialize (Hh head eq_refl). set (target := saturating_sub head (cc_confirmations (ch_cfg chain))).
  assert (Ht : 0 <= target < B) by (unfold target, saturating_sub; lia).
  set (st2 := await w (set_rt (note_health chain ops) st1)).
  assert (Ho3 : owes D st2) by (apply owes_await; by eapply owes_view).
  assert (Hok2 : span_ok chain (st_s st2)) by (unfold st2; rewrite await_s; exact Hok1).
  destruct (fast_forward_cursor _ _ _) as [r db] eqn:Hff. pose proof (fast_forward_keeps _ _ _ _ _ Hff) as Hk.
  assert (Ho4 : owes D (set_db db st2)) by (by eapply (owes_view _ st2)).
  destruct r as [cur|e]; [|eexists _, _; split_and!; [reflexivity|done|exact Hok2|done]].
  apply fast_forward_cursor_at in Hff as [Hcur Hat]; [|unfold in_u64; lia].
  destruct (chunks_total w chain Hmax (m + n) target cur (set_db db st2) Hok2 Hcur ltac:(lia)) as [[e st3] Hch].
  { destruct Hok2 as [? ?]. cbn. nia. }
  rewrite Hch. cbn [mbind option_bind]. apply sweep_chunks_run in Hch.
  pose proof (owes_chunks D _ _ _ _ _ Hch Ho4) as Ho5.
  destruct (chunks_run_pass w chain Hmax _ _ _ _ _ Hch Hok2 Hcur ltac:(lia)) as (Hok3 & _ & reached & _ & _ & Hal).
  destruct e as [c| |e]; [|eexists _, _; split_and!; [reflexivity|done|done|]; intros Ha _; by destruct (Hal Ha Hat)
    |eexists _, _; by split_and!].
  destruct (backfill_total B D m n (set_s (with_pending_blocks (filter (fun b => c < b))) st3)) as (r & st4 & Hb & Ho6 & Hok4 & Hd).
  - by eapply owes_view.
  - done.
  - done.
  - done.
  - exact Hok3.
  - done.
  - destruct Ho5 as [_ Hs%map_subseteq_size]. cbn. lia.
  - rewrite Hb. cbn [mbind option_bind]. destruct r as [[]|e]; eexists _, _; (split_and!; [reflexivity|done|done|]); [|done].
    intros _ _. by apply Hd.
Qed.
End loops.

(** ** The span through a pass, for any fuel *)

Section span.
Variable w : World.
Variable chain : ChainSpec.
Local Abbreviation M := (cc_max_log_range (ch_cfg chain)).
Hypothesis Hmax : 1 <= M < 2 ^ 63.
Variable B : Z.
Hypothesis HB : 0 <= B /\ B + M < 2 ^ 64.

Definition bounded (d : DB) : Prop := ids_ok d /\ debts_below B (debts chain d).

(** Whatever others register, its blocks are below [B]. *)
Definition others_bounded : Prop := forall t d rt, bounded d -> bounded (wo_others w t (d, rt)).1.
Hypothesis Hothers : others_bounded.

Lemma bounded_view d d' : dview d' = dview d -> bounded d -> bounded d'.
Proof. intros E [Hi Hd]. split; [by eapply dview_ids_ok|]. unfold debts in *. by rewrite E. Qed.

Lemma backfill_fetch_mono fuel fuel' tokens recipients at_ to logs st res :
  (fuel <= fuel')%nat -> backfill_fetch w chain fuel tokens recipients at_ to logs st = Some res ->
  backfill_fetch w chain fuel' tokens recipients at_ to logs st = Some res.
Proof.
  revert fuel' at_ logs st. induction fuel as [|fuel IH]; intros fuel' at_ logs st Hle H; [done|].
  destruct fuel' as [|fuel']; [lia|]. cbn [backfill_fetch] in *. destruct (negb _); [done|]. cbv zeta in *.
  destruct (get_logs _ _ _ _) as [[found|e] st1]; [apply IH; [lia|done]|].
  destruct (_ && _); [apply IH; [lia|done]|done].
Qed.

Lemma backfill_kept fuel st r st' :
  bounded (st_db st) -> span_ok chain (st_s st) -> backfill w chain fuel st = Some (r, st') ->
  bounded (st_db st') /\ span_ok chain (st_s st').
Proof.
  revert st. induction fuel as [|fuel IH]; intros st Hb Hok H; [done|]. cbn [backfill] in H.
  apply (frame_await w bounded Hothers) in Hb. set (st1 := await w st) in *.
  assert (Hok1 : span_ok chain (st_s st1)) by (unfold st1; by rewrite await_s).
  destruct (list_min _) as [from|] eqn:Hmin; [|by simplify_eq]. destruct (list_max _) as [to|] eqn:Hmx; [|by simplify_eq].
  set (batch := pending_backfills _ _ _) in *.
  assert (Hin : forall b, b ∈ batch -> 0 < b_start_block b /\ b_backfill_to b < B).
  { intros b Hb'%batch_debt; [|by destruct Hb]. destruct Hb as [_ Hd]. by eapply Hd. }
  assert (Hfrom : 0 < from). { apply list_min_elem in Hmin as (b & -> & Hi)%list_elem_of_fmap. by destruct (Hin b Hi). }
  assert (Hto : to < B). { apply list_max_elem in Hmx as (b & -> & Hi)%list_elem_of_fmap. by destruct (Hin b Hi). }
  apply bind_Some in H as ([r1 st2] & Hf & H).
  pose proof (frame_backfill_fetch w chain bounded Hothers _ _ _ _ _ _ _ _ _ Hf Hb) as Hb2.
  assert (Hok2 : span_ok chain (st_s st2)).
  { destruct (backfill_fetch_ok w chain Hmax (backfill_tokens chain batch) (into_word ∘ b_payment_address <$> batch) to
      ltac:(lia) (S fuel + S (Z.to_nat (Z.max 0 (to + 1 - from) * M + s_range (st_s st1)))) from [] st1 Hok1 Hfrom)
      as ([r2 st2'] & Hr & Hok2 & _); [destruct Hok1; nia|].
    eapply backfill_fetch_mono in Hf; [|apply Nat.le_add_r]. rewrite Hr in Hf. by simplify_eq. }
  destruct r1 as [logs|e]; [|by simplify_eq].
  apply (frame_await w bounded Hothers) in Hb2. assert (Hok3 : span_ok chain (st_s (await w st2))) by by rewrite await_s.
  destruct (apply_backfill _ _ _ _ _ _) as [[r2 db] cache] eqn:Hap.
  assert (Hb3 : bounded db).
  { split; [eapply apply_backfill_ids; [exact Hap|by destruct Hb2]|]. destruct r2 as [out|e].
    - intros i start t Hi. rewrite (apply_backfill_debts _ _ _ _ _ _ _ _ _ i Hap) in Hi.
      destruct (decide _); [done|]. by apply Hb2 in Hi.
    - apply apply_backfill_err in Hap as ->. by destruct Hb2. }
  destruct r2 as [out|e]; [|simplify_eq; done]. destruct (_ <? _); [simplify_eq; done|]. by eapply IH in H.
Qed.

(** The span stays between one block and the configured maximum through every pass. *)
Lemma sweep_kept fuel st r st' :
  (forall t head, (wo_head w t).1 = Ok head -> 0 <= head < B) -> 0 <= cc_confirmations (ch_cfg chain) ->
  bounded (st_db st) -> span_ok chain (st_s st) -> sweep w chain fuel st = Some (r, st') ->
  bounded (st_db st') /\ span_ok chain (st_s st').
Proof.
  intros Hhead Hconf Hb Hok H. unfold sweep in H.
  apply (frame_expire w chain bounded Hothers bounded_view) in Hb.
  assert (Hs1 : st_s (expire w chain st) = st_s st).
  { unfold expire. destruct (expire_watches _ _ _ _) as [[[|]|] db]; cbn; apply await_s. }
  set (st0 := set_s _ (expire w chain st)) in H. assert (Hb0 : bounded (st_db st0)) by exact Hb.
  apply (frame_await w bounded Hothers) in Hb0. set (st1 := await w st0) in *.
  assert (Hok1 : span_ok chain (st_s st1)) by (unfold st1, st0; rewrite await_s; cbn; by rewrite Hs1).
  assert (Hh : forall head, (block_number (now_of w st1 `div` 10 ^ 6) (wo_head w (st_t st1))).1 = Ok head -> 0 <= head < B).
  { intros head. unfold block_number. destruct (wo_head w (st_t st1)).1 eqn:E; cbn; [|by rewrite E]. intros [= <-]. eauto. }
  destruct (block_number _ _) as [[head|e] ops]; [|by simplify_eq]. specialize (Hh head eq_refl).
  set (target := saturating_sub head _) in H. assert (Ht : 0 <= target <= head) by (unfold target, saturating_sub; lia).
  set (st2 := await w (set_rt _ st1)) in H.
  assert (Hb2 : bounded (st_db st2)) by by apply (frame_await w bounded Hothers).
  assert (Hok2 : span_ok chain (st_s st2)) by (unfold st2; rewrite await_s; exact Hok1).
  destruct (fast_forward_cursor _ _ _) as [r1 db] eqn:Hff. pose proof (fast_forward_keeps _ _ _ _ _ Hff) as Hk.
  pose proof (bounded_view _ _ Hk Hb2) as Hb3. destruct r1 as [cur|e]; [|by simplify_eq].
  apply fast_forward_cursor_at in Hff as [Hcur Hat]; [|unfold in_u64; lia].
  apply bind_Some in H as ([e st3] & Hch & H). apply sweep_chunks_run in Hch.
  destruct (chunks_run_pass w chain Hmax _ _ _ _ _ Hch Hok2 Hcur ltac:(lia)) as (Hok3 & _).
  pose proof (frame_chunks w chain bounded Hothers bounded_view _ _ _ _ _ Hch Hb3) as Hb4.
  destruct e as [c| |e]; [|by simplify_eq..].
  apply bind_Some in H as ([r2 st4] & Hbf & H). apply backfill_kept in Hbf as [? ?]; [|done|done].
  destruct r2; by simplify_eq.
Qed.
End span.

(** The fuel that a pass needs, of heads and debts below [B]. *)
Definition pass_fuel (chain : ChainSpec) (B : Z) (d : DB) : Z :=
  let max := cc_max_log_range (ch_cfg chain) in Z.of_nat (size (debts chain d)) + B * max + max + 1.

Lemma pass_returns (w : World) (chain : ChainSpec) (B : Z) (fuel : nat) (st : St) :
  let max := cc_max_log_range (ch_cfg chain) in
  1 <= max < 2 ^ 63 -> 0 <= cc_confirmations (ch_cfg chain) -> others_owe_nothing w chain ->
  bounded chain B (st_db st) -> 0 <= B -> B + max < 2 ^ 64 ->
  (forall t head, (wo_head w t).1 = Ok head -> 0 <= head < B) -> span_ok chain (st_s st) ->
  pass_fuel chain B (st_db st) < Z.of_nat fuel ->
  exists r st', sweep w chain fuel st = Some (r, st') /\ span_ok chain (st_s st')
    /\ (alone w chain -> is_ok r = true -> debts chain (st_db st') = ∅).
Proof.
  intros max Hmax Hconf Hoth [Hids HB] H0 HB2 Hhead Hok Hf. unfold pass_fuel in Hf. fold max in Hf.
  set (m := S (size (debts chain (st_db st)))).
  assert (0 <= B * max) by (apply Z.mul_nonneg_nonneg; lia).
  destruct (sweep_total w chain Hmax Hoth B (debts chain (st_db st)) m (fuel - m) st) as (r & st' & Hs & _ & Hok' & Hd);
    try done; [lia|lia|]. replace (m + (fuel - m))%nat with fuel in Hs by lia. by exists r, st'.
Qed.

(** ** Properties *)

(** C19. A whole pass ends and leaves nothing owed: whatever the node answers and the other tasks
    commit, as long as nobody registers a new lookback meanwhile, expiry, fast-forward, chunks and
    the backfill's outer loop return within the fuel computed from the head, the span limit and the
    number of debts; and when a pass that nobody interfered with succeeds, every watch's missed
    blocks have been scanned. *)
Theorem sweep_returns (w : World) (chain : ChainSpec) (B : Z) (fuel : nat) (st : St) :
  let max := cc_max_log_range (ch_cfg chain) in
  1 <= max < 2 ^ 63 -> 0 <= cc_confirmations (ch_cfg chain) -> others_owe_nothing w chain ->
  ids_ok (st_db st) -> debts_below B (debts chain (st_db st)) -> 0 <= B -> B + max < 2 ^ 64 ->
  (forall t head, (wo_head w t).1 = Ok head -> 0 <= head < B) -> span_ok chain (st_s st) ->
  Z.of_nat (size (debts chain (st_db st))) + B * max + max + 1 < Z.of_nat fuel ->
  exists r st', sweep w chain fuel st = Some (r, st') /\ span_ok chain (st_s st')
    /\ (alone w chain -> is_ok r = true -> debts chain (st_db st') = ∅).
Proof. intros max Hmax Hconf Hoth Hids HB H0 HB2 Hhead Hok Hf. by apply (pass_returns w chain B). Qed.
