(* ===== verification/Durable.v ===== *)
(** * Durable: what the durable cursor promises

    The cursor of a chain is the block up to which everything is accounted for. [Good] says so of a
    database and a cache: every payment to an active watch at or below the cursor is stored as
    confirmed, except in blocks that are still owed to the watch by a backfill, and nothing above
    the cursor has been decided. Every statement of a sweeper's pass keeps it, and so does what the
    other tasks of the leader do meanwhile ([peer]). From it: a pass that succeeds confirms every
    payment below the confirmation depth.

    The chain is given by [canon], the logs of each block below that depth, and [height], the
    number of the block a hash names. *)

From S2P Require Import Prelude Text Config Registry Cache Matcher Events Health Rpc Store Sweep.
From S2P Require Import Runtime Sweeper TxSpec Ledger LedgerTx SweepSpec RegisterSpec System.
From S2P Require Import SweeperSpec Debt OneChain.

(** ** How a database evolves *)

(** Watches keep what they are and are not revived. *)
Definition rows_kept (d d' : DB) : Prop :=
  forall i w, d_watches d !! i = Some w -> exists w', d_watches d' !! i = Some w' /\ same_watch w w'
    /\ (w_status w' = Active -> w_status w = Active).

(** No watch appears. *)
Definition rows_old (d d' : DB) : Prop := forall i, is_Some (d_watches d' !! i) -> is_Some (d_watches d !! i).

#[global] Instance same_watch_preorder : PreOrder same_watch.
Proof. split; [done|]. unfold same_watch. intros x y z ? ?. intuition congruence. Qed.

#[global] Instance rows_kept_preorder : PreOrder rows_kept.
Proof.
  split; [intros d i w Hw; by exists w|]. intros d1 d2 d3 H1 H2 i w Hw.
  destruct (H1 i w Hw) as (w1 & Hw1 & S1 & A1). destruct (H2 i w1 Hw1) as (w2 & Hw2 & S2 & A2).
  exists w2. split_and!; [done|by etrans|auto].
Qed.

Lemma rows_kept_put d d' i w w' :
  d_watches d' = <[i := w']> (d_watches d) -> d_watches d !! i = Some w -> same_watch w w' ->
  (w_status w' = Active -> w_status w = Active) -> rows_kept d d'.
Proof.
  intros E Hi Hs Ha j v Hv. rewrite E. destruct (decide (i = j)) as [<-|Hne].
  - exists w'. rewrite lookup_insert_eq. simplify_eq. done.
  - exists v. by rewrite lookup_insert_ne.
Qed.

(** Every step of the ledger keeps the rows. *)
Lemma step_rows hist d d' : step hist d d' -> rows_kept d d'.
Proof.
  destruct 1; try (by intros j v Hv; exists v);
    try (eapply rows_kept_put; [reflexivity|eassumption|done|by cbn; congruence]).
  intros j v Hv. exists v. cbn. by rewrite lookup_insert_ne by congruence.
Qed.

Lemma steps_rows hist d d' : rtc (step hist) d d' -> rows_kept d d'.
Proof. induction 1; [done|]. etrans; eauto using step_rows. Qed.

Lemma steps_seq hist d d' : rtc (step hist) d d' -> d_watch_seq d <= d_watch_seq d'.
Proof. induction 1 as [|d1 d2 d3 Hs _ IH]; [done|]. etrans; [|exact IH]. destruct Hs; cbn; lia. Qed.

Lemma same_targets_old d d' : same_targets d d' -> rows_old d d'.
Proof. intros H i [w Hw]. specialize (H i). rewrite Hw in H. cbn in H. symmetry in H. apply fmap_Some in H as (v & -> & _). done. Qed.

(** ** How the transfers of a chain evolve *)

Section evolve.
Variable cid : Z.                 (* the chain's column value *)
Variable height : Z -> Z.

(** A stored transfer says in which block it is. *)
Definition placed (key : TransferKey) (x : TransferRec) : Prop :=
  x_block_number x = as_i64 (height key.1.2) /\ in_i63 (height key.1.2).

(** Rows are added in their place, open or confirmed, and are never dropped or moved; a pending one
    may be confirmed, and resolved otherwise only at or below [lim]. *)
Definition transfers_evolve (lim : Z) (ts ts' : gmap TransferKey TransferRec) : Prop :=
  forall key, key.1.1 = cid ->
    match ts !! key, ts' !! key with
    | None, None => True
    | None, Some x' => placed key x'
        /\ (x_status x' = Pending \/ x_status x' = Confirmed \/ x_block_number x' <= lim)
    | Some x, Some x' => x_block_number x' = x_block_number x
        /\ (x_status x' = x_status x
            \/ (x_status x = Pending /\ (x_status x' = Confirmed \/ x_block_number x <= lim)))
    | Some _, None => False
    end.

#[global] Instance transfers_evolve_preorder lim : PreOrder (transfers_evolve lim).
Proof.
  split.
  - intros ts key _. destruct (ts !! key); auto.
  - intros t1 t2 t3 H1 H2 key Hk. specialize (H1 key Hk). specialize (H2 key Hk).
    destruct (t1 !! key) as [x1|], (t2 !! key) as [x2|], (t3 !! key) as [x3|]; try done.
    + destruct H1 as [E1 H1], H2 as [E2 H2]. split; [congruence|].
      destruct H2 as [S2|[P2 H2]]; [rewrite S2; exact H1|]. right.
      destruct H1 as [S1|[P1 H1]]; (split; [congruence|]); (destruct H2; [by left|right; lia]).
    + destruct H1 as [[E1 Hi] H1], H2 as [E2 H2]. split; [split; congruence|].
      destruct H2 as [S2|[P2 [H2|H2]]]; [by rewrite S2, E2|by right; left|right; right; lia].
Qed.

Lemma transfers_evolve_le lim lim' ts ts' :
  lim <= lim' -> transfers_evolve lim ts ts' -> transfers_evolve lim' ts ts'.
Proof.
  intros Hle H key Hk. specialize (H key Hk). destruct (ts !! key) as [x|], (ts' !! key) as [x'|]; try done.
  - destruct H as [E [H|[P H]]]; split; auto. right. split; [done|]. destruct H; [by left|right; lia].
  - destruct H as [P [H|[H|H]]]; split; auto. right. right. lia.
Qed.

Lemma transfers_evolve_insert lim ts key x' :
  match ts !! key with
  | None => placed key x' /\ (x_status x' = Pending \/ x_status x' = Confirmed)
  | Some x => x_block_number x' = x_block_number x
      /\ (x_status x = Pending /\ (x_status x' = Confirmed \/ x_block_number x <= lim))
  end -> transfers_evolve lim ts (<[key := x']> ts).
Proof.
  intros H key' _. destruct (decide (key = key')) as [<-|Hne].
  - rewrite lookup_insert_eq. destruct (ts !! key) as [x|]; naive_solver.
  - rewrite lookup_insert_ne by done. destruct (ts !! key'); auto.
Qed.

(** What survives an evolution. *)
Lemma evolve_confirmed lim d d' key :
  transfers_evolve lim (d_transfers d) (d_transfers d') -> key.1.1 = cid ->
  confirmed_at d key -> confirmed_at d' key.
Proof.
  intros H Hk (x & Hx & Hc). specialize (H key Hk). rewrite Hx in H. unfold confirmed_at.
  destruct (d_transfers d' !! key) as [x'|]; [|done]. exists x'. split; [done|].
  destruct H as [_ [E|[Hp _]]]; congruence.
Qed.

Lemma evolve_closed lim d d' key :
  transfers_evolve lim (d_transfers d) (d_transfers d') -> key.1.1 = cid ->
  ~ countable (d_transfers d !! key) -> ~ countable (d_transfers d' !! key).
Proof.
  intros H Hk Hc. specialize (H key Hk). destruct (d_transfers d !! key) as [x|]; [|by destruct Hc].
  destruct (d_transfers d' !! key) as [x'|]; [|done]. cbn in *. destruct H as [_ [E|[Hp _]]]; [by rewrite E|by destruct Hc].
Qed.
End evolve.

(** ** The transactions of a sweep *)

(** A matched transfer of a chain is in the block its hash names. *)
Definition matched_placed (height : Z -> Z) (m : MatchedTransfer) : Prop :=
  m_block_number m = height (m_block_hash m) /\ in_i63 (m_block_number m).

(** The watches named are retired. *)
Definition all_retired (d : DB) (es : list (WatchKey * Z)) : Prop :=
  forall e w, e ∈ es -> d_watches d !! e.2 = Some w -> w_status w ≠ Active.

Lemma all_retired_keeps d d' es : keeps_settled d d' -> all_retired d es -> all_retired d' es.
Proof. intros [Hk _] H e w He Hw Ha. destruct (Hk _ _ Hw) as (v & Hv & _ & Hva). by apply (H e v He Hv), Hva. Qed.

Section transactions.
Variable chain : ChainSpec.
Variable height : Z -> Z.
Local Abbreviation cid := (as_i64 (ch_chain_id chain)).
Local Abbreviation evolve lim d d' := (transfers_evolve cid height lim (d_transfers d) (d_transfers d')).

Lemma confirmed_rec_evolves lim env m wid d :
  matched_placed height m -> countable (d_transfers d !! transfer_key chain m) ->
  transfers_evolve cid height lim (d_transfers d)
    (<[transfer_key chain m := confirmed_rec env m wid (d_transfers d !! transfer_key chain m)]> (d_transfers d)).
Proof.
  intros [Hh Hi] Hc. apply transfers_evolve_insert. unfold confirmed_rec.
  destruct (d_transfers d !! transfer_key chain m) as [x|]; cbn in *; [auto|].
  split; [|auto]. split; cbn; [by rewrite Hh|by rewrite <- Hh].
Qed.

Lemma count_evolves lim m env d k st out st' out' d' k' :
  matched_placed height m -> count_result chain m env d k st out st' out' d' k' -> evolve lim d d'.
Proof.
  intros Hp [_|w w1 _ _ Hc _ _ _ _|w w1 w2 _ _ Hc _ _ _ _ _ _ _ _]; [done|..]; cbn; by apply confirmed_rec_evolves.
Qed.

Lemma count_completed m env d k st out st' out' d' k' :
  ids_ok d -> count_result chain m env d k st out st' out' d' k' ->
  all_retired d (out_completed out) -> all_retired d' (out_completed out').
Proof.
  intros Hids H Hr. pose proof (count_settles _ _ _ _ _ _ _ _ _ _ _ H) as [_ Hk].
  pose proof (all_retired_keeps _ _ _ Hk Hr) as Hr'.
  destruct H as [_|w w1 _ _ _ _ _ _ _|w w1 w2 Hw _ _ _ _ _ _ _ _ _ _]; [done|..].
  - case_bool_decide; exact Hr'.
  - intros e v He. assert (He' : e ∈ out_completed out \/ e = (WatchKey_new (m_token_idx m) (m_to m), w_id w)).
    { revert He. case_bool_decide; cbn; rewrite elem_of_app, list_elem_of_singleton; done. }
    destruct He' as [He'| ->]; [by apply Hr'|]. cbn. rewrite (Hids _ _ Hw), lookup_insert_eq. by intros [= <-].
Qed.

Lemma count_all_evolves lim ms env acc d k acc' d' k' :
  ids_ok d -> Forall (matched_placed height) ms ->
  mfold (count_confirmed chain) ms acc env (d, k) = Ok (acc', (d', k')) ->
  evolve lim d d' /\ (all_retired d (out_completed acc.2) -> all_retired d' (out_completed acc'.2)).
Proof.
  revert acc d k. induction ms as [|m ms IH]; intros acc d k Hids Hms H; cbn [mfold] in H; [by tx_simp H|].
  inversion_clear Hms as [|? ? Hm Hms']. tx_inv H. apply count_confirmed_Ok in Ht; [|done].
  apply IH in H as [He Hc]; [|by eapply count_ids_ok|done]. split.
  - etrans; [by eapply count_evolves|exact He].
  - intros Hr. apply Hc. by eapply count_completed.
Qed.

Lemma resolve_completed cs acs kx acc env d k acc' d' k' :
  resolve_leftover chain cs acs kx acc env (d, k) = Ok (acc', (d', k')) -> out_completed acc'.2 = out_completed acc.2.
Proof.
  destruct acc as [stats out], kx as [key x]. intros H. unfold resolve_leftover in H. cbv zeta in H.
  destruct (_ || _); tx_inv H; tx_simp Ht; [by tx_simp H|]. tx_inv H. destruct a; [|by tx_simp H].
  tx_inv H. tx_inv H. by tx_simp H.
Qed.

Lemma resolve_all_evolves to cs acs acc env d k acc' d' k' :
  mfold (resolve_leftover chain cs acs) (leftovers d cid to) acc env (d, k) = Ok (acc', (d', k')) ->
  evolve to d d' /\ keeps_settled d d' /\ out_completed acc'.2 = out_completed acc.2.
Proof.
  intros H. pose proof (resolve_all_frame _ _ _ _ _ _ _ _ _ _ _ H) as (_ & Hk & _).
  assert (Hc : out_completed acc'.2 = out_completed acc.2).
  { eapply (mfold_Tx_inv _ (fun a _ _ => out_completed a.2 = out_completed acc.2)) in H; [exact H| |done].
    intros kx a d1 k1 a' d2 k2 _ E Hr. apply resolve_completed in Hr. congruence. }
  apply (resolve_all_steps (fun _ => None)) in H as (_ & _ & Hout & Hin).
  2:{ apply NoDup_leftovers. }
  2:{ intros key x (? & _ & ? & _)%elem_of_leftovers. done. }
  split_and!; [|done..]. intros key Hk'. destruct (decide (key ∈ (leftovers d cid to).*1)) as [Hl|Hl].
  - apply list_elem_of_fmap in Hl as ([key' x] & -> & Hl). destruct (Hin _ _ Hl) as (st & _ & E). cbn. rewrite E.
    apply elem_of_leftovers in Hl as (-> & _ & Hp & Hle). cbn. auto.
  - rewrite Hout by done. destruct (d_transfers d !! key); auto.
Qed.

(** The accounting of a chunk up to [to]. *)
Lemma sweep_account_evolves cache to logs disc env d k out d' k' :
  ids_ok d -> Forall (matched_placed height) (sweep_matched chain cache logs) ->
  sweep_account chain cache to logs disc env (d, k) = Ok (out, (d', k')) ->
  evolve (as_i64 to) d d' /\ all_retired d' (out_completed out).
Proof.
  intros Hids Hms H. pose proof H as H0. unfold sweep_account in H. cbv zeta in H.
  apply Tx_bind_Ok in H as (so & [d1 k1] & Hc & H). tx_inv H. tx_simp Ht.
  apply Tx_bind_Ok in H as (so2 & [d2 k2] & Hr & H). destruct so2 as [stats out2].
  tx_inv H. apply write_stats_Ok in Ht as [f ->]. tx_inv H. tx_simp Ht. tx_simp H.
  apply (count_all_evolves (as_i64 to)) in Hc as [He1 Hc]; [|done..].
  apply resolve_all_evolves in Hr as (He2 & Hk & Ec). cbn in Ec. split; [by etrans|].
  rewrite Ec. apply (all_retired_keeps _ _ _ Hk). apply Hc. by intros e w []%not_elem_of_nil.
Qed.

(** The accounting of a backfill. *)
Lemma apply_backfill_evolves lim env d cache bs logs out d' cache' :
  ids_ok d -> Forall (matched_placed height) (backfill_matched chain bs logs) ->
  apply_backfill env d chain cache bs logs = (Ok out, d', cache') ->
  evolve lim d d' /\ all_retired d' (out_completed out) /\ cache' = cache_remove_all cache (out_completed out)
  /\ d_cursors d' = d_cursors d
  /\ (forall m, m ∈ backfill_matched chain bs logs -> settled chain d' m).
Proof.
  intros Hids Hms H. unfold apply_backfill in H. destruct (run_tx _ _ _) as [[out1|e] d1] eqn:Hr; [|done]. simplify_eq.
  apply run_tx_Ok in Hr as [[k Hr]|[_ [s Hr]]]; unfold apply_backfill_tx in Hr;
    tx_inv Hr; destruct a as [stats o]; tx_inv Hr; tx_simp Ht0; tx_inv Hr; [|by tx_simp Hr].
  apply write_stats_Ok in Ht0 as [f ->]. tx_simp Hr.
  pose proof (count_all_settles _ _ _ _ _ _ _ _ _ Hids Ht) as (Hset & _ & Hids1).
  assert (Hcur : d_cursors d0 = d_cursors d).
  { eapply (mfold_Tx_inv _ (fun _ e1 _ => ids_ok e1 /\ d_cursors e1 = d_cursors d)) in Ht; [by destruct Ht| |done].
    intros m b1 e1 n1 b2 e2 n2 _ [Hi1 E1] Hm. apply count_confirmed_Ok in Hm; [|done].
    split; [by eapply count_ids_ok|]. by destruct Hm. }
  apply (count_all_evolves lim) in Ht as [He Hc]; [|done..].
  assert (Hk : keeps_settled d0 (set_stats f (set_watches (clear_backfills (b_id <$> bs)) d0))).
  { split; [|done]. intros i w'. cbn. rewrite lookup_clear_backfills. case_decide; [|by intros; exists w'].
    intros (w & Hw & ->)%fmap_Some. by exists w. }
  split_and!; [done| |done|done|].
  - apply (all_retired_keeps _ _ _ Hk). apply Hc. by intros e w []%not_elem_of_nil.
  - intros m Hm. eapply settled_keeps; [exact Hk|]. by apply Hset.
Qed.

(** The head path adds an open row in its place. *)
Lemma record_pending_evolves lim env d m r d' :
  ids_ok d -> matched_placed height m -> record_pending env d chain m = (r, d') ->
  evolve lim d d' /\ d_cursors d' = d_cursors d /\ dview d' = dview d.
Proof.
  intros Hids [Hh Hi] H. unfold record_pending in H. destruct r as [b|e]; [|by apply run_tx_Err in H as ->].
  apply run_tx_Ok in H as [[k H]|[-> _]]; [|done]. unfold record_pending_tx in H. tx_inv H.
  apply lock_active_watch_Ok in Ht as [(-> & [= -> ->] & _)|(w & w' & Hw & Ha & Hr & -> & [= -> ->])]; [tx_simp H|].
  tx_inv H. apply insert_pending_Ok in Ht as [(-> & [= -> ->] & _)|(-> & Hx & [= -> ->])]; [tx_simp H|].
  tx_inv H. apply insert_event_Ok in Ht as ([= -> -> ->] & Hev & _). tx_simp H. cbn in Hx |- *. split_and!; [|done|].
  - apply transfers_evolve_insert. rewrite Hx. split; [|auto]. split; cbn; [by rewrite Hh|by rewrite <- Hh].
  - unfold dview. cbn. rewrite fmap_insert. apply insert_id. by rewrite lookup_fmap, Hw.
Qed.

End transactions.

(** ** The promise *)

(** Less is promised for two kinds of watches, told apart by labels: those that were ever owed blocks
    behind the cursor, and those that were passed by when a later registration was heard first. *)
Record Exceptions := mkExceptions { ex_late : Z -> Prop; ex_overtaken : Z -> Prop }.

Section good.
Variable hist : TransferKey -> option (Z * Z * Z * Z).
Variable chain : ChainSpec.
Context `{Hspec : !SpecOk chain}.
Variable canon : Z -> list Log.
Variable height : Z -> Z.
(** The watches for which less is promised. *)
Variable ex : Exceptions.
Local Abbreviation late := (ex_late ex).
Local Abbreviation overtaken := (ex_overtaken ex).
(** The height up to which the chain is settled. *)
Variable T : Z.
Local Abbreviation cid := (as_i64 (ch_chain_id chain)).

(** A log of the chain: in the block its hash names, with addresses as topics. *)
Definition chain_log (n : Z) (l : Log) : Prop :=
  l_removed l = false /\ l_block_number l = Some n /\ (exists bh, l_block_hash l = Some bh /\ height bh = n)
  /\ in_i63 n /\ log_ok hist chain l /\ is_address (nth 2 (l_topics l) 0).

Definition canonical : Prop := forall n l, l ∈ canon n -> chain_log n l.

(** Block [b] pays the watch [w], and the matcher would read it as [m]. *)
Definition payment (w : WatchRow) (b : Z) (m : MatchedTransfer) : Prop :=
  exists l key ref, l ∈ canon b /\ slim_entry chain w = Some (key, ref)
    /\ match_log chain (cache_insert cache_new key ref).2 l = Ok m.

(** The block is still to be scanned for the watch by a backfill. *)
Definition owed (w : WatchRow) (b : Z) : Prop := exists to, w_backfill_to w = Some to /\ b <= as_u64 to.

(** The payment is accounted for. *)
Definition answered (d : DB) (i : Z) (key : TransferKey) : Prop :=
  confirmed_at d key \/ (late i /\ ~ countable (d_transfers d !! key)).

Record Good (d : DB) (cache : WatchCache) : Prop := {
  g_inv : Inv hist d;
  g_coherent : coherent chain cache d;
  g_covers : covers_but overtaken chain cache d;
  g_cursor : exists c, cursor d (ch_chain_id chain) = Ok c /\ 0 <= c <= T;
  g_placed : forall key x, d_transfers d !! key = Some x -> key.1.1 = cid -> placed height key x;
  g_ahead : forall key x c, d_transfers d !! key = Some x -> key.1.1 = cid ->
    cursor d (ch_chain_id chain) = Ok c -> c < height key.1.2 -> x_status x = Pending \/ x_status x = Confirmed;
  g_behind : forall i w b m c, d_watches d !! i = Some w -> active_on_chain cid w = true -> payment w b m ->
    cursor d (ch_chain_id chain) = Ok c -> b <= c -> ~ owed w b -> ~ overtaken i -> answered d i (transfer_key chain m);
  g_late : forall i w, d_watches d !! i = Some w -> w_chain_id w = cid -> is_Some (w_backfill_to w) -> late i;
  g_owed : forall i w to c, d_watches d !! i = Some w -> w_chain_id w = cid -> w_backfill_to w = Some to ->
    cursor d (ch_chain_id chain) = Ok c -> as_u64 to <= c;
  g_start : forall i w, d_watches d !! i = Some w -> w_chain_id w = cid ->
    1 <= w_start_block w /\ in_i63 (w_start_block w);
  g_latest : forall i j w v, d_watches d !! i = Some w -> d_watches d !! j = Some v ->
    active_on_chain cid w = true -> target v = target w -> w_seq v <= w_seq w;
  g_seq : cache_last_seq cache <= d_watch_seq d;
}.

Hypothesis Hcanon : canonical.
Hypothesis HT : T < 2 ^ 62.

Lemma slim_entry_same w w' : same_watch w w' -> slim_entry chain w' = slim_entry chain w.
Proof.
  intros (E1 & E2 & E3 & _ & _ & E6). unfold slim_entry, target in *. injection E3 as _ Et Ea.
  by rewrite E1, E2, E6, Et, Ea.
Qed.

Lemma payment_same w w' b m : same_watch w w' -> payment w' b m -> payment w b m.
Proof. intros Hs (l & key & ref & Hl & He & Hm). exists l, key, ref. by rewrite <- (slim_entry_same w w' Hs). Qed.

Lemma active_same cid' w w' :
  same_watch w w' -> (w_status w' = Active -> w_status w = Active) ->
  active_on_chain cid' w' = true -> active_on_chain cid' w = true.
Proof.
  intros (_ & _ & E & _) Ha [Hc Hs]%active_on_chain_true. apply active_on_chain_true. injection E as Ec _ _.
  split; [congruence|auto].
Qed.

(** What a payment says of its block. *)
Lemma payment_block w b m :
  payment w b m -> m_block_number m = b /\ height (m_block_hash m) = b /\ in_i63 b
    /\ as_u64 (w_start_block w) <= b.
Proof.
  intros (l & key & ref & Hl & He & Hm). apply Hcanon in Hl as (_ & Hn & (bh & Hbh & Hh) & Hi & _).
  apply match_log_inv in Hm as (token & _ & Hg & _ & _ & _ & _ & Hst & Hbn & Hbh' & _).
  rewrite cache_get_insert in Hg. case_decide; [|done]. injection Hg as Hg.
  apply slim_entry_inv in He as (_ & _ & _ & _ & _ & _ & _ & Es). rewrite <- Es, Hg.
  rewrite Hn in Hbn. rewrite Hbh in Hbh'. simplify_eq. split_and!; [done..|congruence].
Qed.

Lemma answered_evolves lim d d' i key :
  transfers_evolve cid height lim (d_transfers d) (d_transfers d') -> key.1.1 = cid ->
  answered d i key -> answered d' i key.
Proof.
  intros He Hk [Hc|[Hl Hc]]; [left; by eapply evolve_confirmed|right]. split; [done|]. by eapply evolve_closed.
Qed.

(** ** Advancing *)

Lemma Good_advance d cache d' cache' c c' :
  Good d cache -> Inv hist d' -> coherent chain cache' d' -> covers_but overtaken chain cache' d' ->
  cache_last_seq cache' <= d_watch_seq d' ->
  cursor d (ch_chain_id chain) = Ok c -> cursor d' (ch_chain_id chain) = Ok c' -> c <= c' <= T ->
  rows_kept d d' -> rows_old d d' ->
  (forall i w w', d_watches d !! i = Some w -> d_watches d' !! i = Some w' ->
     w_backfill_to w' = w_backfill_to w \/ w_backfill_to w' = None) ->
  transfers_evolve cid height c' (d_transfers d) (d_transfers d') ->
  (forall i w w' b m, d_watches d !! i = Some w -> d_watches d' !! i = Some w' -> same_watch w w' ->
     active_on_chain cid w = true -> active_on_chain cid w' = true ->
     payment w b m -> b <= c' -> ~ owed w' b -> ~ overtaken i -> c < b \/ owed w b -> answered d' i (transfer_key chain m)) ->
  Good d' cache'.
Proof.
  intros HG HI Hco Hcv Hsq Hc Hc' Hcc Hrows Hold Hdebt Hev Hnew.
  destruct (g_cursor _ _ HG) as (c0 & Hc0 & Hb0). rewrite Hc in Hc0. injection Hc0 as <-.
  assert (Hback : forall i w', d_watches d' !! i = Some w' -> exists w, d_watches d !! i = Some w
    /\ same_watch w w' /\ (w_status w' = Active -> w_status w = Active)).
  { intros i w' Hw'. destruct (Hold i) as [w Hw]; [by eexists|]. exists w. split; [done|].
    destruct (Hrows i w Hw) as (w2 & Hw2 & ?). by simplify_eq. }
  split; [done..| | | | | | | | |done].
  - exists c'. split; [done|lia].
  - intros key x' Hx' Hk. specialize (Hev key Hk). rewrite Hx' in Hev.
    destruct (d_transfers d !! key) as [x|] eqn:Hx; [|by destruct Hev].
    destruct (g_placed _ _ HG key x Hx Hk) as [Hp Hi]. split; [|done]. by destruct Hev as [-> _].
  - intros key x' c2 Hx' Hk Hc2 Hlt. rewrite Hc' in Hc2. injection Hc2 as <-.
    specialize (Hev key Hk). rewrite Hx' in Hev. destruct (d_transfers d !! key) as [x|] eqn:Hx.
    + destruct (g_placed _ _ HG key x Hx Hk) as [Hp Hi]. destruct Hev as [_ [E|[_ [E|E]]]]; [|by right|].
      * rewrite E. apply (g_ahead _ _ HG key x c); [done..|lia].
      * rewrite Hp, as_i64_id in E by done. lia.
    + destruct Hev as [[Hp Hi] [E|[E|E]]]; [by left|by right|]. rewrite Hp, as_i64_id in E by done. lia.
  - intros i w' b m c2 Hw' Ha Hpay Hc2 Hle Ho Hx. rewrite Hc' in Hc2. injection Hc2 as <-.
    destruct (Hback i w' Hw') as (w & Hw & Hs & Hact). pose proof (active_same _ _ _ Hs Hact Ha) as Haw.
    pose proof (payment_same _ _ _ _ Hs Hpay) as Hpw.
    destruct (decide (c < b)) as [Hlt|Hge]; [by eapply Hnew; eauto|].
    destruct (w_backfill_to w) as [to|] eqn:Eto.
    + destruct (decide (b <= as_u64 to)).
      * eapply Hnew; eauto. right. by exists to.
      * eapply answered_evolves; [done..|]. eapply (g_behind _ _ HG); eauto; [lia|].
        intros (to' & E & ?). simplify_eq. lia.
    + eapply answered_evolves; [done..|]. eapply (g_behind _ _ HG); eauto; [lia|]. by intros (to' & E & _); simplify_eq.
  - intros i w' Hw' Hch [to Hto]. destruct (Hback i w' Hw') as (w & Hw & (_ & _ & Et & _) & _).
    injection Et as Ec _ _. eapply (g_late _ _ HG); [exact Hw|congruence|].
    destruct (Hdebt i w w' Hw Hw') as [E|E]; [|congruence]. exists to. congruence.
  - intros i w' to c2 Hw' Hch Hto Hc2. rewrite Hc' in Hc2. injection Hc2 as <-.
    destruct (Hback i w' Hw') as (w & Hw & (_ & _ & Et & _) & _). injection Et as Ec _ _.
    destruct (Hdebt i w w' Hw Hw') as [E|E]; [|congruence].
    etrans; [eapply (g_owed _ _ HG i w to c); congruence|lia].
  - intros i w' Hw' Hch. destruct (Hback i w' Hw') as (w & Hw & (_ & _ & Et & _ & _ & Es) & _). rewrite Es.
    injection Et as Ec _ _. eapply (g_start _ _ HG); [exact Hw|congruence].
  - intros i j w' v' Hw' Hv' Ha Ht. destruct (Hback i w' Hw') as (w & Hw & Hs & Hact).
    destruct (Hback j v' Hv') as (v & Hv & (_ & Eq2 & Et2 & _) & _). pose proof Hs as (_ & Eq & Et & _). rewrite Eq, Eq2.
    eapply (g_latest _ _ HG); [exact Hw|exact Hv|by eapply active_same|congruence].
Qed.

(** A change that leaves the cursor where it is. *)
Lemma Good_stay d cache d' cache' :
  Good d cache -> Inv hist d' -> coherent chain cache' d' -> covers_but overtaken chain cache' d' ->
  cache_last_seq cache' <= d_watch_seq d' ->
  d_cursors d' = d_cursors d -> rows_kept d d' -> rows_old d d' ->
  (forall i w w', d_watches d !! i = Some w -> d_watches d' !! i = Some w' -> w_backfill_to w' = w_backfill_to w) ->
  (forall lim, transfers_evolve cid height lim (d_transfers d) (d_transfers d')) -> Good d' cache'.
Proof.
  intros HG HI Hco Hcv Hsq Hcur Hrows Hold Hdebt Hev. destruct (g_cursor _ _ HG) as (c & Hc & Hb).
  assert (Hc' : cursor d' (ch_chain_id chain) = Ok c) by (unfold cursor in *; by rewrite Hcur).
  eapply Good_advance; eauto; [lia|]. intros i w w' b m Hw Hw' Hs _ _ _ Hle Ho _ [Hlt|Hyes]; [lia|].
  destruct Ho. destruct Hyes as (to & Hto & ?). exists to. by rewrite (Hdebt i w w' Hw Hw').
Qed.

(** ** The cache *)

Lemma complete_covers cache d : complete_but overtaken chain cache d -> covers_but overtaken chain cache d.
Proof. intros H i w key ref ? ? ? _ ?. by eapply H. Qed.

(** Rows that do not become active keep a cache covering. *)
Lemma covers_rows cache d d' : rows_kept d d' -> rows_old d d' -> covers_but overtaken chain cache d -> covers_but overtaken chain cache d'.
Proof.
  intros Hrows Hold Hc i w' key ref Hw' Ha He Hs Hx. destruct (Hold i) as [w Hw]; [by eexists|].
  destruct (Hrows i w Hw) as (w2 & Hw2 & Hsame & Hact). simplify_eq.
  rewrite (slim_entry_same w w' Hsame) in He. pose proof Hsame as (_ & E2 & _).
  eapply Hc; [exact Hw|by eapply active_same|exact He|by rewrite <- E2|exact Hx].
Qed.

Lemma covers_remove_all cache d es : ids_ok d -> covers_but overtaken chain cache d -> all_retired d es ->
  covers_but overtaken chain (cache_remove_all cache es) d.
Proof.
  intros Hids Hc Hr i w key ref Hw Ha He Hs Hx. unfold cache_last_seq in Hs. rewrite cache_last_seq_remove_all in Hs.
  apply cache_get_remove_all; [by eapply Hc|]. intros Hin.
  apply slim_entry_inv in He as (_ & _ & _ & _ & _ & Eid & _). rewrite (Hids _ _ Hw) in Eid.
  apply active_on_chain_true in Ha as [_ Ha]. apply (Hr _ w Hin); [|done]. cbn. by rewrite Eid.
Qed.

Lemma complete_rows cache d d' : rows_kept d d' -> rows_old d d' -> complete_but overtaken chain cache d -> complete_but overtaken chain cache d'.
Proof.
  intros Hrows Hold Hc i w' key ref Hw' Ha He Hx. destruct (Hold i) as [w Hw]; [by eexists|].
  destruct (Hrows i w Hw) as (w2 & Hw2 & Hsame & Hact). simplify_eq.
  eapply Hc; [exact Hw|by eapply active_same|by rewrite <- (slim_entry_same w w' Hsame)|exact Hx].
Qed.

Lemma covers_remove cache d key id :
  ids_ok d -> covers_but overtaken chain cache d -> (forall w, d_watches d !! id = Some w -> w_status w ≠ Active) ->
  covers_but overtaken chain (cache_remove cache key id).2 d.
Proof.
  intros Hids Hc Hr. apply (covers_remove_all cache d [(key, id)] Hids Hc).
  intros e w ->%list_elem_of_singleton. apply Hr.
Qed.

(** ** What the other tasks of the leader do *)

(** The head path records a transfer it has matched; the API registers, cancels and tells the
    runtime; notifications arrive in any order, and a watch not in the cache when a later one is
    heard of is labelled; other chains and the dispatcher leave this chain alone. *)
Inductive peer : DB * ChainRuntime -> DB * ChainRuntime -> Prop :=
  | peer_pending d rt env m r d' :
      matched_ok hist chain d m -> matched_placed height m -> record_pending env d chain m = (r, d') ->
      peer (d, rt) (d', rt)
  | peer_create d rt env new r d' :
      create_watch env d new = (r, d') -> 0 <= n_head_estimate new < 2 ^ 61 -> 0 <= n_lookback_blocks new < 2 ^ 61 ->
      (n_lookback_blocks new ≠ 0 -> late (e_ids env 0)) -> peer (d, rt) (d', rt)
  | peer_add d rt id row key ref :
      d_watches d !! id = Some row -> active_on_chain cid row = true -> slim_entry chain row = Some (key, ref) ->
      (forall j v key' ref', d_watches d !! j = Some v -> active_on_chain cid v = true ->
         slim_entry chain v = Some (key', ref') -> w_seq v < w_seq row -> cache_get (rt_cache rt) key' = Some ref' \/ overtaken j) ->
      peer (d, rt) (d, add_watch rt key ref)
  | peer_cancel d rt env id r d' : cancel_watch env d id = (r, d') -> peer (d, rt) (d', rt)
  | peer_remove d rt key id :
      (forall w, d_watches d !! id = Some w -> w_status w ≠ Active) -> peer (d, rt) (d, remove_watch rt key id)
  | peer_runtime d rt rt' : rt_cache rt' = rt_cache rt -> peer (d, rt) (d, rt')
  | peer_elsewhere d rt d' :
      rtc (step hist) d d' -> d_cursors d' !! cid = d_cursors d !! cid ->
      (forall i w, w_chain_id w = cid -> d_watches d' !! i = Some w <-> d_watches d !! i = Some w) ->
      (forall key, key.1.1 = cid -> d_transfers d' !! key = d_transfers d !! key) -> peer (d, rt) (d', rt).

Lemma dview_backfill d d' i w w' :
  dview d' = dview d -> d_watches d !! i = Some w -> d_watches d' !! i = Some w' -> w_backfill_to w' = w_backfill_to w.
Proof.
  intros E Hw Hw'. assert (H : dview d' !! i = dview d !! i) by by rewrite E. unfold dview in H.
  rewrite !lookup_fmap, Hw, Hw' in H. cbn in H. by injection H.
Qed.

Lemma Good_pending d cache env m r d' :
  Good d cache -> matched_ok hist chain d m -> matched_placed height m -> record_pending env d chain m = (r, d') ->
  Good d' cache.
Proof.
  intros HG Hm Hp H. pose proof (ids_ok_of_inv hist d (g_inv _ _ HG)) as Hids.
  destruct (record_pending_steps hist env d chain m r d' Hids Hm H) as [Hs Ht].
  destruct (record_pending_evolves chain height 0 env d m r d' Hids Hp H) as (_ & Hc & Hd).
  pose proof (steps_rows _ _ _ Hs) as Hrows. pose proof (same_targets_old _ _ Ht) as Hold.
  apply (Good_stay d cache); [done|eapply Inv_steps; [apply HG|done]|eapply coherent_frame; [done|apply HG]
    |eapply covers_rows; [done..|apply HG]| |done..| |].
  - etrans; [apply (g_seq _ _ HG)|by eapply steps_seq].
  - intros i w w'. by apply dview_backfill.
  - intros lim. by apply (record_pending_evolves chain height lim env d m r d').
Qed.

Lemma Good_cancel d cache env id r d' : Good d cache -> cancel_watch env d id = (r, d') -> Good d' cache.
Proof.
  intros HG H. destruct (cancel_watch_steps hist env d id r d' H) as [Hs Ht].
  pose proof (steps_rows _ _ _ Hs) as Hrows. pose proof (same_targets_old _ _ Ht) as Hold.
  assert (Hd : d_cursors d' = d_cursors d /\ d_transfers d' = d_transfers d /\ dview d' = dview d).
  { unfold cancel_watch in H. destruct (d_watches d !! id) as [w|] eqn:Hw; [|by simplify_eq].
    destruct (is_active w); simplify_eq; [|done]. split_and!; [done..|]. unfold dview. cbn. rewrite fmap_insert.
    apply insert_id. by rewrite lookup_fmap, Hw. }
  destruct Hd as (Hc & Et & Hd).
  apply (Good_stay d cache); [done|eapply Inv_steps; [apply HG|done]|eapply coherent_frame; [done|apply HG]
    |eapply covers_rows; [done..|apply HG]| |done..| |by rewrite Et].
  - etrans; [apply (g_seq _ _ HG)|by eapply steps_seq].
  - intros i w w'. by apply dview_backfill.
Qed.

Lemma Good_cache d cache cache' :
  Good d cache -> coherent chain cache' d -> covers_but overtaken chain cache' d -> cache_last_seq cache' <= d_watch_seq d -> Good d cache'.
Proof. intros [] ? ? ?. by split. Qed.

Lemma Good_remove d cache key id :
  Good d cache -> (forall w, d_watches d !! id = Some w -> w_status w ≠ Active) -> Good d (cache_remove cache key id).2.
Proof.
  intros HG Hr. pose proof (ids_ok_of_inv hist d (g_inv _ _ HG)) as Hids. apply (Good_cache d cache); [done|..].
  - apply coherent_remove, HG.
  - apply covers_remove; [done|apply HG|done].
  - unfold cache_last_seq. rewrite cache_last_seq_remove. apply HG.
Qed.

Lemma Good_add d cache id row key ref :
  Good d cache -> d_watches d !! id = Some row -> active_on_chain cid row = true -> slim_entry chain row = Some (key, ref) ->
  (forall j v key' ref', d_watches d !! j = Some v -> active_on_chain cid v = true ->
     slim_entry chain v = Some (key', ref') -> w_seq v < w_seq row -> cache_get cache key' = Some ref' \/ overtaken j) ->
  Good d (cache_insert cache key ref).2.
Proof.
  intros HG Hrow Ha He Hord. pose proof (ids_ok_of_inv hist d (g_inv _ _ HG)) as Hids.
  pose proof (inv_watches _ _ (g_inv _ _ HG)) as Hok.
  pose proof (slim_entry_inv _ _ _ _ He) as (_ & _ & _ & _ & _ & _ & Hseq & _).
  apply (Good_cache d cache); [done|..].
  - apply active_on_chain_true in Ha as [Hch _]. by eapply coherent_insert_row, g_coherent.
  - intros j v key' ref' Hv Hav Hev Hle Hx. rewrite cache_get_insert. case_decide as Ek.
    + subst key'. assert (id = j) as <- by (by eapply (slim_entry_inj chain d Hok)). congruence.
    + unfold cache_last_seq in Hle. rewrite cache_last_seq_insert, Hseq in Hle.
      destruct (decide (w_seq v < w_seq row)); [by destruct (Hord j v key' ref')|].
      destruct (decide (w_seq v <= c_last_seq cache)); [by eapply (g_covers _ _ HG)|].
      assert (id = j) as <- by (eapply (wo_seq_inj _ _ Hok); eauto; lia). simplify_eq.
  - unfold cache_last_seq. rewrite cache_last_seq_insert, Hseq. pose proof (wo_seq _ _ Hok _ _ Hrow).
    pose proof (g_seq _ _ HG). unfold cache_last_seq in *. lia.
Qed.

Lemma Good_elsewhere d cache d' :
  Good d cache -> rtc (step hist) d d' -> d_cursors d' !! cid = d_cursors d !! cid ->
  (forall i w, w_chain_id w = cid -> d_watches d' !! i = Some w <-> d_watches d !! i = Some w) ->
  (forall key, key.1.1 = cid -> d_transfers d' !! key = d_transfers d !! key) -> Good d' cache.
Proof.
  intros HG Hs Hc Hw Ht.
  assert (Hcur : cursor d' (ch_chain_id chain) = cursor d (ch_chain_id chain)) by (unfold cursor; by rewrite Hc).
  split.
  - eapply Inv_steps; [apply HG|done].
  - eapply coherent_grow; [by eapply steps_targets|apply HG].
  - intros i w key ref Hi Ha. pose proof Ha as [Hch _]%active_on_chain_true. apply (Hw i w Hch) in Hi.
    intros. by eapply (g_covers _ _ HG).
  - rewrite Hcur. apply HG.
  - intros key x Hx Hk. rewrite Ht in Hx by done. by apply (g_placed _ _ HG).
  - intros key x c Hx Hk. rewrite Ht in Hx by done. rewrite Hcur. by apply (g_ahead _ _ HG).
  - intros i w b m c Hi Ha. pose proof Ha as [Hch _]%active_on_chain_true. apply (Hw i w Hch) in Hi. rewrite Hcur.
    intros. unfold answered, confirmed_at. rewrite Ht by done. by eapply (g_behind _ _ HG).
  - intros i w Hi Hch. apply (Hw i w Hch) in Hi. by apply (g_late _ _ HG).
  - intros i w to c Hi Hch Hto. rewrite Hcur. apply (Hw i w Hch) in Hi. by eapply (g_owed _ _ HG).
  - intros i w Hi Hch. apply (Hw i w Hch) in Hi. by apply (g_start _ _ HG i).
  - intros i j w v Hi Hj Ha Et. pose proof Ha as [Hch _]%active_on_chain_true. apply (Hw i w Hch) in Hi.
    apply Hw in Hj; [|unfold target in Et; congruence]. by eapply (g_latest _ _ HG).
  - etrans; [apply (g_seq _ _ HG)|by eapply steps_seq].
Qed.

(** A registration at the cursor leaves nothing behind it that is not owed. *)
Lemma Good_registered d cache env new c :
  Good d cache -> as_i64 (n_chain_id new) = cid -> cursor d (n_chain_id new) = Ok c ->
  rtc (step hist) d (put_watch (e_ids env 0) (new_row env d new c) (draw_seq d)) ->
  active_on d (as_i64 (n_chain_id new)) (n_token_address new) (n_payment_address new) = None ->
  d_watches d !! e_ids env 0 = None ->
  0 <= n_head_estimate new < 2 ^ 61 -> 0 <= n_lookback_blocks new < 2 ^ 61 ->
  (n_lookback_blocks new ≠ 0 -> late (e_ids env 0)) ->
  Good (put_watch (e_ids env 0) (new_row env d new c) (draw_seq d)) cache.
Proof.
  intros HG Ecid Hc Hs Hfree Hnew Hh Hl Hlate.
  assert (Hc' : cursor d (ch_chain_id chain) = Ok c) by (unfold cursor in *; by rewrite Ecid in Hc; destruct (d_cursors d !! _)).
  destruct (g_cursor _ _ HG) as (c0 & Hc0 & Hb0). rewrite Hc' in Hc0. injection Hc0 as <-.
  pose proof (fun b => registered_no_gap c (n_head_estimate new) (n_lookback_blocks new) b ltac:(lia) ltac:(lia) ltac:(lia)) as Hreg.
  unfold registered in Hreg. set (start := start_block c (n_head_estimate new) (n_lookback_blocks new)) in *.
  destruct (Hreg 0) as (_ & Hto & Hst & Hz & _).
  assert (Estart : as_i64 start = start) by (apply as_i64_id; unfold in_i63; lia).
  pose proof (inv_watches _ _ (g_inv _ _ HG)) as Hok. set (r := new_row env d new c) in *.
  assert (Er : w_start_block r = start /\ w_backfill_to r = as_i64 <$> (if start <=? c then Some c else None)) by done.
  destruct Er as [Es Eb]. pose proof (proj1 (active_on_None _ _ _ _) Hfree) as Hno.
  split; cbn [put_watch draw_seq d_watches d_transfers d_cursors d_watch_seq set_watches].
  - eapply Inv_steps; [apply HG|done].
  - eapply coherent_grow; [by eapply steps_targets|apply HG].
  - intros i w key ref Hi Ha He Hle Hx. cbn in Hi.
    apply lookup_insert_Some in Hi as [[<- <-]|[_ Hi]]; [|by eapply (g_covers _ _ HG)].
    pose proof (g_seq _ _ HG). cbn in Hle. lia.
  - exists c. done.
  - apply HG.
  - intros key x c2 Hx Hk Hc2. by apply (g_ahead _ _ HG).
  - intros i w b m c2 Hi Ha Hpay Hc2 Hle Ho Hx. change (cursor d (ch_chain_id chain) = Ok c2) in Hc2.
    apply lookup_insert_Some in Hi as [[<- <-]|[_ Hi]]; [|by eapply (g_behind _ _ HG)].
    rewrite Hc' in Hc2. injection Hc2 as <-. destruct Ho. apply payment_block in Hpay as (_ & _ & _ & Hge).
    rewrite Es, as_u64_id in Hge by (unfold in_u64; lia). destruct (Hreg b) as ([|(to & E & Hbt)] & _); [lia|lia|].
    rewrite E in Eb. exists (as_i64 to). split; [exact Eb|]. destruct (Hto to E) as [-> _].
    rewrite as_u64_as_i64 by (unfold in_u64; lia). lia.
  - intros i w [[<- <-]|[_ Hi]]%lookup_insert_Some Hch Hsome; [|by eapply (g_late _ _ HG)].
    apply Hlate. intros E. rewrite Eb in Hsome. destruct (Z.leb_spec start c); [|by destruct Hsome].
    specialize (Hz E). lia.
  - intros i w to c2 [[<- <-]|[_ Hi]]%lookup_insert_Some Hch Hto' Hc2; [|by eapply (g_owed _ _ HG)].
    change (cursor d (ch_chain_id chain) = Ok c2) in Hc2. rewrite Hc' in Hc2. injection Hc2 as <-.
    rewrite Eb in Hto'. destruct (start <=? c); [|done]. injection Hto' as <-.
    rewrite as_u64_as_i64 by (unfold in_u64; lia). done.
  - intros i w [[<- <-]|[_ Hi]]%lookup_insert_Some Hch; [|by eapply (g_start _ _ HG)].
    rewrite Es. unfold in_i63. lia.
  - intros i j w v [[<- <-]|[_ Hi]]%lookup_insert_Some [[<- <-]|[_ Hj]]%lookup_insert_Some Ha Et; [done|..].
    + pose proof (wo_seq _ _ Hok _ _ Hj). cbn. lia.
    + apply active_on_chain_true in Ha as [_ Ha]. by destruct (Hno i w Hi Ha).
    + by eapply (g_latest _ _ HG).
  - pose proof (g_seq _ _ HG). lia.
Qed.

Lemma Good_create d cache env new r d' :
  Good d cache -> create_watch env d new = (r, d') -> 0 <= n_head_estimate new < 2 ^ 61 ->
  0 <= n_lookback_blocks new < 2 ^ 61 -> (n_lookback_blocks new ≠ 0 -> late (e_ids env 0)) -> Good d' cache.
Proof.
  intros HG H Hh Hl Hlate. pose proof (create_watch_steps hist env d new r d' H) as Hs.
  destruct r as [o|e]; [|by apply run_tx_Err in H as ->].
  revert Hs. apply create_watch_Ok in H as [c w Hc Hth Ha Hnew _|r w Ha _]; intros Hs.
  - destruct (decide (as_i64 (n_chain_id new) = cid)) as [E|E]; [by apply Good_registered|].
    apply (Good_elsewhere d); [done..| |done]. intros i v Hch. cbn. rewrite lookup_insert_Some. split.
    + intros [[<- <-]|[_ ?]]; [by destruct E|done].
    + intros Hi. right. split; [|done]. congruence.
  - by apply (Good_elsewhere d).
Qed.

(** What the others do keeps the promise. *)
Lemma Good_peer p p' : peer p p' -> Good p.1 (rt_cache p.2) -> Good p'.1 (rt_cache p'.2).
Proof.
  destruct 1; cbn [fst snd]; intros HG.
  - by eapply Good_pending.
  - by eapply Good_create.
  - rewrite add_watch_cache. by eapply Good_add.
  - by eapply Good_cancel.
  - rewrite remove_watch_cache. by apply Good_remove.
  - by rewrite H.
  - by eapply Good_elsewhere.
Qed.

Lemma Good_peers p p' : rtc peer p p' -> Good p.1 (rt_cache p.2) -> Good p'.1 (rt_cache p'.2).
Proof. induction 1; eauto using Good_peer. Qed.

(** ** What the sweeper does *)

Lemma Good_expire d cache env limit r d' :
  Good d cache -> expire_watches env d chain limit = (r, d') ->
  Good d' cache
  /\ (forall ws row, r = Ok ws -> row ∈ ws -> forall w, d_watches d' !! w_id row = Some w -> w_status w ≠ Active).
Proof.
  intros HG H. pose proof (ids_ok_of_inv hist d (g_inv _ _ HG)) as Hids.
  destruct (expire_watches_steps hist env d chain limit r d' Hids H) as [Hs Ht].
  destruct (expire_watches_frame chain env d limit r d' Hids H) as (Et & Ec & Hr). split; [|done].
  pose proof (steps_rows _ _ _ Hs) as Hrows. pose proof (same_targets_old _ _ Ht) as Hold.
  apply (Good_stay d cache); [done|eapply Inv_steps; [apply HG|done]|eapply coherent_frame; [done|apply HG]
    |eapply covers_rows; [done..|apply HG]| |done..| |by rewrite Et].
  - etrans; [apply (g_seq _ _ HG)|by eapply steps_seq].
  - intros i w w'. by apply dview_backfill, (expire_keeps _ _ _ _ _ _ H).
Qed.

Lemma Good_fast_forward d cache target r d' :
  Good d cache -> 0 <= target <= T -> fast_forward_cursor d (ch_chain_id chain) target = (r, d') -> Good d' cache.
Proof.
  intros HG Ht H. destruct (fast_forward_steps hist _ _ _ _ _ H) as [Hs Htg].
  destruct r as [new|e]; [|unfold fast_forward_cursor in H; destruct (cursor _ _); by simplify_eq].
  destruct (g_cursor _ _ HG) as (c & Hc & Hb).
  destruct (fast_forward_spec d d' (ch_chain_id chain) target c new H Hc) as (Hle & Hc' & Hst & _ & (Ew & Et & _)).
  { unfold in_u64. lia. }
  { intros i w Hi [Hch _]%active_on_chain_true. by apply (g_start _ _ HG i w Hi Hch). }
  pose proof (steps_rows _ _ _ Hs) as Hrows. pose proof (same_targets_old _ _ Htg) as Hold.
  eapply (Good_advance d cache d' cache c new); [done|eapply Inv_steps; [apply HG|done]|eapply coherent_frame; [done|apply HG]
    |eapply covers_rows; [done..|apply HG]| |done|done|lia|done..| |by rewrite Et|].
  - etrans; [apply (g_seq _ _ HG)|by eapply steps_seq].
  - intros i w w' Hw Hw'. rewrite Ew, Hw in Hw'. left. congruence.
  - intros i w w' b m Hw Hw' _ Ha _ Hpay Hle2 Ho _ Hor. rewrite Ew, Hw in Hw'. injection Hw' as <-.
    destruct Hor as [Hlt|Hyes]; [|done]. apply payment_block in Hpay as (_ & _ & _ & Hge).
    pose proof (g_start _ _ HG i w Hw) as Hs1. apply active_on_chain_true in Ha as Ha'. destruct Ha' as [Hch _].
    specialize (Hs1 Hch) as [_ Hs1]. rewrite as_u64_id in Hge by auto with gum. destruct (Hst i w Hw Ha); lia.
Qed.

(** What a reply may be: logs of the chain, and all that the filter asks for. *)
Record honest_reply (f : Filter) (logs : list Log) : Prop := {
  hr_sound : forall l, l ∈ logs -> l_removed l = false ->
    log_ok hist chain l /\ forall n bh, l_block_number l = Some n -> l_block_hash l = Some bh -> n = height bh /\ in_i63 n;
  hr_complete : forall b l, f_from_block f <= b <= f_to_block f -> l ∈ canon b -> l_address l ∈ f_address f ->
    head (l_topics l) = Some TRANSFER_TOPIC ->
    (forall rs, f_recipients f = Some rs -> nth 2 (l_topics l) 0 ∈ rs) -> l ∈ logs;
}.

Lemma match_log_topic cache l m : match_log chain cache l = Ok m -> head (l_topics l) = Some TRANSFER_TOPIC.
Proof. unfold match_log. case_bool_decide; [done|]. by cbn. Qed.

Lemma match_log_emitter cache l m :
  match_log chain cache l = Ok m -> exists t, t ∈ ch_tokens chain /\ t_log_address t = l_address l /\ t_idx t = m_token_idx m.
Proof.
  intros (t & Ht & _ & Hi & _)%match_log_inv. apply find_Some_elem in Ht as [Hin E%Z.eqb_eq]. exists t. done.
Qed.

Lemma matched_are_placed f logs cache l m :
  honest_reply f logs -> l ∈ logs -> l_removed l = false -> match_log chain cache l = Ok m -> matched_placed height m.
Proof.
  intros Hr Hl Hrem (t & _ & _ & _ & _ & _ & _ & _ & Hn & Hbh & _)%match_log_inv.
  by apply (hr_sound _ _ Hr l Hl Hrem).
Qed.

Lemma Good_sweep d cache env c to logs r d' cache' :
  Good d cache -> c < to <= T -> honest_reply (mkFilter (log_addresses chain) None (c + 1) to) logs ->
  apply_sweep env d chain cache c to logs = (r, d', cache') -> Good d' cache'.
Proof.
  intros HG Hto Hrep H. pose proof (g_inv _ _ HG) as HI. pose proof (inv_watches _ _ HI) as Hok.
  pose proof (ids_ok_of_inv hist d HI) as Hids.
  destruct (apply_sweep_steps hist chain env d cache c to logs r d' cache' HI (g_coherent _ _ HG)) as (Hs & Ht & Hco); [|done|].
  { apply Forall_forall. intros l Hl Hrem. by apply (hr_sound _ _ Hrep). }
  set (cache1 := cache_insert_all cache (delta_load d chain (cache_last_seq cache))).
  assert (Hcomp : complete_but overtaken chain cache1 d) by (by apply delta_load_complete; [done..|apply HG]).
  assert (Hseq1 : cache_last_seq cache1 <= d_watch_seq d).
  { unfold cache1, cache_last_seq at 1. rewrite cache_insert_all_last_seq. pose proof (g_seq _ _ HG) as Hq.
    assert (Hb : forall l, (forall e, e ∈ l -> r_seq e.2 <= d_watch_seq d) ->
      foldr Z.max (c_last_seq cache) ((fun e : WatchKey * WatchRef => r_seq e.2) <$> l) <= d_watch_seq d).
    { induction l as [|e l IH]; intros Hl; cbn; [exact Hq|]. apply Z.max_lub; [apply Hl, list_elem_of_here|].
      apply IH. intros e' He'. apply Hl. by apply list_elem_of_further. }
    apply Hb. intros [key ref] (i & w & Hi & _ & _ & He)%elem_of_delta_load. cbn.
    apply slim_entry_inv in He as (_ & _ & _ & _ & _ & _ & -> & _). by eapply (wo_seq _ _ Hok). }
  destruct r as [[out|e a]|e].
  - pose proof (apply_sweep_cursor chain env d cache c to logs out d' cache' H) as Hc'.
    pose proof (sweep_settles_payment overtaken chain env d cache c to logs out d' cache') as Hpay.
    pose proof (apply_sweep_keeps _ _ _ _ _ _ _ _ _ _ H) as Hdv. pose proof H as H0.
    apply apply_sweep_Applied in H as (Hc & disc & k & H & Ecache). fold cache1 in H, Ecache.
    destruct (g_cursor _ _ HG) as (c0 & Hc0 & Hb0). rewrite Hc in Hc0. injection Hc0 as <-.
    apply (sweep_account_evolves chain height) in H as [Hev Hret]; [|done|].
    2:{ apply Forall_forall. intros m (l & Hl & Hrem & Hm)%matched_sweep. by eapply matched_are_placed. }
    rewrite (as_i64_id to) in Hev by (unfold in_i63; lia).
    pose proof (steps_rows _ _ _ Hs) as Hrows. pose proof (same_targets_old _ _ Ht) as Hold.
    assert (Hids' : ids_ok d') by (eapply (ids_ok_of_inv hist); eapply Inv_steps; done).
    eapply (Good_advance d cache d' cache' c to); [done|by eapply Inv_steps|done| | |done|apply Hc'; unfold in_u64; lia|lia|done|done| |done|].
    + rewrite Ecache. apply covers_remove_all; [done| |done]. apply complete_covers. by eapply complete_rows.
    + rewrite Ecache. unfold cache_last_seq. rewrite cache_last_seq_remove_all. etrans; [exact Hseq1|by eapply steps_seq].
    + intros i w w' Hw Hw'. left. by eapply dview_backfill.
    + intros i w w' b m Hw Hw' Hsame Ha Ha' Hp Hle Ho Hx Hor. left. destruct Hor as [Hlt|(to' & Eto & Hle')].
      2:{ destruct Ho. exists to'. by rewrite (dview_backfill _ _ _ _ _ Hdv Hw Hw'). }
      pose proof (payment_block _ _ _ Hp) as (_ & Eh & Hi & _). destruct Hp as (l & key & ref & Hl & He & Hm).
      assert (Hin : l ∈ logs).
      { destruct (match_log_emitter _ _ _ Hm) as (t & Htin & Eem & _).
        eapply (hr_complete _ _ Hrep b); cbn; [lia|done| |by eapply match_log_topic|done].
        rewrite <- Eem. apply list_elem_of_fmap. by exists t. }
      destruct (Hpay i w key ref l m Hok (g_covers _ _ HG) Hx H0 Hw Ha He Hin) as [Hn|[Hyes|(v & Hv & Hna)]];
        [by apply Hcanon in Hl as (? & _)|done| |done|].
      * destruct (d_transfers d !! transfer_key chain m) as [x|] eqn:Hrow; [|by destruct Hn].
        destruct (g_ahead _ _ HG _ x c Hrow eq_refl Hc) as [Hpen|Hcf]; [cbn; lia|by destruct Hn|].
        eapply evolve_confirmed; [exact Hev|done|]. by exists x.
      * apply active_on_chain_true in Ha' as [_ Ha']. congruence.
  - apply (apply_sweep_frozen chain) in H as E; [|done]. subst d'. unfold apply_sweep in H.
    destruct (cursor d _); [|done]. destruct (negb _); [by simplify_eq|]. destruct (load_entries _ _).
    by destruct (run_tx _ _ _) as [[]].
  - apply (apply_sweep_frozen chain) in H as E; [|done]. subst d'.
    assert (Hcache : cache' = cache \/ cache' = cache1).
    { unfold apply_sweep in H. destruct (cursor d _); [|simplify_eq; by left]. destruct (negb _); [done|].
      unfold cache1. rewrite <- load_entries_cache. destruct (load_entries _ _) as [cache2 disc]. cbn.
      destruct (run_tx _ _ _) as [[]]; simplify_eq. by right. }
    destruct Hcache as [-> | ->]; [done|]. apply (Good_cache d cache); [done..|by apply complete_covers|done].
Qed.

(** ** The backfill *)

(** A row of the batch as it was read. *)
Definition batch_row (w : WatchRow) (b : PendingBackfill) : Prop :=
  w_chain_id w = cid /\ b_id b = w_id w /\ b_seq b = w_seq w /\ b_token_address b = w_token_address w
  /\ b_payment_address b = w_payment_address w /\ b_start_block b = as_u64 (w_start_block w)
  /\ exists to, w_backfill_to w = Some to /\ b_backfill_to b = as_u64 to.

Definition batch_ok (d : DB) (batch : list PendingBackfill) : Prop :=
  StronglySorted (fun a b => b_seq a <= b_seq b) batch
  /\ forall b, b ∈ batch -> exists w, d_watches d !! b_id b = Some w /\ batch_row w b.

(** Rows of the chain stay, with what they are owed. *)
Definition debts_kept (d d' : DB) : Prop :=
  forall i w, d_watches d !! i = Some w -> w_chain_id w = cid ->
    exists w', d_watches d' !! i = Some w' /\ same_watch w w' /\ w_backfill_to w' = w_backfill_to w.

#[global] Instance debts_kept_preorder : PreOrder debts_kept.
Proof.
  split; [intros d i w Hw _; by exists w|]. intros d1 d2 d3 H1 H2 i w Hw Hc.
  destruct (H1 i w Hw Hc) as (w1 & Hw1 & S1 & B1). pose proof S1 as (_ & _ & Et & _). injection Et as Ec _ _.
  destruct (H2 i w1 Hw1) as (w2 & Hw2 & S2 & B2); [congruence|]. exists w2. split_and!; [done|by etrans|congruence].
Qed.

Lemma debts_kept_view d d' : rows_kept d d' -> dview d' = dview d -> debts_kept d d'.
Proof.
  intros Hr Hd i w Hw _. destruct (Hr i w Hw) as (w' & Hw' & Hs & _). exists w'. split_and!; [done..|].
  by eapply dview_backfill.
Qed.

Lemma batch_ok_kept d d' batch : debts_kept d d' -> batch_ok d batch -> batch_ok d' batch.
Proof.
  intros Hk [Hs Hb]. split; [done|]. intros b Hin.
  destruct (Hb b Hin) as (w & Hw & (Hc & H1 & H2 & H3 & H4 & H5 & to & Hto & Eto)).
  destruct (Hk _ _ Hw Hc) as (w' & Hw' & (E1 & E2 & E3 & _ & _ & E6) & Eb). exists w'. split; [done|].
  injection E3 as Ec Et Ea. unfold batch_row. rewrite E1, E2, E6, Et, Ea, Ec, Eb. split_and!; try done. by exists to.
Qed.

Lemma pending_backfills_batch d limit : ids_ok d -> batch_ok d (pending_backfills d (ch_chain_id chain) limit).
Proof.
  intros Hids. rewrite batch_unfold. set (rows := take _ _).
  assert (Hrows : forall w, w ∈ rows -> exists i, d_watches d !! i = Some w /\ owing chain w = true).
  { intros w Hin. apply elem_of_take in Hin as (n & Hin & _). apply list_elem_of_lookup_2, elem_of_select in Hin as [? [i ?]].
    by exists i. }
  assert (Hsort : StronglySorted (fun a b => w_seq a <= w_seq b) rows).
  { unfold rows. pose proof (sort_by_sorted w_seq (List.filter (owing chain) (map_to_list (d_watches d)).*2)) as Hst.
    unfold select_watches. rewrite <- (take_drop (Z.to_nat limit) (sort_by w_seq _)) in Hst.
    by apply StronglySorted_app_1_l in Hst. }
  clearbody rows. split.
  - clear Hrows. induction Hsort as [|w rows Hs IH Hall]; [constructor|]. cbn.
    destruct (backfill_row w) as [b|] eqn:Hb; [|exact IH]. constructor; [exact IH|].
    apply Forall_forall. intros b' (w' & Hin & Hb')%list_elem_of_omap. rewrite Forall_forall in Hall.
    specialize (Hall w' Hin). unfold backfill_row in Hb, Hb'. destruct (w_backfill_to w), (w_backfill_to w'); simplify_eq/=. done.
  - intros b (w & Hin & Hb)%list_elem_of_omap. destruct (Hrows w Hin) as (i & Hi & Ho).
    apply andb_prop in Ho as [Hc%Z.eqb_eq _]. unfold backfill_row in Hb.
    destruct (w_backfill_to w) as [to|] eqn:Eto; simplify_eq/=. exists w. cbn. split; [by rewrite (Hids _ _ Hi)|].
    unfold batch_row. cbn. rewrite Eto. split_and!; try done. by exists to.
Qed.

Lemma StronglySorted_last {A} (R : A -> A -> Prop) (l : list A) x y :
  StronglySorted R (l ++ [x]) -> y ∈ l ++ [x] -> y = x \/ R y x.
Proof.
  intros Hs [Hy| ->%list_elem_of_singleton]%elem_of_app; [right|by left].
  eapply StronglySorted_app_1_elem_of; [exact Hs|done|]. by apply list_elem_of_singleton.
Qed.

(** The scratch cache of a backfill answers with the latest row of each target. *)
Lemma scope_get batch b token :
  StronglySorted (fun a b => b_seq a <= b_seq b) batch -> b ∈ batch ->
  (forall b', b' ∈ batch -> b_id b' = b_id b -> b' = b) ->
  (forall b' t', b' ∈ batch -> token_by_address chain (b_token_address b') = Some t' ->
     WatchKey_new (t_idx t') (b_payment_address b') = WatchKey_new (t_idx token) (b_payment_address b) ->
     b_seq b' <= b_seq b /\ (b_seq b' = b_seq b -> b' = b)) ->
  token_by_address chain (b_token_address b) = Some token ->
  cache_get (backfill_scope chain batch).1 (WatchKey_new (t_idx token) (b_payment_address b))
    = Some (mkWatchRef (b_id b) (b_seq b) (b_start_block b))
  /\ (backfill_scope chain batch).2 !! b_id b = Some (b_backfill_to b).
Proof.
  intros Hs Hin Hid Hkey Htok. unfold backfill_scope.
  induction batch as [|x batch IH] using rev_ind; [by apply not_elem_of_nil in Hin|]. rewrite foldl_snoc.
  assert (Hx : x ∈ batch ++ [x]) by (apply elem_of_app; right; by apply list_elem_of_singleton).
  assert (Hstep : x ≠ b -> cache_get (foldl (scope_add chain) (cache_new, ∅) batch).1
      (WatchKey_new (t_idx token) (b_payment_address b)) = Some (mkWatchRef (b_id b) (b_seq b) (b_start_block b))
    /\ (foldl (scope_add chain) (cache_new, ∅) batch).2 !! b_id b = Some (b_backfill_to b)).
  { intros Hne. apply IH.
    - by apply StronglySorted_app_1_l in Hs.
    - apply elem_of_app in Hin as [?|?%list_elem_of_singleton]; [done|congruence].
    - intros b' Hb'. apply Hid. apply elem_of_app. by left.
    - intros b' t' Hb'. apply Hkey. apply elem_of_app. by left. }
  clear IH. revert Hstep. generalize (foldl (scope_add chain) (cache_new, ∅) batch). intros su Hstep.
  unfold scope_add. destruct (decide (x = b)) as [->|Hne].
  { rewrite Htok. cbn [fst snd]. rewrite cache_get_insert, decide_True, lookup_insert_eq by done. done. }
  specialize (Hstep Hne) as [H1 H2]. destruct (token_by_address chain (b_token_address x)) as [t'|] eqn:Ht'; [|done].
  cbn [fst snd]. rewrite cache_get_insert, lookup_insert_ne by (intros E; by apply Hne, Hid).
  rewrite decide_False; [done|]. intros E. destruct (Hkey x t' Hx Ht' E) as [Hle Heq].
  destruct (StronglySorted_last _ _ _ _ Hs Hin) as [->|Hge]; [done|]. apply Hne, Heq. lia.
Qed.

(** A payment in a block the batch owes is among what the backfill matches. *)
Lemma backfill_finds d cache batch f logs i w b m bf :
  Good d cache -> batch_ok d batch -> bf ∈ batch -> b_id bf = i ->
  honest_reply f logs -> f_address f = backfill_tokens chain batch ->
  f_recipients f = Some (into_word ∘ b_payment_address <$> batch) ->
  f_from_block f <= b_start_block bf -> b_backfill_to bf <= f_to_block f ->
  d_watches d !! i = Some w -> active_on_chain cid w = true -> payment w b m -> owed w b ->
  m ∈ backfill_matched chain batch logs /\ r_id (m_watch m) = i.
Proof.
  intros HG [Hsort Hb] Hbf Ebf Hrep Eaddr Erec Hfrom Hto Hw Ha Hp Ho.
  pose proof (g_inv _ _ HG) as HI. pose proof (inv_watches _ _ HI) as Hok.
  pose proof (payment_block _ _ _ Hp) as (Ebn & _ & _ & Hst). destruct Hp as (l & key & ref & Hl & He & Hm).
  destruct (Hb bf Hbf) as (w0 & Hw0 & (Hc & E1 & E2 & E3 & E4 & E5 & to & Eto & E6)).
  rewrite Ebf, Hw in Hw0. injection Hw0 as <-. destruct Ho as (to' & Eto' & Hle). rewrite Eto in Eto'. injection Eto' as <-.
  pose proof He as He0. unfold slim_entry in He. destruct (token_by_address chain (w_token_address w)) as [token|] eqn:Htok; [|done].
  cbn in He. injection He as <- <-.
  pose proof Htok as [Htin Etok%Z.eqb_eq]%find_Some_elem.
  pose proof (match_log_inv _ _ _ _ Hm) as (t & Ht & Hg & Hidx & Hmto & _).
  rewrite cache_get_insert in Hg. case_decide as Ek; [|done]. injection Hg as Hg. injection Ek as Ek1 Ek2.
  pose proof Ht as [Htin' El%Z.eqb_eq]%find_Some_elem.
  assert (t = token) as -> by (apply (spec_idx_inj chain); congruence).
  assert (Hin : l ∈ logs).
  { apply (hr_complete _ _ Hrep b); [lia|done| |by eapply match_log_topic|].
    - rewrite Eaddr. unfold backfill_tokens. rewrite elem_of_sort_dedup. apply list_elem_of_omap.
      exists bf. rewrite E3, Htok. cbn. by rewrite El.
    - intros rs. rewrite Erec. intros [= <-]. apply list_elem_of_fmap. exists bf. split; [|done]. cbn. unfold into_word.
      apply Hcanon in Hl as (_ & _ & _ & _ & _ & Hadr). rewrite E4, Ek2, Hmto. unfold from_word. symmetry. by apply Z.mod_small. }
  assert (Hscope : cache_get (backfill_scope chain batch).1 (WatchKey_new (t_idx token) (b_payment_address bf))
      = Some (mkWatchRef (b_id bf) (b_seq bf) (b_start_block bf))
    /\ (backfill_scope chain batch).2 !! b_id bf = Some (b_backfill_to bf)).
  { apply scope_get; [done..| | |by rewrite E3].
    - intros b' Hb' Eid. destruct (Hb b' Hb') as (v & Hv & (_ & F1 & F2 & F3 & F4 & F5 & to2 & F6 & F7)).
      rewrite Eid, Ebf, Hw in Hv. injection Hv as <-. destruct b', bf. cbn in *. congruence.
    - intros b' t' Hb' Ht' Ekey. injection Ekey as Ei Ea.
      destruct (Hb b' Hb') as (v & Hv & (G0 & G1 & G2 & G3 & G4 & G5 & to2 & G6 & G7)).
      apply find_Some_elem in Ht' as [Ht'in Et'%Z.eqb_eq]. assert (t' = token) as -> by (by apply (spec_idx_inj chain)).
      assert (Etgt : target v = target w) by (unfold target; congruence).
      rewrite G2, E2. split; [by eapply (g_latest _ _ HG i (b_id b') w v)|]. intros Eseq.
      assert (b_id b' = i) as Eid by (by eapply (wo_seq_inj _ _ Hok)).
      rewrite Eid, Hw in Hv. injection Hv as <-. destruct b', bf. cbn in *. congruence. }
  destruct Hscope as [Hget Huntil].
  assert (Eref : mkWatchRef (b_id bf) (b_seq bf) (b_start_block bf) = m_watch m).
  { rewrite <- Hg, E1, E2, E5. done. }
  assert (Hm2 : match_log chain (backfill_scope chain batch).1 l = Ok m).
  { rewrite (match_log_retarget _ _ (backfill_scope chain batch).1 _ _ (m_watch m) Hm); [by destruct m| |].
    - rewrite <- Eref, <- Hget. unfold WatchKey_new in *. congruence.
    - rewrite <- Eref. cbn. rewrite E5, Ebn. done. }
  split; [|rewrite <- Eref; exact Ebf]. unfold backfill_matched. destruct (backfill_scope chain batch) as [scope until].
  cbn [fst snd] in *. apply elem_of_sort_by_key, list_elem_of_In, List.filter_In. split.
  - apply list_elem_of_In, list_elem_of_omap. exists l. rewrite Hm2. split; [|done].
    apply list_elem_of_In, List.filter_In. split; [by apply list_elem_of_In|]. apply Hcanon in Hl as (-> & _). done.
  - rewrite <- Eref. cbn. rewrite Huntil. apply Z.leb_le. lia.
Qed.

Lemma batch_ok_backfill_ok d batch : batch_ok d batch -> Forall (backfill_ok chain d) batch.
Proof.
  intros [_ Hb]. apply Forall_forall. intros b Hin. destruct (Hb b Hin) as (w & Hw & (Hc & _ & _ & Et & Ea & _)).
  exists w. split; [done|]. unfold target. congruence.
Qed.

(** What remains owed after a backfill was owed before it, and what is no longer owed was in the
    batch. *)
Lemma backfill_debt_row d d' env cache batch logs out cache' i w w' :
  apply_backfill env d chain cache batch logs = (Ok out, d', cache') ->
  d_watches d !! i = Some w -> d_watches d' !! i = Some w' -> same_watch w w' -> w_chain_id w = cid ->
  if decide (i ∈ b_id <$> batch) then w_backfill_to w' = None
  else as_u64 <$> w_backfill_to w' = as_u64 <$> w_backfill_to w.
Proof.
  intros H Hw Hw' (_ & _ & Et & _) Hc. injection Et as Ec _ _.
  pose proof (apply_backfill_debts _ _ _ _ _ _ _ _ _ i H) as Hd. rewrite !lookup_debts, Hw, Hw' in Hd. cbn in Hd.
  rewrite Ec, Hc, Z.eqb_refl in Hd. case_decide; destruct (w_backfill_to w'), (w_backfill_to w); cbn in *; congruence.
Qed.

Lemma backfill_cleared d d' env cache batch logs out cache' i w w' :
  apply_backfill env d chain cache batch logs = (Ok out, d', cache') ->
  d_watches d !! i = Some w -> d_watches d' !! i = Some w' ->
  w_backfill_to w' = w_backfill_to w \/ w_backfill_to w' = None.
Proof.
  intros H Hw Hw'. unfold apply_backfill in H. destruct (run_tx _ _ _) as [[out1|e] d1] eqn:Hr; [|done]. simplify_eq.
  apply run_tx_Ok in Hr as [[k Hr]|[_ [s Hr]]]; unfold apply_backfill_tx in Hr;
    tx_inv Hr; destruct a as [stats o]; [|tx_inv Hr; tx_inv Hr; by tx_simp Hr].
  assert (E1 : dview d0 = dview d) by exact (keeps_mfold _ _ _ _ env (d, 0%nat) _ _ Ht).
  clear Ht. tx_inv Hr. tx_simp Ht. tx_inv Hr. apply write_stats_Ok in Ht as [f ->]. tx_simp Hr. cbn in Hw'.
  rewrite lookup_clear_backfills in Hw'. case_decide.
  - apply fmap_Some in Hw' as (v & _ & ->). by right.
  - left. by eapply dview_backfill.
Qed.

Lemma Good_backfill d cache env batch f logs r d' cache' :
  Good d cache -> batch_ok d batch -> honest_reply f logs -> f_address f = backfill_tokens chain batch ->
  f_recipients f = Some (into_word ∘ b_payment_address <$> batch) ->
  (forall bf, bf ∈ batch -> f_from_block f <= b_start_block bf /\ b_backfill_to bf <= f_to_block f) ->
  apply_backfill env d chain cache batch logs = (r, d', cache') -> Good d' cache'.
Proof.
  intros HG Hbatch Hrep Eaddr Erec Hrange H. pose proof (g_inv _ _ HG) as HI.
  pose proof (ids_ok_of_inv hist d HI) as Hids.
  destruct (apply_backfill_steps hist chain env d cache batch logs r d' cache' HI (g_coherent _ _ HG)) as (Hs & Ht & Hco);
    [by apply batch_ok_backfill_ok| |done|].
  { apply Forall_forall. intros l Hl Hrem. by apply (hr_sound _ _ Hrep). }
  destruct r as [out|e].
  2:{ apply apply_backfill_err in H as E. subst d'. unfold apply_backfill in H. destruct (run_tx _ _ _) as [[]]; by simplify_eq. }
  assert (Hms : Forall (matched_placed height) (backfill_matched chain batch logs)).
  { apply Forall_forall. intros m [(l & Hl & Hrem & Hm) _]%matched_backfill. by eapply matched_are_placed. }
  pose proof (fun lim => apply_backfill_evolves chain height lim env d cache batch logs out d' cache' Hids Hms H) as Hev.
  destruct (Hev 0) as (_ & Hret & Ecache & Hcur & Hset).
  pose proof (steps_rows _ _ _ Hs) as Hrows. pose proof (same_targets_old _ _ Ht) as Hold.
  assert (Hids' : ids_ok d') by (eapply (ids_ok_of_inv hist); eapply Inv_steps; done).
  destruct (g_cursor _ _ HG) as (c & Hc & Hb).
  assert (Hc' : cursor d' (ch_chain_id chain) = Ok c) by (unfold cursor in *; by rewrite Hcur).
  eapply (Good_advance d cache d' cache' c c); [done|by eapply Inv_steps|done| | |done|done|lia|done|done| |apply Hev|].
  - rewrite Ecache. apply covers_remove_all; [done| |done]. eapply covers_rows; [done..|apply HG].
  - rewrite Ecache. unfold cache_last_seq. rewrite cache_last_seq_remove_all.
    etrans; [apply (g_seq _ _ HG)|by eapply steps_seq].
  - intros i w w'. by eapply backfill_cleared.
  - intros i w w' b m Hw Hw' Hsame Ha Ha' Hp Hle Ho _ [Hlt|Hyes]; [lia|]. pose proof Ha as [Hch _]%active_on_chain_true.
    pose proof (backfill_debt_row _ _ _ _ _ _ _ _ _ _ _ H Hw Hw' Hsame Hch) as Hd.
    case_decide as Hin.
    + apply list_elem_of_fmap in Hin as (bf & Ebf & Hbf). symmetry in Ebf. destruct (Hrange bf Hbf) as [Hf1 Hf2].
      destruct (backfill_finds d cache batch f logs i w b m bf) as [Hm Hrid]; try done.
      right. split.
      * destruct Hyes as (to & Eto & _). apply (g_late _ _ HG i w Hw Hch). by exists to.
      * destruct (Hset m Hm) as [Hna|Hnc]; [|done]. apply active_on_chain_true in Ha' as [_ Ha'].
        destruct (Hna w'); [by rewrite Hrid|done].
    + destruct Ho. destruct Hyes as (to & Eto & Hb'). rewrite Eto in Hd. cbn in Hd.
      apply fmap_Some in Hd as (to' & Eto' & E). exists to'. split; [done|]. by rewrite <- E.
Qed.

(** The others leave the rows of the chain and their debts. *)
Lemma peer_debts p p' : peer p p' -> Good p.1 (rt_cache p.2) -> debts_kept p.1 p'.1.
Proof.
  destruct 1 as [d rt env m r d' Hm Hp H|d rt env new r d' H Hh Hl Hlate|d rt id row key ref Hrow Ha He Hord
    |d rt env id r d' H|d rt key id Hr|d rt rt' E|d rt d' Hs Hc Hw Ht]; cbn [fst snd]; intros HG; try done;
    pose proof (ids_ok_of_inv hist d (g_inv _ _ HG)) as Hids.
  - destruct (record_pending_steps hist env d chain m r d' Hids Hm H) as [Hs _].
    apply debts_kept_view; [by eapply steps_rows|]. by apply (record_pending_evolves chain height 0 env d m r d').
  - pose proof (create_watch_steps hist env d new r d' H) as Hs. destruct r as [o|e]; [|by apply run_tx_Err in H as ->].
    revert Hs. apply create_watch_Ok in H as [c w Hc Hth Ha Hnew _|r w Ha _]; intros Hs i v Hv _; exists v; [|done].
    split; [|done]. cbn. rewrite lookup_insert_ne; [done|]. congruence.
  - destruct (cancel_watch_steps hist env d id r d' H) as [Hs _]. apply debts_kept_view; [by eapply steps_rows|].
    unfold cancel_watch in H. destruct (d_watches d !! id) as [w|] eqn:Hw; [|by simplify_eq].
    destruct (is_active w); simplify_eq; [|done]. unfold dview. cbn. rewrite fmap_insert.
    apply insert_id. by rewrite lookup_fmap, Hw.
  - intros i w Hi Hch. exists w. split; [by apply (Hw i w Hch)|done].
Qed.

Lemma peers_debts p p' : rtc peer p p' -> Good p.1 (rt_cache p.2) -> debts_kept p.1 p'.1.
Proof.
  induction 1 as [|p1 p2 p3 H _ IH]; intros HG; [done|]. etrans; [by eapply peer_debts|]. apply IH. by eapply Good_peer.
Qed.

(** The others leave the cursor of the chain. *)
Lemma peer_cursor p p' : peer p p' -> Good p.1 (rt_cache p.2) -> cursor p'.1 (ch_chain_id chain) = cursor p.1 (ch_chain_id chain).
Proof.
  destruct 1 as [d rt env m r d' Hm Hp H|d rt env new r d' H Hh Hl Hlate|d rt id row key ref Hrow Ha He Hord
    |d rt env id r d' H|d rt key id Hr|d rt rt' E|d rt d' Hs Hc Hw Ht]; cbn [fst snd]; intros HG; try done.
  - pose proof (ids_ok_of_inv hist d (g_inv _ _ HG)) as Hids. unfold cursor.
    by destruct (record_pending_evolves chain height 0 env d m r d' Hids Hp H) as (_ & -> & _).
  - destruct r as [o|e]; [|by apply run_tx_Err in H as ->]. by apply create_watch_Ok in H as [].
  - unfold cancel_watch in H. destruct (d_watches d !! id) as [w|] eqn:Hw; [|by simplify_eq].
    destruct (is_active w); by simplify_eq.
  - unfold cursor. by rewrite Hc.
Qed.

Lemma peers_cursor p p' :
  rtc peer p p' -> Good p.1 (rt_cache p.2) -> cursor p'.1 (ch_chain_id chain) = cursor p.1 (ch_chain_id chain).
Proof.
  induction 1 as [|p1 p2 p3 H _ IH]; intros HG; [done|]. rewrite IH by by eapply Good_peer. by apply peer_cursor.
Qed.
End good.
