(* ===== verification/Payments.v ===== *)
(** * Payments: a pass of the sweeper confirms what is paid

    The promise of [Durable] through the whole of [Sweeper.sweep]: expiry, fast-forward, chunks and
    backfill, with the leader's other tasks acting at every await and the node failing at will, and
    how far a pass gets when the node answers. *)

From S2P Require Import Prelude Text Config Registry Cache Matcher Events Health Rpc Store Sweep.
From S2P Require Import Runtime Sweeper TxSpec Ledger LedgerTx SweepSpec System SweeperSpec Debt OneChain Durable.

Section pass.
Variable hist : TransferKey -> option (Z * Z * Z * Z).
Variable chain : ChainSpec.
Context `{Hspec : !SpecOk chain}.
Variable canon : Z -> list Log.
Variable height : Z -> Z.
Variable ex : Exceptions.
Variable T : Z.
Variable w : World.
Local Abbreviation M := (cc_max_log_range (ch_cfg chain)).
Local Abbreviation Good := (Good hist chain canon height ex T).
Local Abbreviation honest_reply := (honest_reply hist chain canon height).

(** Whatever happens at an await, the leader's other tasks do it. *)
Definition peers_act : Prop := forall t d rt, Good d (rt_cache rt) ->
  rtc (peer hist chain height ex) (d, rt) (wo_others w t (d, rt)).

(** The node answers for the settled part of the chain, or fails. *)
Definition answers_honestly : Prop := forall t f logs, f_to_block f <= T ->
  (wo_logs w t f).1 = Ok logs -> honest_reply f logs.

(** The heads it reports leave the settled part below the confirmation depth. *)
Definition settled_heads : Prop := forall t h, (wo_head w t).1 = Ok h ->
  0 <= h /\ h - cc_confirmations (ch_cfg chain) <= T.

Hypothesis Hcanon : canonical hist chain canon height.
Hypothesis HT : 0 <= T < 2 ^ 62.
Hypothesis Hmax : 1 <= M < 2 ^ 63.
Hypothesis Hothers : peers_act.
Hypothesis Hnode : answers_honestly.
Hypothesis Hheads : settled_heads.

Definition safe (st : St) : Prop := Good (st_db st) (rt_cache (st_rt st)).

(** [st'] is a safe continuation of [st]: the cursor is where it was and no debt was dropped. *)
Record continues (st st' : St) : Prop := {
  co_safe : safe st';
  co_cursor : cursor (st_db st') (ch_chain_id chain) = cursor (st_db st) (ch_chain_id chain);
  co_debts : debts_kept chain (st_db st) (st_db st');
}.

Lemma continues_trans st1 st2 st3 : continues st1 st2 -> continues st2 st3 -> continues st1 st3.
Proof. intros [A1 B1 C1] [A2 B2 C2]. split; [done|congruence|]. by etrans. Qed.

Lemma continues_same st st' :
  safe st -> st_db st' = st_db st -> rt_cache (st_rt st') = rt_cache (st_rt st) -> continues st st'.
Proof. intros H E1 E2. split; [|by rewrite E1..]. unfold safe in *. by rewrite E1, E2. Qed.

Lemma await_continues st : safe st -> continues st (await w st).
Proof.
  intros H. pose proof (Hothers (st_t st) (st_db st) (st_rt st) H) as Hp. unfold await.
  destruct (wo_others w (st_t st) (st_db st, st_rt st)) as [d rt]. split.
  - exact (Good_peers hist chain canon height ex T Hcanon (proj2 HT) _ _ Hp H).
  - exact (peers_cursor hist chain canon height ex T Hcanon (proj2 HT) _ _ Hp H).
  - exact (peers_debts hist chain canon height ex T Hcanon (proj2 HT) _ _ Hp H).
Qed.

Lemma get_logs_continues f st r st' :
  safe st -> get_logs w chain f st = (r, st') ->
  continues st st' /\ forall logs, r = Ok logs -> f_to_block f <= T -> honest_reply f logs.
Proof.
  intros H Hg. unfold get_logs in Hg. destruct (wo_logs w (st_t (await w st)) f) as [r' ops] eqn:E. simplify_eq. split.
  - eapply continues_trans; [by apply await_continues|]. apply continues_same; [by apply await_continues|done..].
  - intros logs -> Hle. eapply Hnode; [done|]. by rewrite E.
Qed.

(** ** Expiry *)

Lemma expire_safe st : safe st -> safe (expire w chain st) /\
  cursor (st_db (expire w chain st)) (ch_chain_id chain) = cursor (st_db st) (ch_chain_id chain).
Proof.
  intros H. destruct (await_continues st H) as [H1 C1 _]. unfold expire.
  destruct (expire_watches _ _ _ _) as [r db] eqn:He.
  destruct (Good_expire hist chain canon height ex T _ _ _ _ _ _ H1 He) as [HG Hr].
  assert (Hcur : cursor db (ch_chain_id chain) = cursor (st_db st) (ch_chain_id chain)).
  { pose proof (ids_ok_of_inv hist _ (g_inv _ _ _ _ _ _ _ _ H1)) as Hids.
    destruct (expire_watches_frame chain _ _ _ _ _ Hids He) as (_ & Ec & _). unfold cursor in *. by rewrite Ec. }
  destruct r as [[|row rows]|e]; [done| |done]. split; [|exact Hcur]. unfold safe. cbn [st_db st_rt emit set_rt set_db].
  specialize (Hr (row :: rows)). assert (Hall : forall x, x ∈ row :: rows -> forall v, d_watches db !! w_id x = Some v -> w_status v ≠ Active).
  { intros x Hx. by apply Hr. }
  clear Hr He. revert HG Hall. generalize (row :: rows). generalize (st_rt (await w st)). clear - Hspec.
  intros rt rows. revert rt. induction rows as [|x rows IH]; intros rt HG Hall; [done|]. cbn [foldl]. apply IH.
  - destruct (cache_entry x chain) as [[key ref]|]; [|done]. rewrite remove_watch_cache.
    apply Good_remove; [done..|]. apply Hall, list_elem_of_here.
  - intros y Hy. apply Hall. by apply list_elem_of_further.
Qed.

(** ** Chunks *)

(** The node says that it has not reached a block it was asked about. *)
Definition behind : Prop := exists t f e, (wo_logs w t f).1 = Err e /\ failure_class e = AheadOfHead.

Lemma asked_continues target cur st r st1 :
  safe st -> asked w chain target cur st = (r, st1) ->
  continues st st1 /\ forall logs, r = Ok logs -> chunk_to cur target st <= T ->
    honest_reply (mkFilter (log_addresses chain) None (u64_add cur 1) (chunk_to cur target st)) logs.
Proof. intros H Ha. exact (get_logs_continues _ _ _ _ H Ha). Qed.

Lemma asked_behind target cur st e st1 :
  asked w chain target cur st = (Err e, st1) -> failure_class e = AheadOfHead -> behind.
Proof.
  unfold asked, get_logs. destruct (wo_logs w _ _) as [r ops] eqn:E. intros [= -> _] Hc. do 3 eexists.
  split; [|exact Hc]. by rewrite E.
Qed.

Lemma chunks_safe target cur st r st' :
  chunks_run w chain target cur st r st' -> safe st -> span_ok chain (st_s st) -> 0 <= cur -> target <= T ->
  target + M < 2 ^ 64 -> cursor (st_db st) (ch_chain_id chain) = Ok cur ->
  safe st' /\ r ≠ Yielded /\ forall c, r = Reached c ->
    cursor (st_db st') (ch_chain_id chain) = Ok c /\ (target <= c \/ behind).
Proof.
  induction 1 as [cur st Hge|cur st e st1 r st' Hlt Ha Hc Hgt Hrun IH|cur st e st1 Hlt Ha Hc
    |cur st e st1 Hlt Ha Hc|cur st logs st1 e db cache Hlt Ha Hs|cur st logs st1 c c' db cache Hlt Ha Hs
    |cur st logs st1 out db cache r st' Hlt Ha Hs Hrun IH]; intros Hsafe Hok Hcur HtT Ht Hdb;
    try (pose proof (asked_continues _ _ _ _ _ Hsafe Ha) as [[H1 C1 _] Hrep];
         pose proof (asked_s _ _ _ _ _ _ _ Ha) as Es; rewrite Hdb in C1;
         destruct (chunk_to_bounds chain Hmax cur target st Hok ltac:(lia) Ht) as (E1 & Hb & Hsp & _);
         destruct (await_continues st1 H1) as [H2 C2 _]; rewrite C1 in C2).
  - split_and!; [done..|]. intros c [= <-]. split; [done|by left].
  - apply IH; try done. rewrite Es in Hgt. by apply shrunk_ok.
  - split_and!; [done..|]. intros c [= <-]. split; [done|]. right. by eapply asked_behind.
  - by split_and!.
  - split_and!; [|done..]. specialize (Hrep logs eq_refl ltac:(lia)). rewrite E1 in Hrep.
    by eapply (Good_sweep hist chain canon height ex T Hcanon (proj2 HT) _ _ _ cur (chunk_to cur target st)); [exact H2|lia|..].
  - exfalso. unfold apply_sweep in Hs. rewrite C2, Z.eqb_refl in Hs. cbn [negb] in Hs.
    destruct (load_entries _ _). by destruct (run_tx _ _ _) as [[]].
  - specialize (Hrep logs eq_refl ltac:(lia)). rewrite E1 in Hrep. apply IH; try done.
    + by eapply (Good_sweep hist chain canon height ex T Hcanon (proj2 HT) _ _ _ cur (chunk_to cur target st)); [exact H2|lia|..].
    + apply applied_ok; [done|]. by rewrite await_s, Es.
    + lia.
    + cbn. eapply apply_sweep_cursor; [exact Hs|]. unfold in_u64. lia.
Qed.

(** ** The backfill *)

(** Replies for consecutive ranges make up the reply for their union. *)
Lemma honest_reply_app tokens rs from mid to logs found :
  honest_reply (mkFilter tokens rs from mid) logs -> honest_reply (mkFilter tokens rs (mid + 1) to) found ->
  honest_reply (mkFilter tokens rs from to) (logs ++ found).
Proof.
  intros [S1 C1] [S2 C2]. split; cbn in *.
  - intros l [Hl|Hl]%elem_of_app; [by apply S1|by apply S2].
  - intros b l Hb ? ? ? ?. apply elem_of_app. destruct (decide (b <= mid)); [left; eapply (C1 b)|right; eapply (C2 b)]; try done; lia.
Qed.

Lemma honest_reply_sub tokens rs from mid to logs :
  to <= mid -> honest_reply (mkFilter tokens rs from mid) logs -> honest_reply (mkFilter tokens rs from to) logs.
Proof. intros Hle [S C]. split; [done|]. cbn in *. intros b l Hb. apply C. lia. Qed.

Lemma honest_reply_nil tokens rs from to : to < from -> honest_reply (mkFilter tokens rs from to) [].
Proof. intros H. split; cbn; [by intros l []%not_elem_of_nil|]. intros. lia. Qed.

Lemma fetch_safe fuel tokens recipients from at_ to logs st r st' :
  backfill_fetch w chain fuel tokens recipients at_ to logs st = Some (r, st') ->
  safe st -> span_ok chain (st_s st) -> 0 < at_ -> to <= T -> to + M < 2 ^ 64 ->
  honest_reply (mkFilter tokens (Some recipients) from (at_ - 1)) logs ->
  continues st st' /\ span_ok chain (st_s st')
  /\ forall ls, r = Ok ls -> honest_reply (mkFilter tokens (Some recipients) from to) ls.
Proof.
  revert at_ logs st. induction fuel as [|fuel IH]; intros at_ logs st H Hs Hok Hat HtT Ht Hrep; [done|].
  cbn [backfill_fetch] in H. destruct (Z.leb_spec at_ to) as [Hle|Hgt]; cbn [negb] in H.
  2:{ simplify_eq. split_and!; [by apply continues_same|done|]. intros ls [= <-].
      eapply honest_reply_sub; [|exact Hrep]. lia. }
  cbv zeta in H. destruct (fetch_end_bounds chain Hmax to Ht at_ st Hok ltac:(lia)) as (Hb & Hsp & E1).
  set (end_ := Z.min _ to) in *. set (f := mkFilter _ _ _ _) in H.
  pose proof (get_logs_s w chain f st) as Es.
  destruct (get_logs w chain f st) as [reply st1] eqn:Hg. cbn [fst snd] in Es.
  apply get_logs_continues in Hg as [Hco Hans]; [|done]. destruct reply as [found|e].
  - apply IH in H as (Hco2 & Hok2 & Hls); [|apply Hco|by rewrite Es|lia|done|done|].
    + split_and!; [by eapply continues_trans|done|done].
    + rewrite E1. replace (end_ + 1 - 1) with end_ by lia. apply (honest_reply_app _ _ _ (at_ - 1)); [done|].
      replace (at_ - 1 + 1) with at_ by lia. apply Hans; [done|]. cbn. lia.
  - destruct (_ && _) eqn:Hr.
    + apply andb_prop in Hr as [_ Hgt%Z.ltb_lt]. rewrite Es in Hgt.
      destruct (shrink_ok chain Hmax (now_of w st1) at_ end_ (wo_display w e) (st_s st) Hok) as (Hok' & _); [lia..|].
      apply IH in H as (Hco2 & Hok2 & Hls); [|apply Hco|cbn; by rewrite Es|done..].
      split_and!; [|done|done]. eapply continues_trans; [exact Hco|].
      eapply continues_trans; [|exact Hco2]. apply continues_same; [apply Hco|done..].
    + simplify_eq. split_and!; [done|by rewrite Es|done].
Qed.

(** The range of a batch is settled and holds all it is owed. *)
Lemma batch_range d cache batch from to :
  Good d cache -> batch_ok chain d batch -> list_min (b_start_block <$> batch) = Some from ->
  list_max (b_backfill_to <$> batch) = Some to ->
  0 < from /\ to <= T /\ (forall bf, bf ∈ batch -> from <= b_start_block bf /\ b_backfill_to bf <= to).
Proof.
  intros HG [_ Hb] Hmin Hmx. destruct (g_cursor _ _ _ _ _ _ _ _ HG) as (c & Hc & Hcb).
  assert (Hrow : forall bf, bf ∈ batch -> 0 < b_start_block bf /\ b_backfill_to bf <= T).
  { intros bf Hin. destruct (Hb bf Hin) as (v & Hv & (Hch & _ & _ & _ & _ & Est & to' & Hto' & Eto)).
    destruct (g_start _ _ _ _ _ _ _ _ HG _ _ Hv Hch) as [H1 H2]. rewrite Est, as_u64_id by auto with gum.
    pose proof (g_owed _ _ _ _ _ _ _ _ HG _ _ _ _ Hv Hch Hto' Hc). lia. }
  pose proof Hmin as (b1 & E1 & Hin1)%list_min_elem%list_elem_of_fmap.
  pose proof Hmx as (b2 & E2 & Hin2)%list_max_elem%list_elem_of_fmap.
  destruct (Hrow b1 Hin1), (Hrow b2 Hin2). split_and!; [lia|lia|].
  intros bf Hin. split; [eapply list_min_le|eapply list_max_ge]; eauto; apply list_elem_of_fmap; eauto.
Qed.

Lemma backfill_cursors env d cache batch logs r d' cache' :
  ids_ok d -> apply_backfill env d chain cache batch logs = (r, d', cache') ->
  cursor d' (ch_chain_id chain) = cursor d (ch_chain_id chain).
Proof.
  intros Hids H. unfold apply_backfill in H. destruct (run_tx _ _ _) as [[out|e] d1] eqn:Hr; simplify_eq.
  2:{ by apply run_tx_Err in Hr as ->. }
  apply run_tx_Ok in Hr as [[k Hr]|[-> _]]; [|done]. unfold apply_backfill_tx in Hr.
  tx_inv Hr. destruct a as [stats o]. tx_inv Hr. tx_simp Ht0. tx_inv Hr. apply write_stats_Ok in Ht0 as [f ->]. tx_simp Hr.
  eapply (mfold_Tx_inv _ (fun _ e1 _ => ids_ok e1 /\ d_cursors e1 = d_cursors d)) in Ht; [|..|done].
  - destruct Ht as [_ E]. unfold cursor. cbn in *. by rewrite E.
  - intros m b1 e1 n1 b2 e2 n2 _ [Hi1 E1] Hm. apply count_confirmed_Ok in Hm; [|done].
    split; [by eapply count_ids_ok|]. by destruct Hm.
Qed.

Lemma backfill_safe fuel st r st' :
  backfill w chain fuel st = Some (r, st') -> safe st -> span_ok chain (st_s st) -> T + M < 2 ^ 64 ->
  safe st' /\ cursor (st_db st') (ch_chain_id chain) = cursor (st_db st) (ch_chain_id chain)
  /\ span_ok chain (st_s st').
Proof.
  revert st. induction fuel as [|fuel IH]; intros st H Hs Hok HTM; [done|]. cbn [backfill] in H. cbv zeta in H.
  destruct (await_continues st Hs) as [H1 C1 _]. rewrite <- C1.
  assert (Hok1 : span_ok chain (st_s (await w st))) by by rewrite await_s.
  revert H H1 Hok1. generalize (await w st). clear Hs C1 Hok st. intros st H H1 Hok1.
  set (batch := pending_backfills _ _ _) in H.
  assert (Hids : ids_ok (st_db st)) by (eapply (ids_ok_of_inv hist), g_inv, H1).
  assert (Hbatch : batch_ok chain (st_db st) batch) by by apply pending_backfills_batch.
  destruct (list_min _) as [from|] eqn:Hmin; [|by simplify_eq]. destruct (list_max _) as [to|] eqn:Hmx; [|by simplify_eq].
  destruct (batch_range _ _ _ _ _ H1 Hbatch Hmin Hmx) as (Hfrom & Hto & Hrange).
  apply bind_Some in H as ([r1 st1] & Hf & H).
  apply (fetch_safe _ _ _ from) in Hf as ([H2 C2 D2] & Hok2 & Hrep); [|done|done|done|done|lia|apply honest_reply_nil; lia].
  destruct r1 as [logs|e]; [|by simplify_eq]. specialize (Hrep logs eq_refl).
  destruct (await_continues st1 H2) as [H3 C3 D3]. rewrite <- C2, <- C3.
  apply (batch_ok_kept chain _ _ batch D2) in Hbatch. apply (batch_ok_kept chain _ _ batch D3) in Hbatch.
  assert (Hok3 : span_ok chain (st_s (await w st1))) by by rewrite await_s.
  revert H H3 Hok3 Hbatch. generalize (await w st1). clearbody batch. clear - IH Hrep Hrange Hcanon Hspec HTM. intros st2 H H3 Hok3 Hbatch.
  destruct (apply_backfill _ _ _ _ _ _) as [[r2 db] cache] eqn:Hap.
  assert (HG : Good db cache).
  { set (f := mkFilter (backfill_tokens chain batch) (Some (into_word ∘ b_payment_address <$> batch)) from to).
    by eapply (Good_backfill hist chain canon height ex T Hcanon _ _ _ _ f); [exact H3|..]. }
  assert (Hc : cursor db (ch_chain_id chain) = cursor (st_db st2) (ch_chain_id chain)).
  { eapply backfill_cursors; [|exact Hap]. eapply (ids_ok_of_inv hist), g_inv, H3. }
  rewrite <- Hc. destruct r2 as [out|e]; [|by simplify_eq]. destruct (_ <? BACKFILL_BATCH); [by simplify_eq|].
  apply IH in H; [|done..]. exact H.
Qed.

(** ** The whole pass *)

Lemma sweep_safe fuel st r st' :
  sweep w chain fuel st = Some (r, st') -> safe st -> span_ok chain (st_s st) -> T + M < 2 ^ 64 ->
  safe st' /\ span_ok chain (st_s st') /\ forall again, r = Ok again -> exists t h c, (wo_head w t).1 = Ok h
    /\ cursor (st_db st') (ch_chain_id chain) = Ok c /\ (h - cc_confirmations (ch_cfg chain) <= c \/ behind).
Proof.
  intros H Hs Hok HTM. unfold sweep in H. cbv zeta in H. destruct (expire_safe st Hs) as [H1 _].
  assert (Hok1 : span_ok chain (st_s (expire w chain st))).
  { unfold expire. destruct (expire_watches _ _ _ _) as [[[|]|] db]; cbn; by rewrite await_s. }
  set (st0 := set_s (with_head_probe _) (expire w chain st)) in H.
  assert (H0 : safe st0) by exact H1. destruct (await_continues st0 H0) as [H2 _ _].
  assert (Hok2 : span_ok chain (st_s (await w st0))) by (rewrite await_s; exact Hok1).
  revert H H2 Hok2. generalize (await w st0). clear - Hcanon HT Hmax Hothers Hnode Hheads HTM Hspec. intros st H Hs Hok.
  assert (Hh : forall h, (block_number (now_of w st `div` 10 ^ 6) (wo_head w (st_t st))).1 = Ok h -> (wo_head w (st_t st)).1 = Ok h).
  { intros h. unfold block_number. by destruct (wo_head w (st_t st)).1 eqn:E; cbn; [|rewrite E]. }
  destruct (block_number _ _) as [[h|e] ops]; [|simplify_eq; split; [exact Hs|by split]].
  specialize (Hh h eq_refl). destruct (Hheads _ _ Hh) as [Hh0 HhT].
  set (target := saturating_sub h _) in H. assert (Ht : 0 <= target <= T) by (unfold target, saturating_sub; lia).
  assert (Htl : h - cc_confirmations (ch_cfg chain) <= target) by (unfold target, saturating_sub; lia).
  set (st0 := set_rt (note_health chain ops) st) in H. assert (H0 : safe st0) by exact Hs.
  destruct (await_continues st0 H0) as [H1 _ _].
  assert (Hok1 : span_ok chain (st_s (await w st0))) by (rewrite await_s; exact Hok).
  revert H H1 Hok1. generalize (st_t st) (await w st0) Hh. clear - Hcanon HT Hmax Hothers Hnode HTM Hspec Ht Htl.
  intros t st Hh H Hs Hok. destruct (fast_forward_cursor _ _ _) as [c db] eqn:Hff.
  assert (HG : Good db (rt_cache (st_rt st))).
  { exact (Good_fast_forward hist chain canon height ex T Hcanon (proj2 HT) _ _ _ _ _ Hs Ht Hff). }
  destruct c as [cur|e]; [|simplify_eq; split; [exact HG|by split]].
  apply fast_forward_cursor_at in Hff as [Hcur Hat]; [|unfold in_u64; lia].
  apply bind_Some in H as ([e st1] & Hch & H). apply sweep_chunks_run in Hch.
  pose proof (chunks_run_pass w chain Hmax _ _ _ _ _ Hch Hok Hcur ltac:(lia)) as (Hok1 & _).
  apply chunks_safe in Hch as (H1 & Hy & Hreach); [|exact HG|exact Hok|done|lia|lia|exact Hat].
  destruct e as [c| |e]; [|done|simplify_eq; by split_and!]. destruct (Hreach c eq_refl) as [Hc1 Hor].
  apply bind_Some in H as ([r2 st2] & Hb & H). apply backfill_safe in Hb as (H2 & C2 & Hok2); [|done..].
  destruct r2 as [[]|e]; simplify_eq; (split; [done|]); (split; [done|]); [|done]. intros again _. exists t, h, c. split_and!; [done| |].
  - rewrite C2. exact Hc1.
  - destruct Hor; [left; lia|by right].
Qed.
End pass.

(** ** Taking over *)

Section takeover.
Variable hist : TransferKey -> option (Z * Z * Z * Z).
Variable chain : ChainSpec.
Context `{Hspec : !SpecOk chain}.
Variable canon : Z -> list Log.
Variable height : Z -> Z.
Variable ex : Exceptions.
Variable T : Z.
Local Abbreviation cid := (as_i64 (ch_chain_id chain)).
Local Abbreviation Good := (Good hist chain canon height ex T).

(** Loading the watchlist makes any cache complete. *)
Lemma hydrate_complete skip d cache :
  watches_ok (d_watches d) (d_watch_seq d) -> complete_but skip chain (cache_insert_all cache (hydrate d chain)) d.
Proof.
  intros Hok i w key ref Hi Ha He _. apply cache_insert_all_NoDup.
  - unfold hydrate. apply NoDup_omap_fst; [by apply (NoDup_select d Hok)|].
    intros v v' k r r' (Hv & j & Hj)%elem_of_select (Hv' & j' & Hj')%elem_of_select Ev Ev'.
    assert (j = j') as <- by (by eapply (slim_entry_inj chain d Hok)). congruence.
  - unfold hydrate. apply list_elem_of_omap. exists w. split; [|done]. apply elem_of_select. eauto.
Qed.

Lemma hydrate_seq d cache :
  watches_ok (d_watches d) (d_watch_seq d) -> cache_last_seq cache <= d_watch_seq d ->
  cache_last_seq (cache_insert_all cache (hydrate d chain)) <= d_watch_seq d.
Proof.
  intros Hok Hq. unfold cache_last_seq at 1. rewrite cache_insert_all_last_seq.
  assert (Hb : forall l, (forall e, e ∈ l -> r_seq e.2 <= d_watch_seq d) ->
    foldr Z.max (c_last_seq cache) ((fun e : WatchKey * WatchRef => r_seq e.2) <$> l) <= d_watch_seq d).
  { induction l as [|e l IH]; intros Hl; cbn; [exact Hq|]. apply Z.max_lub; [apply Hl, list_elem_of_here|].
    apply IH. intros e' He'. apply Hl. by apply list_elem_of_further. }
  apply Hb. intros [key ref] (w & (_ & i & Hi)%elem_of_select & He)%list_elem_of_omap. cbn.
  apply slim_entry_inv in He as (_ & _ & _ & _ & _ & _ & -> & _). by eapply (wo_seq _ _ Hok).
Qed.

(** A chain that has just been configured: no cursor, nothing stored. *)
Definition untouched (d : DB) : Prop :=
  d_cursors d !! cid = None /\ (forall i w, d_watches d !! i = Some w -> w_chain_id w ≠ cid)
  /\ (forall key, key.1.1 = cid -> d_transfers d !! key = None).

Lemma untouched_good d h :
  Inv hist d -> untouched d -> 0 <= h <= T -> T < 2 ^ 62 ->
  Good (set_cursors (<[cid := as_i64 h]>) d) (mkCache ∅ (Z.min 0 (d_watch_seq d))).
Proof.
  intros HI (Hc & Hw & Ht) Hh HT.
  assert (Hcur : cursor (set_cursors (<[cid := as_i64 h]>) d) (ch_chain_id chain) = Ok h).
  { unfold cursor. cbn. rewrite lookup_insert_eq, as_u64_as_i64; [done|unfold in_u64; lia]. }
  split; cbn [d_watches d_transfers d_watch_seq set_cursors].
  - eapply Inv_steps; [exact HI|]. apply rtc_once, step_cursor.
  - intros key ref. unfold cache_get. cbn. by rewrite lookup_empty.
  - intros i w key ref Hi [Hch _]%active_on_chain_true. by apply Hw in Hi.
  - by exists h.
  - intros key x Hx Hk. by rewrite Ht in Hx.
  - intros key x c Hx Hk. by rewrite Ht in Hx.
  - intros i w b m c Hi [Hch _]%active_on_chain_true. by apply Hw in Hi.
  - intros i w Hi Hch. by apply Hw in Hi.
  - intros i w to c Hi Hch. by apply Hw in Hi.
  - intros i w Hi Hch. by apply Hw in Hi.
  - intros i j w v Hi Hj [Hch _]%active_on_chain_true. by apply Hw in Hi.
  - unfold cache_last_seq. cbn. lia.
Qed.

Lemma hydrate_good d cache0 cache :
  Good d cache0 -> coherent chain cache d -> cache_last_seq cache <= d_watch_seq d ->
  Good d (cache_insert_all cache (hydrate d chain)).
Proof.
  intros HG Hco Hq. pose proof (g_inv _ _ _ _ _ _ _ _ HG) as HI. pose proof (inv_watches _ _ HI) as Hok.
  eapply Good_cache; [exact HG|..].
  - apply hydrate_coherent; [by eapply (ids_ok_of_inv hist)|done].
  - by apply complete_covers, hydrate_complete.
  - by apply hydrate_seq.
Qed.

Lemma bootstrap_good now cid' decimals head d rt d' rt' :
  bootstrap now chain cid' decimals head d rt = (Ok tt, d', rt') ->
  coherent chain (rt_cache rt) d -> cache_last_seq (rt_cache rt) <= d_watch_seq d -> T < 2 ^ 62 ->
  (exists cache, Good d cache)
  \/ (Inv hist d /\ untouched d /\ forall h, head.1 = Ok h -> 0 <= h <= T) ->
  Good d' (rt_cache rt') /\ complete chain (rt_cache rt') d'.
Proof.
  intros H Hco Hq HT Hor.
  assert (Hok : watches_ok (d_watches d) (d_watch_seq d)).
  { apply (inv_watches hist). destruct Hor as [[cache HG]|[? _]]; [apply HG|done]. } unfold bootstrap in H. destruct (cid'.1) as [actual|e]; [|done].
  destruct (negb _); [done|]. destruct (check_decimals _ _ _ _) as [[[]|e] rt1] eqn:Hd; [|done].
  apply check_decimals_Ok in Hd as [Ec _]. cbn in Ec.
  assert (Hh : forall h, (block_number now head).1 = Ok h -> head.1 = Ok h).
  { intros h. unfold block_number. by destruct head.1 eqn:E; cbn; [|rewrite E]. }
  destruct (block_number now head) as [[h|e] ops]; [|done]. specialize (Hh h eq_refl).
  unfold ensure_cursor in H. destruct (d_cursors d !! cid) as [c|] eqn:Hc; simplify_eq.
  - cbn. rewrite Ec. split; [|by apply hydrate_complete].
    destruct Hor as [[cache HG]|(_ & (Hn & _) & _)]; [by eapply hydrate_good|congruence].
  - cbn. rewrite Ec. split; [|by apply (hydrate_complete _ d)]. destruct Hor as [[cache HG]|(HI & Hun & Hb)].
    { destruct (g_cursor _ _ _ _ _ _ _ _ HG) as (c & Hcc & _). unfold cursor in Hcc. by rewrite Hc in Hcc. }
    eapply hydrate_good; [by apply untouched_good; [..|apply Hb|done]|done|done].
Qed.

(** What a good state owes lies below the cursor, so below what is settled. *)
Lemma good_debts_below d cache : Good d cache -> debts_below (T + 1) (debts chain d).
Proof.
  intros HG i start to. rewrite lookup_debts. destruct (d_watches d !! i) as [w|] eqn:Hi; [|done]. cbn.
  destruct (Z.eqb_spec (w_chain_id w) cid) as [Ec|]; [|done].
  destruct (w_backfill_to w) as [x|] eqn:Eb; [|done]. cbn. intros [= <- <-].
  destruct (g_cursor _ _ _ _ _ _ _ _ HG) as (c & Hc & Hle).
  pose proof (g_owed _ _ _ _ _ _ _ _ HG i w x c Hi Ec Eb Hc).
  destruct (g_start _ _ _ _ _ _ _ _ HG i w Hi Ec) as [Hs Hin]. rewrite as_u64_id by (unfold in_i63, in_u64 in *; lia). lia.
Qed.

Lemma debts_below_mono B B' D : debts_below B D -> B <= B' -> debts_below B' D.
Proof. intros H Hle i start to Hi%H. lia. Qed.
End takeover.

(** ** A pass *)

Section pass.
Variable hist : TransferKey -> option (Z * Z * Z * Z).
Variable chain : ChainSpec.
Context `{!SpecOk chain}.
Variable canon : Z -> list Log.
Variable height : Z -> Z.
Variable ex : Exceptions.
Variables (T H : Z) (w : World) (fuel : nat) (st st' : St).
Local Abbreviation max := (cc_max_log_range (ch_cfg chain)).
Local Abbreviation conf := (cc_confirmations (ch_cfg chain)).
Hypothesis Hcanon : canonical hist chain canon height.
Hypothesis HT : 0 <= T < 2 ^ 62.
Hypothesis Hmax : 1 <= max < 2 ^ 63.
Hypothesis HTM : T + max < 2 ^ 64.
Hypothesis Hpeers : peers_act hist chain canon height ex T w.
Hypothesis Hnode : answers_honestly hist chain canon height T w.
Hypothesis Hheads : settled_heads chain T w.
Hypothesis Hok : span_ok chain (st_s st).
Hypothesis HG : Good hist chain canon height ex T (st_db st) (rt_cache (st_rt st)).

Lemma pass_keeps r :
  sweep w chain fuel st = Some (r, st') ->
  Good hist chain canon height ex T (st_db st') (rt_cache (st_rt st')) /\ span_ok chain (st_s st').
Proof.
  intros Hs.
  destruct (sweep_safe hist chain canon height ex T w Hcanon HT Hmax Hpeers Hnode Hheads fuel st r st' Hs HG Hok HTM)
    as (? & ? & _). done.
Qed.

Lemma pass_confirms again i row b m :
  sweep w chain fuel st = Some (Ok again, st') ->
  (forall t h, (wo_head w t).1 = Ok h -> H + conf <= h) -> ~ behind w ->
  d_watches (st_db st') !! i = Some row -> active_on_chain (as_i64 (ch_chain_id chain)) row = true ->
  payment chain canon row b m -> b <= H -> ~ owed row b ->
  ~ ex_overtaken ex i ->
  confirmed_at (st_db st') (transfer_key chain m)
  \/ (ex_late ex i /\ ~ countable (d_transfers (st_db st') !! transfer_key chain m)).
Proof.
  intros Hs Hhead Hb Hi Ha Hp Hle Ho Hx.
  destruct (sweep_safe hist chain canon height ex T w Hcanon HT Hmax Hpeers Hnode Hheads fuel st _ st' Hs HG Hok HTM)
    as (HG' & _ & Hreach).
  destruct (Hreach again eq_refl) as (t & h & c & Hh & Hc & [Hge|]); [|done]. specialize (Hhead t h Hh).
  eapply (g_behind _ _ _ _ _ _ _ _ HG'); eauto. lia.
Qed.

(** What the node says a payment is, is what the chain's history says of its key. *)
Lemma payment_hist d i row b m :
  Inv hist d -> d_watches d !! i = Some row -> active_on_chain (as_i64 (ch_chain_id chain)) row = true ->
  payment chain canon row b m -> hist (transfer_key chain m) = Some (target row, m_amount m).
Proof.
  intros HI Hi Ha (l & key & ref & Hl & He & Hm). pose proof (ids_ok_of_inv hist d HI) as Hids.
  apply Hcanon in Hl as (_ & _ & _ & _ & Hlog & _). apply active_on_chain_true in Ha as [Hc _].
  assert (Hco : coherent chain (cache_insert cache_new key ref).2 d).
  { eapply (coherent_insert_row chain cache_new d i row); eauto. apply coherent_new. }
  pose proof (match_log_ok hist chain _ d l m Hco Hlog Hm) as [_ Hh]. apply Hh.
  apply match_log_inv in Hm as (token & _ & Hg & _). rewrite cache_get_insert in Hg. case_decide; [|done].
  injection Hg as <-. apply slim_entry_inv in He as (token' & _ & _ & _ & _ & -> & _).
  by rewrite (Hids _ _ Hi), Hi.
Qed.
End pass.

(** ** Properties *)

(** The promise of the durable cursor survives a pass, whatever the node answers and however the
    pass ends, and a successful pass carries it to the confirmation depth. Between awaits the
    leader's other tasks record transfers, register and cancel watches and hear notifications. A
    pass returns: within the fuel computed from the settled depth, the span limit and the debts, if
    nobody registers a new lookback meanwhile. When every head reported is at least [H] plus the
    confirmations and the node never says that it is behind, then after a pass that returns [Ok]
    every payment in a block up to [H] to a watch that is still active is stored as confirmed, unless
    it lies in blocks a backfill still owes the watch; for a watch that was once owed blocks it is
    at least resolved. *)
Theorem payments_confirmed (hist : TransferKey -> option (Z * Z * Z * Z)) (chain : ChainSpec) `{!SpecOk chain}
    (canon : Z -> list Log) (height : Z -> Z) (ex : Exceptions) (T H : Z) (w : World) (fuel : nat) (st : St) :
  let max := cc_max_log_range (ch_cfg chain) in let conf := cc_confirmations (ch_cfg chain) in
  canonical hist chain canon height -> 0 <= T < 2 ^ 62 -> 1 <= max < 2 ^ 63 -> 0 <= conf ->
  T + conf + 1 + max < 2 ^ 64 -> peers_act hist chain canon height ex T w ->
  answers_honestly hist chain canon height T w -> settled_heads chain T w ->
  span_ok chain (st_s st) -> Good hist chain canon height ex T (st_db st) (rt_cache (st_rt st)) ->
  (others_owe_nothing w chain -> pass_fuel chain (T + conf + 1) (st_db st) < Z.of_nat fuel ->
   exists r st', sweep w chain fuel st = Some (r, st'))
  /\ forall r st', sweep w chain fuel st = Some (r, st') ->
     Good hist chain canon height ex T (st_db st') (rt_cache (st_rt st'))
     /\ (is_ok r = true -> (forall t h, (wo_head w t).1 = Ok h -> H + conf <= h) -> ~ behind w ->
         forall i row b m, d_watches (st_db st') !! i = Some row ->
           active_on_chain (as_i64 (ch_chain_id chain)) row = true -> payment chain canon row b m -> b <= H ->
           ~ owed row b -> ~ ex_overtaken ex i ->
           confirmed_at (st_db st') (transfer_key chain m)
           \/ (ex_late ex i /\ ~ countable (d_transfers (st_db st') !! transfer_key chain m))).
Proof.
  intros max conf Hcanon HT Hmax Hconf HTM Hpeers Hnode Hheads Hok HG. split.
  { intros Hoth Hf. destruct (pass_returns w chain (T + conf + 1) fuel st) as (r & st' & Hs & _); try done; [|lia| |by eauto].
    - split; [by eapply ids_ok_of_inv, g_inv|]. eapply debts_below_mono; [by eapply good_debts_below|lia].
    - intros t h Hh%Hheads. lia. }
  intros r st' Hs. split.
  - assert (HTM' : T + max < 2 ^ 64) by lia.
    by destruct (pass_keeps hist chain canon height ex T w fuel st st' Hcanon HT Hmax HTM' Hpeers Hnode Hheads Hok HG r Hs).
  - intros Hr Hhead Hb i row b m Hi Ha Hp Hle Ho Hx. destruct r as [again|e]; [|done].
    eapply (pass_confirms hist chain canon height ex T H w fuel st st'); eauto. unfold max in *. lia.
Qed.

(** C6. An instance that takes over a chain inherits the promise. Suppose its predecessor left the
    database good for the cache it had (as [sweeper_keeps_promise] says of every state of a leader's
    task), or nobody has indexed the chain and the head is within the settled part. Then a bootstrap
    that succeeds loads every active watch of the chain into its own, empty cache, those included that
    the predecessor's cache had missed, and leaves database and cache good: a state a pass can start
    from. Watches labelled as overtaken or late stay labelled. *)
Theorem takeover_keeps_promise (hist : TransferKey -> option (Z * Z * Z * Z)) (chain : ChainSpec) `{!SpecOk chain}
    (canon : Z -> list Log) (height : Z -> Z) (ex : Exceptions) (T now : Z) (id : Reply Z)
    (decimals : Z -> Reply (option Z)) (head : Reply Z) (d d' : DB) (rt' : ChainRuntime) :
  bootstrap now chain id decimals head d runtime_new = (Ok tt, d', rt') -> T < 2 ^ 62 -> 0 <= d_watch_seq d ->
  (exists cache, Good hist chain canon height ex T d cache)
  \/ (Inv hist d /\ untouched chain d /\ forall h, head.1 = Ok h -> 0 <= h <= T) ->
  Good hist chain canon height ex T d' (rt_cache rt') /\ complete chain (rt_cache rt') d'.
Proof.
  intros H HT Hq Hor. eapply (bootstrap_good hist chain); [exact H|apply coherent_new|exact Hq|done|done].
Qed.
