(* ===== verification/SweeperLive.v ===== *)
(** * SweeperLive: the task loop of [src/ingest/sweeper.rs] never forgets a pending block

    [turn] is one iteration of [run]: the sweep that is due, then the branch of the [select] that
    fired. A loop is [armed] for a deadline when a sweep is about to start or a timer will start
    one by then. *)

From S2P Require Import Prelude Text Config Registry Cache Matcher Events Health Rpc Store Sweep.
From S2P Require Import Runtime Sweeper TxSpec SweeperSpec Debt.

Section live.
Variable w : World.
Variable chain : ChainSpec.
Local Abbreviation M := (cc_max_log_range (ch_cfg chain)).
Local Abbreviation conf := (cc_confirmations (ch_cfg chain)).

(** The [select]: time passes, the others run. *)
Definition select_await (l : Loop) : Loop := mkLoop (await w (lp_st l)) (lp_due l) (lp_next l) (lp_last_safety l).

(** [src/ingest/sweeper.rs:65-113 run (loop)] *)
Definition turn (fuel : nat) (ev : Wake) (l : Loop) : option (Loop + result IngestError unit) :=
  r ← loop_sweep w chain fuel l;
  Some (match r with inl l => loop_wake w chain ev (select_await l) | inr r => inr r end).

(** [src/ingest/sweeper.rs:44-114 run] *)
Fixpoint run_loop (fuel : nat) (evs : list Wake) (l : Loop) : option (Loop + result IngestError unit) :=
  match evs with
  | [] => Some (inl l)
  | ev :: evs =>
      r ← turn fuel ev l;
      match r with inl l => run_loop fuel evs l | inr r => Some (inr r) end
  end.

Definition pending (l : Loop) : gset Z := s_pending_blocks (st_s (lp_st l)).
Definition loop_now (l : Loop) : Z := now_of w (lp_st l).

(** The longest a pending block waits for its timer. *)
Definition max_wait : Z := Z.max (depth_delay chain conf) (2 * 10 ^ 9).

Definition armed (l : Loop) : Prop :=
  is_Some (lp_next l) \/ exists d, lp_due l = Some d /\ d <= loop_now l + max_wait.

Hypothesis Hclock : forall t, wo_now w t <= wo_now w (S t).
Hypothesis Hconf : 0 <= conf < 2 ^ 32.
Hypothesis Hblock : 0 <= block_time (ch_cfg chain).

Lemma depth_delay_mono x : x <= conf -> depth_delay chain x <= depth_delay chain conf.
Proof.
  intros Hx. unfold depth_delay. set (bt := block_time _ * 10 ^ 6). assert (0 <= bt) by (unfold bt; lia).
  assert (Hu : forall y, 0 <= y < 2 ^ 32 -> as_u32 y = y) by (intros; by apply Z.mod_small).
  rewrite !Hu by lia. nia.
Qed.

(** ** What a sweep leaves *)

Lemma backfill_fetch_pending fuel tokens recipients at_ to logs st r st' :
  backfill_fetch w chain fuel tokens recipients at_ to logs st = Some (r, st') ->
  s_pending_blocks (st_s st') = s_pending_blocks (st_s st).
Proof.
  revert at_ logs st. induction fuel as [|fuel IH]; intros at_ logs st H; [done|]. cbn [backfill_fetch] in H.
  destruct (negb _); [by simplify_eq|]. cbv zeta in H. set (f := mkFilter _ _ _ _) in H.
  pose proof (get_logs_s w chain f st) as Es. destruct (get_logs w chain f st) as [[found|e] st1]; cbn in Es.
  - apply IH in H. by rewrite H, Es.
  - destruct (_ && _); [|simplify_eq; by rewrite Es]. apply IH in H. rewrite H. cbn. by rewrite Es.
Qed.

Lemma backfill_pending fuel st r st' :
  backfill w chain fuel st = Some (r, st') -> s_pending_blocks (st_s st') = s_pending_blocks (st_s st).
Proof.
  revert st. induction fuel as [|fuel IH]; intros st H; [done|]. cbn [backfill] in H.
  destruct (list_min _) as [from|]; [|simplify_eq; by rewrite await_s].
  destruct (list_max _) as [to|]; [|simplify_eq; by rewrite await_s].
  apply bind_Some in H as ([r1 st1] & Hf & H). apply backfill_fetch_pending in Hf. rewrite await_s in Hf.
  destruct r1 as [logs|e]; [|by simplify_eq].
  destruct (apply_backfill _ _ _ _ _ _) as [[[out|e] db] cache]; [|simplify_eq; cbn; by rewrite await_s].
  destruct (_ <? _); [|apply IH in H; rewrite H]; simplify_eq; cbn; by rewrite await_s.
Qed.

Lemma list_min_elements (X : gset Z) : X ≠ ∅ -> is_Some (list_min (elements X)).
Proof.
  intros Hne. destruct (elements X) as [|x l] eqn:E; [|by eexists]. apply elements_empty_inv, leibniz_equiv in E. done.
Qed.

(** The chunks of a pass ended in [st'] because a transaction found the cursor moved by somebody else. *)
Definition found_moved (fuel : nat) (st' : St) : Prop := exists n target cur st,
  (n <= fuel)%nat /\ sweep_chunks w chain n target cur st = Some (Yielded, st').

(** A successful pass that leaves pending blocks asks to be run again, within the confirmation depth,
    or has found the cursor moved. *)
Lemma sweep_again fuel st x st' :
  sweep w chain fuel st = Some (Ok x, st') -> s_pending_blocks (st_s st') ≠ ∅ ->
  (exists d, x = Some d /\ d <= depth_delay chain conf) \/ (x = None /\ found_moved fuel st').
Proof.
  intros H Hne. unfold sweep in H. destruct (block_number _ _) as [[head|e] ops]; [|done].
  destruct (fast_forward_cursor _ _ _) as [[cur|e] db]; [|done].
  apply bind_Some in H as ([e st3] & Hch & H). destruct e as [c| |e]; [| |done].
  - apply bind_Some in H as ([r st4] & Hb & H). apply backfill_pending in Hb. destruct r as [[]|e]; [|done].
    simplify_eq. destruct (list_min_elements _ Hne) as [first ->]. cbn. left.
    eexists. split; [reflexivity|]. apply depth_delay_mono. lia.
  - simplify_eq. right. split; [done|]. do 4 eexists. split; [reflexivity|exact Hch].
Qed.

(** If nobody else moves the cursor, no pass finds it moved. *)
Lemma alone_again fuel st x st' :
  alone w chain -> 1 <= M < 2 ^ 63 -> span_ok chain (st_s st) ->
  (forall t head, (wo_head w t).1 = Ok head -> 0 <= head /\ head + M < 2 ^ 64) ->
  sweep w chain fuel st = Some (Ok x, st') -> s_pending_blocks (st_s st') ≠ ∅ ->
  exists d, x = Some d /\ d <= depth_delay chain conf.
Proof.
  intros Hal Hmax Hok Hhead H Hne. destruct (sweep_again fuel st x st' H Hne) as [?|[-> _]]; [done|exfalso].
  unfold sweep in H.
  assert (Hs1 : st_s (expire w chain st) = st_s st).
  { unfold expire. destruct (expire_watches _ _ _ _) as [[[|]|] db]; cbn; apply await_s. }
  set (st1 := await w (set_s _ (expire w chain st))) in H.
  assert (Hok1 : span_ok chain (st_s st1)) by (unfold st1; rewrite await_s; cbn; by rewrite Hs1).
  assert (Hh : forall head, (block_number (now_of w st1 `div` 10 ^ 6) (wo_head w (st_t st1))).1 = Ok head ->
    0 <= head /\ head + M < 2 ^ 64).
  { intros head. unfold block_number. destruct (wo_head w (st_t st1)).1 eqn:E; cbn; [|by rewrite E]. intros [= <-]. eauto. }
  destruct (block_number _ _) as [[head|e] ops]; [|done]. specialize (Hh head eq_refl).
  set (target := saturating_sub head conf) in H. assert (Ht : 0 <= target <= head) by (unfold target, saturating_sub; lia).
  set (st2 := await w (set_rt _ st1)) in H.
  assert (Hok2 : span_ok chain (st_s st2)) by (unfold st2; rewrite await_s; exact Hok1).
  destruct (fast_forward_cursor _ _ _) as [[cur|e] db] eqn:Hff; [|done].
  apply fast_forward_cursor_at in Hff as [Hcur Hat]; [|unfold in_u64; lia].
  apply bind_Some in H as ([e st3] & Hch & H). apply sweep_chunks_run in Hch.
  destruct (chunks_run_pass w chain Hmax _ _ _ _ _ Hch Hok2 Hcur ltac:(lia)) as (_ & _ & reached & _ & _ & Hd).
  destruct (Hd Hal Hat) as [_ Hy]. destruct e as [c| |e]; [|done|done].
  apply bind_Some in H as ([r st4] & Hb & H). apply backfill_pending in Hb. destruct r as [[]|e]; [|done].
  injection H as Hx <-. destruct (list_min_elements _ Hne) as [first E]. by rewrite E in Hx.
Qed.

(** The last pass found the cursor moved, and nothing but ticks has happened since. *)
Inductive stalled (fuel : nat) : Loop -> Prop :=
  | stalled_moved l l' reason st' :
      lp_next l = Some reason -> sweep w chain fuel (lp_st l) = Some (Ok None, st') -> found_moved fuel st' ->
      loop_sweep w chain fuel l = Some (inl l') -> stalled fuel l'
  | stalled_tick l l' :
      stalled fuel l -> loop_wake w chain TickElapsed (select_await l) = inl l' -> lp_next l' = None -> stalled fuel l'.

(** ** The loop *)

(** The proofs below are shared by the loop among others and the loop left alone, which differ in
    what may stand in for a wake-up. *)
Variable instead : nat -> Loop -> Prop.
Hypothesis Hafter : forall fuel l reason x st', span_ok chain (st_s (lp_st l)) -> lp_next l = Some reason ->
  sweep w chain fuel (lp_st l) = Some (Ok x, st') -> s_pending_blocks (st_s st') ≠ ∅ ->
  (exists d, x = Some d /\ d <= depth_delay chain conf)
  \/ forall l', loop_sweep w chain fuel l = Some (inl l') -> instead fuel l'.
Hypothesis Htick : forall fuel l l', instead fuel l -> loop_wake w chain TickElapsed (select_await l) = inl l' ->
  lp_next l' = None -> instead fuel l'.
Hypothesis Hmax : 1 <= M < 2 ^ 63.

(** Every pending block has its wake-up. *)
Definition live (fuel : nat) (l : Loop) : Prop := pending l ≠ ∅ -> armed l \/ instead fuel l.

Lemma live_new fuel st : live fuel (loop_new w st).
Proof. intros _. left. left. by eexists. Qed.

Lemma live_sweep fuel l l' :
  span_ok chain (st_s (lp_st l)) -> live fuel l -> loop_sweep w chain fuel l = Some (inl l') -> live fuel l'.
Proof.
  intros Hok Hl H. pose proof H as H0. unfold loop_sweep in H. destruct (lp_next l) as [reason|] eqn:Hn; [|by simplify_eq].
  apply bind_Some in H as ([r st] & Hs & H). destruct r as [x|e].
  - simplify_eq. intros Hne. destruct (Hafter _ _ _ _ _ Hok Hn Hs Hne) as [(d & -> & Hd)|Hi]; [left; right|right; by apply Hi].
    eexists. split; [reflexivity|]. unfold loop_now, max_wait. cbn. lia.
  - destruct (match e with IStore _ => _ | _ => _ end); [done|]. simplify_eq. intros _. left. right.
    eexists. split; [reflexivity|]. unfold loop_now, max_wait. cbn. lia.
Qed.

Lemma armed_await l : armed l -> armed (select_await l).
Proof.
  intros [Hn|(d & Hd & Hle)]; [by left|right]. exists d. split; [done|].
  unfold loop_now, select_await, now_of in *. cbn. rewrite await_t. specialize (Hclock (st_t (lp_st l))). lia.
Qed.

Lemma expire_s st : st_s (expire w chain st) = st_s st.
Proof. unfold expire. destruct (expire_watches _ _ _ _) as [[[|]|] db]; cbn; apply await_s. Qed.

Lemma idle_probe_pending st : s_pending_blocks (st_s (idle_probe w chain st)) = s_pending_blocks (st_s st).
Proof. unfold idle_probe. rewrite expire_s. cbn. by rewrite await_s. Qed.

Lemma live_wake fuel ev l l' : live fuel l -> loop_wake w chain ev (select_await l) = inl l' -> live fuel l'.
Proof.
  intros Hl H Hne. pose proof H as H0. destruct ev as [|[[reason|block]|]| |]; cbn [loop_wake] in H; simplify_eq.
  - left. left. by eexists.
  - left. right. eexists. split; [reflexivity|]. unfold loop_now, max_wait, now_of.
    cbn [lp_st lp_due st_t set_s select_await]. set (D := depth_delay chain conf). destruct (lp_due l); lia.
  - left. left. by eexists.
  - destruct (_ && _); [simplify_eq; left; left; by eexists|].
    assert (pending l ≠ ∅ /\ l' = select_await l) as [Hpe ->].
    { destruct (negb _ && _) eqn:Hp; simplify_eq.
      - apply andb_prop in Hp as [Hp _]. rewrite negb_true_iff, orb_false_iff, !negb_false_iff, bool_decide_eq_true in Hp.
        destruct Hp as [_ Hp]. destruct Hne. unfold pending. cbn [lp_st]. by rewrite idle_probe_pending.
      - split; [|done]. intros E. apply Hne. unfold pending, select_await. cbn. by rewrite await_s. }
    destruct (Hl Hpe) as [Ha|Hi]; [left; by apply armed_await|]. destruct (lp_next l) as [n|] eqn:Hn; [left; left|right].
    + cbn. rewrite Hn. by eexists.
    + eapply Htick; [exact Hi|exact H0|exact Hn].
Qed.

(** ** Every run of the loop *)

Variable B : Z.
Hypothesis HB : 0 <= B /\ B + M < 2 ^ 64.
Hypothesis Hothers : others_bounded w chain B.
Hypothesis HheadB : forall t head, (wo_head w t).1 = Ok head -> 0 <= head < B.

Record loop_inv (fuel : nat) (l : Loop) : Prop := {
  lv_debts : bounded chain B (st_db (lp_st l));
  lv_span : span_ok chain (st_s (lp_st l));
  lv_live : live fuel l;
}.

Lemma inv_sweep fuel l l' : loop_inv fuel l -> loop_sweep w chain fuel l = Some (inl l') -> loop_inv fuel l'.
Proof.
  intros [Hb Hok Hl] H. assert (bounded chain B (st_db (lp_st l')) /\ span_ok chain (st_s (lp_st l'))) as [? ?].
  { unfold loop_sweep in H. destruct (lp_next l) as [reason|]; [|by simplify_eq].
    apply bind_Some in H as ([r st] & Hs & H). apply (sweep_kept w chain Hmax B HB Hothers) in Hs; [|done|lia|done|done].
    destruct r as [x|e]; [by simplify_eq|]. destruct (match e with IStore _ => _ | _ => _ end); by simplify_eq. }
  split; [done|done|exact (live_sweep _ _ _ Hok Hl H)].
Qed.

Lemma inv_wake fuel ev l l' : loop_inv fuel l -> loop_wake w chain ev (select_await l) = inl l' -> loop_inv fuel l'.
Proof.
  intros [Hb Hok Hl] H. pose proof (live_wake fuel ev l l' Hl H) as Hl'.
  assert (Hb1 : bounded chain B (st_db (await w (lp_st l)))) by by apply (frame_await w (bounded chain B)).
  assert (Hok1 : span_ok chain (st_s (await w (lp_st l)))) by by rewrite await_s.
  assert (bounded chain B (st_db (lp_st l')) /\ span_ok chain (st_s (lp_st l'))) as [? ?]; [|by split].
  destruct ev as [|[[reason|block]|]| |]; cbn [loop_wake] in H; simplify_eq; try done.
  destruct (_ && _); simplify_eq; [done|]. destruct (_ && _); simplify_eq; [|done]. cbn. split.
  - unfold idle_probe. apply (frame_expire w chain (bounded chain B) Hothers); [apply bounded_view|].
    cbn. by apply (frame_await w (bounded chain B)).
  - unfold idle_probe. rewrite expire_s. cbn. rewrite await_s. exact Hok1.
Qed.

Lemma inv_run fuel evs l l' : loop_inv fuel l -> run_loop fuel evs l = Some (inl l') -> loop_inv fuel l'.
Proof.
  revert l. induction evs as [|ev evs IH]; intros l Hl H; cbn [run_loop] in H; [by simplify_eq|].
  apply bind_Some in H as (r & Ht & H). destruct r as [l1|r]; [|by simplify_eq]. apply (IH l1); [|done].
  unfold turn in Ht. apply bind_Some in Ht as (r & Hs & Ht). destruct r as [l0|r]; [|done]. injection Ht as Ht.
  eapply inv_wake; [|exact Ht]. eapply inv_sweep; eauto.
Qed.

(** The periodic tick sweeps an active chain once the safety interval has passed. *)
Lemma tick_sweeps l :
  pending l ≠ ∅ -> cc_safety_sweep_interval_ms (ch_cfg chain) * 10 ^ 6 <= loop_now l - lp_last_safety l ->
  loop_wake w chain TickElapsed l = inl (mkLoop (lp_st l) (lp_due l) (Some "safety"%string) (lp_last_safety l)).
Proof.
  intros Hne Hs. cbn [loop_wake]. unfold loop_now in Hs. fold (pending l).
  rewrite (bool_decide_false _ Hne), orb_true_r. cbn [andb]. rewrite (proj2 (Z.leb_le _ _) Hs). done.
Qed.
End live.

(** ** Properties *)

(** C20. No pending block is forgotten: from the start of the task, through any sequence of sweeps
    that succeed or fail, triggers, timers and ticks, whenever the sweeper knows of a pending block,
    a sweep is about to start, or a timer is set no later than the confirmation depth (or the two
    seconds' retry) from now, or the last pass ended because it found the cursor moved by somebody
    else and nothing but ticks has happened since. In that last case no timer is set, and it cannot
    happen while nobody else moves the cursor. In every case the first tick after the safety interval
    starts a sweep. *)
Theorem wakeups_not_lost (w : World) (chain : ChainSpec) (B : Z) (fuel : nat) (evs : list Wake) (st : St) (l : Loop) :
  let cfg := ch_cfg chain in
  let armed := is_Some (lp_next l) \/ exists d, lp_due l = Some d
     /\ d <= loop_now w l + Z.max (depth_delay chain (cc_confirmations cfg)) (2 * 10 ^ 9) in
  1 <= cc_max_log_range cfg < 2 ^ 63 -> 0 <= cc_confirmations cfg < 2 ^ 32 -> 0 <= block_time cfg ->
  0 <= B /\ B + cc_max_log_range cfg < 2 ^ 64 ->
  (forall t, wo_now w t <= wo_now w (S t)) -> (forall t head, (wo_head w t).1 = Ok head -> 0 <= head < B) ->
  others_bounded w chain B -> bounded chain B (st_db st) ->
  st_s st = sweeper_new (st_db st) chain (now_of w st) ->
  run_loop w chain fuel evs (loop_new w st) = Some (inl l) -> pending l ≠ ∅ ->
  (armed \/ stalled w chain fuel l) /\ (alone w chain -> armed)
  /\ (cc_safety_sweep_interval_ms cfg * 10 ^ 6 <= loop_now w l - lp_last_safety l ->
      exists l', loop_wake w chain TickElapsed l = inl l' /\ lp_next l' = Some "safety"%string).
Proof.
  intros cfg armed Hmax Hconf Hbt HB Hclock Hhead Hoth Hb Hst Hrun Hne.
  assert (Hok : span_ok chain (st_s st)) by (rewrite Hst; apply sweeper_new_ok; exact Hmax).
  assert (Hh : forall t head, (wo_head w t).1 = Ok head -> 0 <= head /\ head + cc_max_log_range cfg < 2 ^ 64).
  { intros t head Ht%Hhead. unfold cfg in *. lia. }
  split_and!.
  - assert (Hinv : loop_inv w chain (stalled w chain) B fuel l).
    { refine (inv_run w chain Hclock Hconf _ _ (stalled_tick w chain) Hmax B HB Hoth Hhead fuel evs (loop_new w st) l _ Hrun).
      - intros n l1 reason x st' _ Hn Hs Hp. destruct (sweep_again w chain Hconf Hbt n _ x st' Hs Hp) as [?|[-> Hm]]; [by left|].
        right. intros l' Hl'. by eapply stalled_moved.
      - split; [exact Hb|exact Hok|apply live_new]. }
    by apply (lv_live _ _ _ _ _ _ Hinv).
  - intros Hal. assert (Hinv : loop_inv w chain (fun _ _ => False) B fuel l).
    { refine (inv_run w chain Hclock Hconf _ _ _ Hmax B HB Hoth Hhead fuel evs (loop_new w st) l _ Hrun).
      - intros n l1 reason x st' Hok1 _ Hs Hp. left. by eapply alone_again.
      - done.
      - split; [exact Hb|exact Hok|apply live_new]. }
    by destruct (lv_live _ _ _ _ _ _ Hinv Hne).
  - intros Hs. eexists. split; [by apply tick_sweeps|done].
Qed.
