(* ===== verification/Promise.v ===== *)
(** * Promise: from the block to the consumer

    The pass of the sweeper and the dispatcher that follows it, as one statement about the service:
    a canonical payment to an active watch is confirmed by the pass, carried by one event, and that
    event can be, and with cooperating surroundings inevitably is, delivered. *)

From S2P Require Import Prelude Text Config Registry Cache Matcher Events Health Rpc Store Sweep.
From S2P Require Import Runtime Sweeper Outbox Webhook TxSpec Ledger LedgerTx SweepSpec System SweeperSpec Debt.
From S2P Require Import Durable Payments SweeperLive Dispatch DispatchLive.

(** ** The sweeper's loop *)

Section loop.
Variable hist : TransferKey -> option (Z * Z * Z * Z).
Variable chain : ChainSpec.
Context `{!SpecOk chain}.
Variable canon : Z -> list Log.
Variable height : Z -> Z.
Variable ex : Exceptions.
Variables (T : Z) (w : World).
Local Abbreviation max := (cc_max_log_range (ch_cfg chain)).
Local Abbreviation conf := (cc_confirmations (ch_cfg chain)).
Hypothesis Hcanon : canonical hist chain canon height.
Hypothesis HT : 0 <= T < 2 ^ 62.
Hypothesis Hmax : 1 <= max < 2 ^ 63.
Hypothesis Hconf : 0 <= conf.
Hypothesis HTM : T + conf + 1 + max < 2 ^ 64.
Hypothesis Hpeers : peers_act hist chain canon height ex T w.
Hypothesis Hnode : answers_honestly hist chain canon height T w.
Hypothesis Hheads : settled_heads chain T w.






(** Every turn ends. *)
Hypothesis Hothers : others_owe_nothing w chain.
Variable D : gmap Z (Z * Z).
Hypothesis HD : debts_below (T + conf + 1) D.
Variable fuel : nat.
Hypothesis Hfuel : Z.of_nat (size D) + (T + conf + 1) * max + max + 1 < Z.of_nat fuel.





End loop.

(** ** Properties *)


