(* ===== verification/SourceSpec.v ===== *)
(** * SourceSpec: what the head path guarantees

    A targeted session stays subscribed to every watched recipient, or is about to be, while
    watches are registered, retired and discovered by sweeps, but for the recipients that a failed
    sweep has put into the cache; a log is either recorded and
    scheduled for its sweep or safely skipped. *)

From S2P Require Import Prelude Config Registry Cache Matcher Events Health Rpc Store Sweep Runtime.
From S2P Require Import Source TxSpec Ledger LedgerTx SweepSpec.

(** ** Keys a sweep discovers *)

Lemma load_entries_keys cache es key :
  is_Some (cache_get (load_entries cache es).1 key) ->
  is_Some (cache_get cache key) \/ key ∈ (load_entries cache es).2.
Proof.
  revert cache. induction es as [|[k r] es IH]; intros cache H; [by left|]. cbn in H |- *.
  specialize (IH (cache_insert cache k r).2).
  destruct (cache_insert cache k r) as [fresh cache1] eqn:Hi. cbn [snd] in IH.
  destruct (load_entries cache1 es) as [cache2 ks]. cbn in *.
  assert (E1 : cache1 = (cache_insert cache k r).2) by (by rewrite Hi).
  assert (Ef : fresh = (cache_insert cache k r).1) by (by rewrite Hi).
  destruct (IH H) as [Hin|Hin].
  - rewrite E1, cache_get_insert in Hin. destruct (decide (k = key)) as [<-|]; [|by left].
    destruct (cache_get cache k) eqn:Hk; [left; by eexists|]. right. rewrite Ef. unfold cache_insert. cbn.
    unfold cache_get in Hk. rewrite Hk. apply list_elem_of_here.
  - right. destruct fresh; [by apply list_elem_of_further|done].
Qed.

Lemma count_discovered chain m env d k st out st' out' d' k' :
  count_result chain m env d k st out st' out' d' k' -> out_discovered out' = out_discovered out.
Proof. destruct 1; cbn; try destruct (bool_decide _); done. Qed.

Lemma resolve_discovered chain cs acs kx acc env d k acc' d' k' :
  resolve_leftover chain cs acs kx acc env (d, k) = Ok (acc', (d', k')) ->
  out_discovered acc'.2 = out_discovered acc.2.
Proof.
  destruct acc as [stats out], kx as [key x]. intros H. unfold resolve_leftover in H. cbv zeta in H.
  destruct (_ || _).
  - tx_inv H. tx_simp Ht. tx_simp H. done.
  - tx_inv H. tx_simp Ht. tx_inv H. destruct a as [w|]; [|by tx_simp H].
    tx_inv H. tx_inv H. by tx_simp H.
Qed.

(** A committed sweep reports every key its delta load added to the cache. *)
Lemma apply_sweep_discovered chain env d cache c to logs out d' cache' :
  ids_ok d -> apply_sweep env d chain cache c to logs = (Ok (Applied out), d', cache') ->
  forall key, is_Some (cache_get cache' key) -> is_Some (cache_get cache key) \/ key ∈ out_discovered out.
Proof.
  intros Hids H key. unfold apply_sweep in H. destruct (cursor d _) as [a|]; [|done]. destruct (negb _); [done|].
  pose proof (load_entries_keys cache (delta_load d chain (cache_last_seq cache)) key) as Hl.
  destruct (load_entries cache _) as [cache1 disc]. cbn in Hl.
  destruct (run_tx env d _) as [[out1|e] d1] eqn:Hrun; [|done]. simplify_eq.
  intros [r Hr]. apply cache_get_remove_all_inv in Hr. destruct (Hl ltac:(by eexists)) as [?|Hd]; [by left|right].
  apply run_tx_Ok in Hrun as [[k Hrun]|[-> [s Hrun]]]; tx_inv Hrun; tx_simp Hrun.
  unfold sweep_account in Ht. tx_inv Ht. tx_inv Ht. tx_simp Ht1. tx_inv Ht. destruct a1 as [st2 out2].
  assert (E : out_discovered a0.2 = disc /\ ids_ok d1).
  { eapply (mfold_Tx_inv _ (fun acc d1 _ => out_discovered acc.2 = disc /\ ids_ok d1)) in Ht0; [exact Ht0| |done].
    intros m [st1 out1] d2 k2 [st3 out3] d3 k3 _ [E Hids2] Hm. apply count_confirmed_Ok in Hm; [|done].
    split; [|by eapply count_ids_ok]. cbn in *. rewrite <- E. by eapply count_discovered. }
  assert (E2 : out_discovered out2 = out_discovered a0.2).
  { eapply (mfold_Tx_inv _ (fun acc _ _ => out_discovered acc.2 = out_discovered a0.2)) in Ht1; [exact Ht1| |done].
    intros kx acc d2 k2 acc3 d3 k3 _ E3 Hm. by rewrite (resolve_discovered _ _ _ _ _ _ _ _ _ _ _ Hm). }
  tx_inv Ht. tx_inv Ht. tx_simp Ht. by rewrite E2, (proj1 E).
Qed.

(** ** A targeted session with the runtime changing under it *)

Section coverage.
Variable sub_ok : nat -> bool.
Variable clock : nat -> Z.
Variable envs : nat -> Env.
Variable chain : ChainSpec.
Local Abbreviation size := (Z.to_nat (cc_ws_bucket_size (ch_cfg chain))).
Hypothesis Hsize : (0 < size)%nat.

Definition with_rt (db : DB) (rt : ChainRuntime) (p : Push) : Push :=
  mkPush (pu_session p) (pu_pending_new p) (pu_coalesce_at p) (pu_last_log p) db rt (pu_n p) (pu_calls p).

(** The recipients whose keys the delta load of a sweep adds to the cache. *)
Definition loaded (d : DB) (cache : WatchCache) : list Z :=
  k_address <$> (load_entries cache (delta_load d chain (cache_last_seq cache))).2.

(** What a sweep does to the runtime once its transaction has ended: only a committed one announces. *)
Definition after_sweep (r : result StoreError SweepResult) (cache : WatchCache) (rt : ChainRuntime) : ChainRuntime :=
  match r with
  | Ok (Applied out) => note_cache_changed (with_cache cache rt) (out_discovered out) (length (out_completed out))
  | _ => with_cache cache rt
  end.

(** What the runtime goes through while the session runs: the session's own turns, watches added
    and removed by the API and the listener, sweeps however they end, backfills, sweep requests and
    health calls. Beside it go the recipients that sweeps loaded and, failing, did not announce. *)
Inductive push_step : Push * list Z -> Push * list Z -> Prop :=
  | ps_wake ev p p' silent :
      session_wake sub_ok clock envs chain Targeted ev p = inl p' -> push_step (p, silent) (p', silent)
  | ps_add p key ref silent : push_step (p, silent) (with_rt (pu_db p) (add_watch (pu_rt p) key ref) p, silent)
  | ps_remove p key id silent : push_step (p, silent) (with_rt (pu_db p) (remove_watch (pu_rt p) key id) p, silent)
  | ps_sweep p env c to logs r db cache silent :
      ids_ok (pu_db p) ->
      apply_sweep env (pu_db p) chain (rt_cache (pu_rt p)) c to logs = (r, db, cache) ->
      push_step (p, silent)
        (with_rt db (after_sweep r cache (pu_rt p)) p,
         if is_ok r then silent else silent ++ loaded (pu_db p) (rt_cache (pu_rt p)))
  | ps_backfill p env batch logs r db cache silent :
      apply_backfill env (pu_db p) chain (rt_cache (pu_rt p)) batch logs = (r, db, cache) ->
      push_step (p, silent)
        (with_rt db (match r with
                     | Ok out => note_cache_changed (with_cache cache (pu_rt p)) [] (length (out_completed out))
                     | Err _ => with_cache cache (pu_rt p)
                     end) p, silent)
  | ps_other p db rt silent :
      rt_cache rt = rt_cache (pu_rt p) -> rt_watch_q rt = rt_watch_q (pu_rt p) ->
      push_step (p, silent) (with_rt db rt p, silent).

(** The recipients announced on the queue. *)
Definition announced (q : list WatchChange) : list Z :=
  omap (fun c => match c with Added a => Some a | Removed => None end) q.

Record push_ok (silent : list Z) (p : Push) : Prop := {
  pk_buckets : buckets_ok size (pu_session p);
  pk_covered : forall key, is_Some (cache_get (rt_cache (pu_rt p)) key) ->
    k_address key ∈ concat (buckets (pu_session p)) \/ k_address key ∈ pu_pending_new p
    \/ k_address key ∈ announced (rt_watch_q (pu_rt p)) \/ k_address key ∈ silent;
  pk_timer : pu_pending_new p ≠ [] -> is_Some (pu_coalesce_at p);
}.

Lemma announced_app q q' : announced (q ++ q') = announced q ++ announced q'.
Proof. apply omap_app. Qed.

Lemma elem_of_cache_addresses cache key :
  is_Some (cache_get cache key) -> k_address key ∈ cache_addresses cache.
Proof.
  intros [r Hr]. unfold cache_addresses. apply list_elem_of_fmap. exists (key, r). split; [done|].
  by apply elem_of_map_to_list.
Qed.

Lemma session_start_ok n db rt p : session_start sub_ok clock chain Targeted n db rt = inl p -> push_ok [] p.
Proof.
  intros H. unfold session_start in H. cbv zeta in H.
  destruct (build_targeted _ _ _ _ _) as [[[s|e] n'] calls] eqn:Hb; [|done]. simplify_eq.
  apply build_targeted_Ok in Hb as (E & Hok & _); [|done]. split; cbn; [done| |congruence].
  intros key Hkey. left. rewrite E. apply elem_of_sort_dedup. by apply elem_of_cache_addresses.
Qed.

Lemma handle_log_frame env db rt log db' rt' wake :
  handle_log chain env db rt log = (db', rt', wake) ->
  rt_cache rt' = rt_cache rt /\ rt_watch_q rt' = rt_watch_q rt.
Proof.
  unfold handle_log. destruct (match_log _ _ _) as [m|]; [|by intros [= <- <- <-]].
  destruct (m_removed m); [by intros [= <- <- <-]|].
  by destruct (record_pending _ _ _ _) as [[[]|] ?]; intros [= <- <- <-].
Qed.

Lemma session_change_ok silent p : push_ok silent p -> push_ok silent (session_change clock chain Targeted p).
Proof.
  intros [Hb Hc Ht]. unfold session_change. destruct (rt_watch_q (pu_rt p)) as [|change rest] eqn:Hq.
  { split; [done| |done]. by rewrite Hq. }
  destruct change as [a|]; cbv zeta.
  - rewrite bool_decide_eq_true_2 by done. split; cbn; [done| |by eauto].
    intros key Hkey. destruct (Hc key Hkey) as [?|[?|[H|?]]]; [by left|right; left; set_solver| |by auto].
    cbn in H. apply elem_of_cons in H as [->|H]; [right; left; set_solver|by auto].
  - split; cbn; [by destruct Hb| |done]. intros key Hkey. destruct (Hc key Hkey) as [H|[?|H]].
    + left. exact H.
    + by right; left.
    + by right; right.
Qed.

Lemma session_wake_ok ev silent p p' :
  push_ok silent p -> session_wake sub_ok clock envs chain Targeted ev p = inl p' -> push_ok silent p'.
Proof.
  intros Hp H. pose proof Hp as [Hb Hc Ht]. destruct ev as [|[[log|n|]|]| | |]; cbn in H; try done.
  - destruct (handle_log _ _ _ _ _) as [[db rt] wk] eqn:Hl. apply handle_log_frame in Hl as [E1 E2]. simplify_eq.
    split; cbn; [done| |done]. by rewrite E1, E2.
  - by simplify_eq.
  - simplify_eq. by apply session_change_ok.
  - destruct (add_recipients _ _ _ _ _) as [[[s|e] n] calls] eqn:Ha; [|done]. simplify_eq.
    apply add_recipients_Ok in Ha as (Hin & Hok & _); [|done..]. split; cbn; [done| |congruence].
    intros key Hkey. rewrite Hin. destruct (Hc key Hkey) as [?|[?|?]]; auto.
  - unfold session_housekeeping in H. destruct (cache_is_empty _); [done|]. destruct (negb _); [done|].
    rewrite (bool_decide_eq_false_2 (Targeted = Firehose)) in H by done. cbn [andb] in H.
    destruct (_ && _); [|by simplify_eq].
    destruct (build_targeted _ _ _ _ _) as [[[s|e] n] calls] eqn:Hbt; [|done]. simplify_eq.
    apply build_targeted_Ok in Hbt as (E & Hok & _); [|done]. split; cbn; [done| |done].
    intros key Hkey. left. rewrite E. apply elem_of_sort_dedup. by apply elem_of_cache_addresses.
Qed.

Lemma announced_mono q q' a : a ∈ announced q -> a ∈ announced (q ++ q').
Proof. rewrite announced_app. set_solver. Qed.

Lemma announced_added keys : announced ((fun key => Added (k_address key)) <$> keys) = k_address <$> keys.
Proof. induction keys as [|k keys IH]; [done|]. cbn. by f_equal. Qed.

Lemma add_watch_announces rt key ref key' :
  is_Some (cache_get (rt_cache (add_watch rt key ref)) key') ->
  (is_Some (cache_get (rt_cache rt) key')
   /\ forall a, a ∈ announced (rt_watch_q rt) -> a ∈ announced (rt_watch_q (add_watch rt key ref)))
  \/ k_address key' ∈ announced (rt_watch_q (add_watch rt key ref)).
Proof.
  unfold add_watch. change (rt_cache _) with (cache_insert (rt_cache rt) key ref).2 at 1.
  rewrite cache_get_insert. destruct (cache_insert _ _ _) as [fresh cache] eqn:Hi. cbn.
  assert (Hf : fresh = bool_decide (cache_get (rt_cache rt) key = None)) by (by injection Hi).
  assert (Hm : forall a, a ∈ announced (rt_watch_q rt) ->
    a ∈ announced (if fresh then rt_watch_q rt ++ [Added (k_address key)] else rt_watch_q rt)).
  { intros a Ha. destruct fresh; [by apply announced_mono|done]. }
  destruct (decide (key = key')) as [<-|Hne]; [|by left]. intros _.
  destruct (cache_get (rt_cache rt) key) as [r|] eqn:Hk; [left; by eauto|right].
  rewrite Hf, bool_decide_eq_true_2, announced_app by done. set_solver.
Qed.

Lemma remove_watch_keeps rt key id key' :
  is_Some (cache_get (rt_cache (remove_watch rt key id)) key') ->
  is_Some (cache_get (rt_cache rt) key')
  /\ forall a, a ∈ announced (rt_watch_q rt) -> a ∈ announced (rt_watch_q (remove_watch rt key id)).
Proof.
  unfold remove_watch. pose proof (cache_get_remove (rt_cache rt) key id key') as E.
  destruct (cache_remove _ _ _) as [removed cache]. cbn in *. rewrite E. destruct (decide _); [by intros []|].
  intros H. split; [done|]. intros a Ha. destruct removed; [by apply announced_mono|done].
Qed.

(** A sweep that was not applied has changed the cache by its delta load at most. *)
Lemma unapplied_sweep_keys env d cache c to logs r d' cache' key :
  apply_sweep env d chain cache c to logs = (r, d', cache') -> (forall out, r ≠ Ok (Applied out)) ->
  is_Some (cache_get cache' key) ->
  is_Some (cache_get cache key) \/ (is_ok r = false /\ k_address key ∈ loaded d cache).
Proof.
  intros H Hr Hk. unfold apply_sweep in H. destruct (cursor d _) as [a|]; [|simplify_eq; by left].
  destruct (negb _); [simplify_eq; by left|]. unfold loaded.
  pose proof (load_entries_keys cache (delta_load d chain (cache_last_seq cache)) key) as Hl.
  destruct (load_entries cache _) as [cache1 disc]. cbn in Hl |- *.
  destruct (run_tx env d _) as [[out1|e] d1]; simplify_eq; [by destruct (Hr out1)|].
  destruct (Hl Hk) as [?|Hd]; [by left|right]. split; [done|]. by apply list_elem_of_fmap_2.
Qed.

Lemma apply_backfill_keys env d cache batch logs r d' cache' key :
  apply_backfill env d chain cache batch logs = (r, d', cache') ->
  is_Some (cache_get cache' key) -> is_Some (cache_get cache key).
Proof.
  unfold apply_backfill. destruct (run_tx _ _ _) as [[out|e] d1]; intros H; simplify_eq; [|done].
  intros [ref Hr]. apply cache_get_remove_all_inv in Hr. by eexists.
Qed.

Lemma push_step_ok ps ps' : push_ok ps.2 ps.1 -> push_step ps ps' -> push_ok ps'.2 ps'.1.
Proof.
  intros Hp Hs. destruct Hs as [ev p p' silent H|p key ref silent|p key id silent|p env c to logs r db cache silent Hids H
    |p env batch logs r db cache silent H|p db rt silent E1 E2]; cbn [fst snd] in *.
  { by eapply session_wake_ok. }
  all: destruct Hp as [Hb Hc Ht]; split; cbn; [done| |done]; intros key' Hkey.
  - destruct (add_watch_announces (pu_rt p) key ref key' Hkey) as [[Hk Hq]|Hq]; [|auto].
    destruct (Hc key' Hk) as [?|[?|[?|?]]]; auto.
  - apply remove_watch_keeps in Hkey as [Hk Hq]. destruct (Hc key' Hk) as [?|[?|[?|?]]]; auto.
  - assert (Hq : forall a, a ∈ announced (rt_watch_q (pu_rt p)) -> a ∈ announced (rt_watch_q (after_sweep r cache (pu_rt p)))).
    { intros a Ha. unfold after_sweep. destruct r as [[]|]; try exact Ha. by apply announced_mono. }
    assert (Hs : forall a, a ∈ silent -> a ∈ (if is_ok r then silent else silent ++ loaded (pu_db p) (rt_cache (pu_rt p)))).
    { intros a Ha. destruct (is_ok r); [done|]. apply elem_of_app. by left. }
    assert (Hor : is_Some (cache_get (rt_cache (pu_rt p)) key')
      \/ k_address key' ∈ announced (rt_watch_q (after_sweep r cache (pu_rt p)))
      \/ k_address key' ∈ (if is_ok r then silent else silent ++ loaded (pu_db p) (rt_cache (pu_rt p)))).
    { destruct r as [[out|x y]|e].
      - destruct (apply_sweep_discovered _ _ _ _ _ _ _ _ _ _ Hids H key' Hkey) as [Hk|Hd]; [by left|right; left].
        cbn. rewrite !announced_app, announced_added. apply elem_of_app. right. apply elem_of_app. left.
        by apply list_elem_of_fmap_2.
      - by destruct (unapplied_sweep_keys _ _ _ _ _ _ _ _ _ key' H ltac:(done) Hkey) as [?|[]]; [left|].
      - destruct (unapplied_sweep_keys _ _ _ _ _ _ _ _ _ key' H ltac:(done) Hkey) as [?|[_ Hin]]; [by left|].
        right. right. apply elem_of_app. by right. }
    destruct Hor as [Hk|[?|?]]; [|by auto..]. destruct (Hc key' Hk) as [?|[?|[?|?]]]; auto.
  - assert (Hk : is_Some (cache_get (rt_cache (pu_rt p)) key')).
    { eapply apply_backfill_keys; [exact H|]. by destruct r. }
    destruct (Hc key' Hk) as [?|[?|[?|?]]]; [by auto..| |by auto]. right. right. left.
    destruct r; [|done]. by apply announced_mono.
  - rewrite E1 in Hkey. rewrite E2. by apply Hc.
Qed.
End coverage.

(** The transaction either stores the transfer and reports it, or leaves everything as it was. *)
Lemma record_pending_stored env d chain m b d' :
  record_pending env d chain m = (Ok b, d') ->
  if b then is_Some (d_transfers d' !! transfer_key chain m) else d' = d.
Proof.
  intros H. apply run_tx_Ok in H as [[k H]|[-> [s H]]]; unfold record_pending_tx in H; tx_inv H;
    (destruct a as [w|]; [|tx_simp H; done]); tx_inv H; destruct a; try (by tx_simp H).
  - tx_inv H. tx_simp H. apply insert_pending_Ok in Ht0 as [([=] & _)|(_ & _ & [= -> ->])].
    apply insert_event_Ok in Ht1 as ([= _ -> _] & _). cbn. rewrite lookup_insert_eq. by eexists.
  - tx_inv H. by tx_simp H.
Qed.

(** ** Properties *)

(** C24. The head path misses no recipient it is told of: from the start of a targeted session, through
    any sequence of its own turns, registrations, retirements, backfills and sweeps that are applied, find
    the cursor moved or fail, every watched address is in a live subscription, in the batch waiting for
    the coalescing timer (which is then set), announced on the queue, or among those that the delta
    load of a failed sweep has put into the cache; the sealed buckets are exactly full and only the open
    one is below [ws_bucket_size]. The last kind is never announced
    ([failed_sweep_not_announced] is such a run); without failed sweeps there is none. *)
Theorem push_path_covers (sub_ok : nat -> bool) (clock : nat -> Z) (envs : nat -> Env) (chain : ChainSpec)
    (n : nat) (db : DB) (rt : ChainRuntime) (p p' : Push) (silent : list Z) :
  0 < cc_ws_bucket_size (ch_cfg chain) ->
  session_start sub_ok clock chain Targeted n db rt = inl p ->
  rtc (push_step sub_ok clock envs chain) (p, []) (p', silent) -> push_ok chain silent p'.
Proof.
  intros Hsize Hs Hr. assert (Hn : (0 < Z.to_nat (cc_ws_bucket_size (ch_cfg chain)))%nat) by lia.
  apply session_start_ok in Hs; [|done].
  assert (G : forall ps ps', rtc (push_step sub_ok clock envs chain) ps ps' -> push_ok chain ps.2 ps.1 -> push_ok chain ps'.2 ps'.1).
  { induction 1; eauto using push_step_ok. }
  exact (G _ _ Hr Hs).
Qed.

(** New subscriptions are live before the old ones go: a rebuild or an extension of the
    buckets that succeeds issues all its subscriptions first and retires old buckets only then,
    and what it leaves subscribed is exactly the watchlist, or the old recipients with the new. *)
Theorem resubscribe_without_gap (sub_ok : nat -> bool) (chain : ChainSpec) (n n' : nat) (cache : WatchCache)
    (new : list Z) (s s1 s2 : Session) (calls1 calls2 : list SubCall) :
  0 < cc_ws_bucket_size (ch_cfg chain) -> buckets_ok (Z.to_nat (cc_ws_bucket_size (ch_cfg chain))) s ->
  build_targeted sub_ok chain n cache s = (Ok s1, n', calls1) ->
  add_recipients sub_ok chain n new s = (Ok s2, n', calls2) ->
  (concat (buckets s1) = sort_dedup (cache_addresses cache)
   /\ exists subs, calls1 = ((fun b => Subscribe (Some b)) <$> subs) ++ (Retire <$> buckets s))
  /\ (forall a, a ∈ concat (buckets s2) <-> a ∈ concat (buckets s) \/ a ∈ new)
  /\ exists subs, calls2 = ((fun b => Subscribe (Some b)) <$> subs) ++ (Retire <$> option_list (ss_open s)).
Proof.
  intros Hsize Hok H1 H2. assert (Hn : (0 < Z.to_nat (cc_ws_bucket_size (ch_cfg chain)))%nat) by lia.
  apply build_targeted_Ok in H1 as (E1 & _ & C1); [|done].
  apply add_recipients_Ok in H2 as (E2 & _ & C2); [|done..]. split_and!; [done|by eauto|done|done].
Qed.

(** A log seen at the head is never dropped: a removed one asks for a sweep now; a watched one
    is recorded as pending, with its event, or found already recorded or its watch retired; and
    whenever it was recorded, or could not be, the sweep of its block is scheduled. *)
Theorem handle_log_schedules (chain : ChainSpec) (env : Env) (db db' : DB) (rt rt' : ChainRuntime) (log : Log)
    (m : MatchedTransfer) (wake : bool) :
  match_log chain (rt_cache rt) log = Ok m -> handle_log chain env db rt log = (db', rt', wake) ->
  if m_removed m then db' = db /\ rt_sweep_q rt' = rt_sweep_q rt ++ [Now "log_removed"]
  else
    db' = (record_pending env db chain m).2
    /\ match (record_pending env db chain m).1 with
       | Ok true => wake = true /\ rt_sweep_q rt' = rt_sweep_q rt ++ [PendingAt (m_block_number m)]
           /\ is_Some (d_transfers db' !! transfer_key chain m)
       | Ok false => rt' = rt /\ db' = db
       | Err _ => rt_sweep_q rt' = rt_sweep_q rt ++ [PendingAt (m_block_number m)] /\ db' = db
       end.
Proof.
  intros Hm H. unfold handle_log in H. rewrite Hm in H. destruct (m_removed m); [by simplify_eq|].
  destruct (record_pending env db chain m) as [[[]|e] d1] eqn:Hr; simplify_eq; cbn.
  - split_and!; [done..|]. by eapply record_pending_stored in Hr.
  - split_and!; [done..|]. by eapply record_pending_stored in Hr.
  - split_and!; [done..|]. by apply run_tx_Err in Hr.
Qed.
