(* ===== verification/SourceRun.v ===== *)
(** * SourceRun: the head path's task ([run] of [src/ingest/source.rs]) and its poller

    [source_turn] is one iteration of the task's loop: parked while nothing is watched, polling, a
    failed connection with the poller standing in once the outage is long enough, or a session from
    its connection to its end. What the outside decides in an iteration is a [TurnIO]. *)

From S2P Require Import Prelude Text Config Registry Cache Matcher Events Health Rpc Store Sweep.
From S2P Require Import Runtime Source.

(** [src/ingest/source.rs:88-95 run (state)] *)
Record SourceSt := mkSource {
  so_current : option Mode;
  so_down : option Z;
  so_delay : Z;
  so_poller : Poller;
  so_db : DB;
  so_rt : ChainRuntime;
  so_n : nat;
}.

Definition source_new (db : DB) (rt : ChainRuntime) (n : nat) : SourceSt :=
  mkSource None None 250 poller_new db rt n.

Record TurnIO := mkIO {
  io_cancelled : bool;          (* [cancel] at the top of the loop *)
  io_interrupted : bool;        (* [cancel] during the sleep or the wait of this turn *)
  io_closed : bool;             (* the channel of changes is closed *)
  io_now : Z;
  io_later : Z;                 (* when the session ended *)
  io_connected : bool;
  io_wakes : list SessionWake;
  io_logs : Z -> Reply (list Log);
  io_head : Reply Z;
}.

Section source_run.
Variable sub_ok : nat -> bool.
Variable clock : nat -> Z.
Variable envs : nat -> Env.
Variable chain : ChainSpec.
Local Abbreviation cfg := (ch_cfg chain).

(** [src/ingest/source.rs:361-419 session] From its first wait to its end; [None] while it goes on. *)
Fixpoint run_session (mode : Mode) (evs : list SessionWake) (p : Push) : option SessionEnd * Push :=
  match evs with
  | [] => (None, p)
  | ev :: evs =>
      match session_wake sub_ok clock envs chain mode ev p with
      | inl p => run_session mode evs p
      | inr end_ => (Some end_, p)
      end
  end.

(** [src/ingest/source.rs:99-107 run (parked)] *)
Definition parked_turn (io : TurnIO) (s : SourceSt) : SourceSt + unit :=
  let rt := note_health chain [SetMode "parked"; SetWs false false] (so_rt s) in
  let s := mkSource None (so_down s) (so_delay s) (so_poller s) (so_db s) rt (so_n s) in
  if io_interrupted io || io_closed io then inr tt
  else inl (mkSource None (so_down s) (so_delay s) (so_poller s) (so_db s)
              (mkRuntime (rt_cache rt) (rt_health rt) (rt_sweep_q rt) (tail (rt_watch_q rt)) (rt_hydrated rt)) (so_n s)).

(** [src/ingest/source.rs:487-523 Poller::tick (on the task's state)] *)
Definition tick (io : TurnIO) (s : SourceSt) : SourceSt :=
  let '(po, db, rt) := poll_tick envs chain (so_n s) (io_now io) (io_logs io) (io_head io) (so_poller s) (so_db s) (so_rt s) in
  mkSource (so_current s) (so_down s) (so_delay s) po db rt (so_n s).

Definition on_rt (f : ChainRuntime -> ChainRuntime) (s : SourceSt) : SourceSt :=
  mkSource (so_current s) (so_down s) (so_delay s) (so_poller s) (so_db s) (f (so_rt s)) (so_n s).

(** [src/ingest/source.rs:125-134 run (poll)] *)
Definition poll_turn (io : TurnIO) (s : SourceSt) : SourceSt + unit :=
  let s := tick io (on_rt (note_health chain [SetMode (mode_label Poll); SetWs false false]) s) in
  if io_interrupted io then inr tt else inl (on_rt drain s).

(** [src/ingest/source.rs:144-161 run (connect failed)] *)
Definition outage_turn (io : TurnIO) (s : SourceSt) : SourceSt + unit :=
  let '(since, fallback, delay, next) := connect_failed chain (io_now io) (so_down s) (so_delay s) in
  let s := on_rt (note_health chain [SetWs true false]) s in
  let s := if (fallback : bool) then tick io (on_rt (note_health chain [SetMode "poll_fallback"]) s) else s in
  if io_interrupted io then inr tt
  else inl (mkSource (so_current s) (Some since) next (so_poller s) (so_db s) (so_rt s) (so_n s)).

(** [src/ingest/source.rs:162-189 run (session)] *)
Definition session_turn (mode : Mode) (io : TurnIO) (s : SourceSt) : SourceSt + unit :=
  let rt := note_health chain [SetMode (mode_label mode); SetWs true true] (so_rt s) in
  let '(end_, db, rt, n) :=
    match session_start sub_ok clock chain mode (so_n s) (so_db s) rt with
    | inr end_ => (Some end_, so_db s, drain rt, S (so_n s))
    | inl p => let '(end_, p) := run_session mode (io_wakes io) p in (end_, pu_db p, pu_rt p, pu_n p)
    end in
  let after down ops := mkSource (so_current s) down 250 (poller_reset (so_poller s)) db (note_health chain ops rt) n in
  match end_ with
  | None | Some SCancelled => inr tt
  | Some ModeChanged | Some Parked => inl (after None [SetWs false false])
  | Some (Disconnected _) => inl (after (Some (io_later io)) [SetWs true false])
  end.

(** [src/ingest/source.rs:97-191 run] One iteration; [inr] is the task's return. *)
Definition source_turn (io : TurnIO) (s : SourceSt) : SourceSt + unit :=
  if io_cancelled io then inr tt
  else if cache_is_empty (rt_cache (so_rt s)) then parked_turn io s
  else
    let mode := desired_mode cfg (rt_cache (so_rt s)) (so_current s) in
    let s := mkSource (Some mode) (so_down s) (so_delay s) (so_poller s) (so_db s) (so_rt s) (so_n s) in
    if bool_decide (mode = Poll) then poll_turn io s
    else if io_connected io then session_turn mode io s
    else outage_turn io s.

Fixpoint source_run (ios : list TurnIO) (s : SourceSt) : SourceSt + unit :=
  match ios with
  | [] => inl s
  | io :: ios => match source_turn io s with inl s => source_run ios s | inr tt => inr tt end
  end.

(** ** Lemmas *)

Definition rt_ws (rt : ChainRuntime) : bool * bool := (h_ws_expected (rt_health rt), h_ws_connected (rt_health rt)).
Definition ws_flags (s : SourceSt) : bool * bool := rt_ws (so_rt s).

(** The last [set_ws] wins, as long as the other calls are about something else. *)
Lemma health_run_ws stall ops i :
  let i' := (health_run stall ops i).1 in
  (h_ws_expected i', h_ws_connected i')
  = foldl (fun f op => match op with SetWs e c => (e, c) | _ => f end) (h_ws_expected i, h_ws_connected i) ops.
Proof.
  revert i. induction ops as [|op ops IH]; intros i; [done|]. cbn [health_run foldl].
  destruct (health_update stall (op_effect op) i) as [i1 t] eqn:Hu. specialize (IH i1). cbv zeta in IH.
  destruct (health_run stall ops i1) as [i2 ts]. cbn [fst] in *. rewrite IH. f_equal.
  unfold health_update in Hu. case_bool_decide; simplify_eq; by destruct op.
Qed.

Definition keeps_ws (op : HealthOp) : bool := match op with SetWs _ _ => false | _ => true end.

Definition last_ws (f : bool * bool) (ops : list HealthOp) : bool * bool :=
  foldl (fun f op => match op with SetWs e c => (e, c) | _ => f end) f ops.

Lemma note_ws ops rt : rt_ws (note_health chain ops rt) = last_ws (rt_ws rt) ops.
Proof. apply health_run_ws. Qed.

Lemma note_keeps_ws ops rt : forallb keeps_ws ops = true -> rt_ws (note_health chain ops rt) = rt_ws rt.
Proof.
  intros H. rewrite note_ws. generalize (rt_ws rt).
  induction ops as [|op ops IH]; intros f; [done|]. cbn in *. apply andb_prop in H as [H1 H2]. rewrite (IH H2). by destruct op.
Qed.

(** The replies a poll gets report RPC outcomes only. *)
Definition io_rpc (io : TurnIO) : Prop :=
  (forall from, forallb keeps_ws (io_logs io from).2 = true) /\ forallb keeps_ws (io_head io).2 = true.

Lemma handle_log_ws env db rt log : rt_ws (handle_log chain env db rt log).1.2 = rt_ws rt.
Proof.
  unfold handle_log. destruct (match_log _ _ _); [|done]. destruct (m_removed _); [done|].
  by destruct (record_pending _ _ _ _) as [[[]|] ?].
Qed.

Lemma poll_logs_ws n logs highest db rt : rt_ws (poll_logs envs chain n logs highest db rt).2 = rt_ws rt.
Proof.
  revert n highest db rt. induction logs as [|log logs IH]; intros n highest db rt; [done|]. cbn [poll_logs].
  pose proof (handle_log_ws (envs n) db rt log) as E.
  destruct (handle_log chain (envs n) db rt log) as [[db1 rt1] b]. cbn in E. by rewrite IH.
Qed.

Lemma poll_tick_ws n io p db rt :
  io_rpc io -> rt_ws (poll_tick envs chain n (io_now io) (io_logs io) (io_head io) p db rt).2 = rt_ws rt.
Proof.
  intros [Hl Hh]. unfold poll_tick. destruct (poll_from _ _ _) as [from|]; [|done].
  specialize (Hl from). destruct (io_logs io from) as [[logs|e] ops]; cbn [fst snd] in Hl.
  - pose proof (poll_logs_ws n logs (saturating_sub from 1) db (note_health chain ops rt)) as E.
    destruct (poll_logs _ _ _ _ _ _ _) as [[highest db1] rt1]. cbn [snd] in E. cbn [snd].
    destruct logs; rewrite ?note_keeps_ws in * by done; exact E.
  - case_bool_decide; [|cbn [snd]; by apply note_keeps_ws].
    assert (Hb : forallb keeps_ws (block_number (io_now io) (io_head io)).2 = true).
    { unfold block_number. destruct (io_head io).1; [|done]. cbn. by rewrite forallb_app, Hh. }
    destruct (block_number _ _) as [[h|e'] ops']; cbn [snd] in Hb |- *; by rewrite !note_keeps_ws.
Qed.

Lemma tick_ws io s : io_rpc io -> ws_flags (tick io s) = ws_flags s.
Proof.
  intros Hio. unfold tick, ws_flags. pose proof (poll_tick_ws (so_n s) io (so_poller s) (so_db s) (so_rt s) Hio) as E.
  by destruct (poll_tick _ _ _ _ _ _ _ _ _) as [[po db] rt].
Qed.

(** ** The invariant of the task *)

(** Between two iterations no socket is open and the health state says so; an outage is
    remembered, and the next attempt is never more than ten seconds away. *)
Record SourceInv (s : SourceSt) : Prop := {
  sv_delay : 250 <= so_delay s <= 10000;
  sv_closed : (ws_flags s).2 = false;
  sv_expected : (ws_flags s).1 = true -> is_Some (so_down s);
}.

Lemma source_turn_inv io s s' : io_rpc io -> SourceInv s -> source_turn io s = inl s' -> SourceInv s'.
Proof.
  intros Hio [Hd Hc He] H. unfold source_turn in H. destruct (io_cancelled io); [done|].
  destruct (cache_is_empty _).
  { unfold parked_turn in H. destruct (_ || _); [done|]. injection H as <-.
    pose proof (note_ws [SetMode "parked"; SetWs false false] (so_rt s)) as E. unfold rt_ws in E. cbn [last_ws foldl] in E.
    injection E as E1 E2. split; [exact Hd|exact E2|]. intros E. unfold ws_flags, rt_ws in E. cbn [fst so_rt rt_health] in E. congruence. }
  set (mode := desired_mode _ _ _) in H. set (s0 := mkSource (Some mode) _ _ _ _ _ _) in H.
  destruct (bool_decide (mode = Poll)).
  { unfold poll_turn in H. destruct (io_interrupted io); [done|]. injection H as Hs'.
    assert (Ed : forall x, so_delay (tick io x) = so_delay x) by (intros x; unfold tick; by destruct (poll_tick _ _ _ _ _ _ _ _ _) as [[]]).
    assert (E : ws_flags s' = (false, false)).
    { rewrite <- Hs'. change (ws_flags (on_rt drain ?x)) with (ws_flags x). rewrite tick_ws by done. apply note_ws. }
    split; [|by rewrite E|by rewrite E]. rewrite <- Hs'. cbn [so_delay on_rt]. rewrite Ed. exact Hd. }
  destruct (io_connected io).
  - unfold session_turn in H. destruct (match session_start _ _ _ _ _ _ _ with inl _ => _ | inr _ => _ end) as [[[end_ db] rt] n].
    destruct end_ as [[| | |reason]|]; try done; injection H as <-; split; cbn [so_delay so_down]; try lia;
      unfold ws_flags; cbn [so_rt]; rewrite note_ws; cbn; done.
  - unfold outage_turn, connect_failed in H. destruct (io_interrupted io); [done|]. injection H as Hs'.
    assert (E : ws_flags s' = (true, false)).
    { rewrite <- Hs'. unfold ws_flags at 1. cbn [so_rt]. destruct (_ <=? _); fold (ws_flags (tick io (on_rt (note_health chain [SetMode "poll_fallback"]) (on_rt (note_health chain [SetWs true false]) s0))));
        [rewrite tick_ws by done; unfold ws_flags; cbn [so_rt on_rt]; rewrite note_keeps_ws by done|]; apply note_ws. }
    split; [|by rewrite E|]; rewrite <- Hs'; cbn [so_delay so_down]; [lia|by eexists].
Qed.

Lemma source_run_inv ios s s' : Forall io_rpc ios -> SourceInv s -> source_run ios s = inl s' -> SourceInv s'.
Proof.
  intros Hios. revert s. induction Hios as [|io ios Hio Hios IH]; intros s HI H; cbn [source_run] in H; [by simplify_eq|].
  destruct (source_turn io s) as [s1|[]] eqn:Ht; [|done]. eauto using source_turn_inv.
Qed.

(** ** An outage *)

Lemma tick_down io s : so_down (tick io s) = so_down s.
Proof. unfold tick. by destruct (poll_tick _ _ _ _ _ _ _ _ _) as [[]]. Qed.

(** Failed attempts do not restart the clock of an outage. *)
Lemma source_turn_down io s s' t :
  io_connected io = false -> so_down s = Some t -> source_turn io s = inl s' -> so_down s' = Some t.
Proof.
  intros Hc Hd H. unfold source_turn in H. destruct (io_cancelled io); [done|]. destruct (cache_is_empty _).
  { unfold parked_turn in H. destruct (_ || _); [done|]. by injection H as <-. }
  destruct (bool_decide _).
  { unfold poll_turn in H. destruct (io_interrupted io); [done|]. injection H as <-. cbn [so_down on_rt]. by rewrite tick_down. }
  rewrite Hc in H. unfold outage_turn, connect_failed in H. destruct (io_interrupted io); [done|]. injection H as <-.
  cbn [so_down]. by rewrite Hd.
Qed.

Lemma source_run_down ios s s' t :
  Forall (fun io => io_connected io = false) ios -> so_down s = Some t -> source_run ios s = inl s' -> so_down s' = Some t.
Proof.
  intros Hios. revert s. induction Hios as [|io ios Hio Hios IH]; intros s Hd H; cbn [source_run] in H; [by simplify_eq|].
  destruct (source_turn io s) as [s1|[]] eqn:Ht; [|done]. eauto using source_turn_down.
Qed.

(** The poll of an iteration, on the runtime whose health has been told. *)
Definition polled (io : TurnIO) (s s' : SourceSt) : Prop :=
  exists rt, rt_cache rt = rt_cache (so_rt s)
    /\ (so_poller s', so_db s')
       = (poll_tick envs chain (so_n s) (io_now io) (io_logs io) (io_head io) (so_poller s) (so_db s) rt).1.

Lemma tick_polled io s s0 : rt_cache (so_rt s0) = rt_cache (so_rt s) -> so_poller s0 = so_poller s -> so_db s0 = so_db s ->
  so_n s0 = so_n s -> forall f, polled io s (on_rt f (tick io s0)).
Proof.
  intros Ec Ep Ed En f. exists (so_rt s0). split; [done|]. unfold tick. rewrite Ep, Ed, En.
  by destruct (poll_tick _ _ _ _ _ _ _ _ _) as [[po db] rt].
Qed.
End source_run.

(** ** The poller against a chain *)

Section poller.
Variable envs : nat -> Env.
Variable chain : ChainSpec.

(** The logs of each block. *)
Variable canon : Z -> list Log.
Hypothesis Hcanon : forall b l, l ∈ canon b -> l_block_number l = Some b.

Definition blocks (a b : Z) : list Log := concat (canon <$> seqZ a (b - a + 1)).

Lemma blocks_nil a b : b < a -> blocks a b = [].
Proof. intros H. unfold blocks. by rewrite seqZ_nil by lia. Qed.

Lemma blocks_split a m b : a - 1 <= m <= b -> blocks a b = blocks a m ++ blocks (m + 1) b.
Proof.
  intros H. unfold blocks. rewrite <- concat_app, <- fmap_app. do 2 f_equal.
  replace (b - a + 1) with ((m - a + 1) + (b - (m + 1) + 1)) by lia. rewrite seqZ_app by lia. do 2 f_equal. lia.
Qed.

Lemma elem_of_blocks a b l : l ∈ blocks a b <-> exists n, a <= n <= b /\ l ∈ canon n.
Proof.
  unfold blocks. rewrite list_elem_of_In, in_concat. split.
  - intros (ls & Hls & Hl%list_elem_of_In). apply list_elem_of_In, list_elem_of_fmap in Hls as (n & -> & Hn).
    apply elem_of_seqZ in Hn. exists n. split; [lia|done].
  - intros (n & Hn & Hl). exists (canon n). rewrite <- !list_elem_of_In. split; [|done]. apply list_elem_of_fmap.
    exists n. split; [done|]. apply elem_of_seqZ. lia.
Qed.

Lemma poll_logs_highest n logs highest db rt :
  highest <= (poll_logs envs chain n logs highest db rt).1.1
  /\ (forall l b, l ∈ logs -> l_block_number l = Some b -> b <= (poll_logs envs chain n logs highest db rt).1.1)
  /\ ((poll_logs envs chain n logs highest db rt).1.1 = highest
      \/ exists l, l ∈ logs /\ (poll_logs envs chain n logs highest db rt).1.1 = default 0 (l_block_number l)).
Proof.
  revert n highest db rt. induction logs as [|log logs IH]; intros n highest db rt; cbn [poll_logs].
  { split_and!; [done|by intros l b ?%not_elem_of_nil|by left]. }
  destruct (handle_log chain (envs n) db rt log) as [[db1 rt1] x].
  destruct (IH (S n) (Z.max highest (default 0 (l_block_number log))) db1 rt1) as (H1 & H2 & H3).
  set (top := (poll_logs _ _ _ _ _ _ _).1.1) in *. split_and!.
  - lia.
  - intros l b [->|Hl]%elem_of_cons Hb; [rewrite Hb in H1; cbn in H1; lia|eauto].
  - destruct H3 as [->|(l & Hl & ->)]; [|right; exists l; split; [by apply list_elem_of_further|done]].
    destruct (Z.max_spec highest (default 0 (l_block_number log))) as [[_ ->]|[_ ->]]; [right|by left].
    exists log. split; [apply list_elem_of_here|done].
Qed.

Lemma last_cons_default {A} (x d : A) l : List.last (x :: l) d = List.last l x.
Proof. revert x d. induction l as [|y l IH]; intros x d; [done|]. change (List.last (x :: y :: l) d) with (List.last (y :: l) d). by rewrite !IH. Qed.

Lemma last_sorted_ge h hs : Sorted Z.le (h :: hs) -> h <= List.last hs h.
Proof.
  revert h. induction hs as [|x hs IH]; intros h Hs; [cbn; lia|]. apply Sorted_inv in Hs as [Hs Hx%HdRel_inv].
  rewrite last_cons_default. specialize (IH x Hs). lia.
Qed.

(** The logs handled one after the other, each with the result of the one before. *)
Fixpoint handle_all (n : nat) (logs : list Log) (db : DB) (rt : ChainRuntime) : DB * ChainRuntime :=
  match logs with
  | [] => (db, rt)
  | log :: logs => let r := handle_log chain (envs n) db rt log in handle_all (S n) logs r.1.1 r.1.2
  end.

(** How a poll comes out: the node answers up to its head, or the call fails. *)
Inductive PollReply := Answered (head : Z) | Refused (e : RpcFailure).

Definition answered_head (r : PollReply) : option Z := match r with Answered h => Some h | Refused _ => None end.

Definition poll_at (r : PollReply) (n : nat) (p : Poller) (db : DB) (rt : ChainRuntime) : Poller * DB * ChainRuntime :=
  match r with
  | Answered h => poll_tick envs chain n 0 (fun from => (Ok (blocks from h), [])) (Ok h, []) p db rt
  | Refused e => poll_tick envs chain n 0 (fun _ => (Err e, [])) (Err e, []) p db rt
  end.

(** Polls one after the other, each with fresh environments for the logs it is given. *)
Fixpoint poll_run (rs : list PollReply) (n : nat) (p : Poller) (db : DB) (rt : ChainRuntime) : Poller * DB * ChainRuntime :=
  match rs with
  | [] => (p, db, rt)
  | r :: rs =>
      let used := match r, poll_from chain p db with Answered h, Some from => length (blocks from h) | _, _ => 0%nat end in
      let '(p, db, rt) := poll_at r n p db rt in
      poll_run rs (n + used) p db rt
  end.

(** A runtime but for its health, to which a poll also reports the head. *)
Definition but_health (rt : ChainRuntime) : ChainRuntime :=
  mkRuntime (rt_cache rt) health_new (rt_sweep_q rt) (rt_watch_q rt) (rt_hydrated rt).

Lemma handle_log_health env db rt rt' log :
  but_health rt = but_health rt' ->
  (handle_log chain env db rt log).1.1 = (handle_log chain env db rt' log).1.1
  /\ but_health (handle_log chain env db rt log).1.2 = but_health (handle_log chain env db rt' log).1.2.
Proof.
  destruct rt as [ca he sq wq hy], rt' as [ca' he' sq' wq' hy']. unfold but_health at 1 2. cbn. intros [= <- <- <- <-].
  unfold handle_log. cbn [rt_cache]. destruct (match_log _ _ _) as [m|]; [|done]. destruct (m_removed m); [done|].
  by destruct (record_pending _ _ _ _) as [[[]|] ?].
Qed.

Lemma handle_all_health n logs db rt rt' :
  but_health rt = but_health rt' ->
  (handle_all n logs db rt).1 = (handle_all n logs db rt').1
  /\ but_health (handle_all n logs db rt).2 = but_health (handle_all n logs db rt').2.
Proof.
  revert n db rt rt'. induction logs as [|log logs IH]; intros n db rt rt' E; [done|]. cbn [handle_all].
  destruct (handle_log_health (envs n) db rt rt' log E) as [-> E']. by apply IH.
Qed.

Lemma handle_all_app n l1 l2 db rt :
  handle_all n (l1 ++ l2) db rt
  = handle_all (n + length l1) l2 (handle_all n l1 db rt).1 (handle_all n l1 db rt).2.
Proof.
  revert n db rt. induction l1 as [|log l1 IH]; intros n db rt; cbn [app handle_all length]; [by rewrite Nat.add_0_r|].
  by rewrite IH, <- Nat.add_succ_comm.
Qed.

(** The poller's loop over a reply handles its logs. *)
Lemma poll_logs_all n logs highest db rt :
  let r := poll_logs envs chain n logs highest db rt in (r.1.2, r.2) = handle_all n logs db rt.
Proof.
  revert n highest db rt. induction logs as [|log logs IH]; intros n highest db rt; [done|]. cbn [poll_logs handle_all].
  destruct (handle_log chain (envs n) db rt log) as [[db1 rt1] x]. apply IH.
Qed.

(** A poll that is answered handles what is new up to the head, and stands at a block after which
    nothing has happened yet. *)
Lemma poll_answered h n p db rt from :
  0 < from -> h < 2 ^ 63 -> poll_from chain p db = Some from ->
  exists s rt', poll_at (Answered h) n p db rt = (mkPoller (Some s), (handle_all n (blocks from h) db rt).1, rt')
    /\ but_health rt' = but_health (handle_all n (blocks from h) db rt).2
    /\ from - 1 <= s <= Z.max (from - 1) h /\ blocks (s + 1) h = [].
Proof.
  intros Hf Hh Hfrom. unfold poll_at, poll_tick. rewrite Hfrom. cbn [fst snd].
  assert (Eh : but_health (note_health chain [] rt) = but_health rt) by done.
  destruct (handle_all_health n (blocks from h) db _ _ Eh) as [Ed Er].
  pose proof (poll_logs_all n (blocks from h) (saturating_sub from 1) db (note_health chain [] rt)) as Ea. cbv zeta in Ea.
  pose proof (poll_logs_highest n (blocks from h) (saturating_sub from 1) db (note_health chain [] rt)) as (H1 & H2 & H3).
  destruct (poll_logs _ _ _ _ _ _ _) as [[s db'] rt']. cbn [fst snd] in *. rewrite <- Ea in Ed, Er. cbn [fst snd] in Ed, Er.
  assert (Es : saturating_sub from 1 = from - 1) by (unfold saturating_sub; lia). rewrite Es in *.
  eexists s, _. split; [by rewrite <- Ed|]. split; [|split].
  - rewrite <- Er. by destruct (blocks from h).
  - split; [done|]. destruct H3 as [->|(l & (b & Hb & Hl)%elem_of_blocks & ->)]; [lia|]. rewrite (Hcanon b l Hl). cbn. lia.
  - apply elem_of_nil_inv. intros l (b & Hb & Hl)%elem_of_blocks.
    assert (l ∈ blocks from h) by (apply elem_of_blocks; exists b; split; [lia|done]).
    specialize (H2 l b ltac:(done) (Hcanon b l Hl)). lia.
Qed.

(** A poll that fails, other than for the size of its answer, leaves everything to the next one. *)
Lemma poll_refused e n p db rt :
  failure_class e ≠ RangeTooLarge ->
  exists rt', poll_at (Refused e) n p db rt = (p, db, rt') /\ but_health rt' = but_health rt.
Proof.
  intros He. unfold poll_at, poll_tick. destruct (poll_from chain p db); [|by eexists]. cbn [fst snd].
  rewrite (bool_decide_false _ He). by eexists.
Qed.

(** Where the poller stands: it has handled everything up to [s]. *)
Definition stands (p : Poller) (db : DB) (s : Z) : Prop :=
  p = mkPoller (Some s) \/ (p = poller_new /\ cursor db (ch_chain_id chain) = Ok s).

Lemma stands_from p db s : 0 <= s < 2 ^ 63 -> stands p db s -> poll_from chain p db = Some (s + 1).
Proof.
  intros Hs [->|[-> Hc]]; unfold poll_from; cbn; rewrite ?Hc; f_equal; apply u64_add_id; unfold in_u64; lia.
Qed.

Lemma poll_run_handles rs n p s top db rt :
  stands p db s -> 0 <= s < 2 ^ 63 -> Sorted Z.le (top :: omap answered_head rs) ->
  Forall (fun h => h < 2 ^ 63) (omap answered_head rs) ->
  Forall (fun r => forall e, r = Refused e -> failure_class e ≠ RangeTooLarge) rs -> blocks (s + 1) top = [] ->
  let r := poll_run rs n p db rt in
  let handled := handle_all n (blocks (s + 1) (List.last (omap answered_head rs) top)) db rt in
  r.1.2 = handled.1 /\ but_health r.2 = but_health handled.2.
Proof.
  revert n p s top db rt. induction rs as [|r rs IH]; intros n p s top db rt Hp Hs Hsort Hb Hr He; cbn zeta.
  { cbn. by rewrite He. }
  pose proof (stands_from _ _ _ Hs Hp) as Hfrom. apply Forall_cons in Hr as [Hr Hrs]. cbn [poll_run]. rewrite Hfrom.
  destruct r as [h|e]; cbn [omap list_omap answered_head] in *.
  - apply Forall_cons in Hb as [Hh Hb]. apply Sorted_inv in Hsort as [Hsort Hle]. apply HdRel_inv in Hle.
    destruct (poll_answered h n p db rt (s + 1) ltac:(lia) Hh Hfrom) as (s' & rt' & -> & Ert & Hs' & He').
    destruct (IH (n + length (blocks (s + 1) h))%nat (mkPoller (Some s')) s' h (handle_all n (blocks (s + 1) h) db rt).1 rt'
      ltac:(by left) ltac:(lia) Hsort Hb Hrs He') as [E1 E2]. cbv zeta in E1, E2. rewrite E1, E2, last_cons_default.
    destruct (handle_all_health (n + length (blocks (s + 1) h)) (blocks (s' + 1) (List.last (omap answered_head rs) h))
      (handle_all n (blocks (s + 1) h) db rt).1 _ _ Ert) as [F1 F2].
    rewrite F1, F2, <- handle_all_app. pose proof (last_sorted_ge h _ Hsort) as Hlast.
    assert (E : blocks (s + 1) h ++ blocks (s' + 1) (List.last (omap answered_head rs) h)
      = blocks (s + 1) (List.last (omap answered_head rs) h)).
    { destruct (Z.le_gt_cases s h).
      - rewrite (blocks_split (s + 1) s' h), He', app_nil_r by lia. symmetry. apply blocks_split. lia.
      - rewrite (blocks_nil (s + 1) h) by lia. by assert (s' = s) as -> by lia. }
    by rewrite E.
  - destruct (poll_refused e n p db rt (Hr e eq_refl)) as (rt' & -> & Ert). rewrite Nat.add_0_r.
    destruct (IH n p s top db rt' Hp Hs Hsort Hb Hrs He) as [E1 E2]. cbv zeta in E1, E2. rewrite E1, E2.
    by apply handle_all_health.
Qed.
End poller.

(** ** Properties *)

(** The head path rides out an outage: through any number of failed connections, mode changes
    and parked spells, between two iterations the health state never claims an open socket, an
    expected socket is a remembered outage, and the next attempt comes within ten seconds (or the
    polling interval); the outage's clock is not restarted by failed attempts; and once it has
    lasted [ws_down_fallback_ms], every iteration with something to watch polls the node, whichever
    mode the configuration prefers. *)
Theorem outage_is_polled (sub_ok : nat -> bool) (clock : nat -> Z) (envs : nat -> Env) (chain : ChainSpec)
    (ios : list TurnIO) (io : TurnIO) (s s1 : SourceSt) (t : Z) :
  SourceInv s -> so_down s = Some t -> Forall io_rpc ios ->
  Forall (fun io => io_connected io = false) ios ->
  source_run sub_ok clock envs chain ios s = inl s1 ->
  SourceInv s1 /\ so_down s1 = Some t
  /\ (io_cancelled io = false -> io_interrupted io = false -> io_connected io = false ->
      cache_is_empty (rt_cache (so_rt s1)) = false -> cc_ws_down_fallback_ms (ch_cfg chain) <= io_now io - t ->
      exists s2, source_turn sub_ok clock envs chain io s1 = inl s2 /\ polled envs chain io s1 s2).
Proof.
  intros HI Hd Hrpc Hios Hrun. split; [by eapply source_run_inv|].
  pose proof (source_run_down _ _ _ _ _ _ _ _ Hios Hd Hrun) as Hd1. split; [done|].
  intros Hc Hi Hcon Hne Hfb. unfold source_turn. rewrite Hc, Hne, Hcon. cbv zeta.
  destruct (bool_decide _).
  - unfold poll_turn. rewrite Hi. eexists. split; [reflexivity|]. by apply tick_polled.
  - unfold outage_turn, connect_failed. cbn [so_down]. rewrite Hd1, Hi. change (default (io_now io) (Some t)) with t.
    rewrite (proj2 (Z.leb_le _ _) Hfb). eexists. split; [reflexivity|].
    destruct (tick_polled envs chain io s1 (on_rt (note_health chain [SetMode "poll_fallback"])
      (on_rt (note_health chain [SetWs true false])
         (mkSource (Some (desired_mode (ch_cfg chain) (rt_cache (so_rt s1)) (so_current s1))) (Some t) (so_delay s1)
            (so_poller s1) (so_db s1) (so_rt s1) (so_n s1)))) eq_refl eq_refl eq_refl eq_refl (fun rt => rt)) as (rt & Hrt & E).
    by exists rt.
Qed.

(** C25. Polling handles every block once: in a run of polls against a node whose head never goes back,
    where calls may also fail unless for the size of their answer, [handle_log] is applied, each time to
    the result of the time before, to exactly the logs of the blocks from the one after the durable cursor
    to the last head, each block's once and in order: the database and, but for its health, the runtime are
    what that gives. A call refused for its size hands over nothing and moves the poller to the
    block before the head: those blocks are left to the sweeper. *)
Theorem polls_exactly_once (envs : nat -> Env) (chain : ChainSpec) (canon : Z -> list Log) (rs : list PollReply)
    (n : nat) (c : Z) (db : DB) (rt : ChainRuntime) :
  let heads := omap answered_head rs in
  (forall b l, l ∈ canon b -> l_block_number l = Some b) ->
  cursor db (ch_chain_id chain) = Ok c -> 0 <= c < 2 ^ 63 - 1 -> Sorted Z.le heads -> Forall (fun h => h < 2 ^ 63) heads ->
  Forall (fun r => forall e, r = Refused e -> failure_class e ≠ RangeTooLarge) rs ->
  let r := poll_run envs chain canon rs n poller_new db rt in
  let handled := handle_all envs chain n (blocks canon (c + 1) (List.last heads c)) db rt in
  (r.1.2 = handled.1 /\ but_health r.2 = but_health handled.2)
  /\ forall now p e ops h ops' from, failure_class e = RangeTooLarge -> poll_from chain p db = Some from ->
     let t := poll_tick envs chain n now (fun _ => (Err e, ops)) (Ok h, ops') p db rt in
     t.1.1 = mkPoller (Some (saturating_sub h 1)) /\ t.1.2 = db /\ but_health t.2 = but_health rt.
Proof.
  intros heads Hcanon Hc Hcb Hsort Hb Hr. split.
  - set (top := Z.min c (default c (head heads))).
    assert (Hst : Sorted Z.le (top :: heads)).
    { constructor; [done|]. unfold top. destruct heads as [|h hs]; [constructor|]. constructor. cbn. lia. }
    pose proof (poll_run_handles envs chain canon Hcanon rs n poller_new c top db rt ltac:(by right) ltac:(lia) Hst Hb Hr
      ltac:(apply blocks_nil; unfold top; lia)) as H. cbv zeta in H. fold heads in H.
    assert (E : blocks canon (c + 1) (List.last heads top) = blocks canon (c + 1) (List.last heads c)).
    { destruct heads as [|h hs]; [|by rewrite !last_cons_default]. cbn. rewrite !blocks_nil; [done|lia|unfold top; cbn; lia]. }
    by rewrite E in H.
  - intros now p e ops h ops' from He Hfrom. unfold poll_tick. rewrite Hfrom. cbn [fst snd].
    rewrite (bool_decide_true _ He). by cbn.
Qed.
