(* ===== verification/ApiSpec.v ===== *)
(** * ApiSpec: what a registration request achieves

    The contract of [POST /v1/watches]: nothing changes unless the answer is success; a created
    watch is stored, watched by this instance, announced to the others and, when it looks back,
    swept; and a [payments_since] within the cap reaches every block produced since then. *)

From S2P Require Import Prelude Text Config Registry Cache Events Health Rpc Store Runtime Target.
From S2P Require Import Api TxSpec Ledger LedgerTx.

(** [u64::div_ceil] rounds up. *)
Lemma lookback_spec age bt :
  0 <= age -> age * 5 < 2 ^ 63 -> 0 <= bt ->
  let n := lookback_blocks age bt in
  2 <= n /\ (age * 5) `div` 4 <= Z.max bt 1 * (n - 2) /\ n <= (age * 5) `div` 4 + 3.
Proof.
  intros Ha Hb Hbt. unfold lookback_blocks.
  assert (E : u64_mul (as_u64 age) 5 = age * 5) by int_lia. rewrite E.
  set (m := (age * 5) `div` 4). assert (Hm : 0 <= m < 2 ^ 62) by (unfold m; Z.to_euclidean_division_equations; lia).
  set (b := Z.max bt 1). assert (Hb1 : 1 <= b) by lia.
  assert (Hq : 0 <= m `div` b <= m) by (split; [apply Z.div_pos; lia|apply Z.div_le_upper_bound; nia]).
  pose proof (Z.div_mod m b ltac:(lia)) as Hd. pose proof (Z.mod_pos_bound m b ltac:(lia)) as Hr.
  rewrite u64_add_id; [|unfold in_u64; destruct (Z.eqb_spec (m `mod` b) 0); lia].
  destruct (Z.eqb_spec (m `mod` b) 0); nia.
Qed.

Section handlers.
Variable parse_address : string -> option Z.
Variable parse_uint : string -> option Z.
Variable parse_url : string -> result string Url.
Variable show_url : Url -> string.
Variable show_id : Z -> string.
Variable debug : string -> string.
Variable registry : list ChainSpec.
Variable default_ttl : option Z.
Variable max_backfill : Z.
Variable policy : TargetPolicy.

Local Abbreviation check := (check_request parse_address parse_uint parse_url show_url debug registry default_ttl max_backfill policy).
Local Abbreviation create := (api_create_watch parse_address parse_uint parse_url show_url show_id debug registry default_ttl
  max_backfill policy).

Lemma ok_or_Ok {E A} (e : E) (o : option A) a : ok_or e o = Ok a -> o = Some a.
Proof. by destruct o; intros [= ->]. Qed.

Lemma token_elem c s t : Registry.token parse_address c s = Some t -> t ∈ ch_tokens c.
Proof.
  unfold token. destruct (parse_address _); intros H; by apply find_Some_elem in H as [? _].
Qed.

(** What an accepted request asks the store for. *)
Lemma check_request_Ok clock st req chain rt new :
  check clock st req = Ok (chain, rt, new) ->
  exists token, chain ∈ registry /\ token ∈ ch_tokens chain /\ as_chains st !! ch_chain_id chain = Some rt
    /\ rt_hydrated rt = true /\ n_chain_id new = ch_chain_id chain /\ n_token_address new = t_address token
    /\ n_head_estimate new = head_estimate rt
    /\ n_lookback_blocks new = request_lookback max_backfill clock chain (q_payments_since req).
Proof.
  unfold check_request. intros (c & Hc%ok_or_Ok & H)%result_bind_Ok.
  apply result_bind_Ok in H as (t & Ht%ok_or_Ok & H). apply result_bind_Ok in H as (a & _ & H).
  destruct (a =? 0); [done|]. apply result_bind_Ok in H as (th & _ & H). apply result_bind_Ok in H as (url & _ & H).
  apply result_bind_Ok in H as (ex & _ & H). destruct (as_chains st !! _) as [rt'|] eqn:Hrt; [|done].
  destruct (rt_hydrated rt') eqn:Hh; [|done]. simplify_eq. apply find_Some_elem in Hc as [Hc _].
  exists t. split_and!; try done. by eapply token_elem.
Qed.

Lemma create_outcome_frame env d new o d' :
  create_watch env d new = (Ok o, d') -> (forall w, o ≠ Created w) -> d_watches d' = d_watches d.
Proof. intros [c w|r w]%create_watch_Ok Ho; [by destruct (Ho w)|done]. Qed.
End handlers.

(** ** Properties *)

(** C21. A registration is all or nothing, and announced: a request answered with an error, or with
    the existing watch, leaves the watches, the runtimes and the notifications as they were; one
    answered 201 has stored an active watch, put it in this instance's cache, queued a sweep if
    blocks already swept must be scanned for it, and published a notification the listeners read
    back as the addition of that watch on that chain. *)
Theorem api_create_contract (parse_address parse_uint : string -> option Z) (parse_url : string -> result string Url)
    (show_url : Url -> string) (show_id : Z -> string) (parse_id : string -> option Z) (debug : string -> string)
    (registry : list ChainSpec) (default_ttl : option Z) (max_backfill : Z) (policy : TargetPolicy)
    (clock : nat -> Z) (env : Env) (st st' : ApiState) (req : CreateWatchRequest)
    (r : result ApiError (Z * WatchResponse)) :
  Forall SpecOk registry -> Forall (fun c => in_u64 (ch_chain_id c)) registry ->
  parse_id (show_id (e_ids env 0)) = Some (e_ids env 0) ->
  api_create_watch parse_address parse_uint parse_url show_url show_id debug registry default_ttl max_backfill policy
    clock env st req = (r, st') ->
  let unchanged := d_watches (as_db st') = d_watches (as_db st) /\ as_chains st' = as_chains st
                   /\ as_notified st' = as_notified st in
  match r with
  | Err _ => unchanged
  | Ok (status, resp) =>
      (status = 200 /\ unchanged)
      \/ (status = 201 /\ exists chain w rt' key ref payload,
            chain ∈ registry /\ d_watches (as_db st') !! wr_id resp = Some w /\ w_status w = Active
            /\ as_chains st' !! ch_chain_id chain = Some rt' /\ cache_get (rt_cache rt') key = Some ref
            /\ r_id ref = wr_id resp /\ k_address key = w_payment_address w
            /\ (is_Some (w_backfill_to w) -> last (rt_sweep_q rt') = Some (Now "backfill"))
            /\ as_notified st' = as_notified st ++ [payload]
            /\ parse_payload parse_id payload = Some (NotifyAdd, ch_chain_id chain, wr_id resp))
  end.
Proof.
  intros Hspecs Hids Hparse H. cbv zeta. unfold api_create_watch in H.
  destruct (check_request _ _ _ _ _ _ _ _ _ _ _ _) as [[[chain rt] new]|e] eqn:Hchk; [|by simplify_eq].
  apply check_request_Ok in Hchk as (token & Hc & Ht & Hrt & Hh & Ecid & Etok & _).
  destruct (create_watch _ _ _) as [[[w|w|w]|e] db] eqn:Hcr; simplify_eq.
  - right. split; [done|]. apply create_watch_Ok in Hcr. inversion Hcr as [c w0 Hcur Hpos Hfree Hnew Hrow E1 E2|r0 w0 Ha Hrow E1].
    2:{ by destruct (_ && _). }
    subst w0. apply from_row_Ok in Hrow as [-> _].
    assert (HS : SpecOk chain) by (by eapply (proj1 (Forall_forall _ _) Hspecs)).
    assert (He : token_by_address chain (n_token_address new) = Some token).
    { rewrite Etok. by apply spec_by_address. }
    unfold cache_entry in *. cbn [w_token_address w_payment_address w_id w_seq w_start_block w_backfill_to new_row mbind
      option_bind] in *. rewrite He. cbn [mbind option_bind].
    set (start := start_block c (n_head_estimate new) (n_lookback_blocks new)).
    set (key := WatchKey_new (t_idx token) (n_payment_address new)).
    set (ref := mkWatchRef (e_ids env 0) (d_watch_seq (as_db st) + 1) (as_u64 (as_i64 start))).
    eexists chain, (new_row env (as_db st) new c), _, key, ref, _. split_and!.
    + done.
    + cbn. apply lookup_insert_eq.
    + done.
    + cbn. apply lookup_insert_eq.
    + match goal with |- cache_get (rt_cache (match ?o with Some _ => _ | None => _ end)) _ = _ => destruct o end;
        (change (cache_get (cache_insert (rt_cache rt) key ref).2 key = Some ref);
         rewrite cache_get_insert; by rewrite decide_True).
    + done.
    + done.
    + intros [b Hb]. cbn in Hb. revert Hb. destruct (_ <=? c); [|done]. intros _. cbn. by rewrite last_snoc.
    + done.
    + cbn. apply announce_added_parse; [done|]. by eapply (proj1 (Forall_forall _ _) Hids).
  - left. split; [done|]. cbn. split_and!; [|done..]. by eapply create_outcome_frame.
  - cbn. split_and!; [|done..]. by eapply create_outcome_frame.
  - cbn. apply run_tx_Err in Hcr as ->. done.
Qed.

(** C23. [payments_since] reaches far enough: for a watch created with a [payments_since] no older than
    the cap, every block that lies within its age of the chain's tip — even with blocks a quarter
    faster than configured — is at or after the watch's start block, so the sweep or the backfill
    will scan it. *)
Theorem payments_since_covered (parse_address parse_uint : string -> option Z) (parse_url : string -> result string Url)
    (show_url : Url -> string) (show_id : Z -> string) (debug : string -> string)
    (registry : list ChainSpec) (default_ttl : option Z) (max_backfill : Z) (policy : TargetPolicy)
    (clock : nat -> Z) (env : Env) (st st' : ApiState) (req : CreateWatchRequest) (resp : WatchResponse)
    (chain : ChainSpec) (rt : ChainRuntime) (new : NewWatch) (since cur b : Z) :
  check_request parse_address parse_uint parse_url show_url debug registry default_ttl max_backfill policy
    clock st req = Ok (chain, rt, new) ->
  api_create_watch parse_address parse_uint parse_url show_url show_id debug registry default_ttl max_backfill policy
    clock env st req = (Ok (201, resp), st') ->
  let age := Z.max 0 (clock 1%nat - since) in
  let base := Z.max cur (head_estimate rt) in
  q_payments_since req = Some since -> age <= max_backfill -> age * 5 < 2 ^ 62 ->
  0 <= cc_expected_block_time_ms (ch_cfg chain) ->
  cursor (as_db st) (ch_chain_id chain) = Ok cur -> 0 <= cur -> base < 2 ^ 62 ->
  1 <= b -> (base - b) * Z.max (cc_expected_block_time_ms (ch_cfg chain)) 1 <= (age * 5) `div` 4 ->
  wr_start_block resp <= b.
Proof.
  intros Hchk H age base Hs Hage Ha Hbt Hcur Hc0 Hbase Hb Hin. unfold api_create_watch in H. rewrite Hchk in H.
  apply check_request_Ok in Hchk as (token & _ & _ & _ & _ & Ecid & _ & Eh & El).
  destruct (create_watch _ _ _) as [[[w|w|w]|e] db] eqn:Hcr; simplify_eq.
  apply create_watch_Ok in Hcr. inversion Hcr as [c w0 Hcur' _ _ _ Hrow E1 E2|r0 w0 _ _ E1].
  2:{ by destruct (_ && _). }
  subst w0. apply from_row_Ok in Hrow as [-> _]. rewrite Ecid, Hcur in Hcur'. injection Hcur' as <-.
  cbn [watch_response wr_start_block w_start_block new_row]. rewrite Eh, El, Hs. cbn [request_lookback].
  rewrite Z.min_l by done. fold age.
  destruct (lookback_spec age (cc_expected_block_time_ms (ch_cfg chain))) as (Hn & Hreach & Hsmall); [lia|lia|done|].
  set (n := lookback_blocks age _) in *. fold base.
  assert (Hlow : base - b <= n - 2).
  { apply (Zmult_le_reg_r _ _ (Z.max (cc_expected_block_time_ms (ch_cfg chain)) 1)); [lia|]. lia. }
  assert (Hstart : start_block cur (head_estimate rt) n <= b /\ 0 <= start_block cur (head_estimate rt) n < 2 ^ 63).
  { unfold start_block. fold base. destruct (Z.eqb_spec n 0); [lia|].
    rewrite u64_add_id by (unfold in_u64; lia). unfold saturating_sub. lia. }
  rewrite as_u64_as_i64; [lia|]. unfold in_u64. lia.
Qed.
