(* ===== verification/Http.v ===== *)
(** * Http: routes and bodies of [src/api/mod.rs], and the test kit's client

    The router, the JSON of requests, responses and errors, and the whole service as a function from
    an HTTP request to a response. [TestApp], the client of the end-to-end tests, is modelled against
    it. The body of a request is the JSON value it parses to; parsing it (and refusing another content
    type) is the framework's and the parameter [body_json]. The timeout layer is not modelled. *)

From S2P Require Import Prelude Text Json Config Registry Cache Events Wire Health Rpc Store Runtime Target Api.
From Stdlib Require Import Ascii.

Section bodies.
Context `{HS : Scalars}.

(** [src/api/mod.rs:79-83 ApiError::into_response] *)
Definition into_response (e : ApiError) : Z * Value :=
  (ae_status e, Object [("error"%string, Object [("code"%string, Str (ae_code e)); ("message"%string, Str (ae_message e))])]).

(** [src/api/mod.rs:117-137 WatchResponse (Serialize)] The expiry and the completion are written as null
    when there is none, the transfers are left out. *)
Definition watch_response_fields (r : WatchResponse) : list (string * Value) :=
  [("id"%string, enc uuid (wr_id r)); ("chain"%string, enc string_codec (wr_chain r));
   ("chain_id"%string, enc u64_codec (wr_chain_id r)); ("token"%string, enc string_codec (wr_token r));
   ("token_address"%string, enc address (wr_token_address r));
   ("payment_address"%string, enc address (wr_payment_address r));
   ("balance_threshold"%string, enc u256_dec (wr_balance_threshold r));
   ("confirmed_amount"%string, enc u256_dec (wr_confirmed_amount r)); ("status"%string, enc status (wr_status r));
   ("webhook_endpoint"%string, enc string_codec (wr_webhook_endpoint r));
   ("start_block"%string, enc u64_codec (wr_start_block r)); ("created_at"%string, enc datetime (wr_created_at r));
   ("expires_at"%string, enc (option_codec datetime) (wr_expires_at r));
   ("completed_at"%string, enc (option_codec datetime) (wr_completed_at r))]
  ++ match wr_transfers r with
     | Some ts => [("transfers"%string, enc (list_codec transfer_view_codec) ts)]
     | None => []
     end.

(** [src/api/mod.rs:117-137 WatchResponse (Deserialize)] *)
Definition watch_response_of (v : Value) : option WatchResponse :=
  m ← as_object v;
  id ← required m ["id"%string] uuid;
  chain ← required m ["chain"%string] string_codec;
  chain_id ← required m ["chain_id"%string] u64_codec;
  token ← required m ["token"%string] string_codec;
  token_address ← required m ["token_address"%string] address;
  payment_address ← required m ["payment_address"%string] address;
  balance_threshold ← required m ["balance_threshold"%string] u256_dec;
  confirmed_amount ← required m ["confirmed_amount"%string] u256_dec;
  st ← required m ["status"%string] status;
  webhook_endpoint ← required m ["webhook_endpoint"%string] string_codec;
  start_block ← required m ["start_block"%string] u64_codec;
  created_at ← required m ["created_at"%string] datetime;
  expires_at ← optional m ["expires_at"%string] datetime;
  completed_at ← optional m ["completed_at"%string] datetime;
  transfers ← optional m ["transfers"%string] (list_codec transfer_view_codec);
  Some (mkResponse id chain chain_id token token_address payment_address balance_threshold confirmed_amount st
          webhook_endpoint start_block created_at expires_at completed_at transfers).

Definition time_opt_ok (o : option Z) : Prop := match o with Some t => time_ok t | None => True end.
Definition watch_response_fits (r : WatchResponse) : Prop :=
  uuid_ok (wr_id r) /\ in_u64 (wr_chain_id r) /\ address_ok (wr_token_address r) /\ address_ok (wr_payment_address r)
  /\ u256_ok (wr_balance_threshold r) /\ u256_ok (wr_confirmed_amount r) /\ in_u64 (wr_start_block r)
  /\ time_ok (wr_created_at r) /\ time_opt_ok (wr_expires_at r) /\ time_opt_ok (wr_completed_at r)
  /\ match wr_transfers r with Some ts => Forall transfer_view_fits ts | None => True end.
Definition watch_response_codec : Codec WatchResponse :=
  mkCodec (Object ∘ watch_response_fields) watch_response_of watch_response_fits.

(** Any value, for [balance_threshold]. *)
Definition value_codec : Codec Value := mkCodec (fun v => v) Some (fun _ => False).

(** [src/api/mod.rs:96-115 CreateWatchRequest (Deserialize)] *)
Definition request_of (v : Value) : option CreateWatchRequest :=
  m ← as_object v;
  payment_address ← required m ["payment_address"%string] string_codec;
  chain ← required m ["chain"; "blockchain"]%string string_codec;
  token ← required m ["token"; "erc20_token"]%string string_codec;
  balance_threshold ← required m ["balance_threshold"%string] value_codec;
  webhook_endpoint ← required m ["webhook_endpoint"%string] string_codec;
  expires_at ← optional m ["expires_at"%string] datetime;
  payments_since ← optional m ["payments_since"%string] datetime;
  Some (mkRequest payment_address chain token balance_threshold webhook_endpoint expires_at payments_since).

(** [src/ingest/health.rs:10-18 ChainStatus (Serialize)] *)
Definition status_value (s : ChainStatus) : Value :=
  Str match s with Down => "down" | Degraded => "degraded" | Healthy => "healthy" end.

(** [Option<T>] written as null or the value. *)
Definition or_null {A} (f : A -> Value) (o : option A) : Value := from_option f Null o.

(** [src/ingest/health.rs:48-62 HealthSnapshot (Serialize)] *)
Definition health_value (s : HealthSnapshot) : Value :=
  Object [("status"%string, status_value (sn_status s)); ("leader"%string, Bool (sn_leader s));
    ("ingest_mode"%string, Str (sn_ingest_mode s)); ("ws_connected"%string, Bool (sn_ws_connected s));
    ("head_block"%string, Number (sn_head_block s)); ("head_age_ms"%string, or_null Number (sn_head_age_ms s));
    ("confirmed_block"%string, Number (sn_confirmed_block s));
    ("last_sweep_age_ms"%string, or_null Number (sn_last_sweep_age_ms s));
    ("consecutive_rpc_failures"%string, Number (sn_consecutive_rpc_failures s));
    ("last_rpc_success_age_ms"%string, or_null Number (sn_last_rpc_success_age_ms s));
    ("last_error_kind"%string, or_null Str (sn_last_error_kind s)); ("last_error"%string, or_null Str (sn_last_error s))].

(** [src/api/mod.rs:317-326 TokenView (Serialize)] *)
Definition token_value (t : TokenView) : Value :=
  Object ([("symbol"%string, Str (tv_symbol t)); ("address"%string, enc address (tv_address t));
           ("decimals"%string, Number (tv_decimals t)); ("issuance"%string, Str (tv_issuance t))]
          ++ match tv_transfer_log_address t with
             | Some a => [("transfer_log_address"%string, enc address a)]
             | None => []
             end).

(** [src/api/mod.rs:306-315 ChainView (Serialize)] *)
Definition chain_value (c : ChainView) : Value :=
  Object [("name"%string, Str (cv_name c)); ("chain_id"%string, Number (cv_chain_id c));
    ("confirmations"%string, Number (cv_confirmations c)); ("tokens"%string, Array (token_value <$> cv_tokens c));
    ("active_watches"%string, Number (cv_active_watches c)); ("ready"%string, Bool (cv_ready c));
    ("health"%string, health_value (cv_health c))].

(** [src/api/mod.rs:358-360 list_chains] *)
Definition list_chains (registry : list ChainSpec) (now : Z) (st : ApiState) : Value :=
  Object [("chains"%string, Array (chain_value <$> chain_views registry now st))].

(** [src/api/mod.rs:371-380 stats (one token)] *)
Definition token_stats_value (tr : string * StatsRow) : Value :=
  let '(symbol, r) := tr in
  Object [("token"%string, Str symbol); ("token_address"%string, enc address (sr_token_address r));
    ("payments_pending_now"%string, Number (sr_pending_count r)); ("payments_confirmed"%string, Number (sr_confirmed_count r));
    ("payments_orphaned"%string, Number (sr_orphaned_count r)); ("confirmed_volume"%string, enc u256_dec (sr_confirmed_volume r));
    ("thresholds_reached"%string, Number (sr_thresholds_reached r)); ("active_watches"%string, Number (sr_active_watches r))].

(** [src/api/mod.rs:390-398 stats (one chain)] *)
Definition chain_stats_value (chain : ChainSpec) (c : ChainStats) : Value :=
  Object [("chain"%string, Str (ch_name chain)); ("chain_id"%string, Number (ch_chain_id chain));
    ("payments_confirmed"%string, Number (cs_confirmed c)); ("payments_pending_now"%string, Number (cs_pending c));
    ("payments_orphaned"%string, Number (cs_orphaned c)); ("thresholds_reached"%string, Number (cs_thresholds c));
    ("tokens"%string, Array (token_stats_value <$> cs_tokens c))].

(** [src/api/mod.rs:400-405 stats (totals)] *)
Definition stats_value (registry : list ChainSpec) (s : Z * Z * Z * list ChainStats) : Value :=
  let '(confirmed, pending, orphaned, per_chain) := s in
  Object [("payments_confirmed"%string, Number confirmed); ("payments_pending_now"%string, Number pending);
    ("payments_orphaned"%string, Number orphaned);
    ("chains"%string, Array (zip_with chain_stats_value registry per_chain))].

(** [src/api/mod.rs:410-412 healthz] *)
Definition healthz : Value := Object [("status"%string, Str "ok")].

(** [src/api/mod.rs:414-420 readyz (body)] The instance runs the chains of its registry. *)
Definition readyz_value (registry : list ChainSpec) (db : bool) (st : ApiState) : Value :=
  let chains := omap (fun c => rt ← as_chains st !! ch_chain_id c; Some (ch_name c, Bool (rt_hydrated rt))) registry in
  Object [("ready"%string, Bool (readyz db st).2); ("database"%string, Bool db); ("chains"%string, Object chains)].

Context `{HSO : !ScalarsOk HS}.

#[global] Instance watch_response_codec_ok : CodecOk watch_response_codec.
Proof.
  intros r v (H1 & H2 & H3 & H4 & H5 & H6 & H7 & H8 & H9 & H10 & H11) (m & -> & Hs)%stored_object_inv.
  cbn [dec watch_response_codec]. unfold watch_response_of. cbn [as_object mbind option_bind].
  assert (Ht : forall o, time_opt_ok o -> fits (option_codec datetime) o) by (by intros [t|]; [split|]).
  destruct r as [a1 a2 a3 a4 a5 a6 a7 a8 a9 a10 a11 a12 a13 a14 [ts|]];
    cbn [wr_id wr_chain_id wr_token_address wr_payment_address wr_balance_threshold wr_confirmed_amount wr_start_block
      wr_created_at wr_expires_at wr_completed_at wr_transfers] in *;
    decode_fields Hs;
    (rewrite (optional_stored datetime _ _ ["expires_at"%string] a13 Hs); [|by apply Ht|right; reflexivity]); cbn [mbind option_bind];
    (rewrite (optional_stored datetime _ _ ["completed_at"%string] a14 Hs); [|by apply Ht|right; reflexivity]); cbn [mbind option_bind].
  - by rewrite (optional_stored (list_codec transfer_view_codec) _ _ _ (Some ts) Hs); [|split|left].
  - by rewrite (optional_stored (list_codec transfer_view_codec) _ _ _ None Hs); [| |left].
Qed.
End bodies.

(** ** The router *)

Inductive Method := GET | HEAD | POST | DELETE | OtherMethod.

#[global] Instance Method_eq_dec : EqDecision Method.
Proof. solve_decision. Defined.

Inductive Handler :=
  | CreateWatch | GetWatch | CancelWatch | ListChains | Stats | Healthz | Readyz | RenderMetrics.

(** A segment of a route: a literal or [{id}]. *)
Inductive Segment := Lit (s : string) | Param.

Definition Route : Type := list Segment * list (Method * Handler).

(** [get] also answers HEAD; [.delete] adds a method to a route. *)
Definition get (h : Handler) : list (Method * Handler) := [(GET, h); (HEAD, h)].
Definition post (h : Handler) : list (Method * Handler) := [(POST, h)].
Definition nest (prefix : string) (routes : list Route) : list Route := (fun r => (Lit prefix :: r.1, r.2)) <$> routes.

(** [src/api/mod.rs:43-57 router] *)
Definition router : list Route :=
  let v1 := [([Lit "watches"], post CreateWatch);
             ([Lit "watches"; Param], get GetWatch ++ [(DELETE, CancelWatch)]);
             ([Lit "chains"], get ListChains);
             ([Lit "stats"], get Stats)] in
  nest "v1" v1
  ++ [([Lit "healthz"], get Healthz); ([Lit "readyz"], get Readyz); ([Lit "metrics"], get RenderMetrics)].

(** The limit of [RequestBodyLimitLayer]. *)
Definition BODY_LIMIT : Z := 16 * 1024.

(** The parameters a path gives a route; [{id}] does not match an empty segment. *)
Fixpoint path_match (segments : list Segment) (path : list string) : option (list string) :=
  match segments, path with
  | [], [] => Some []
  | Lit s :: segments, p :: path => if String.eqb s p then path_match segments path else None
  | Param :: segments, p :: path => if String.eqb p EmptyString then None else cons p <$> path_match segments path
  | _, _ => None
  end.

Fixpoint find_route (routes : list Route) (path : list string) : option (list string * list (Method * Handler)) :=
  match routes with
  | [] => None
  | (segments, methods) :: routes =>
      match path_match segments path with
      | Some params => Some (params, methods)
      | None => find_route routes path
      end
  end.

(** The handler of a request, or 404 for an unknown path and 405 for an unknown method. *)
Definition dispatch (routes : list Route) (m : Method) (path : string) : result Z (Handler * list string) :=
  match split "/"%char path with
  | EmptyString :: segments =>
      '(params, methods) ← ok_or 404 (find_route routes segments);
      mh ← ok_or 405 (find (fun mh => bool_decide (mh.1 = m)) methods);
      Ok (mh.2, params)
  | _ => Err 404
  end.

(** ** The service *)

(** [rq_json]: the content type is JSON. *)
Record Request := mkHttp { rq_method : Method; rq_path : string; rq_json : bool; rq_body : string }.
Record Response := mkHttpResponse { rs_status : Z; rs_body : string }.

Section service.
Context `{HS : Scalars}.
(** [serde_json]'s text of a value. *)
Variable print : Value -> string.
Variable read : string -> option Value.
Variable parse_url : string -> result string Url.
Variable show_url : Url -> string.
Variable debug : string -> string.
Variable registry : list ChainSpec.
Variable default_ttl : option Z.
Variable max_backfill : Z.
Variable policy : TargetPolicy.

Local Abbreviation create := (api_create_watch address_parse u256_parse parse_url show_url uuid_text debug registry default_ttl
  max_backfill policy).

(** What a request meets: the clocks, the database's choices, whether [SELECT 1] succeeds and the
    text of the metrics. *)
Record Moment := mkMoment {
  mo_clock : nat -> Z;
  mo_env : Env;
  mo_now : Z;
  mo_db : bool;
  mo_metrics : string;
}.

Definition json_response (status : Z) (v : Value) : Response := mkHttpResponse status (print v).
Definition error_response (e : ApiError) : Response := json_response (into_response e).1 (into_response e).2.

(** [Json<CreateWatchRequest>] as an extractor. *)
Definition extract_request (rq : Request) : result Z CreateWatchRequest :=
  if negb (rq_json rq) then Err 415
  else v ← ok_or 400 (read (rq_body rq)); ok_or 422 (request_of v).

(** [Path<Uuid>] as an extractor. *)
Definition extract_id (params : list string) : result Z Z :=
  ok_or 400 (p ← params !! 0%nat; uuid_parse p).

(** One handler with its extractors. *)
Definition run_handler (mo : Moment) (h : Handler) (params : list string) (rq : Request) (st : ApiState)
    : Response * ApiState :=
  match h with
  | CreateWatch =>
      match extract_request rq with
      | Err code => (mkHttpResponse code EmptyString, st)
      | Ok req =>
          match create (mo_clock mo) (mo_env mo) st req with
          | (Ok (code, w), st) => (json_response code (enc watch_response_codec w), st)
          | (Err e, st) => (error_response e, st)
          end
      end
  | GetWatch =>
      match extract_id params with
      | Err code => (mkHttpResponse code EmptyString, st)
      | Ok id => (match api_get_watch registry st id with
                  | Ok w => json_response 200 (enc watch_response_codec w)
                  | Err e => error_response e
                  end, st)
      end
  | CancelWatch =>
      match extract_id params with
      | Err code => (mkHttpResponse code EmptyString, st)
      | Ok id =>
          match api_cancel_watch uuid_text registry (mo_env mo) st id with
          | (Ok w, st) => (json_response 200 (enc watch_response_codec w), st)
          | (Err e, st) => (error_response e, st)
          end
      end
  | ListChains => (json_response 200 (list_chains registry (mo_now mo) st), st)
  | Stats => (match api_stats registry st with
              | Ok s => json_response 200 (stats_value registry s)
              | Err e => error_response e
              end, st)
  | Healthz => (json_response 200 healthz, st)
  | Readyz => (json_response (readyz (mo_db mo) st).1 (readyz_value registry (mo_db mo) st), st)
  | RenderMetrics => (mkHttpResponse 200 (mo_metrics mo), st)
  end.

(** A request through the layers and the router. *)
Definition serve (mo : Moment) (rq : Request) (st : ApiState) : Response * ApiState :=
  if BODY_LIMIT <? Z.of_nat (String.length (rq_body rq)) then (mkHttpResponse 413 EmptyString, st)
  else match dispatch router (rq_method rq) (rq_path rq) with
  | Err code => (mkHttpResponse code EmptyString, st)
  | Ok (h, params) =>
      let '(resp, st) := run_handler mo h params rq st in
      (match rq_method rq with HEAD => mkHttpResponse (rs_status resp) EmptyString | _ => resp end, st)
  end.

(** ** The client of the end-to-end tests *)

Definition success (status : Z) : bool := (200 <=? status) && (status <? 300).

(** [src/testkit/harness.rs:195-201 TestApp::create_watch (body)] *)
Definition watch_body (chain token : string) (addr threshold : Z) (hook : string) : Value :=
  Object [("payment_address"%string, enc address addr); ("chain"%string, Str chain); ("token"%string, Str token);
          ("balance_threshold"%string, Str (u256_text threshold)); ("webhook_endpoint"%string, Str hook)].

(** [src/testkit/harness.rs:182-184 TestApp::create_watch_raw] *)
Definition create_watch_raw (mo : Moment) (body : Value) (st : ApiState) : Response * ApiState :=
  serve mo (mkHttp POST "/v1/watches" true (print body)) st.

(** [src/testkit/harness.rs:186-207 TestApp::create_watch] [None]: the client panics. *)
Definition client_create_watch (mo : Moment) (chain token : string) (addr threshold : Z) (hook : string) (st : ApiState)
    : option WatchResponse * ApiState :=
  let '(resp, st) := create_watch_raw mo (watch_body chain token addr threshold hook) st in
  (if success (rs_status resp) then v ← read (rs_body resp); dec watch_response_codec v else None, st).

(** [src/testkit/harness.rs:213-217 TestApp::get_json] *)
Definition get_json {A} (c : Codec A) (mo : Moment) (path : string) (st : ApiState) : option A * ApiState :=
  let '(resp, st) := serve mo (mkHttp GET path false EmptyString) st in
  (if success (rs_status resp) then v ← read (rs_body resp); dec c v else None, st).

(** [src/testkit/harness.rs:209-211 TestApp::get_watch] *)
Definition client_get_watch (mo : Moment) (id : Z) (st : ApiState) : option WatchResponse * ApiState :=
  get_json watch_response_codec mo ("/v1/watches/" +:+ uuid_text id) st.

(** [src/testkit/harness.rs:219-228 TestApp::metrics] *)
Definition client_metrics (mo : Moment) (st : ApiState) : string * ApiState :=
  let '(resp, st) := serve mo (mkHttp GET "/metrics" false EmptyString) st in (rs_body resp, st).
End service.

(** ** Over the wire *)

(** Splitting a path whose last piece has no separator. *)
Lemma split_plain sep s : all_chars (fun c => negb (Ascii.eqb c sep)) s = true -> split_on sep s = (s, []).
Proof.
  induction s as [|c s IH]; [done|]. cbn. intros [Hc Hs]%andb_prop. rewrite (IH Hs). by destruct (Ascii.eqb c sep).
Qed.

Lemma watch_path s :
  all_chars (fun c => negb (Ascii.eqb c "/"%char)) s = true ->
  split "/"%char ("/v1/watches/" +:+ s) = [EmptyString; "v1"%string; "watches"%string; s].
Proof.
  intros Hs. unfold split. change ("/v1/watches/" +:+ s) with (String "/" (String "v" (String "1" (String "/" (String "w"
    (String "a" (String "t" (String "c" (String "h" (String "e" (String "s" (String "/" s)))))))))))). cbn [split_on].
  by rewrite (split_plain _ _ Hs).
Qed.

Section wire.
Context `{HS : Scalars} `{HSO : !ScalarsOk HS}.
Variable print : Value -> string.
Variable read : string -> option Value.
Hypothesis print_back : forall v, exact v -> exists v', read (print v) = Some v' /\ stored v v'.
Variable parse_url : string -> result string Url.
Variable show_url : Url -> string.
Variable debug : string -> string.
Variable registry : list ChainSpec.
Variable default_ttl : option Z.
Variable max_backfill : Z.
Variable policy : TargetPolicy.
Local Abbreviation create := (api_create_watch address_parse u256_parse parse_url show_url uuid_text debug registry default_ttl
  max_backfill policy).
Local Abbreviation serve := (serve print read parse_url show_url debug registry default_ttl max_backfill policy).

Lemma watch_body_exact chain token addr threshold hook : exact (watch_body chain token addr threshold hook).
Proof. repeat (constructor; cbn). Qed.

Lemma transfer_view_exact t : exact (enc transfer_view_codec t).
Proof. repeat (constructor; cbn). Qed.

Lemma time_opt_exact o : exact (enc (option_codec datetime) o).
Proof. destruct o; constructor. Qed.

Lemma watch_response_exact w : exact (enc watch_response_codec w).
Proof.
  constructor. cbn. repeat (apply List.Forall_cons; [cbn; first [apply time_opt_exact|constructor]|]).
  destruct (wr_transfers w) as [ts|]; constructor; [|constructor]. cbn. constructor. apply Forall_fmap, Forall_true.
  apply transfer_view_exact.
Qed.

(** A response read back by the client. *)
Lemma response_back w : watch_response_fits w ->
  (v ← read (print (enc watch_response_codec w)); dec watch_response_codec v) = Some w.
Proof.
  intros Hw. destruct (print_back _ (watch_response_exact w)) as (v & -> & Hs). by apply codec_back.
Qed.

(** The error the client can read. *)
Definition error_code (body : string) : option string :=
  v ← read body; e ← value_get "error" v; c ← value_get "code" e; value_as_str c.

Lemma value_get_stored key m m' v : stored (Object m) (Object m') -> values_at [key] m = [v] ->
  exists v', value_get key (Object m') = Some v' /\ stored v v'.
Proof.
  intros Hs Hv. destruct (field_stored [key] m m' (Some v) Hs) as (o & Hf & Ho); [by unfold field; rewrite Hv|].
  inversion Ho as [x y Hxy|]; subst. exists y. split; [|done]. unfold field in Hf. clear - Hf. cbn.
  assert (E : forall l, snd <$> find (fun kv : string * Value => String.eqb kv.1 key) l = head (values_at [key] l)).
  { induction l as [|[k x] l IH]; [done|]. cbn. rewrite orb_false_r. destruct (String.eqb k key); [done|exact IH]. }
  rewrite E. by destruct (values_at [key] m') as [|x [|]]; simplify_eq.
Qed.

Lemma error_back e : error_code (print (into_response e).2) = Some (ae_code e).
Proof.
  assert (He : exact (into_response e).2) by repeat (constructor; cbn).
  destruct (print_back _ He) as (v & Hv & Hs). unfold error_code. rewrite Hv. cbn [mbind option_bind].
  apply stored_object_inv in Hs as (m & -> & Hs).
  destruct (value_get_stored "error" _ _ _ Hs eq_refl) as (v1 & -> & Hs1). cbn [mbind option_bind].
  apply stored_object_inv in Hs1 as (m1 & -> & Hs1).
  destruct (value_get_stored "code" _ _ _ Hs1 eq_refl) as (v2 & -> & Hs2). by inversion Hs2.
Qed.

(** The body the client sends is the request it means. *)
Lemma watch_body_back chain token addr threshold hook v :
  stored (watch_body chain token addr threshold hook) v ->
  request_of v = Some (mkRequest (address_text addr) chain token (Str (u256_text threshold)) hook None None).
Proof.
  intros (m & -> & Hs)%stored_object_inv. unfold request_of. cbn [as_object mbind option_bind].
  rewrite (required_stored string_codec _ _ ["payment_address"%string] (address_text addr) Hs) by done. cbn [mbind option_bind].
  rewrite (required_stored string_codec _ _ ["chain"; "blockchain"]%string chain Hs) by done. cbn [mbind option_bind].
  rewrite (required_stored string_codec _ _ ["token"; "erc20_token"]%string token Hs) by done. cbn [mbind option_bind].
  assert (E : required m ["balance_threshold"%string] value_codec = Some (Str (u256_text threshold))).
  { unfold required.
    destruct (field_stored ["balance_threshold"%string] _ _ (Some (Str (u256_text threshold))) Hs eq_refl) as (o & -> & Ho).
    inversion Ho as [x y Hxy|]; subst. by inversion Hxy. }
  rewrite E. cbn [mbind option_bind].
  rewrite (required_stored string_codec _ _ ["webhook_endpoint"%string] hook Hs) by done. cbn [mbind option_bind].
  rewrite (optional_stored datetime _ _ ["expires_at"%string] None Hs) by (done || by left). cbn [mbind option_bind].
  by rewrite (optional_stored datetime _ _ ["payments_since"%string] None Hs) by (done || by left).
Qed.

Lemma create_success clock env st req code w st' :
  create clock env st req = (Ok (code, w), st') -> success code = true.
Proof.
  unfold api_create_watch. intros H. repeat case_match; simplify_eq; done.
Qed.

Lemma dispatch_watch id : uuid_ok id -> dispatch router GET ("/v1/watches/" +:+ uuid_text id) = Ok (GetWatch, [uuid_text id]).
Proof.
  intros Hid. destruct (uuid_segment id Hid) as [Hne Hseg]. unfold dispatch. rewrite (watch_path _ Hseg). cbn.
  by destruct (String.eqb_spec (uuid_text id) EmptyString).
Qed.

(** Only POST and DELETE reach the handlers that write. *)
Lemma dispatch_method m path h params : dispatch router m path = Ok (h, params) ->
  h = CreateWatch /\ m = POST \/ h = CancelWatch /\ m = DELETE \/ (h ≠ CreateWatch /\ h ≠ CancelWatch).
Proof.
  unfold dispatch. destruct (split _ _) as [|[|] segments]; [done| |done].
  intros ([params' methods] & Hf & H)%result_bind_Ok. destruct (find_route router segments) as [[ps ms]|] eqn:Hr; [|done].
  cbn in Hf. simplify_eq. apply result_bind_Ok in H as ([m' h'] & Hm & H). simplify_eq.
  destruct (find _ methods) as [[m1 h1]|] eqn:Hfind; [|done]. cbn in Hm. simplify_eq.
  apply find_Some_elem in Hfind as [Hin Em%bool_decide_eq_true]. cbn in Em. subst m'. cbn [snd].
  assert (Hall : Forall (fun r : Route => Forall (fun mh => mh.2 = CreateWatch /\ mh.1 = POST \/ mh.2 = CancelWatch /\ mh.1 = DELETE
    \/ (mh.2 ≠ CreateWatch /\ mh.2 ≠ CancelWatch)) r.2) router).
  { repeat (apply List.Forall_cons; [repeat (apply List.Forall_cons; [cbn; intuition congruence|]); apply List.Forall_nil|]).
    apply List.Forall_nil. }
  assert (Hroute : forall rs, find_route rs segments = Some (params, methods) -> exists r, r ∈ rs /\ r.2 = methods).
  { clear. induction rs as [|[s ms] rs IH]; [done|]. cbn. destruct (path_match s segments).
    - intros [= _ <-]. eexists. split; [apply list_elem_of_here|done].
    - intros H. destruct (IH H) as (r & Hr & E). exists r. split; [by apply list_elem_of_further|done]. }
  destruct (Hroute _ Hr) as (r & Hr' & <-). rewrite Forall_forall in Hall. specialize (Hall r Hr').
  rewrite Forall_forall in Hall. exact (Hall _ Hin).
Qed.

(** C22. The service is its handlers over the wire. A registration the test client sends — JSON text,
    content type, path — reaches [create_watch] as exactly the request it means: the state changes as
    the handler changes it, and the client reads back the watch the handler answered with, or the
    status and code of its error. [GET /v1/watches/{id}] reads back what [get_watch] returns, and no
    request but POST and DELETE changes anything. *)
Theorem service_is_handlers (mo : Moment) (st : ApiState) :
  (forall chain token addr threshold hook,
    Z.of_nat (String.length (print (watch_body chain token addr threshold hook))) <= BODY_LIMIT ->
    let '(resp, st1) := create_watch_raw print read parse_url show_url debug registry default_ttl max_backfill policy mo
                          (watch_body chain token addr threshold hook) st in
    let '(r, st2) := create (mo_clock mo) (mo_env mo) st
                       (mkRequest (address_text addr) chain token (Str (u256_text threshold)) hook None None) in
    st1 = st2 /\ match r with
    | Ok (code, w) => rs_status resp = code /\ (watch_response_fits w ->
        (client_create_watch print read parse_url show_url debug registry default_ttl max_backfill policy mo
           chain token addr threshold hook st).1 = Some w)
    | Err e => rs_status resp = ae_status e /\ error_code (rs_body resp) = Some (ae_code e)
    end)
  /\ (forall id w, uuid_ok id -> api_get_watch registry st id = Ok w -> watch_response_fits w ->
    client_get_watch print read parse_url show_url debug registry default_ttl max_backfill policy mo id st = (Some w, st))
  /\ (forall rq, rq_method rq ≠ POST -> rq_method rq ≠ DELETE -> (serve mo rq st).2 = st).
Proof.
  split; [|split].
  - intros chain token addr threshold hook Hlen. unfold client_create_watch, create_watch_raw, Http.serve. cbn [rq_body].
    destruct (Z.ltb_spec BODY_LIMIT (Z.of_nat (String.length (print (watch_body chain token addr threshold hook))))); [lia|].
    change (dispatch router POST "/v1/watches") with (@Ok Z _ (CreateWatch, @nil string)). cbn [rq_method rq_path].
    unfold run_handler, extract_request. cbn [rq_json rq_body negb].
    destruct (print_back _ (watch_body_exact chain token addr threshold hook)) as (v & -> & Hv).
    cbn [ok_or mbind]. unfold result_bind. rewrite (watch_body_back _ _ _ _ _ _ Hv).
    cbn [ok_or]. destruct (create _ _ _ _) as [[[code w]|e] st2] eqn:Hc; cbn [rs_status rs_body json_response];
      (split; [done|]); (split; [done|]).
    + intros Hw. change ((if success code then v ← read (print (enc watch_response_codec w)); dec watch_response_codec v else None) = Some w).
      rewrite (create_success _ _ _ _ _ _ _ Hc). by apply response_back.
    + apply error_back.
  - intros id w Hid Hg Hw. unfold client_get_watch, get_json, Http.serve.
    cbn [rq_body rq_method rq_path]. change (BODY_LIMIT <? _) with false. cbv match.
    rewrite (dispatch_watch id Hid). assert (E : extract_id [uuid_text id] = Ok id) by by (unfold extract_id; cbn; rewrite (uuid_back id Hid)).
    unfold run_handler. rewrite E, Hg.
    change ((v ← read (print (enc watch_response_codec w)); dec watch_response_codec v, st) = (Some w, st)).
    by rewrite (response_back w Hw).
  - intros rq Hpost Hdel. unfold Http.serve. destruct (_ <? _); [done|].
    destruct (dispatch router (rq_method rq) (rq_path rq)) as [[h params]|code] eqn:Hd; [|done].
    apply dispatch_method in Hd. destruct (run_handler _ _ _ _ _ _ _ _ _ _ h params rq st) as [resp st'] eqn:Hr. cbn.
    assert (Hst : st' = st); [|done]. destruct h; cbn in Hr; try (by destruct Hd as [[? ?]|[[? ?]|[? ?]]]; congruence).
    all: repeat case_match; congruence.
Qed.
End wire.
