(* ===== verification/Harness.v ===== *)
(** * Harness: [src/testkit/harness.rs] and the waiting of [src/testkit/sink.rs]

    How the end-to-end tests configure, start and watch the program. A chain of a test configuration
    becomes lines of a document (its name is a bare key, its extra lines are assignments); figment reads
    them as [Toml] describes. The three waiting loops look, give up after the deadline, and sleep: time
    is a clock that a sleep moves by at least its length. *)

From S2P Require Import Prelude Text Json Config Registry Load Cache Events Wire Toml Profiles Health Rpc Store Runtime.
From S2P Require Import Target Api Telemetry Leader LeaderSpec App Sink Http.
From stdpp Require Import sorting.
Local Open Scope Z_scope.

(** ** Configuration *)

(** [src/testkit/harness.rs:16-27 ChainParams] *)
Record ChainParams := mkParams {
  cp_name : string;
  cp_chain_id : Z;
  cp_http_url : string;
  cp_ws_url : string;
  cp_tokens : list (string * Z);
  cp_log_sources : list (string * Z * Z);
  cp_ingest_mode : string;
  cp_confirmations : Z;
  cp_extra : Document;
}.

(** [src/testkit/harness.rs:30-42 ChainParams::new] *)
Definition params_new (name : string) (chain_id : Z) (http_url ws_url : string) (tokens : list (string * Z)) : ChainParams :=
  mkParams name chain_id http_url ws_url tokens [] "ws_targeted" 2 [].

(** [src/testkit/harness.rs:44-47 ChainParams::mode] *)
Definition with_mode (mode : string) (p : ChainParams) : ChainParams :=
  mkParams (cp_name p) (cp_chain_id p) (cp_http_url p) (cp_ws_url p) (cp_tokens p) (cp_log_sources p) mode
    (cp_confirmations p) (cp_extra p).

(** [src/testkit/harness.rs:50-53 ChainParams::log_source] *)
Definition with_log_source (symbol : string) (emitter decimals : Z) (p : ChainParams) : ChainParams :=
  mkParams (cp_name p) (cp_chain_id p) (cp_http_url p) (cp_ws_url p) (cp_tokens p)
    (cp_log_sources p ++ [(symbol, emitter, decimals)]) (cp_ingest_mode p) (cp_confirmations p) (cp_extra p).

(** [src/testkit/harness.rs:55-58 ChainParams::confirmations] *)
Definition with_confirmations (n : Z) (p : ChainParams) : ChainParams :=
  mkParams (cp_name p) (cp_chain_id p) (cp_http_url p) (cp_ws_url p) (cp_tokens p) (cp_log_sources p) (cp_ingest_mode p)
    n (cp_extra p).

(** [src/testkit/harness.rs:61-65 ChainParams::extra] *)
Definition with_extra (lines : Document) (p : ChainParams) : ChainParams :=
  mkParams (cp_name p) (cp_chain_id p) (cp_http_url p) (cp_ws_url p) (cp_tokens p) (cp_log_sources p) (cp_ingest_mode p)
    (cp_confirmations p) (cp_extra p ++ lines).

Section config.
Context `{HS : Scalars}.

(** [src/testkit/harness.rs:97-105 ChainParams::to_toml (tokens)] *)
Definition token_toml (p : ChainParams) (t : string * Z) : Document :=
  token_lines (cp_name p) t.1 (Str (address_text t.2)) 6 "mock"
  ++ match find (fun s => String.eqb s.1.1 t.1) (cp_log_sources p) with
     | Some (_, emitter, decimals) =>
         [Assign "transfer_log_address" (Str (address_text emitter)); Assign "transfer_log_decimals" (Number decimals)]
     | None => []
     end.

(** [src/testkit/harness.rs:67-107 ChainParams::to_toml] *)
Definition to_toml (p : ChainParams) : Document :=
  [Table ["chains"%string; cp_name p]; Assign "chain_id" (Number (cp_chain_id p)); Assign "http_url" (Str (cp_http_url p));
   Assign "ws_url" (Str (cp_ws_url p)); Assign "ingest_mode" (Str (cp_ingest_mode p));
   Assign "large_scale_mode" (Str "poll"); Assign "confirmations" (Number (cp_confirmations p));
   Assign "expected_block_time_ms" (Number 100); Assign "max_log_range" (Number 2000);
   Assign "poll_interval_ms" (Number 100); Assign "safety_sweep_interval_ms" (Number 1000);
   Assign "idle_probe_interval_ms" (Number 1000); Assign "head_stall_threshold_ms" (Number 600000);
   Assign "ws_coalesce_ms" (Number 50); Assign "ws_down_fallback_ms" (Number 300); Assign "rpc_timeout_ms" (Number 2000);
   Assign "rpc_max_rps" (Number 1000); Assign "rpc_max_retries" (Number 2); Assign "credits_per_call" (Number 20)]
  ++ (cp_tokens p ≫= token_toml p).

(** [src/testkit/harness.rs:111-137 test_config (toml)] *)
Definition test_toml : Document :=
  [Assign "profile" (Str "test");
   Table ["server"]%string; Assign "bind" (Str "127.0.0.1"); Assign "port" (Number 0);
   Table ["database"]%string; Assign "url" (Str "provided-as-pool"); Assign "max_connections" (Number 20);
   Table ["api"]%string; Assign "keys" (Str "test-key");
   Table ["watch"]%string; Assign "default_ttl_secs" (Number 0);
   Table ["webhook"]%string; Assign "secret" (Str "test-webhook-secret"); Assign "connect_timeout_ms" (Number 1000);
   Assign "request_timeout_ms" (Number 2000); Assign "max_concurrency" (Number 64); Assign "max_per_host" (Number 8);
   Assign "retry_base_ms" (Number 50); Assign "retry_cap_ms" (Number 400); Assign "max_age_secs" (Number 3600);
   Assign "host_failure_threshold" (Number 1000); Assign "host_park_ms" (Number 100);
   Assign "allow_insecure_targets" (Bool true)].

(** [src/testkit/harness.rs:110-150 test_config] [None]: the configuration does not parse or is not valid. *)
Definition test_config (chains : list ChainParams) : option Config :=
  let toml := test_toml ++ (chains ≫= to_toml) in
  let overrides := chains ≫= fun c => Table ["chains"%string; cp_name c] :: cp_extra c in
  match extract_docs [toml; overrides] with
  | Ok raw => match Config.validate (fill raw) with Ok _ => Some (fill raw) | Err _ => None end
  | Err _ => None
  end.
End config.

(** [src/testkit/harness.rs:12-12 WEBHOOK_SECRET] *)
Definition WEBHOOK_SECRET : string := "test-webhook-secret".

(** [src/testkit/harness.rs:268-270 usdc] *)
Definition usdc (units : Z) : Z := units * 1000000.

(** [src/testkit/harness.rs:272-274 fresh_address] The first 20 bytes of the UUID written twice. *)
Definition fresh_address (uuid : list Z) : Z := be_value (take 20 (uuid ++ uuid)).

(** ** Waiting *)

Section wait.
Context {A : Type}.
Variables (look : nat -> A) (done : A -> bool) (expired : nat -> bool).

(** The loop behind the three waits: look [t], stop or give up or sleep. [None] is out of fuel. *)
Fixpoint wait_loop (fuel t : nat) : option (result nat A) :=
  match fuel with
  | O => None
  | S fuel =>
      if done (look t) then Some (Ok (look t))
      else if expired t then Some (Err t)
      else wait_loop fuel (S t)
  end.

(** It looks until the first look that is right or comes after the deadline. *)
Lemma wait_loop_spec n t :
  expired (t + n) = true ->
  exists k, (k <= n)%nat /\ (forall j, (j < k)%nat -> done (look (t + j)) = false /\ expired (t + j) = false)
    /\ forall fuel, (n < fuel)%nat ->
       wait_loop fuel t
       = Some (if done (look (t + k)) then Ok (look (t + k)) else Err (t + k)%nat)
    /\ (done (look (t + k)) = true \/ expired (t + k) = true).
Proof.
  revert t. induction n as [|n IH]; intros t Hx.
  - exists 0%nat. rewrite Nat.add_0_r in *. split; [lia|]. split; [lia|]. intros [|fuel] Hf; [lia|]. cbn.
    rewrite Hx. destruct (done (look t)); auto.
  - destruct (done (look t)) eqn:Hd; [|destruct (expired t) eqn:He].
    1-2: exists 0%nat; rewrite Nat.add_0_r; split; [lia|]; split; [lia|]; intros [|fuel] Hf; [lia|]; cbn; rewrite Hd, ?He; auto.
    destruct (IH (S t)) as (k & Hk & Hb & H); [by replace (S t + n)%nat with (t + S n)%nat by lia|].
    exists (S k). replace (t + S k)%nat with (S t + k)%nat by lia. split; [lia|]. split.
    + intros [|j] Hj; [by rewrite Nat.add_0_r|]. replace (t + S j)%nat with (S t + j)%nat by lia. apply Hb. lia.
    + intros [|fuel] Hf; [lia|]. cbn [wait_loop]. rewrite Hd, He. apply H. lia.
Qed.
End wait.

Section clock.
(** [clock t] is [Instant::now()] after the [t]-th look, in milliseconds. *)
Variable clock : nat -> Z.

Definition sleeps (period : Z) : Prop := forall t, clock t + period <= clock (S t).

Lemma clock_moves period t : sleeps period -> clock 0 + period * Z.of_nat t <= clock t.
Proof. intros H. induction t as [|t IH]; [lia|]. specialize (H t). lia. Qed.

(** [src/testkit/sink.rs:101-114 WebhookSink::wait_for] *)
Definition wait_for (timeout start : Z) (received : nat -> list Received) (done : list Received -> bool) (fuel : nat)
    : option (result nat (list Received)) :=
  wait_loop received done (fun t => start + timeout <? clock t) fuel 0.

(** [src/testkit/sink.rs:117-124 WebhookSink::wait_for_types (closure)] *)
Definition types_are (expected : list string) (got : list Received) : bool :=
  bool_decide (merge_sort String.le ((fun r => as_str (p_event_type (rc_payload r))) <$> got) = merge_sort String.le expected).

(** [src/testkit/sink.rs:116-125 WebhookSink::wait_for_types] *)
Definition wait_for_types (timeout start : Z) (received : nat -> list Received) (expected : list string) (fuel : nat)
    : option (result nat (list Received)) :=
  wait_for timeout start received (types_are expected) fuel.

(** [src/testkit/harness.rs:169-180 TestApp::wait_ready] [answer t] is the status of the [t]-th request. *)
Definition wait_ready (timeout start : Z) (answer : nat -> option Z) (fuel : nat) : option (result nat (option Z)) :=
  wait_loop answer (from_option success false) (fun t => start + timeout <=? clock t) fuel 0.

(** [src/testkit/harness.rs:241-245 TestApp::wait_chain (found)] *)
Definition find_chain (chain : string) (body : Value) : Value :=
  match value_get "chains" body with
  | Some (Array a) =>
      default Null (find (fun c => match value_get "name" c with Some (Str n) => String.eqb n chain | _ => false end) a)
  | _ => Null
  end.

(** [src/testkit/harness.rs:231-252 TestApp::wait_chain] *)
Definition wait_chain (chain : string) (timeout start : Z) (chains : nat -> Value) (pred : Value -> bool) (fuel : nat)
    : option (result nat Value) :=
  wait_loop (fun t => find_chain chain (chains t)) pred (fun t => start + timeout <=? clock t) fuel 0.
End clock.

(** Sorting both sides compares what was received with what is expected up to order. *)
Lemma types_are_spec expected got :
  types_are expected got = true <-> (fun r => as_str (p_event_type (rc_payload r))) <$> got ≡ₚ expected.
Proof.
  unfold types_are. rewrite bool_decide_eq_true. split.
  - intros H. by rewrite <- (merge_sort_Permutation String.le expected), <- H, merge_sort_Permutation.
  - intros H. apply (StronglySorted_unique String.le); [apply StronglySorted_merge_sort; apply _..|].
    by rewrite !merge_sort_Permutation.
Qed.

(** A test that waits for events ends: at the first look at which the sink has received exactly the
    expected types, in any order, or at the first look after the deadline, which comes after at most
    [timeout / 20 + 2] looks. *)
Theorem wait_for_types_ends (clock : nat -> Z) (timeout start : Z) (received : nat -> list Received) (expected : list string) :
  sleeps clock 20 -> start <= clock 0%nat -> 0 <= timeout ->
  let right t := (fun r => as_str (p_event_type (rc_payload r))) <$> received t ≡ₚ expected in
  let late t := start + timeout < clock t in
  exists k, (k <= Z.to_nat (timeout `div` 20 + 1))%nat
    /\ (forall j, (j < k)%nat -> ~ right j /\ ~ late j)
    /\ forall fuel, (Z.to_nat (timeout `div` 20 + 1) < fuel)%nat ->
       (wait_for_types clock timeout start received expected fuel = Some (Ok (received k)) /\ right k)
       \/ (wait_for_types clock timeout start received expected fuel = Some (Err k) /\ ~ right k /\ late k).
Proof.
  intros Hs H0 Ht right late. set (n := Z.to_nat (timeout `div` 20 + 1)).
  assert (Hn : (start + timeout <? clock (0 + n)%nat) = true).
  { apply Z.ltb_lt. pose proof (clock_moves clock 20 n Hs). pose proof (Z.mul_succ_div_gt timeout 20).
    assert (0 <= timeout `div` 20) by (apply Z.div_pos; lia). cbn [Nat.add]. lia. }
  destruct (wait_loop_spec received (types_are expected) (fun t => start + timeout <? clock t) n 0 Hn) as (k & Hk & Hb & H).
  cbn [Nat.add] in *. exists k. split; [done|]. split.
  - intros j Hj. destruct (Hb j Hj) as [Hd Hx]. apply Z.ltb_ge in Hx. split; [|unfold late; lia].
    intros Hr. apply types_are_spec in Hr. by rewrite Hd in Hr.
  - intros fuel Hf. destruct (H fuel Hf) as [E Hor]. unfold wait_for_types, wait_for. rewrite E.
    destruct (types_are expected (received k)) eqn:Ht'; [left|right]; (split; [done|]).
    + by apply types_are_spec.
    + split; [intros Hr; apply types_are_spec in Hr; by rewrite Ht' in Hr|].
      destruct Hor as [|Hx]; [done|]. by apply Z.ltb_lt in Hx.
Qed.

(** ** The program under test *)

(** [src/testkit/harness.rs:152-157 TestApp] *)
Record TestApp := mkTestApp { ta_app : option App; ta_base_url : string }.

(** [src/testkit/harness.rs:160-167 TestApp::start] [None]: the test panics, or never becomes ready. *)
Definition test_start (out : Outside) (cfg : Config) (clock : nat -> Z) (now : Z) (answer : nat -> option Z) (fuel : nat)
    : option TestApp :=
  match (start out cfg).1 with
  | Ok app =>
      match wait_ready clock 20000 now answer fuel with
      | Some (Ok _) => Some (mkTestApp (Some app) ("http://" +:+ ap_addr app))
      | _ => None
      end
  | Err _ => None
  end.

(** [src/testkit/harness.rs:254-258 TestApp::shutdown] *)
Definition test_shutdown (finish : AppTask -> option Z) (ta : TestApp) : option (Z * bool) := shutdown finish <$> ta_app ta.

(** [src/testkit/harness.rs:261-265 TestApp::kill] *)
Definition test_kill (ta : TestApp) : list AppTask := from_option kill [] (ta_app ta).
