(* ===== verification/Devnet.v ===== *)
(** * Devnet: [src/bin/gum-devnet.rs]

    The local development network: the file of token addresses it writes for the service and for its own
    [pay] command, and the printing of the webhooks that arrive. Chains, tokens and payments are those of
    [TestChain]; the conversion of the human amount is floating point and the parameter [round]. *)

From S2P Require Import Prelude Text Json Config Registry Load Cache Matcher Events Wire Toml Profiles Erc20 TestChain Sink.

(** [src/bin/gum-devnet.rs:21-25 CHAINS] Block times in milliseconds. *)
Definition CHAINS : list (string * Z * Z * Z * list string) :=
  [("monad", 143, 18545, 1000, ["USDC"; "USDT"; "AUSD"]); ("arbitrum", 42161, 18546, 1000, ["USDC"; "USDT"]);
   ("base", 8453, 18547, 2000, ["USDC"])]%string.

(** [src/bin/gum-devnet.rs:26-26 GENERATED] *)
Definition GENERATED : string := "config/local.generated.toml".

Section devnet.
Context `{HS : Scalars} `{AN : Anvil}.

(** [src/bin/gum-devnet.rs:69-75 up (tokens)] The lines written, the addresses, and the chain. *)
Fixpoint deploy_all (name : string) (symbols : list string) (tc : TestChain) : option (Document * list (string * Z) * TestChain) :=
  match symbols with
  | [] => Some ([], [], tc)
  | symbol :: symbols =>
      '(a, tc) ← deploy_token symbol tc;
      '(lines, deployed, tc) ← deploy_all name symbols tc;
      Some (token_lines name symbol (Str (address_text a)) 6 "mock" ++ lines, (symbol, a) :: deployed, tc)
  end.

(** [src/bin/gum-devnet.rs:64-78 up (chains)] The generated file and the running chains. *)
Fixpoint up_chains (chains : list (string * Z * Z * Z * list string))
    : option (Document * list (string * list (string * Z)) * list TestChain) :=
  match chains with
  | [] => Some ([], [], [])
  | (name, chain_id, port, block_time, symbols) :: chains =>
      tc ← start_on chain_id (Some block_time) (Some port);
      '(lines, deployed, tc) ← deploy_all name symbols tc;
      '(rest, all, tcs) ← up_chains chains;
      Some (lines ++ rest, (name, deployed) :: all, tc :: tcs)
  end.

(** [src/bin/gum-devnet.rs:104-119 up (webhooks)] What a turn of the loop prints, given how many were seen. *)
Definition print_new (seen : nat) (received : list Received) : list Received * nat := (drop seen received, length received).
Fixpoint print_turns (seen : nat) (turns : list (list Received)) : list Received :=
  match turns with
  | [] => []
  | received :: turns => let '(out, seen) := print_new seen received in out ++ print_turns seen turns
  end.

(** [src/bin/gum-devnet.rs:157-160 toml_tokens::Token] *)
Definition dev_token (v : Value) : option (string * Z) :=
  m ← as_object v;
  symbol ← required m ["symbol"]%string string_codec;
  a ← required m ["address"]%string address;
  Some (symbol, a).

(** [src/bin/gum-devnet.rs:163-170 toml_tokens::Chain] *)
Definition dev_chain (v : Value) : option (list (string * Z)) :=
  m ← as_object v;
  ts ← get_key "tokens" m;
  match ts with Array l => mapM dev_token l | _ => None end.

(** [src/bin/gum-devnet.rs:172-175 toml_tokens::read] *)
Definition read_tokens (d : Document) : option (list (string * list (string * Z))) :=
  chains ← get_key "chains" (fields (merged [d])) ≫= as_object;
  mapM (fun kc => ts ← dev_chain kc.2; Some (kc.1, ts)) chains.

Inductive PayError :=
  | UnknownChain (chain : string)
  | NoGenerated
  | NotDeployed (token chain : string)
  | NotMined.

(** [src/bin/gum-devnet.rs:127-134 pay (target)] The port of the node and the token's address. *)
Definition pay_target (generated : option Document) (chain token : string) : result PayError (Z * Z) :=
  match find (fun c => String.eqb c.1.1.1.1 chain) CHAINS with
  | None => Err (UnknownChain chain)
  | Some (_, _, port, _, _) =>
      match generated ≫= read_tokens with
      | None => Err NoGenerated
      | Some chains =>
          match find (fun kc => String.eqb kc.1 chain) chains ≫=
                (fun kc => find (fun t => eq_ignore_ascii_case t.1 token) kc.2) with
          | Some t => Ok (port, t.2)
          | None => Err (NotDeployed token chain)
          end
      end
  end.

(** [src/bin/gum-devnet.rs:126-147 pay] [connect] finds the running chain at a port; [round] gives base units. *)
Definition pay {F} (round : F -> Z) (connect : Z -> option TestChain) (generated : option Document) (chain token : string)
    (to : Z) (amount : F) : result PayError Mined :=
  match pay_target generated chain token with
  | Err e => Err e
  | Ok (port, address) =>
      match connect port ≫= chain_mint address to (round amount) with
      | Some (m, _) => Ok m
      | None => Err NotMined
      end
  end.
End devnet.

(** ** Properties *)

Section found.
Context `{HS : Scalars} `{HSO : !ScalarsOk HS} `{AN : Anvil}.

Definition generated (m1 m2 m3 a1 a2 b1 : Z) : Document :=
  let line name symbol a := token_lines name symbol (Str (address_text a)) 6 "mock" in
  line "monad"%string "USDC"%string m1 ++ line "monad"%string "USDT"%string m2 ++ line "monad"%string "AUSD"%string m3
  ++ line "arbitrum"%string "USDC"%string a1 ++ line "arbitrum"%string "USDT"%string a2 ++ line "base"%string "USDC"%string b1.

Lemma up_chains_lines d deployed tcs :
  up_chains CHAINS = Some (d, deployed, tcs) ->
  exists m1 m2 m3 a1 a2 b1, d = generated m1 m2 m3 a1 a2 b1
    /\ deployed = [("monad", [("USDC", m1); ("USDT", m2); ("AUSD", m3)]); ("arbitrum", [("USDC", a1); ("USDT", a2)]);
                   ("base", [("USDC", b1)])]%string.
Proof.
  unfold CHAINS. cbn [up_chains deploy_all]. intros H.
  repeat (match type of H with (?o ≫= _) = Some _ => destruct o as [?|] eqn:?; cbn [mbind option_bind] in H; [|done] end;
    repeat case_match; simplify_eq/=; try done).
  all: repeat match goal with E : (?o ≫= _) = Some _ |- _ => destruct o as [?|] eqn:?; cbn [mbind option_bind] in E; [|done];
    repeat case_match; simplify_eq/= end.
  eexists _, _, _, _, _, _. split; reflexivity.
Qed.

Lemma read_generated m1 m2 m3 a1 a2 b1 :
  Forall address_ok [m1; m2; m3; a1; a2; b1] ->
  read_tokens (generated m1 m2 m3 a1 a2 b1)
  = Some [("arbitrum", [("USDC", a1); ("USDT", a2)]); ("base", [("USDC", b1)]);
          ("monad", [("USDC", m1); ("USDT", m2); ("AUSD", m3)])]%string.
Proof.
  intros H. repeat (apply Forall_cons in H as [? H]). cbv -[address_parse address_text]. by rewrite !address_back.
Qed.

(** Whatever is deployed on the three chains, a payment on any of them names its node and finds every
    deployed token by its symbol in any case; other chains and other tokens are refused. *)
Theorem pay_finds_tokens (d : Document) (deployed : list (string * list (string * Z))) (tcs : list TestChain) (chain token : string) :
  up_chains CHAINS = Some (d, deployed, tcs) ->
  Forall (fun kc => Forall (fun t => address_ok t.2) kc.2) deployed ->
  match find (fun c => String.eqb c.1.1.1.1 chain) CHAINS with
  | None => pay_target (Some d) chain token = Err (UnknownChain chain)
  | Some (_, _, port, _, _) => exists ts, (chain, ts) ∈ deployed
      /\ pay_target (Some d) chain token
         = match find (fun t => eq_ignore_ascii_case t.1 token) ts with
           | Some t => Ok (port, t.2)
           | None => Err (NotDeployed token chain)
           end
  end.
Proof.
  intros (m1 & m2 & m3 & a1 & a2 & b1 & -> & ->)%up_chains_lines Hok.
  assert (Hr : Forall address_ok [m1; m2; m3; a1; a2; b1]).
  { repeat match goal with H : Forall _ (_ :: _) |- _ => apply Forall_cons in H as [? ?] end. cbn in *.
    repeat match goal with H : Forall _ (_ :: _) |- _ => apply Forall_cons in H as [? ?] end. cbn in *. by repeat (apply Forall_cons; split; [done|]). }
  apply read_generated in Hr.
  unfold pay_target. cbn [mbind option_bind]. rewrite Hr. clear Hr Hok. unfold CHAINS. cbn [find fst].
  destruct (String.eqb_spec "monad" chain) as [<-|]; [eexists; split; [apply list_elem_of_here|reflexivity]|].
  destruct (String.eqb_spec "arbitrum" chain) as [<-|]; [eexists; split; [apply list_elem_of_further, list_elem_of_here|reflexivity]|].
  destruct (String.eqb_spec "base" chain) as [<-|]; [eexists; split; [do 2 apply list_elem_of_further; apply list_elem_of_here|reflexivity]|].
  done.
Qed.

(** The development network prints every webhook once, in the order of arrival. *)
Lemma printed_once seen turns last_turn :
  (forall i l l', turns !! i = Some l -> (turns ++ [last_turn]) !! S i = Some l' -> l `prefix_of` l') ->
  (forall l, (turns ++ [last_turn]) !! 0%nat = Some l -> seen `prefix_of` l) ->
  seen ++ print_turns (length seen) (turns ++ [last_turn]) = last_turn.
Proof.
  revert seen. induction turns as [|l turns IH]; intros seen Hgrow H0; cbn [app print_turns print_new].
  - destruct (H0 last_turn eq_refl) as [k ->]. by rewrite drop_app_length, app_nil_r.
  - destruct (H0 l eq_refl) as [k ->]. rewrite drop_app_length, app_assoc. apply IH.
    + intros i x y Hx Hy. by apply (Hgrow (S i) x y).
    + intros y Hy. by apply (Hgrow 0%nat (seen ++ k) y).
Qed.
End found.
