(* ===== verification/Bench.v ===== *)
(** * Bench: the runs of [src/bin/gum-bench.rs] and [src/bin/gum-qn-probe.rs]

    What the load benchmark does to the chain and what it reads off at the end (its addresses and
    verdict are in [Tools]); the billing probe's counting and verdict. The noise recipients, the clock,
    the provider's messages and floating point are parameters; printing is left out. *)

From S2P Require Import Prelude Text Json Config Registry Load Cache Matcher Events Wire Toml Profiles Erc20 TestChain.
From S2P Require Import Proxy Sink Tools Harness.
Local Open Scope Z_scope.

(** [src/bin/gum-bench.rs:35-59 Args] *)
Record Args := mkArgs {
  ar_watches : Z;
  ar_payments : Z;
  ar_rate : Z;
  ar_noise : Z;
  ar_mode : string;
  ar_large_scale_mode : string;
  ar_confirmations : Z;
}.
Definition args_default : Args := mkArgs 10000 300 50 100 "auto" "ws_firehose" 2.

(** [src/bin/gum-bench.rs:86-86 main (ensure)] *)
Definition args_accepted (a : Args) : bool := ar_payments a <=? ar_watches a.

(** [src/bin/gum-bench.rs:126-129 main (params)] *)
Definition bench_params (a : Args) (http_url ws_url : string) (token : Z) : ChainParams :=
  with_extra [Assign "large_scale_mode" (Str (ar_large_scale_mode a)); Assign "ws_stall_ms" (Number 600000);
              Assign "safety_sweep_interval_ms" (Number 30000); Assign "idle_probe_interval_ms" (Number 60000)]
    (with_confirmations (ar_confirmations a)
       (with_mode (ar_mode a) (params_new "bench" 31337 http_url ws_url [("USDC"%string, token)]))).

(** [src/bin/gum-bench.rs:134-138 main (settled)] *)
Definition settled (a : Args) (c : Value) : bool :=
  match value_get "active_watches" c with Some (Number n) => n =? ar_watches a | _ => false end
  && match value_get "health" c ≫= value_get "leader" with Some (Bool b) => b | _ => false end
  && match value_get "health" c ≫= value_get "ingest_mode" with
     | Some (Str m) => existsb (String.eqb m) ["ws_targeted"; "ws_firehose"; "poll"]%string
     | _ => false
     end.

Section drive.
Context `{AN : Anvil}.
Variables (token : Z) (noise : Z -> list Z).

Definition payee (i : Z) : Z := be_value (watched_address i).

(** [src/bin/gum-bench.rs:160-169 main (one payment)] [noise i] are the fresh addresses of turn [i]. *)
Definition drive_one (i : Z) (tc : TestChain) : option TestChain :=
  tc ← (if (0 <? Z.of_nat (length (noise i))) then snd <$> mint_batch_nowait token (noise i) 1000000 tc else Some tc);
  snd <$> mint_nowait token (payee i) 1000000 tc.

(** [src/bin/gum-bench.rs:157-170 main (drive load)] *)
Fixpoint drive (n : nat) (i : Z) (tc : TestChain) : option TestChain :=
  match n with
  | O => Some tc
  | S n => tc ← drive_one i tc; drive n (i + 1) tc
  end.
End drive.

(** [src/bin/gum-bench.rs:181-185 main (wait)] *)
Definition wait_delivered (clock : nat -> Z) (deadline : Z) (expected : nat) (received : nat -> list Received) (fuel : nat)
    : option (result nat (list Received)) :=
  wait_loop received (fun rs => (expected <=? length (thresholds rs))%nat) (fun t => deadline <=? clock t) fuel 0.

(** [src/bin/gum-bench.rs:202-209 main (latencies)] In microseconds; [sent] holds when each payee was paid. *)
Definition latency (sent : gmap Z Z) (kind : string) (r : Received) : option Z :=
  if String.eqb (as_str (p_event_type (rc_payload r))) kind
  then (fun t0 => Z.max (rc_at r - t0) 0) <$> sent !! wv_payment_address (p_watch (rc_payload r))
  else None.

(** [src/bin/gum-bench.rs:218-224 main (calls)] *)
Definition calls_made (before after : gmap string Z) : gmap string Z :=
  omap (fun n => if 0 <? n then Some n else None) (map_imap (fun m n => Some (n - default 0 (before !! m))) after).

(** [src/bin/gum-bench.rs:225-225 main (http_calls)] *)
Definition http_calls (before after : gmap string Z) : Z := map_sum (fun _ n => n) (calls_made before after).

(** [src/bin/gum-bench.rs:243-249 main (missing)] The payees whose threshold was not reported. *)
Definition missing (sent : gmap Z Z) (rs : list Received) : gset Z :=
  dom sent ∖ list_to_set (wv_payment_address ∘ p_watch ∘ rc_payload <$> thresholds rs).

(** ** The billing probe *)

Inductive Message := LogOf (size : Z) | LaggedBy (n : Z) | Closed.

Record Seen := mkSeen { sn_notifications : Z; sn_bytes : Z; sn_lagged : Z }.

(** [src/bin/gum-qn-probe.rs:226-240 billing (loop)] The messages before the deadline; an error when the
    subscription closes, with the notifications so far. *)
Fixpoint listen (s : Seen) (ms : list Message) : result Z Seen :=
  match ms with
  | [] => Ok s
  | LogOf size :: ms => listen (mkSeen (u64_add (sn_notifications s) 1) (u64_add (sn_bytes s) (u64_add size 110)) (sn_lagged s)) ms
  | LaggedBy n :: ms => listen (mkSeen (sn_notifications s) (sn_bytes s) (u64_add (sn_lagged s) n)) ms
  | Closed :: _ => Err (sn_notifications s)
  end.

(** [src/bin/gum-qn-probe.rs:242-244 billing (estimate)] Notifications and credits if each is billed. *)
Definition per_notification (credits_per_call : Z) (s : Seen) : Z * Z :=
  let n := u64_add (sn_notifications s) (sn_lagged s) in (n, u64_mul n credits_per_call).

(** [src/bin/gum-qn-probe.rs:264-268 billing (verdict)] [lt] compares distances of floats. *)
Definition verdict {F} (dist : F -> F -> F) (lt : F -> F -> bool) (used by_notification metered : F) : string :=
  if lt (dist used by_notification) (dist used metered) then "poll" else "ws_firehose".

Section billing.
(** [f64], with the arithmetic the verdict needs; errors of the HTTP client and of the subscription. *)
Context {F E : Type}.
Variables (fsub dist : F -> F -> F) (lt : F -> F -> bool) (of_u64 metered : Z -> F).
Variables (no_credits : E) (closed_after : Z -> E).

(** [src/bin/gum-qn-probe.rs:189-199 credits_used] *)
Definition credits_used (reply : result E (option F)) : result E F := used ← reply; ok_or no_credits used.

Record Billing := mkBilling {
  bl_notifications : Z;
  bl_credits : Z;
  bl_bytes : Z;
  bl_account : option (F * string);
}.

(** [src/bin/gum-qn-probe.rs:201-277 billing] [readings] are the two replies of the usage API, read only
    with an admin key; [metered] is the estimate by bytes. *)
Definition billing (admin_key : bool) (readings : result E (option F) * result E (option F))
    (subscribed : result E unit) (ms : list Message) (credits_per_call : Z) : result E Billing :=
  before ← (if admin_key then b ← credits_used readings.1; Ok (Some b) else Ok None);
  _ ← subscribed;
  seen ← match listen (mkSeen 0 0 0) ms with Ok s => Ok s | Err n => Err (closed_after n) end;
  let '(n, by_notification) := per_notification credits_per_call seen in
  match before with
  | Some before =>
      after ← credits_used readings.2;
      let used := fsub after before in
      Ok (mkBilling n by_notification (sn_bytes seen)
            (Some (used, verdict dist lt used (of_u64 by_notification) (metered (sn_bytes seen)))))
  | None => Ok (mkBilling n by_notification (sn_bytes seen) None)
  end.

(** A report has a verdict exactly when there was a key; then both readings had a figure. *)
Lemma billing_account admin_key readings subscribed ms credits_per_call b :
  billing admin_key readings subscribed ms credits_per_call = Ok b ->
  subscribed = Ok tt /\
  if admin_key then exists before after, readings = (Ok (Some before), Ok (Some after))
    /\ exists v, bl_account b = Some (fsub after before, v) /\ (v = "poll" \/ v = "ws_firehose")%string
  else bl_account b = None.
Proof.
  unfold billing, credits_used. destruct readings as [r1 r2]. cbn [fst snd]. destruct admin_key.
  - destruct r1 as [[before|]|]; cbn; try done. destruct subscribed as [[]|]; cbn; [|done].
    destruct (listen _ ms) as [s|]; cbn; [|done]. destruct r2 as [[after|]|]; cbn; try done.
    intros [= <-]. split; [done|]. exists before, after. split; [done|]. eexists. split; [reflexivity|].
    unfold verdict. destruct (lt _ _); tauto.
  - cbn. destruct subscribed as [[]|]; cbn; [|done]. destruct (listen _ ms); cbn; [|done]. by intros [= <-].
Qed.
End billing.

(** ** Lemmas *)

Lemma payee_index i : in_u64 i -> payee i = i.
Proof.
  intros [H0 H1]. unfold payee. rewrite watched_loaded by done. apply be_value_be_bytes.
  split; [done|]. etrans; [exact H1|]. by vm_compute.
Qed.

(** The calls of the run are what the proxy counted since. *)
Lemma calls_made_lookup before after m :
  calls_made before after !! m
  = n ← after !! m; let d := n - default 0 (before !! m) in if 0 <? d then Some d else None.
Proof. unfold calls_made. rewrite lookup_omap, map_lookup_imap. by destruct (after !! m). Qed.

(** Every message the subscription carried is counted, seen or lagged. *)
Lemma listen_counts ms s s' :
  listen s ms = Ok s' ->
  Forall (fun m => match m with LaggedBy n => 0 <= n | _ => True end) ms ->
  let carried := sumZ (fun m => match m with LogOf _ => 1 | LaggedBy n => n | Closed => 0 end) ms in
  0 <= sn_notifications s -> 0 <= sn_lagged s -> sn_notifications s + sn_lagged s + carried < 2 ^ 64 ->
  sn_notifications s' + sn_lagged s' = sn_notifications s + sn_lagged s + carried.
Proof.
  cbv zeta. revert s. induction ms as [|m ms IH]; intros s H Hm Hn Hl Hb; cbn [listen] in H; [simplify_eq; cbn; lia|].
  apply Forall_cons in Hm as [Hm Hms].
  assert (Hc : 0 <= sumZ (fun m => match m with LogOf _ => 1 | LaggedBy n => n | Closed => 0 end) ms).
  { clear -Hms. induction Hms as [|m ms Hm _ IH]; [done|]. destruct m; cbn; unfold sumZ in IH; lia. }
  destruct m as [size|n|]; [| |done]; unfold sumZ in *; cbn [foldr] in *;
    rewrite u64_add_id in H by (unfold in_u64; lia); apply IH in H; cbn in *; try done; lia.
Qed.

(** ** The load *)

Section driven.
Context `{AN : Anvil} `{HA : !AnvilOk}.
Variables (token : Z) (noise : Z -> list Z).

(** What an address is sent in the turns from [i] on. *)
Fixpoint driven (n : nat) (i a : Z) : Z :=
  match n with
  | O => 0
  | S n => minted_to (noise i) 1000000 a + minted_to [payee i] 1000000 a + driven n (i + 1) a
  end.
Fixpoint minted (n : nat) (i : Z) : Z :=
  match n with O => 0 | S n => 1000000 * (Z.of_nat (length (noise i)) + 1) + minted n (i + 1) end.

Record ready (tc : TestChain) (c : Erc20) (evs : list Event) : Prop := {
  rd_step : in_step tc;
  rd_token : an_token (tc_node tc) token = Some c;
  rd_books : books c evs;
  rd_head : is_Some (chain_head tc);
}.

Lemma minted_nonneg n i : 0 <= minted n i.
Proof. revert i. induction n as [|n IH]; intros i; [done|]. cbn. specialize (IH (i + 1)). lia. Qed.

Lemma sent_ready tc c evs call gas c' es :
  an_affords call gas = true -> ready tc c evs -> execute (tc_deployer tc) call c = Some (c', es) -> books c' (evs ++ es) ->
  exists tx tc', send_call token call gas tc = Some (tx, tc') /\ ready tc' c' (evs ++ es).
Proof.
  intros Hgas [Hst Ht Hb [h Hh]] He Hb'.
  destruct (send_call_ok tc token call gas c c' es h Hgas Hst Ht He Hh) as (tx & bh & tc' & E & _ & Hh' & Hst' & _ & Ht' & _).
  exists tx, tc'. split; [done|]. split; [done|done|done|by exists (h + 1)].
Qed.

(** The gas the benchmark sends is enough. *)
Hypothesis batch_gas : forall i, an_affords (MintBatch (noise i) 1000000) (Some 25000000) = true.
Hypothesis mint_gas : forall i, an_affords (Mint (payee i) 1000000) (Some 120000) = true.

Lemma drive_one_pays i tc c evs :
  ready tc c evs -> e_supply c + 1000000 * (Z.of_nat (length (noise i)) + 1) <= U256_MAX ->
  exists tc' c' evs', drive_one token noise i tc = Some tc' /\ ready tc' c' evs'
    /\ e_supply c' = e_supply c + 1000000 * (Z.of_nat (length (noise i)) + 1)
    /\ forall a, balance_of c' a = balance_of c a + (minted_to (noise i) 1000000 a + minted_to [payee i] 1000000 a).
Proof.
  intros Hr Hfit. unfold drive_one, mint_batch_nowait, mint_nowait.
  destruct (mint_batch_fits (noise i) 1000000 c evs ltac:(lia) (rd_books _ _ _ Hr) ltac:(lia)) as (c1 & es1 & E1 & Hb1 & Hs1 & Hbal1).
  assert (exists tc1 evs1, (if 0 <? Z.of_nat (length (noise i)) then snd <$> send_call token (MintBatch (noise i) 1000000) (Some 25000000) tc
      else Some tc) = Some tc1 /\ ready tc1 c1 evs1) as (tc1 & evs1 & -> & Hr1).
  { destruct (Z.ltb_spec 0 (Z.of_nat (length (noise i)))).
    - destruct (sent_ready tc c evs (MintBatch (noise i) 1000000) (Some 25000000) c1 es1 (batch_gas i) Hr E1 Hb1) as (tx & tc1 & -> & Hr1).
      by exists tc1, (evs ++ es1).
    - exists tc, evs. split; [done|]. assert (noise i = []) as Hn by (destruct (noise i); [done|cbn in *; lia]).
      rewrite Hn, mint_batch_nil in E1 by apply (bk_range _ _ _ (rd_books _ _ _ Hr)). by simplify_eq. }
  cbn [mbind option_bind].
  destruct (mint_fits (payee i) 1000000 c1 evs1 ltac:(lia) (rd_books _ _ _ Hr1) ltac:(lia)) as (c2 & es2 & E2 & Hb2 & Hs2 & Hbal2).
  destruct (sent_ready tc1 c1 evs1 (Mint (payee i) 1000000) (Some 120000) c2 es2 (mint_gas i) Hr1 E2 Hb2) as (tx & tc2 & -> & Hr2).
  exists tc2, c2, (evs1 ++ es2). split_and!; [done|done|lia|]. intros a. rewrite Hbal2, Hbal1. lia.
Qed.

(** The benchmark pays whom it says: on a node that mines every transaction, with room in the token's
    supply, all payments go through, and every address ends up with what it had and what it was sent. *)
Theorem drive_pays n i tc c evs :
  ready tc c evs -> e_supply c + minted n i <= U256_MAX ->
  exists tc' c' evs', drive token noise n i tc = Some tc' /\ ready tc' c' evs'
    /\ forall a, balance_of c' a = balance_of c a + driven n i a.
Proof.
  revert i tc c evs. induction n as [|n IH]; intros i tc c evs Hr Hfit; cbn [drive driven minted] in *.
  - exists tc, c, evs. split_and!; [done|done|]. intros a. lia.
  - pose proof (minted_nonneg n (i + 1)).
    destruct (drive_one_pays i tc c evs Hr ltac:(lia)) as (tc1 & c1 & evs1 & -> & Hr1 & Hs1 & Hb1). cbn [mbind option_bind].
    destruct (IH (i + 1) tc1 c1 evs1 Hr1 ltac:(lia)) as (tc2 & c2 & evs2 & E & Hr2 & Hb2).
    exists tc2, c2, evs2. split_and!; [done|done|]. intros a. rewrite Hb2, Hb1. lia.
Qed.
End driven.
