(* ===== verification/UnitTests.v ===== *)
(** * UnitTests: the repository's own unit tests

    Every [#[test]] of [src/] evaluated on the development: a test is a list of assertions, it passes when
    all hold. The tests use the configuration files of [Profiles], HMAC-SHA-256 of [Sha256], decimals as
    pairs, and the parses of the URLs they name. *)

From S2P Require Import Prelude Text Sha256 Json Config Registry Load Cache Matcher Events Wire Toml Profiles Health Rpc.
From S2P Require Import Telemetry Store Numeric Runtime Sweeper Target Api Sign Webhook.
Local Open Scope Z_scope.

Definition passes (asserts : list bool) : Prop := forallb id asserts = true.

#[local] Existing Instance hex_scalars.

Notation "x == y" := (bool_decide (x = y)) (at level 70, no associativity).

(** ** Cache *)

Definition repeat_byte (n : nat) (b : Z) : Z := be_value (replicate n b).

(** [src/cache.rs:98-100 tests::w] *)
Definition w (id seq : Z) : WatchRef := mkWatchRef id seq 10.

(** [src/cache.rs:103-113 tests::insert_get_remove_roundtrip] *)
Definition insert_get_remove_roundtrip : list bool :=
  let c := cache_new in
  let k := WatchKey_new 1 (repeat_byte 20 0xab) in
  let a := w 1 7 in
  let '(fresh, c) := cache_insert c k a in
  let '(removed, c') := cache_remove c k (r_id a) in
  [fresh; cache_get c k == Some a; cache_get c (WatchKey_new 0 (repeat_byte 20 0xab)) == None; cache_last_seq c == 7;
   removed; cache_is_empty c'].

(** [src/cache.rs:116-125 tests::remove_does_not_evict_a_newer_watch_on_the_same_target] *)
Definition remove_does_not_evict_a_newer_watch_on_the_same_target : list bool :=
  let c := cache_new in
  let k := WatchKey_new 0 (repeat_byte 20 1) in
  let old := w 1 1 in
  let new := w 2 2 in
  let c := (cache_insert (cache_insert c k old).2 k new).2 in
  let '(removed, c) := cache_remove c k (r_id old) in
  [negb removed; cache_get c k == Some new].

Lemma cache_tests_pass : passes (insert_get_remove_roundtrip ++ remove_does_not_evict_a_newer_watch_on_the_same_target).
Proof. vm_compute. reflexivity. Qed.

(** ** Configuration *)

(** [src/config.rs:331-337 tests::default_with] *)
Definition default_with (extra : list Document) : result (LoadError string) Config :=
  raw ← map_err Extract (extract_docs (default_toml :: extra));
  _ ← map_err InvalidConfig (Config.validate (fill raw));
  Ok (fill raw).

Definition urls : Document := URLS "postgres://x" "http://m" "ws://m" "http://a" "ws://a" "http://b" "ws://b".

Definition with_cfg (r : result (LoadError string) Config) (asserts : Config -> list bool) : list bool :=
  match r with Ok cfg => asserts cfg | Err _ => [false] end.
Definition chain_of (cfg : Config) (name : string) (f : ChainConfig -> bool) : bool :=
  from_option f false (chain_named cfg name).

(** [src/config.rs:354-370 tests::default_config_is_valid_once_urls_are_set] *)
Definition default_config_is_valid_once_urls_are_set : list bool :=
  with_cfg (default_with [urls]) (fun cfg =>
    [chain_of cfg "monad" (fun c => cc_chain_id c == 143);
     chain_of cfg "monad" (fun c => stablecoins c == ["USDC"; "USDT"; "AUSD"]%string);
     chain_of cfg "arbitrum" (fun c => stablecoins c == ["USDC"; "USDT"]%string);
     chain_of cfg "base" (fun c => stablecoins c == ["USDC"]%string);
     forallb (fun n => chain_of cfg n (fun c => negb (vaults c == []))) ["base"; "monad"; "arc"]%string;
     chain_of cfg "arbitrum" (fun c => vaults c == []);
     forallb (fun n => chain_of cfg n (fun c => forallb (fun t => tc_decimals t =? 18) (vaults c))) ["base"; "monad"; "arc"]%string;
     chain_of cfg "base" (fun c => cc_ws_bucket_size c == 500)]).

Definition arc_on : Document :=
  [Table ["chains"; "arc"]%string; Assign "enabled" (Bool true); Assign "http_url" (Str "http://arc"); Assign "ws_url" (Str "ws://arc")].

(** [src/config.rs:373-385 tests::arc_is_off_by_default_and_valid_once_enabled] *)
Definition arc_is_off_by_default_and_valid_once_enabled : list bool :=
  with_cfg (default_with [urls]) (fun cfg => [chain_of cfg "arc" (fun c => negb (cc_enabled c))])
  ++ with_cfg (default_with [urls ++ arc_on]) (fun cfg =>
    [chain_of cfg "arc" (fun c => match cc_tokens c with
       | usdc :: _ => ((cc_chain_id c, tc_decimals usdc, log_decimals usdc) == (5042, 6, 18))
           && (tc_address usdc == 0x3600000000000000000000000000000000000000)
           && (log_address usdc == 0xfffffffffffffffffffffffffffffffffffffffe)
       | [] => false
       end)]).

(** [src/config.rs:388-398 tests::transfer_log_decimals_below_token_decimals_are_rejected] *)
Definition transfer_log_decimals_below_token_decimals_are_rejected : list bool :=
  [match default_with [urls ++ arc_on ++
     [ArrayTable ["chains"; "arc"; "tokens"]%string; Assign "symbol" (Str "X");
      Assign "address" (Str "0x0000000000000000000000000000000000000001"); Assign "decimals" (Number 6);
      Assign "transfer_log_address" (Str "0x0000000000000000000000000000000000000002");
      Assign "transfer_log_decimals" (Number 2)]] with
   | Err (InvalidConfig (BadLogDecimals _ _ _ _)) => true | _ => false
   end].

(** [src/config.rs:401-404 tests::missing_rpc_url_is_rejected_with_the_env_var_name] *)
Definition missing_rpc_url_is_rejected_with_the_env_var_name : list bool :=
  [match default_with [[Table ["database"]%string; Assign "url" (Str "postgres://x")]] with
   | Err (InvalidConfig (HttpUrlEmpty _)) => true | _ => false
   end].

(** [src/config.rs:407-417 tests::disabled_chain_needs_no_url] *)
Definition disabled_chain_needs_no_url : list bool :=
  with_cfg (default_with [urls; [Table ["chains"; "monad"]%string; Assign "enabled" (Bool false); Assign "http_url" (Str EmptyString)]])
    (fun cfg => [length (enabled_chains cfg) == 2%nat]).

(** [src/config.rs:420-432 tests::local_profile_layers_over_default] *)
Definition local_profile_layers_over_default : list bool :=
  with_cfg (default_with [local_toml; [Table ["database"]%string; Assign "url" (Str "postgres://x")]])
    (fun cfg => [wc_allow_insecure_targets (cfg_webhook cfg);
                 chain_of cfg "base" (fun c => cc_http_url c == "http://127.0.0.1:18547"%string)]).

Lemma config_tests_pass :
  passes (default_config_is_valid_once_urls_are_set ++ arc_is_off_by_default_and_valid_once_enabled
    ++ transfer_log_decimals_below_token_decimals_are_rejected ++ missing_rpc_url_is_rejected_with_the_env_var_name
    ++ disabled_chain_needs_no_url ++ local_profile_layers_over_default).
Proof. vm_compute. reflexivity. Qed.

(** ** Matcher *)

Definition spec_of (docs : list Document) (name : string) : ChainSpec :=
  match extract_docs (default_toml :: docs) with
  | Ok raw => from_option (ChainSpec_new name) (ChainSpec_new name Sample.base_cfg) (chain_named (fill raw) name)
  | Err _ => ChainSpec_new name Sample.base_cfg
  end.

(** [src/ingest/matcher.rs:97-106 tests::test_chain] *)
Definition test_chain : ChainSpec :=
  spec_of [[Table ["database"]%string; Assign "url" (Str "postgres://x");
            Table ["chains"; "base"]%string; Assign "http_url" (Str "http://b"); Assign "ws_url" (Str "ws://b");
            Table ["chains"; "monad"]%string; Assign "enabled" (Bool false);
            Table ["chains"; "arbitrum"]%string; Assign "enabled" (Bool false)]] "base".

(** [src/testkit/logs.rs:12-21 base_chain] *)
Definition base_chain : ChainSpec :=
  spec_of [[Table ["database"]%string; Assign "url" (Str "postgres://x");
            Table ["chains"; "base"]%string; Assign "http_url" (Str "http://b"); Assign "ws_url" (Str "ws://b")]] "base".

(** [src/ingest/matcher.rs:184-191 tests::arc_chain] *)
Definition arc_chain : ChainSpec := spec_of [[Table ["database"]%string; Assign "url" (Str "postgres://x")]] "arc".

(** [src/ingest/matcher.rs:108-130 tests::transfer_log] *)
Definition test_log (token from to amount block index : Z) : Log :=
  mkLog token [TRANSFER_TOPIC; into_word from; into_word to] (be_bytes 32 amount)
    (Some (repeat_byte 32 (block `mod` 256))) (Some block) None (Some (repeat_byte 32 0x77)) (Some index) false.

Definition usdc_of (chain : ChainSpec) : TokenSpec := nth 0 (ch_tokens chain) (mkTokenSpec 0 EmptyString 0 0 EmptyString 0 None).
Definition payee : Z := repeat_byte 20 0x42.
Definition other : Z := repeat_byte 20 9.
Definition watch_of (idx : Z) : WatchCache := (cache_insert cache_new (WatchKey_new idx payee) (mkWatchRef 1 1 100)).2.

(** [src/ingest/matcher.rs:132-139 tests::setup] *)
Definition setup : ChainSpec * WatchCache * Z * Z := (test_chain, watch_of 0, t_address (usdc_of test_chain), payee).

(** [src/ingest/matcher.rs:142-148 tests::matches_transfer_to_watched_address] *)
Definition matches_transfer_to_watched_address : list bool :=
  let '(chain, cache, usdc, payee) := setup in
  match match_log chain cache (test_log usdc (repeat_byte 20 1) payee 2500000 100 3) with
  | Ok m => [(m_to m, m_amount m, m_block_number m, m_log_index m) == (payee, 2500000, 100, 3); m_from m == repeat_byte 20 1]
  | Err _ => [false]
  end.

(** [src/ingest/matcher.rs:151-155 tests::mint_from_zero_address_counts] *)
Definition mint_from_zero_address_counts : list bool :=
  let '(chain, cache, usdc, payee) := setup in
  [match match_log chain cache (test_log usdc 0 payee 1 101 0) with Ok _ => true | Err _ => false end].

Definition skipped (s : Skip) (r : result Skip MatchedTransfer) : bool := match r with Err s' => s' == s | Ok _ => false end.

(** [src/ingest/matcher.rs:158-182 tests::skips_are_classified] *)
Definition skips_are_classified : list bool :=
  let '(chain, cache, usdc, payee) := setup in
  let complete := test_log usdc other payee 1 100 0 in
  let incomplete := mkLog (l_address complete) (l_topics complete) (l_data complete) None (l_block_number complete)
                      (l_block_timestamp complete) (l_transaction_hash complete) (l_log_index complete) (l_removed complete) in
  let malformed := mkLog (l_address complete) [TRANSFER_TOPIC; into_word other; into_word payee; 0] [] (l_block_hash complete)
                     (l_block_number complete) (l_block_timestamp complete) (l_transaction_hash complete)
                     (l_log_index complete) (l_removed complete) in
  [skipped Unwatched (match_log chain cache (test_log usdc other other 1 100 0));
   skipped Foreign (match_log chain cache (test_log other other payee 1 100 0));
   skipped BeforeStart (match_log chain cache (test_log usdc other payee 1 99 0));
   skipped ZeroValue (match_log chain cache (test_log usdc other payee 0 100 0));
   skipped Incomplete (match_log chain cache incomplete);
   skipped Malformed (match_log chain cache malformed)].

(** [src/ingest/matcher.rs:194-221 tests::arc_usdc_counts_the_system_emitter_once_in_base_units] *)
Definition arc_usdc_counts_the_system_emitter_once_in_base_units : list bool :=
  let chain := arc_chain in
  let usdc := usdc_of chain in
  let erc20 := t_address usdc in
  let emitter := t_log_address usdc in
  let cache := watch_of (t_idx usdc) in
  let payer := repeat_byte 20 1 in
  let wei units := units * 10 ^ 12 in
  let amount r := match r with Ok m => Some (m_token_idx m, m_amount m) | Err _ => None end in
  [negb (erc20 == emitter);
   amount (match_log chain cache (test_log emitter payer payee (wei 2500000) 100 0)) == Some (t_idx usdc, 2500000);
   skipped Foreign (match_log chain cache (test_log erc20 payer payee 2500000 101 1));
   amount (match_log chain cache (test_log emitter payer payee (wei 1 + 999) 102 0)) == Some (t_idx usdc, 1);
   skipped ZeroValue (match_log chain cache (test_log emitter payer payee (wei 1 - 1) 103 0))].

Lemma matcher_tests_pass :
  passes (matches_transfer_to_watched_address ++ mint_from_zero_address_counts ++ skips_are_classified
    ++ arc_usdc_counts_the_system_emitter_once_in_base_units).
Proof. vm_compute. reflexivity. Qed.

(** The chain of the micro-benchmarks is the shipped Base chain, whose first token is USDC. *)
Lemma base_chain_is_base :
  ch_chain_id base_chain = 8453 /\ t_address (usdc_of base_chain) = 0x833589fCD6eDb6E08f4c7C32D4f71b54bdA02913.
Proof. vm_compute. split; reflexivity. Qed.

(** ** Health *)

Definition stall : Z := 10000.
Definition after (ops : list HealthOp) : Inner := (health_run stall ops health_new).1.
Definition boom : HealthOp := RpcErr "rpc_transient" "boom".

(** [src/ingest/health.rs:239-252 tests::failures_escalate_and_one_success_recovers] *)
Definition failures_escalate_and_one_success_recovers : list bool :=
  let recovered := after (replicate 5 boom ++ [RpcOk 1]) in
  [health_status (after [boom]) == Healthy; health_status (after [boom; boom]) == Degraded;
   health_status (after (replicate 5 boom)) == Down; health_status recovered == Healthy;
   sn_last_error_kind (snapshot 2 recovered) == Some "rpc_transient"%string].

(** [src/ingest/health.rs:255-265 tests::head_stall_means_down_even_when_rpc_answers] *)
Definition head_stall_means_down_even_when_rpc_answers : list bool :=
  let t0 := 5 in
  let ops := [ObserveHead 100 t0; ObserveHead 100 (t0 + 5000)] in
  [health_status (after ops) == Healthy; health_status (after (ops ++ [ObserveHead 100 (t0 + 11000)])) == Down;
   health_status (after (ops ++ [ObserveHead 100 (t0 + 11000); ObserveHead 101 (t0 + 12000)])) == Healthy].

(** [src/ingest/health.rs:268-276 tests::running_on_poll_fallback_is_degraded_not_down] *)
Definition running_on_poll_fallback_is_degraded_not_down : list bool :=
  [health_status (after [SetWs true true]) == Healthy; health_status (after [SetWs true true; SetWs true false]) == Degraded;
   health_status (after [SetWs true true; SetWs true false; SetWs false false]) == Healthy].

Lemma health_tests_pass :
  passes (failures_escalate_and_one_success_recovers ++ head_stall_means_down_even_when_rpc_answers
    ++ running_on_poll_fallback_is_degraded_not_down).
Proof. vm_compute. reflexivity. Qed.

(** ** RPC errors *)

(** [src/rpc/errors.rs:117-125 tests::quicknode_codes] *)
Definition quicknode_codes : list bool :=
  [classify_code (-32007) "50/second request limit reached" == RateLimited;
   classify_code (-32008) "per-minute request limit" == RateLimitedLong;
   classify_code (-32011) "network connection issue" == RateLimited;
   classify_code (-32616) "response size exceeded" == RangeTooLarge;
   classify_code (-32000) "header not found" == Transient; classify_code (-32603) "invalid payload" == Invalid;
   classify_code (-32602) "missing 0x prefix" == Invalid].

(** [src/rpc/errors.rs:128-138 tests::range_errors_are_recognised_by_message_across_providers] *)
Definition range_errors_are_recognised_by_message_across_providers : list bool :=
  (fun cm => classify_code cm.1 cm.2 == RangeTooLarge) <$>
    [(-32602, "eth_getLogs is limited to a 10,000 range"); (-32614, "eth_getLogs is limited to a 100 range");
     (-32005, "query returned more than 10000 results"); (-32000, "logs matched by query exceeds limit of 10000");
     (-32000, "backend response too large")]%string.

(** [src/rpc/errors.rs:141-144 tests::node_behind_cursor_is_not_an_error_condition] *)
Definition node_behind_cursor_is_not_an_error_condition : list bool :=
  [classify_code (-32000) "block range extends beyond current head block" == AheadOfHead;
   classify_code (-32602) "invalid block range params" == AheadOfHead].

(** [src/rpc/errors.rs:147-156 tests::http_statuses] *)
Definition http_statuses : list bool :=
  [classify_http 429 EmptyString == RateLimited; classify_http 401 EmptyString == Auth; classify_http 403 EmptyString == Auth;
   classify_http 413 EmptyString == RangeTooLarge; classify_http 502 "<html>bad gateway</html>" == Transient;
   classify_http 400 "bad request" == Invalid; negb (is_retryable Auth) && negb (is_retryable Invalid); is_retryable Transient].

Lemma rpc_tests_pass :
  passes (quicknode_codes ++ range_errors_are_recognised_by_message_across_providers
    ++ node_behind_cursor_is_not_an_error_condition ++ http_statuses).
Proof. vm_compute. reflexivity. Qed.

(** ** Telemetry *)

(** [src/telemetry/mod.rs:148-156 tests::limiter_passes_first_then_summarises] Times in milliseconds. *)
Definition limiter_passes_first_then_summarises : list bool :=
  let t0 := 5 in
  let '(outs, _) := check_all [("rpc_transient", t0); ("rpc_transient", t0 + 1000); ("rpc_transient", t0 + 2000);
    ("rpc_auth", t0 + 2000); ("rpc_transient", t0 + 31000)]%string (limiter_new 30000) in
  [outs == [Some 0; None; None; Some 0; Some 2]].

Lemma telemetry_tests_pass : passes limiter_passes_first_then_summarises.
Proof. vm_compute. reflexivity. Qed.

(** ** Webhooks *)

(** [src/webhook/sign.rs:44-53 tests::roundtrip_and_tamper_detection] *)
Definition roundtrip_and_tamper_detection : list bool :=
  let quote := String (Ascii.ascii_of_nat 34) EmptyString in
  let body := ("{" +:+ quote +:+ "id" +:+ quote +:+ ":" +:+ quote +:+ "evt" +:+ quote +:+ "," +:+ quote +:+ "type" +:+ quote
               +:+ ":" +:+ quote +:+ "payment.confirmed" +:+ quote +:+ "}")%string in
  let header := signature_header hmac_sha256 Hex.encode "s3cret" 1800000000 body in
  let verify := verify hmac_sha256 Hex.decode in
  [String.prefix "t=1800000000,v1=" header; verify "s3cret"%string header body 1800000010 300;
   negb (verify "other"%string header body 1800000010 300); negb (verify "s3cret"%string header "{}"%string 1800000010 300);
   negb (verify "s3cret"%string header body 1800001000 300); negb (verify "s3cret"%string "garbage"%string body 1800000010 300)].

(** [src/webhook/sign.rs:56-62 tests::known_vector] *)
Definition known_vector : list bool :=
  [signature_header hmac_sha256 Hex.encode "key" 1 "body"
   == "t=1,v1=91b5374b153842ad05b2c4eab9349b8321b14703165bd3fb8b034dfb8be98ae5"%string].

Lemma sign_tests_pass : passes (roundtrip_and_tamper_detection ++ known_vector).
Proof. vm_compute. reflexivity. Qed.

(** [Url::parse] of the URLs of the tests. *)
Definition domain_url (scheme host : string) : result string Url := Ok (mkUrl scheme EmptyString None (Some (Domain host))).
Definition ip_url (scheme : string) (ip : IpAddr) : result string Url := Ok (mkUrl scheme EmptyString None (Some (HostIp ip))).
Definition parses : list (string * result string Url) :=
  [("https://merchant.example/hooks", domain_url "https" "merchant.example");
   ("http://merchant.example/hooks", domain_url "http" "merchant.example");
   ("ftp://merchant.example", domain_url "ftp" "merchant.example");
   ("https://localhost/hook", domain_url "https" "localhost");
   ("https://127.0.0.1/hook", ip_url "https" (V4 127 0 0 1)); ("https://10.1.2.3/hook", ip_url "https" (V4 10 1 2 3));
   ("https://169.254.169.254/latest/meta-data", ip_url "https" (V4 169 254 169 254));
   ("https://[::1]/hook", ip_url "https" (V6 [0; 0; 0; 0; 0; 0; 0; 1]));
   ("https://[fd12::1]/hook", ip_url "https" (V6 [0xfd12; 0; 0; 0; 0; 0; 0; 1]));
   ("https://[::ffff:10.0.0.1]/hook", ip_url "https" (V6 [0; 0; 0; 0; 0; 0xffff; 0x0a00; 1]));
   ("https://postgres.railway.internal/hook", domain_url "https" "postgres.railway.internal");
   ("https://user:pw@merchant.example/hook", Ok (mkUrl "https" "user" (Some "pw"%string) (Some (Domain "merchant.example"))));
   ("http://127.0.0.1:9000/hook", ip_url "http" (V4 127 0 0 1)); ("gopher://127.0.0.1", domain_url "gopher" "127.0.0.1");
   ("http://gum-server.railway.internal:8080/v1/webhooks/indexer", domain_url "http" "gum-server.railway.internal");
   ("http://GUM-SERVER.railway.internal:8080/x", domain_url "http" "gum-server.railway.internal");
   ("http://postgres.railway.internal/hook", domain_url "http" "postgres.railway.internal");
   ("http://gum-server.railway.internal.evil.example/x", domain_url "http" "gum-server.railway.internal.evil.example")]%string.
Definition parse_url (s : string) : result string Url :=
  default (Err "relative URL without a base"%string) (snd <$> find (fun p => String.eqb p.1 s) parses).
Definition valid (s : string) (p : TargetPolicy) : bool :=
  match Target.validate parse_url s p with Ok _ => true | Err _ => false end.

(** [src/webhook/target.rs:115-117 tests::production] *)
Definition production : TargetPolicy := mkPolicy false [].

(** [src/webhook/target.rs:120-138 tests::production_rules] *)
Definition production_rules : list bool :=
  valid "https://merchant.example/hooks" production
  :: ((fun bad => negb (valid bad production)) <$>
      ["http://merchant.example/hooks"; "ftp://merchant.example"; "https://localhost/hook"; "https://127.0.0.1/hook";
       "https://10.1.2.3/hook"; "https://169.254.169.254/latest/meta-data"; "https://[::1]/hook"; "https://[fd12::1]/hook";
       "https://[::ffff:10.0.0.1]/hook"; "https://postgres.railway.internal/hook"; "https://user:pw@merchant.example/hook";
       "not a url"]%string).

(** [src/webhook/target.rs:141-145 tests::local_profile_allows_loopback_http] *)
Definition local_profile_allows_loopback_http : list bool :=
  let local := mkPolicy true [] in [valid "http://127.0.0.1:9000/hook" local; negb (valid "gopher://127.0.0.1" local)].

(** [src/webhook/target.rs:148-158 tests::allowlisted_private_hosts_are_accepted_over_http_and_nothing_else_changes] *)
Definition allowlisted_private_hosts_are_accepted_over_http_and_nothing_else_changes : list bool :=
  let policy := mkPolicy false ["gum-server.railway.internal"%string] in
  [valid "http://gum-server.railway.internal:8080/v1/webhooks/indexer" policy;
   valid "http://GUM-SERVER.railway.internal:8080/x" policy; valid "https://merchant.example/hooks" policy;
   negb (valid "http://merchant.example/hooks" policy); negb (valid "http://postgres.railway.internal/hook" policy);
   negb (valid "http://gum-server.railway.internal.evil.example/x" policy); negb (valid "https://127.0.0.1/hook" policy);
   is_allowlisted policy "gum-server.railway.internal" && negb (is_allowlisted policy "gum-server")].

Lemma target_tests_pass :
  passes (production_rules ++ local_profile_allows_loopback_http
    ++ allowlisted_private_hosts_are_accepted_over_http_and_nothing_else_changes).
Proof. vm_compute. reflexivity. Qed.

(** [src/webhook/mod.rs:279-287 tests::backoff_grows_and_is_capped] Whatever is drawn. *)
Definition backoff_grows_and_is_capped (pick : Z -> Z -> Z) : list bool :=
  let third := backoff pick 1000 60000 3 in
  let late := backoff pick 1000 60000 25 in
  [backoff pick 1000 60000 0 =? 1000; (1000 <=? third) && (third <=? 8000); (1000 <=? late) && (late <=? 60000)].

Lemma backoff_test_passes pick : (forall lo hi, lo <= hi -> lo <= pick lo hi <= hi) -> passes (backoff_grows_and_is_capped pick).
Proof.
  intros H. unfold passes, backoff_grows_and_is_capped, backoff.
  change (backoff_max 1000 60000 0) with 1000. change (backoff_max 1000 60000 3) with 8000. change (backoff_max 1000 60000 25) with 60000.
  pose proof (H 1000 1000 ltac:(lia)). pose proof (H 1000 8000 ltac:(lia)). pose proof (H 1000 60000 ltac:(lia)). cbn.
  repeat (apply andb_true_intro; split); first [apply Z.eqb_eq|apply Z.leb_le|done]; lia.
Qed.

(** ** Sweeper, API and store *)

(** [src/ingest/sweeper.rs:385-391 tests::provider_range_limits_are_read_from_the_error] *)
Definition provider_range_limits_are_read_from_the_error : list bool :=
  [range_limit_hint "error code -32602: eth_getLogs is limited to a 10,000 range" == Some 10000;
   range_limit_hint "eth_getLogs is limited to a 100 range" == Some 100;
   range_limit_hint "eth_getLogs is limited to a 2,000 range" == Some 2000;
   range_limit_hint "query returned more than 10000 results" == None; range_limit_hint "backend response too large" == None].

(** [src/api/mod.rs:433-439 tests::lookback_over_estimates_blocks_and_is_never_zero] *)
Definition lookback_over_estimates_blocks_and_is_never_zero : list bool :=
  [lookback_blocks 0 300 == 2; lookback_blocks 60000 300 == 252; lookback_blocks 100 0 == 127].

(** [src/store/mod.rs:585-595 tests::start_block_covers_the_lookback_and_never_goes_below_one] *)
Definition start_block_covers_the_lookback_and_never_goes_below_one : list bool :=
  [start_block 100 140 0 == 141; start_block 100 50 0 == 101; start_block 130 140 5 == 135; start_block 100 105 20 == 85;
   start_block 100 105 1000 == 1].

(** [src/store/mod.rs:600-608 tests::uint256_roundtrips_through_numeric] *)
Definition uint256_roundtrips_through_numeric : list bool :=
  (fun v => let n : Z * Z := to_numeric v in
     (n == (v, 0)) && match from_numeric n with Ok v' => v' == v | Err _ => false end)
  <$> [0; 1; 2 ^ 64 - 1; 2 ^ 256 - 1; 10 ^ 77].

(** [src/store/mod.rs:611-615 tests::non_uint256_numerics_are_rejected] *)
Definition non_uint256_numerics_are_rejected : list bool :=
  (fun d : Z * Z => match from_numeric d with Err _ => true | Ok _ => false end) <$> [(-1, 0); (10 * (2 ^ 256 - 1), 0)].

Lemma store_tests_pass :
  passes (provider_range_limits_are_read_from_the_error ++ lookback_over_estimates_blocks_and_is_never_zero
    ++ start_block_covers_the_lookback_and_never_goes_below_one ++ uint256_roundtrips_through_numeric
    ++ non_uint256_numerics_are_rejected).
Proof. vm_compute. reflexivity. Qed.
