(* ===== verification/StoreTests.v ===== *)
(** * StoreTests: the repository's database tests

    The tests of [tests/store.rs], which the repository runs against PostgreSQL, evaluated on the model of
    the database. A test is a program over a fixture (database, cache and a clock that ticks with every
    operation); it fails at the first assertion that does not hold. The racing test runs one fixed
    interleaving of registrations and sweeps. *)

From S2P Require Import Prelude Text Config Registry Cache Matcher Events Store Sweep Outbox UnitTests.
Local Open Scope Z_scope.

Record Fixture := mkFixture { fx_db : DB; fx_cache : WatchCache; fx_time : Z }.

(** A test program. *)
Definition Test (A : Type) : Type := Fixture -> option (A * Fixture).
#[local] Instance Test_ret : MRet Test := fun A a f => Some (a, f).
#[local] Instance Test_bind : MBind Test := fun A B k t f => match t f with Some (a, f) => k a f | None => None end.

Definition assert (b : bool) : Test unit := fun f => if b then Some (tt, f) else None.
Definition db : Test DB := fun f => Some (fx_db f, f).
Definition cache : Test WatchCache := fun f => Some (fx_cache f, f).
Definition put_db (d : DB) : Test unit := fun f => Some (tt, mkFixture d (fx_cache f) (fx_time f)).
Definition put_cache (c : WatchCache) : Test unit := fun f => Some (tt, mkFixture (fx_db f) c (fx_time f)).
(** The environment of the next transaction. *)
Definition tick : Test Env := fun f =>
  let t := fx_time f in
  Some (mkEnv (1000 * t) (fun k => 100 * t + Z.of_nat k) (fun k => 1000 * t + Z.of_nat k),
        mkFixture (fx_db f) (fx_cache f) (t + 1)).
Definition unwrap {E A} (r : result E A) : Test A := fun f => match r with Ok a => Some (a, f) | Err _ => None end.
Definition some {A} (o : option A) : Test A := fun f => match o with Some a => Some (a, f) | None => None end.
Definition passed {A} (t : Test A) : bool :=
  match t (mkFixture db_empty cache_new 1) with Some _ => true | None => false end.

(** ** The fixture *)

Definition HOOK : string := "https://merchant.example/hooks/gum".
(** [tests/store.rs:23-25 usdc] *)
Definition usdc (n : Z) : Z := n * 1000000.
(** [tests/store.rs:27-29 payer] *)
Definition payer : Z := repeat_byte 20 0xee.
Definition addr (b : Z) : Z := repeat_byte 20 b.
Definition chain : ChainSpec := Eval vm_compute in base_chain.
Definition token : Z := t_address (usdc_of chain).
Definition cid : Z := ch_chain_id chain.

Definition transfer_log (to amount block index : Z) : Log := Matcher.transfer_log be_value token payer to amount block index.
Definition on_fork (to amount block index fork : Z) : Log :=
  transfer_log_on_fork be_value token payer to amount block index fork.

(** [tests/store.rs:39-44 Fixture::new] *)
Definition fixture (at_ : Z) : Test unit := d ← db; put_db (ensure_cursor d cid at_).2.

Definition new_watch (address threshold head lookback : Z) : NewWatch :=
  mkNewWatch cid token address threshold HOOK None head lookback.

Definition create (new : NewWatch) : Test CreateOutcome :=
  env ← tick; d ← db;
  let '(r, d) := create_watch env d new in
  _ ← put_db d; unwrap r.

(** [tests/store.rs:46-65 Fixture::watch] *)
Definition watch (address threshold head : Z) : Test WatchRow :=
  o ← create (new_watch address threshold head 0);
  match o with
  | Created w =>
      '(k, r) ← some (cache_entry w chain);
      c ← cache; _ ← put_cache (cache_insert c k r).2;
      mret w
  | _ => some None
  end.

(** A sweep from a given cursor, and [Fixture::sweep]. *)
Definition sweep_from (from to : Z) (logs : list Log) : Test SweepResult :=
  env ← tick; d ← db; c ← cache;
  let '(r, d, c) := apply_sweep env d chain c from to logs in
  _ ← put_db d; _ ← put_cache c; unwrap r.
(** [tests/store.rs:67-73 Fixture::sweep] *)
Definition sweep (to : Z) (logs : list Log) : Test SweepOutcome :=
  d ← db; from ← unwrap (cursor d cid);
  r ← sweep_from from to logs;
  match r with Applied o => mret o | CursorMoved _ _ => some None end.

(** [tests/store.rs:75-78 Fixture::pending] *)
Definition pending (log : Log) : Test bool :=
  c ← cache; m ← unwrap (match_log chain c log);
  env ← tick; d ← db;
  let '(r, d) := record_pending env d chain m in
  _ ← put_db d; unwrap r.

(** [tests/store.rs:80-87 Fixture::events] *)
Definition events : Test (list OutboxRec) :=
  d ← db; mret (sort_by_key (fun o => (o_created_at o, o_seq o)) ((map_to_list (d_outbox d)).*2)).
(** [tests/store.rs:89-91 Fixture::event_types] *)
Definition event_types : Test (list string) := es ← events; mret ((fun o => as_str (o_event_type o)) <$> es).

Definition row (id : Z) : Test WatchRow := d ← db; o ← unwrap (get_watch d id); some o.

(** ** The tests *)

(** [tests/store.rs:95-123 registration_is_idempotent_and_starts_after_cursor_and_head] *)
Definition registration_is_idempotent_and_starts_after_cursor_and_head : Test unit :=
  _ ← fixture 100;
  w ← watch (addr 1) (usdc 10) 140;
  _ ← assert (w_start_block w == 141);
  _ ← assert (w_status w == Active);
  o ← create (new_watch (addr 1) (usdc 10) 150 0);
  _ ← assert (match o with Existing e => w_id e == w_id w | _ => false end);
  o ← create (new_watch (addr 1) (usdc 11) 150 0);
  _ ← assert (match o with Conflict e => w_id e == w_id w | _ => false end);
  stale ← watch (addr 2) (usdc 1) 3;
  assert (w_start_block stale == 101).

(** [tests/store.rs:126-153 pending_then_confirmed_counts_exactly_once] *)
Definition pending_then_confirmed_counts_exactly_once : Test unit :=
  _ ← fixture 100;
  w ← watch (addr 1) (usdc 100) 100;
  let log := transfer_log (addr 1) (usdc 30) 105 0 in
  b ← pending log; _ ← assert b;
  b ← pending log; _ ← assert (negb b);
  mid ← row (w_id w); _ ← assert (w_confirmed_amount mid == 0);
  out ← sweep 110 [log];
  _ ← assert ((length (out_confirmed out), out_confirmed_without_pending out, out_orphaned out) == (1%nat, 0, 0));
  out ← sweep 111 [log];
  _ ← assert (length (out_confirmed out) == 0%nat);
  after ← row (w_id w);
  _ ← assert (w_confirmed_amount after == usdc 30);
  _ ← assert (w_status after == Active);
  ts ← event_types; _ ← assert (ts == ["payment.pending"; "payment.confirmed"]%string);
  es ← events;
  _ ← assert ((p_sequence ∘ o_payload <$> es) == [1; 2]);
  e ← some (es !! 1%nat);
  _ ← assert (wv_confirmed_amount (p_watch (o_payload e)) == usdc 30);
  assert ((tv_amount <$> p_transfer (o_payload e)) == Some (usdc 30)).

(** [tests/store.rs:156-167 stale_cursor_is_rejected_without_writing] *)
Definition stale_cursor_is_rejected_without_writing : Test unit :=
  _ ← fixture 100;
  w ← watch (addr 1) (usdc 100) 100;
  let log := transfer_log (addr 1) (usdc 5) 105 0 in
  _ ← sweep 110 [log];
  r ← sweep_from 100 110 [log];
  _ ← assert (match r with CursorMoved 100 110 => true | _ => false end);
  after ← row (w_id w);
  assert (w_confirmed_amount after == usdc 5).

(** [tests/store.rs:170-178 transfer_missed_by_the_push_path_is_still_confirmed] *)
Definition transfer_missed_by_the_push_path_is_still_confirmed : Test unit :=
  _ ← fixture 100;
  w ← watch (addr 1) (usdc 100) 100;
  out ← sweep 110 [transfer_log (addr 1) (usdc 7) 103 4];
  _ ← assert ((length (out_confirmed out), out_confirmed_without_pending out) == (1%nat, 1));
  after ← row (w_id w); _ ← assert (w_confirmed_amount after == usdc 7);
  ts ← event_types; assert (ts == ["payment.confirmed"]%string).

(** [tests/store.rs:181-213 threshold_crossing_retires_the_watch_exactly_once] *)
Definition threshold_crossing_retires_the_watch_exactly_once : Test unit :=
  _ ← fixture 100;
  w ← watch (addr 1) (usdc 50) 100;
  let log3 := transfer_log (addr 1) (usdc 99) 103 0 in
  let logs := [transfer_log (addr 1) (usdc 20) 101 0; transfer_log (addr 1) (usdc 30) 102 0; log3] in
  b ← pending log3; _ ← assert b;
  out ← sweep 110 logs;
  _ ← assert (length (out_confirmed out) == 2%nat);
  _ ← assert (length (out_completed out) == 1%nat);
  _ ← assert (out_ignored out == 1);
  after ← row (w_id w);
  _ ← assert (w_status after == Completed);
  _ ← assert (w_confirmed_amount after == usdc 50);
  _ ← assert (bool_decide (is_Some (w_completed_at after)));
  c ← cache; _ ← assert (cache_is_empty c);
  ts ← event_types;
  _ ← assert (ts == ["payment.pending"; "payment.confirmed"; "payment.confirmed"; "threshold.reached"]%string);
  again ← watch (addr 1) (usdc 5) 110;
  _ ← assert (negb (w_id again == w_id w));
  d ← db; ss ← unwrap (stats d); s ← some (ss !! 0%nat);
  _ ← assert ((sr_confirmed_count s, sr_thresholds_reached s, sr_active_watches s) == (2, 1, 1));
  assert (sr_confirmed_volume s == usdc 50).

(** [tests/store.rs:216-236 reorged_out_pending_transfer_is_orphaned_and_replacement_is_counted] *)
Definition reorged_out_pending_transfer_is_orphaned_and_replacement_is_counted : Test unit :=
  _ ← fixture 100;
  w ← watch (addr 1) (usdc 100) 100;
  b ← pending (on_fork (addr 1) (usdc 10) 105 2 0); _ ← assert b;
  out ← sweep 110 [on_fork (addr 1) (usdc 10) 106 0 1];
  _ ← assert ((out_orphaned out, length (out_confirmed out), out_confirmed_without_pending out) == (1, 1%nat, 1));
  after ← row (w_id w); _ ← assert (w_confirmed_amount after == usdc 10);
  ts ← event_types;
  _ ← assert (ts == ["payment.pending"; "payment.confirmed"; "payment.orphaned"]%string);
  d ← db; ts ← unwrap (transfers_for_watch d (w_id w) 10);
  assert ((tr_status <$> ts) == [Orphaned; Confirmed]).

(** [tests/store.rs:239-249 late_pending_below_the_cursor_is_resolved_by_the_next_sweep] *)
Definition late_pending_below_the_cursor_is_resolved_by_the_next_sweep : Test unit :=
  _ ← fixture 100;
  _ ← watch (addr 1) (usdc 100) 100;
  _ ← sweep 110 [];
  b ← pending (on_fork (addr 1) (usdc 1) 104 0 9); _ ← assert b;
  out ← sweep 120 []; _ ← assert (out_orphaned out == 1);
  d ← db; assert (pending_blocks d cid == []).

(** [tests/store.rs:252-266 sweep_discovers_watches_this_instance_never_cached] *)
Definition sweep_discovers_watches_this_instance_never_cached : Test unit :=
  _ ← fixture 100;
  w ← watch (addr 1) (usdc 100) 100;
  _ ← put_cache cache_new;
  r ← sweep_from 100 110 [transfer_log (addr 1) (usdc 3) 104 0];
  out ← some (match r with Applied o => Some o | _ => None end);
  _ ← assert (length (out_discovered out) == 1%nat);
  _ ← assert (length (out_confirmed out) == 1%nat);
  c ← cache; _ ← assert (cache_len c == 1%nat);
  after ← row (w_id w); assert (w_confirmed_amount after == usdc 3).

(** [tests/store.rs:269-286 transfers_before_start_block_and_to_cancelled_watches_do_not_count] *)
Definition transfers_before_start_block_and_to_cancelled_watches_do_not_count : Test unit :=
  _ ← fixture 100;
  w1 ← watch (addr 1) (usdc 100) 105;
  w2 ← watch (addr 2) (usdc 100) 100;
  env ← tick; d ← db;
  let '(r, d) := cancel_watch env d (w_id w2) in
  _ ← put_db d; o ← unwrap r; _ ← some o;
  out ← sweep 110 [transfer_log (addr 1) (usdc 9) 105 0; transfer_log (addr 2) (usdc 9) 107 0];
  _ ← assert (length (out_confirmed out) == 0%nat);
  r1 ← row (w_id w1); r2 ← row (w_id w2);
  _ ← assert ((w_confirmed_amount r1, w_confirmed_amount r2) == (0, 0));
  ts ← event_types; assert (ts == []).

Definition fast_forward (target : Z) : Test Z :=
  d ← db; let '(r, d) := fast_forward_cursor d cid target in _ ← put_db d; unwrap r.

(** [tests/store.rs:289-297 fast_forward_never_skips_blocks_an_active_watch_cares_about] *)
Definition fast_forward_never_skips_blocks_an_active_watch_cares_about : Test unit :=
  _ ← fixture 100;
  c ← fast_forward 500; _ ← assert (c == 500);
  _ ← watch (addr 1) (usdc 1) 700;
  c ← fast_forward 900; _ ← assert (c == 700);
  c ← fast_forward 650; assert (c == 700).

(** Events due at a moment. *)
Definition lease (now : Z) : Test (list OutboxItem) :=
  d ← db; let '(items, d) := lease_due now (fun _ => false) d 10 300000 in _ ← put_db d; mret items.

(** [tests/store.rs:300-333 outbox_delivers_each_watch_in_order_and_leases_survive_crashes] *)
Definition outbox_delivers_each_watch_in_order_and_leases_survive_crashes : Test unit :=
  _ ← fixture 100;
  _ ← watch (addr 1) (usdc 10) 100;
  _ ← watch (addr 2) (usdc 10) 100;
  _ ← sweep 110 [transfer_log (addr 1) (usdc 10) 101 0; transfer_log (addr 2) (usdc 4) 101 1];
  let now := 1000000 in
  first ← lease now;
  _ ← assert ((as_str ∘ i_event_type <$> first) == ["payment.confirmed"; "payment.confirmed"]%string);
  none ← lease now; _ ← assert (none == []);
  let now := now + 400000 in
  retry ← lease now;
  _ ← assert (length retry == 2%nat);
  _ ← assert (forallb (fun i => i_attempts i =? 2) retry);
  d ← db; _ ← put_db (foldl (fun d i => mark_delivered now d (i_id i) 200) d retry);
  next ← lease now;
  _ ← assert ((as_str ∘ i_event_type <$> next) == ["threshold.reached"]%string);
  i ← some (next !! 0%nat);
  d ← db; let d := mark_dead d (i_id i) (Some 500) "gave up" in
  assert ((dp_pending (depth now d), dp_dead (depth now d)) == (0, 1)).

Definition expire : Test (list WatchRow) :=
  env ← tick; d ← db; let '(r, d) := expire_watches env d chain 100 in _ ← put_db d; unwrap r.

(** [tests/store.rs:336-348 expiry_retires_overdue_watches_and_notifies] *)
Definition expiry_retires_overdue_watches_and_notifies : Test unit :=
  _ ← fixture 100;
  w ← watch (addr 1) (usdc 10) 100;
  d ← db;
  _ ← put_db (set_watches (alter (fun w => mkWatch (w_id w) (w_seq w) (w_chain_id w) (w_token_address w) (w_payment_address w)
        (w_threshold w) (w_confirmed_amount w) (w_webhook_url w) (w_status w) (w_start_block w) (w_backfill_to w)
        (w_next_event_seq w) (w_created_at w) (w_completed_at w) (Some 0)) (w_id w)) d);
  expired ← expire; _ ← assert (length expired == 1%nat);
  expired ← expire; _ ← assert (expired == []);
  ts ← event_types; assert (ts == ["watch.expired"]%string).

Definition backfills : Test (list PendingBackfill) := d ← db; mret (pending_backfills d cid 50).
Definition run_backfill (bs : list PendingBackfill) (logs : list Log) : Test SweepOutcome :=
  env ← tick; d ← db; c ← cache;
  let '(r, d, c) := apply_backfill env d chain c bs logs in
  _ ← put_db d; _ ← put_cache c; unwrap r.

(** [tests/store.rs:468-506 a_watch_registered_late_is_backfilled_exactly_once] *)
Definition a_watch_registered_late_is_backfilled_exactly_once : Test unit :=
  _ ← fixture 100;
  o ← create (new_watch (addr 1) (usdc 10) 100 10);
  w ← some (match o with Created w => Some w | _ => None end);
  _ ← assert ((w_start_block w, w_backfill_to w) == (90, Some 100));
  bs ← backfills; _ ← assert (length bs == 1%nat);
  let logs := [transfer_log (addr 1) (usdc 1) 85 0; transfer_log (addr 1) (usdc 4) 95 0; transfer_log (addr 2) (usdc 9) 96 0;
               transfer_log (addr 1) (usdc 6) 99 1; transfer_log (addr 1) (usdc 5) 101 0] in
  out ← run_backfill bs logs;
  _ ← assert (length (out_confirmed out) == 2%nat);
  _ ← assert (length (out_completed out) == 1%nat);
  ts ← event_types; _ ← assert (ts == ["payment.confirmed"; "payment.confirmed"; "threshold.reached"]%string);
  bs' ← backfills; _ ← assert (bs' == []);
  again ← run_backfill bs logs;
  _ ← assert (length (out_confirmed again) == 0%nat);
  ts ← event_types; assert (length ts == 3%nat).

(** [tests/store.rs:510-525 registration_on_time_needs_no_backfill] *)
Definition registration_on_time_needs_no_backfill : Test unit :=
  _ ← fixture 100;
  o ← create (new_watch (addr 3) (usdc 10) 110 3);
  w ← some (match o with Created w => Some w | _ => None end);
  _ ← assert ((w_start_block w, w_backfill_to w) == (107, None));
  bs ← backfills; assert (bs == []).

(** Registrations between sweeps: two after each, ten sweeps, by an instance that hears nothing. *)
Fixpoint race (n : nat) : Test unit :=
  match n with
  | O => mret tt
  | S n =>
      _ ← create (new_watch (addr (2 * Z.of_nat n + 10)) (usdc 1) 0 0);
      _ ← create (new_watch (addr (2 * Z.of_nat n + 11)) (usdc 1) 0 0);
      d ← db; from ← unwrap (cursor d cid);
      r ← sweep_from from (from + 1) [];
      _ ← assert (match r with Applied _ => true | _ => false end);
      d ← db; c ← cache;
      _ ← assert (forallb (fun w => negb ((w_start_block w <=? from + 1) && (cache_last_seq c <? w_seq w))) ((map_to_list (d_watches d)).*2));
      race n
  end.

(** [tests/store.rs:353-414 registrations_racing_sweeps_are_never_skipped] Twenty registrations in one interleaving with
    ten sweeps. *)
Definition registrations_racing_sweeps_are_never_skipped : Test unit :=
  _ ← fixture 1000;
  _ ← race 10;
  _ ← put_cache cache_new;
  d ← db; from ← unwrap (cursor d cid);
  _ ← sweep (from + 1) [];
  d ← db; c ← cache;
  _ ← assert (active_watch_count d cid == 20);
  assert (cache_len c == 20%nat).

(** Every test passes. *)
Lemma store_suite_passes :
  Forall (fun t => passed t = true)
    [registration_is_idempotent_and_starts_after_cursor_and_head; pending_then_confirmed_counts_exactly_once;
     stale_cursor_is_rejected_without_writing; transfer_missed_by_the_push_path_is_still_confirmed;
     threshold_crossing_retires_the_watch_exactly_once;
     reorged_out_pending_transfer_is_orphaned_and_replacement_is_counted;
     late_pending_below_the_cursor_is_resolved_by_the_next_sweep; sweep_discovers_watches_this_instance_never_cached;
     transfers_before_start_block_and_to_cancelled_watches_do_not_count;
     fast_forward_never_skips_blocks_an_active_watch_cares_about;
     outbox_delivers_each_watch_in_order_and_leases_survive_crashes; expiry_retires_overdue_watches_and_notifies;
     a_watch_registered_late_is_backfilled_exactly_once; registration_on_time_needs_no_backfill;
     registrations_racing_sweeps_are_never_skipped].
Proof. repeat (apply List.Forall_cons; [vm_compute; reflexivity|]). apply List.Forall_nil. Qed.
