(* ===== verification/Demo.v ===== *)
(** * Demo: a run of the system

    One instance on the Base chain: it starts, bootstraps at block 50, a watch for 100 units is
    registered and announced, a transfer of 60 is seen at the head and recorded, and a sweep to
    block 52 finds it with another of 70. The states are computed by the definitions of the
    development; the theorems about reachable states are applied to the last one. *)

From S2P Require Import Prelude Config Registry Cache Matcher Events Health Rpc Store Sweep Runtime.
From S2P Require Import Outbox TxSpec Ledger LedgerTx SweepSpec RegisterSpec System.

Module Run.

Definition chain : ChainSpec := Sample.base.
Definition usdc : Z := 0x833589fCD6eDb6E08f4c7C32D4f71b54bdA02913.
Definition payer : Z := 0xA1.
Definition payee : Z := 0xB2.

Definition env (n : Z) : Env := mkEnv (1000 * n) (fun k => 100 * n + Z.of_nat k) (fun k => 1000 * n + Z.of_nat k).

Definition log1 : Log := transfer_log be_value usdc payer payee 60 51 0.
Definition log2 : Log := transfer_log be_value usdc payer payee 70 52 3.

Definition the_target : Z * Z * Z := (8453, usdc, payee).
Definition key_of (block index : Z) : TransferKey := (8453, block_hash be_value block 0, index).

Definition hist (key : TransferKey) : option (Z * Z * Z * Z) :=
  if decide (key = key_of 51 0) then Some (the_target, 60)
  else if decide (key = key_of 52 3) then Some (the_target, 70) else None.

Definition rt0 : ChainRuntime := runtime_new.
Definition boot := bootstrap 0 chain (Ok 8453, []) (fun _ => (Ok (Some 6), [])) (Ok 50, []) db_empty rt0.
Definition rt1 : ChainRuntime := boot.2.
Definition d1 : DB := boot.1.2.
Definition new : NewWatch := mkNewWatch 8453 usdc payee 100 "https://shop.example/hook" None 50 0.
Definition d2 : DB := (create_watch (env 1) d1 new).2.
Definition rt2 : ChainRuntime := handle d2 chain NotifyAdd 100 rt1.
Definition m1 : MatchedTransfer :=
  mkMatched (mkWatchRef 100 1 51) 0 payer payee 60 51 (block_hash be_value 51 0)
    (be_value (be_bytes 8 51 ++ be_bytes 8 0 ++ [0])) 0 false.
Definition d3 : DB := (record_pending (env 2) d2 chain m1).2.
Definition swept := apply_sweep (env 3) d3 chain (rt_cache rt2) 50 52 [log2; log1].
Definition d4 : DB := swept.1.2.
Definition rt4 : ChainRuntime := with_cache swept.2 rt2.

Definition rts (rt : ChainRuntime) : gmap (nat * nat) ChainRuntime :=
  <[(0%nat, 0%nat) := rt]> (<[(0%nat, 0%nat) := rt2]> (<[(0%nat, 0%nat) := rt1]> (<[(0%nat, 0%nat) := rt0]> ∅))).

Definition before : Sys := mkSys d3 (<[(0%nat, 0%nat) := rt2]> (<[(0%nat, 0%nat) := rt1]> (<[(0%nat, 0%nat) := rt0]> ∅))) [(0%nat, m1)].
Definition final : Sys := mkSys d4 (rts rt4) [(0%nat, m1)].

Lemma specs : Forall SpecOk [chain].
Proof. constructor; [|constructor]. apply ChainSpec_new_ok, Sample.base_ok. Qed.

Lemma log_bytes n v : Forall byte_ok (be_bytes n v).
Proof.
  revert v. induction n as [|n IH]; intros v; [constructor|]. cbn. apply Forall_app. split; [apply IH|].
  constructor; [|constructor]. unfold byte_ok. pose proof (Z.mod_pos_bound v 256). lia.
Qed.

Lemma log1_ok : log_ok hist chain log1.
Proof.
  split; [apply log_bytes|]. intros token bh li Ht Hb Hl.
  injection Hb as <-. injection Hl as <-. vm_compute in Ht. injection Ht as <-. vm_compute. reflexivity.
Qed.

Lemma log2_ok : log_ok hist chain log2.
Proof.
  split; [apply log_bytes|]. intros token bh li Ht Hb Hl.
  injection Hb as <-. injection Hl as <-. vm_compute in Ht. injection Ht as <-. vm_compute. reflexivity.
Qed.

Lemma before_reachable : reachable hist [chain] before.
Proof.
  unfold reachable.
  eapply rtc_l; [apply (a_start hist [chain] db_empty ∅ [] 0 0)|].
  eapply rtc_l; [apply (a_bootstrap hist [chain] db_empty _ _ 0 0 chain rt0 0 (Ok 8453, [])
    (fun _ => (Ok (Some 6), [])) (Ok 50, []) boot.1.1 d1 rt1); reflexivity|].
  eapply rtc_l; [apply (a_create hist [chain] d1 _ _ (env 1) new (create_watch (env 1) d1 new).1 d2);
    apply surjective_pairing|].
  eapply rtc_l; [apply (a_notify hist [chain] d2 _ _ 0 0 chain rt1 NotifyAdd 100); reflexivity|].
  eapply rtc_l; [apply (a_see hist [chain] d2 _ _ 0 0 chain rt2 log1 m1);
    [reflexivity|reflexivity|exact log1_ok|vm_compute; reflexivity]|].
  eapply rtc_l; [apply (a_pending hist [chain] d2 _ _ 0 chain m1 (env 2)
    (record_pending (env 2) d2 chain m1).1 d3); [reflexivity|apply list_elem_of_here|apply surjective_pairing]|].
  apply rtc_refl.
Qed.

Lemma sweep_action : action hist [chain] before final.
Proof.
  apply (a_sweep hist [chain] d3 _ _ 0 0 chain rt2 (env 3) 50 52 [log2; log1] swept.1.1 d4 swept.2);
    [reflexivity|reflexivity| |].
  - apply Forall_cons_2; [intros _; exact log2_ok|]. apply Forall_cons_2; [intros _; exact log1_ok|constructor].
  - unfold d4. change swept with (apply_sweep (env 3) d3 chain (rt_cache rt2) 50 52 [log2; log1]).
    destruct (apply_sweep _ _ _ _ _ _ _) as [[r d] c]. reflexivity.
Qed.

Lemma final_reachable : reachable hist [chain] final.
Proof. unfold reachable. eapply rtc_r; [exact before_reachable|exact sweep_action]. Qed.

(** The watch in the last state. *)
Definition final_watch : WatchRow := default (new_row (env 1) d1 new 50) (d_watches d4 !! 100).

Lemma final_watch_row : d_watches (sy_db final) !! 100 = Some final_watch.
Proof. vm_compute. reflexivity. Qed.

End Run.

(** ** Witnesses *)

Import Run.

Lemma actions_refine_ledger_witness :
  map_sum (credit the_target) (d_watches (sy_db final)) = 130
  /\ rtc (step hist) (sy_db before) (sy_db final).
Proof.
  split; [vm_compute; reflexivity|].
  apply (actions_refine_ledger hist [chain] specs before final before_reachable sweep_action).
Defined.

Lemma credited_is_confirmed_witness :
  map_sum (credit the_target) (d_watches (sy_db final)) = 130
  /\ map_sum (paid hist the_target) (d_transfers (sy_db final)) = 130
  /\ map_sum is_confirmed (d_transfers (sy_db final)) = 2.
Proof.
  assert (H : map_sum (credit the_target) (d_watches (sy_db final)) = 130) by (vm_compute; reflexivity).
  destruct (credited_is_confirmed hist [chain] specs final final_reachable) as (Hc & _ & Ha).
  split; [exact H|]. split; [rewrite <- Hc; exact H|]. rewrite <- Ha. vm_compute. reflexivity.
Defined.

Lemma payment_told_once_witness :
  exists ev o v, d_outbox (sy_db final) !! ev = Some o /\ o_event_type o = PaymentConfirmed
    /\ p_transfer (o_payload o) = Some v /\ tv_block_hash v = (key_of 51 0).1.2 /\ tv_amount v = 60.
Proof.
  assert (H51 : x_amount <$> d_transfers (sy_db final) !! key_of 51 0 = Some 60) by (vm_compute; reflexivity).
  destruct (payment_told_once hist [chain] specs final (key_of 51 0) final_reachable) as (Hiff & _).
  destruct (proj1 Hiff) as (ev & o & x & w & Ho & Et & Hx & (v & Ev & Ea & _ & Ek) & _).
  { eexists. split; vm_compute; reflexivity. }
  rewrite Hx in H51. injection H51 as E. exists ev, o, v. rewrite Ek, Ea. split_and!; done || exact E.
Defined.

Lemma completed_iff_threshold_witness :
  w_threshold final_watch = 100 /\ w_confirmed_amount final_watch = 130 /\ w_status final_watch = Completed.
Proof.
  split_and!; [vm_compute; reflexivity|vm_compute; reflexivity|].
  destruct (completed_iff_threshold hist [chain] specs final 100 final_watch final_reachable final_watch_row)
    as [H _]. apply H. vm_compute. congruence.
Defined.

Lemma event_numbers_gap_free_witness :
  w_next_event_seq final_watch = 4
  /\ exists ev o, d_outbox (sy_db final) !! ev = Some o /\ o_watch_id o = 100 /\ o_seq o = 3.
Proof.
  assert (E : w_next_event_seq final_watch = 4) by (vm_compute; reflexivity). split; [exact E|].
  destruct (event_numbers_gap_free hist [chain] specs final 100 final_watch final_reachable final_watch_row)
    as [H _]. apply (H 3). rewrite E. lia.
Defined.

Lemma one_active_watch_witness : w_id final_watch = 100.
Proof.
  apply (one_active_watch hist [chain] specs final 100 100 final_watch final_watch final_reachable
    final_watch_row final_watch_row).
Defined.

(** The events before the last are delivered, then [threshold.reached] is leased. *)
Definition delivered : Sys :=
  mkSys (mark_delivered 9 (mark_delivered 9 (mark_delivered 9 d4 200 200) 300 200) 301 200) (sy_rt final) (sy_seen final).

Lemma delivered_reachable : reachable hist [chain] delivered.
Proof.
  unfold reachable. eapply rtc_r; [|apply a_deliver, dl_delivered].
  eapply rtc_r; [|apply a_deliver, dl_delivered]. eapply rtc_r; [exact final_reachable|apply a_deliver, dl_delivered].
Qed.

Definition leased_item : OutboxItem :=
  default (mkItem 0 0 0 PaymentPending "" (mkPayload 0 PaymentPending 0 0 (mkWatchView 0 "" 0 "" 0 0 0 0 Active) None) 0 0)
    (head (lease_due 5000 (fun _ => false) (sy_db delivered) 10 60).1).

Lemma threshold_never_overtakes_witness :
  i_event_type leased_item = ThresholdReached /\ i_seq leased_item = 4
  /\ forall ev o, d_outbox (sy_db delivered) !! ev = Some o -> o_watch_id o = i_watch_id leased_item ->
       ev ≠ i_id leased_item -> o_status o = ODelivered \/ o_status o = ODead.
Proof.
  assert (E : i_event_type leased_item = ThresholdReached) by (vm_compute; reflexivity).
  split; [exact E|]. split; [vm_compute; reflexivity|].
  apply (threshold_never_overtakes hist [chain] specs delivered 5000 10 60 (fun _ => false) leased_item
    delivered_reachable); [|exact E]. vm_compute. apply list_elem_of_here.
Defined.

(** ** Witnesses of the sweep's contract *)

Lemma d3_inv : Inv hist d3.
Proof. apply (si_db _ _ _ (reachable_SysInv hist [chain] specs before before_reachable)). Qed.

Lemma d3_ids : ids_ok d3.
Proof. eapply ids_ok_of_inv, d3_inv. Qed.

Definition out4 : SweepOutcome := match swept.1.1 with Ok (Applied o) => o | _ => outcome_default end.

Lemma swept_applied : apply_sweep (env 3) d3 chain (rt_cache rt2) 50 52 [log2; log1] = (Ok (Applied out4), d4, swept.2).
Proof. vm_compute. reflexivity. Qed.

Lemma swept_distinct :
  NoDup (transfer_key chain <$> sweep_matched chain (cache_insert_all (rt_cache rt2)
    (delta_load d3 chain (cache_last_seq (rt_cache rt2)))) [log2; log1]).
Proof. match goal with |- ?P => apply (bool_decide_unpack P) end. vm_compute. exact I. Qed.

Lemma sweep_accounts_witness :
  (exists w', d_watches d4 !! 100 = Some w' /\ row_account w' = (130, Completed))
  /\ cursor d4 8453 = Ok 52.
Proof.
  destruct (sweep_accounts chain (env 3) d3 (rt_cache rt2) 50 52 [log2; log1] out4 d4 swept.2 d3_ids
    ltac:(vm_compute; split; congruence) swept_distinct swept_applied) as (Ha & _ & Hc).
  split; [|exact Hc]. destruct (d_watches d3 !! 100) as [w|] eqn:Hw; [|vm_compute in Hw; discriminate Hw].
  destruct (Ha 100 w Hw) as (w' & Hw' & _ & E). exists w'. split; [exact Hw'|]. rewrite E.
  vm_compute in Hw. injection Hw as <-. vm_compute. reflexivity.
Defined.

Definition d3_watch : WatchRow := default (new_row (env 1) d1 new 50) (d_watches d3 !! 100).

Lemma d3_watches : d_watches d3 = {[100 := d3_watch]}.
Proof. vm_compute. reflexivity. Qed.

Lemma rt2_covers : covers chain (rt_cache rt2) d3.
Proof.
  intros i w key ref. rewrite d3_watches. intros [<- <-]%lookup_singleton_Some _ He _.
  vm_compute in He. injection He as <- <-. vm_compute. reflexivity.
Qed.

(** A sweep that ends before the threshold: only the first log. *)
Definition swept1 := apply_sweep (env 3) d3 chain (rt_cache rt2) 50 51 [log1].
Definition out5 : SweepOutcome := match swept1.1.1 with Ok (Applied o) => o | _ => outcome_default end.

Lemma sweep_misses_nothing_witness :
  w_status <$> d_watches swept1.1.2 !! 100 = Some Active /\ confirmed_at swept1.1.2 (key_of 51 0).
Proof.
  split; [vm_compute; reflexivity|].
  assert (HS : SpecOk chain) by (apply ChainSpec_new_ok, Sample.base_ok).
  destruct (sweep_misses_nothing chain (env 3) d3 (rt_cache rt2) 50 51 [log1] out5 swept1.1.2 swept1.2
    100 d3_watch (WatchKey_new 0 payee) (mkWatchRef 100 1 51) log1 m1) as [H|[H|(w & Hw & Hs)]].
  - apply (inv_watches _ _ d3_inv).
  - exact rt2_covers.
  - vm_compute. reflexivity.
  - vm_compute. reflexivity.
  - vm_compute. reflexivity.
  - vm_compute. reflexivity.
  - apply list_elem_of_here.
  - reflexivity.
  - vm_compute. reflexivity.
  - destruct H. vm_compute. reflexivity.
  - exact H.
  - vm_compute in Hw. injection Hw as <-. by destruct Hs.
Defined.

Definition again := apply_sweep (env 4) swept1.1.2 chain swept1.2 51 53 [log1].
Definition out6 : SweepOutcome := match again.1.1 with Ok (Applied o) => o | _ => outcome_default end.

Lemma sweep_replay_witness :
  exists w'', d_watches again.1.2 !! 100 = Some w'' /\ row_account w'' = (60, Active).
Proof.
  destruct (d_watches swept1.1.2 !! 100) as [w|] eqn:Hw; [|vm_compute in Hw; discriminate Hw].
  destruct (sweep_replay chain (env 3) (env 4) d3 swept1.1.2 again.1.2 (rt_cache rt2) swept1.2 again.2 50 51 51 53
    [log1] out5 out6 d3_ids ltac:(vm_compute; reflexivity) ltac:(vm_compute; reflexivity) 100 w Hw)
    as (w'' & Hw'' & E). exists w''. split; [exact Hw''|]. rewrite E.
  vm_compute in Hw. injection Hw as <-. vm_compute. reflexivity.
Defined.

Lemma sweep_atomic_witness :
  (apply_sweep (env 3) d3 chain (rt_cache rt2) 49 52 [log1]).1.1 = Ok (CursorMoved 49 50)
  /\ (apply_sweep (env 3) d3 chain (rt_cache rt2) 49 52 [log1]).1.2 = d3.
Proof.
  split; [vm_compute; reflexivity|].
  destruct (apply_sweep (env 3) d3 chain (rt_cache rt2) 49 52 [log1]) as [[r d'] c'] eqn:H.
  assert (Hr : r = Ok (CursorMoved 49 50)).
  { change r with ((r, d', c').1.1). rewrite <- H. vm_compute. reflexivity. }
  pose proof (sweep_atomic chain (env 3) d3 d' (rt_cache rt2) c' 49 52 [log1] r H) as Ha.
  rewrite Hr in Ha. cbn. apply Ha.
Defined.

(** ** Witnesses of registration and the cursor *)

Definition created : WatchRow := default (new_row (env 1) d1 new 50) (result_ok (from_row (new_row (env 1) d1 new 50))).

Lemma created_ok : create_watch (env 1) d1 new = (Ok (Created created), d2).
Proof. vm_compute. reflexivity. Qed.

Lemma d1_ids : ids_ok d1.
Proof. intros i w H. vm_compute in H. discriminate H. Qed.

Lemma registration_no_gap_witness : w_start_block created = 51 /\ 50 < 51.
Proof.
  destruct (registration_no_gap (env 1) d1 d2 new created 50 51 created_ok ltac:(vm_compute; reflexivity)
    ltac:(lia) ltac:(vm_compute; split; congruence) ltac:(vm_compute; split; congruence)) as (_ & _ & _ & H & _).
  split; [apply H; reflexivity|lia].
Defined.

Lemma registration_idempotent_witness :
  (create_watch (env 2) d2 new).1 = Ok (Existing created)
  /\ d_watches (create_watch (env 2) d2 new).2 = d_watches d2.
Proof.
  destruct (create_watch (env 2) d2 new) as [r d''] eqn:H.
  destruct (registration_idempotent (env 1) (env 2) d1 d2 d'' new new created r d1_ids created_ok
    eq_refl eq_refl eq_refl ltac:(vm_compute; reflexivity) H) as [E1 E2].
  split; [rewrite E2; vm_compute; reflexivity|exact E1].
Defined.

Lemma fast_forward_safe_witness :
  fast_forward_cursor d2 8453 60 = (Ok 50, d2) /\ cursor (fast_forward_cursor d1 8453 60).2 8453 = Ok 60.
Proof.
  split; [vm_compute; reflexivity|].
  apply (fast_forward_safe d1 (fast_forward_cursor d1 8453 60).2 8453 60 50 60).
  - vm_compute. reflexivity.
  - vm_compute. reflexivity.
  - vm_compute. split; congruence.
  - intros i w H. vm_compute in H. discriminate H.
Defined.
