(* ===== verification/DemoTasks.v ===== *)
(** * DemoTasks: runs of the chain's tasks, the API and the dispatcher

    Concrete runs of the sweeper against a provider that serves one block per call, of a targeted
    session, of a registration request and of two dispatchers, at which the theorems about these
    parts are applied. *)

From S2P Require Import Prelude Text Json Config Registry Cache Matcher Events Health Rpc Store Sweep.
From S2P Require Import Runtime Sweeper Source Outbox Target Api Webhook TxSpec Ledger LedgerTx.
From S2P Require Import SweepSpec RegisterSpec System SweeperSpec SourceSpec ApiSpec Demo.

Module Tasks.
Import Run.

(** ** A provider that serves one block per call *)

Definition refusal : RpcFailure :=
  RpcErrorF "eth_getLogs" RangeTooLarge "error code -32602: eth_getLogs is limited to a 1 range".
Definition in_range (f : Filter) (l : Log) : bool :=
  match l_block_number l with Some b => (f_from_block f <=? b) && (b <=? f_to_block f) | None => false end.
Definition node (t : nat) (f : Filter) : Reply (list Log) :=
  if 1 <? f_to_block f - f_from_block f + 1 then (Err refusal, [])
  else (Ok (List.filter (in_range f) [log1; log2]), []).
Definition world : World :=
  mkWorld node (fun _ => (Ok 55, [])) (fun t => Z.of_nat t `mod` 1000) (fun t => env (10 + Z.of_nat t)) (fun _ p => p)
    (fun e => match e with RpcErrorF _ _ m => m | _ => "" end) (fun _ => false).

Definition st0 : St := mkSt (sweeper_new d3 chain 0) d3 rt2 0 [].

Definition pass := sweep world chain 20 st0.
Definition st1 : St := match pass with Some (_, st) => st | None => st0 end.

Lemma max_range : 1 <= cc_max_log_range (ch_cfg chain) < 2 ^ 63.
Proof. vm_compute. split; congruence. Qed.

Lemma st0_span : span_ok chain (st_s st0).
Proof. apply sweeper_new_ok, max_range. Qed.

Lemma node_honest : honest_node hist chain world.
Proof.
  intros t f logs H. change ((node t f).1 = Ok logs) in H. unfold node in H. destruct (1 <? _); [done|].
  assert (logs = List.filter (in_range f) [log1; log2]) as -> by (cbn [fst] in H; congruence).
  apply Forall_forall. intros l [Hin _]%list_elem_of_In%List.filter_In _.
  destruct Hin as [<-|[<-|[]]]; [exact log1_ok|exact log2_ok].
Qed.

Lemma nobody_else : others_act hist [chain] 0 0 world.
Proof. intros t s rt Hr Hrt. by exists s. Qed.

Lemma st0_in_sys : in_sys hist [chain] 0 0 before st0.
Proof. split; [exact before_reachable|reflexivity|reflexivity]. Qed.

Lemma pass_done : exists r, pass = Some (r, st1).
Proof. unfold st1. destruct pass as [[r st]|] eqn:H; [by exists r|vm_compute in H; discriminate H]. Qed.

Lemma node_limited : limited world 1.
Proof.
  split; [lia|]. cbn. unfold node. intros t f e _ _. destruct (Z.ltb_spec 1 (f_to_block f - f_from_block f + 1)); [|done].
  intros [= <-] _. split; [done|vm_compute; reflexivity].
Qed.

Lemma clock_bound t t' : wo_now world t' - wo_now world t <= 3600 * 10 ^ 9.
Proof.
  cbn. pose proof (Z.mod_pos_bound (Z.of_nat t) 1000 ltac:(lia)). pose proof (Z.mod_pos_bound (Z.of_nat t') 1000 ltac:(lia)). lia.
Qed.
End Tasks.

Import Run Tasks.

Lemma sweep_is_actions_witness :
  cursor (st_db st1) 8453 = Ok 52 /\ exists s', rtc (action hist [chain]) before s' /\ sy_db s' = st_db st1.
Proof.
  split; [vm_compute; reflexivity|]. destruct pass_done as [r Hp].
  destruct (sweep_is_actions hist [chain] 0 0 chain world 20 before st0 st1 r specs eq_refl node_honest nobody_else
    st0_in_sys Hp) as (s' & Ha & [_ Hd _]). exists s'. by split.
Defined.

Lemma sweep_chunks_cover_witness :
  exists r st' reached, sweep_chunks world chain (Z.to_nat 1000000) 52 50 st0 = Some (r, st')
    /\ cursor (st_db st') 8453 = Ok reached.
Proof.
  assert (Hal : alone world chain) by (intros t p; reflexivity).
  assert (Hcur : cursor (st_db st0) (ch_chain_id chain) = Ok 50) by (vm_compute; reflexivity).
  destruct (sweep_chunks_cover world chain (Z.to_nat 1000000) 52 50 st0 max_range st0_span) as
    (r & st' & new & reached & H & _ & _ & _ & Hc).
  - lia.
  - vm_compute. reflexivity.
  - rewrite Z2Nat.id by lia. vm_compute. reflexivity.
  - exists r, st', reached. split; [exact H|exact (proj1 (Hc Hal Hcur))].
Defined.

Definition chunk_run := sweep_chunks world chain 20 52 50 st0.
Definition chunk_st : St := match chunk_run with Some (_, st) => st | None => st0 end.

Lemma chunk_done : exists r, sweep_chunks world chain 20 52 50 st0 = Some (r, chunk_st).
Proof.
  unfold chunk_st, chunk_run. destruct (sweep_chunks _ _ _ _ _ _) as [[r st]|] eqn:H; [exists r; reflexivity|].
  vm_compute in H. discriminate H.
Qed.

Lemma provider_limit_learned_witness :
  rejections (st_trace chunk_st) = 1%nat /\ exists new, st_trace chunk_st = new /\ (rejections new <= 1)%nat.
Proof.
  split; [vm_compute; reflexivity|].
  destruct chunk_done as [r Hr].
  destruct (provider_limit_learned world chain 1 20 52 50 st0 chunk_st r max_range st0_span ltac:(lia)
    ltac:(vm_compute; reflexivity) node_limited clock_bound) as (new & E & Hn).
  - intros t. apply (clock_bound 0).
  - exact Hr.
  - exists new. split; [exact E|]. clear E Hr. destruct (decide _); lia.
Defined.

Lemma backfill_fetch_complete_witness :
  exists r st', backfill_fetch world chain (Z.to_nat 1000000) [usdc] [payee] 51 52 [] st0 = Some (r, st')
    /\ span_ok chain (st_s st').
Proof.
  destruct (backfill_fetch_complete world chain [usdc] [payee] (Z.to_nat 1000000) 51 52 st0 max_range st0_span) as
    (r & st' & new & H & _ & Hs & _).
  - lia.
  - vm_compute. reflexivity.
  - rewrite Z2Nat.id by lia. vm_compute. reflexivity.
  - exists r, st'. exact (conj H Hs).
Defined.

(** ** The head path *)

Definition always (_ : nat) : bool := true.
Definition pushed : Push :=
  match session_start always (fun _ => 0) chain Targeted 0 d2 rt2 with
  | inl p => p
  | inr _ => mkPush session_new [] None 0 d2 rt2 0 []
  end.

(** A second watch is added to the session's runtime; and, in a session that started before the first
    watch was cached, a sweep loads it and fails. *)
Definition empty_session : Push :=
  match session_start always (fun _ => 0) chain Targeted 0 d3 rt1 with
  | inl p => p
  | inr _ => mkPush session_new [] None 0 d3 rt1 0 []
  end.
Definition failing := apply_sweep (env 2) d3 chain (rt_cache rt1) 50 52 [log1].

Lemma push_path_covers_witness :
  concat (buckets (pu_session pushed)) = [payee]
  /\ push_ok chain [] (with_rt d2 (add_watch (pu_rt pushed) (WatchKey_new 0 0xC3) (mkWatchRef 7 2 51)) pushed)
  /\ push_ok chain [payee] (with_rt d3 (with_cache failing.2 (pu_rt empty_session)) empty_session).
Proof.
  split; [vm_compute; reflexivity|]. split.
  - apply (push_path_covers always (fun _ => 0) (fun _ => env 1) chain 0 d2 rt2 pushed).
    + vm_compute. reflexivity.
    + vm_compute. reflexivity.
    + apply rtc_once. exact (ps_add always (fun _ => 0) (fun _ => env 1) chain pushed (WatchKey_new 0 0xC3) (mkWatchRef 7 2 51) []).
  - apply (push_path_covers always (fun _ => 0) (fun _ => env 1) chain 0 d3 rt1 empty_session).
    + vm_compute. reflexivity.
    + vm_compute. reflexivity.
    + apply rtc_once.
      assert (E : exists e, failing = (Err e, d3, failing.2)) by (eexists; vm_compute; reflexivity).
      destruct E as [e E].
      refine (ps_sweep always (fun _ => 0) (fun _ => env 1) chain empty_session (env 2) 50 52 [log1] (Err e) d3 failing.2 [] d3_ids _).
      exact E.
Defined.

Lemma resubscribe_without_gap_witness :
  buckets (mkSession [] (Some [payee]) 0) = [[payee]]
  /\ forall a, a ∈ concat (buckets (mkSession [] (Some [payee; 0xC3]) 0)) <->
       a ∈ concat (buckets (mkSession [] (Some [payee]) 0)) \/ a ∈ [0xC3].
Proof.
  split; [reflexivity|].
  apply (resubscribe_without_gap always chain 0 1 (rt_cache rt2) [0xC3] (mkSession [] (Some [payee]) 0)
    (mkSession [] (Some [payee]) 0) (mkSession [] (Some [payee; 0xC3]) 0)
    [Subscribe (Some [payee]); Retire [payee]] [Subscribe (Some [payee; 0xC3]); Retire [payee]]).
  - vm_compute. reflexivity.
  - split; [constructor|]. intros b [= <-]. vm_compute. lia.
  - vm_compute. reflexivity.
  - vm_compute. reflexivity.
Defined.

Definition handled := handle_log chain (env 2) d2 rt2 log1.

Lemma handle_log_schedules_witness :
  rt_sweep_q handled.1.2 = rt_sweep_q rt2 ++ [PendingAt 51] /\ is_Some (d_transfers handled.1.1 !! transfer_key chain m1).
Proof.
  destruct handled as [[db' rt'] wake] eqn:H. unfold handled in H.
  assert (Hm : match_log chain (rt_cache rt2) log1 = Ok m1) by (vm_compute; reflexivity).
  pose proof (handle_log_schedules chain (env 2) d2 db' rt2 rt' log1 m1 wake Hm H) as Hs.
  assert (Hr : (record_pending (env 2) d2 chain m1).1 = Ok true) by (vm_compute; reflexivity).
  rewrite Hr in Hs. destruct Hs as (_ & _ & Hq & Hx). split; [exact Hq|exact Hx].
Defined.

(** ** The dispatchers *)

Definition event (watch : Z) : OutboxRec :=
  mkOutbox watch 1 PaymentPending "https://shop.example/hook"
    (mkPayload 0 PaymentPending 0 1 (mkWatchView 0 "" 0 "" 0 0 0 0 Active) None) OPending 0 0 None None 0 None.
Definition two_events : DB := set_outbox (fun _ => {[1 := event 10; 2 := event 20]}) db_empty.
Definition nobody (_ : Z) : bool := false.
Definition leased_by (batch : list OutboxItem * DB) : OutboxItem :=
  default (mkItem 0 0 0 PaymentPending "" (o_payload (event 0)) 0 0) (head batch.1).

Lemma two_events_unique : seqs_unique two_events.
Proof.
  intros ev ev' o o'. change (d_outbox two_events) with (<[1 := event 10]> ({[2 := event 20]} : gmap Z OutboxRec)).
  rewrite !lookup_insert_Some, !lookup_singleton_Some.
  intros [[<- <-]|[_ [<- <-]]] [[<- <-]|[_ [<- <-]]]; done.
Qed.

Lemma lease_due_ordered_witness :
  (length (lease_due 5 nobody two_events 1 60).1 <= 1)%nat /\ length (lease_due 5 nobody two_events 1 60).1 = 1%nat.
Proof.
  split; [|vm_compute; reflexivity]. pose proof (lease_due_ordered 5 1 60 nobody two_events two_events_unique) as H.
  destruct (lease_due 5 nobody two_events 1 60) as [items d']. exact (proj1 H).
Defined.

Lemma lease_outlives_attempt_witness :
  i_id (leased_by (lease_batch Sample.webhook 5 nobody two_events 1))
  ≠ i_id (leased_by (lease_batch Sample.webhook 9 nobody (lease_batch Sample.webhook 5 nobody two_events 1).2 1)).
Proof.
  apply (lease_outlives_attempt Sample.webhook 5 9 1 1 nobody nobody two_events);
    [vm_compute; split; congruence|vm_compute; split; congruence|vm_compute; congruence|..];
    vm_compute; apply list_elem_of_here.
Defined.

(** ** The matcher *)

Definition arc_cache : WatchCache := (cache_insert cache_new (WatchKey_new 0 payee) (mkWatchRef 1 1 10)).2.

Lemma match_log_transfer_witness :
  exists t, ch_tokens Sample.arc !! 0%nat = Some t
    /\ m_amount <$> result_ok (match_log Sample.arc arc_cache
         (transfer_log_on_fork be_value (t_log_address t) payer payee 2500000000000000000 12 3 0)) = Some 2500000.
Proof.
  exists (token_spec 0 Sample.usdc_arc). split; [reflexivity|].
  refine (eq_trans (f_equal (fun r => m_amount <$> result_ok r) (match_log_transfer "arc" Sample.arc_cfg Sample.arc_ok
    be_value 0 (token_spec 0 Sample.usdc_arc) arc_cache (mkWatchRef 1 1 10) payer payee 2500000000000000000 12 3 0
    eq_refl _ _ _ _ _ _)) _); vm_compute; first [reflexivity|split; congruence|congruence].
Defined.

(** ** A registration request *)

Definition parse_addr (s : string) : option Z := if String.eqb s "0xB2" then Some payee else None.
Definition parse_hook (s : string) : result string Url := Ok (mkUrl "https" "" None (Some (Domain "shop.example"))).
Definition show_hook (_ : Url) : string := "https://shop.example/hook".
Definition clock (_ : nat) : Z := 100000.
Definition api0 : ApiState := mkApi d1 {[8453 := rt1]} [].
Definition request : CreateWatchRequest :=
  mkRequest "0xB2" "base" "USDC" (Str "100") "https://shop.example/hook" None (Some 40000).
Definition public_only : TargetPolicy := mkPolicy false [].

Definition answered := api_create_watch parse_addr parse_u64 parse_hook show_hook show_u64 id [chain] None 3600000
  public_only clock (env 1) api0 request.

Lemma api_create_contract_witness :
  as_notified answered.2 = ["add:8453:100"]
  /\ match answered.1 with Ok (status, resp) => status = 201 /\ wr_id resp = 100 | Err _ => False end.
Proof.
  split; [vm_compute; reflexivity|].
  destruct answered as [r st'] eqn:H. unfold answered in H.
  pose proof (api_create_contract parse_addr parse_u64 parse_hook show_hook show_u64 parse_u64 id [chain] None 3600000
    public_only clock (env 1) api0 st' request r specs ltac:(apply Forall_singleton; vm_compute; split; congruence)
    ltac:(vm_compute; reflexivity) H) as Hc.
  assert (Hr : match r with Ok (status, resp) => status = 201 /\ wr_id resp = 100 | Err _ => False end).
  { change r with ((r, st').1). rewrite <- H. vm_compute. split; reflexivity. }
  destruct r as [[status resp]|e]; [|exact Hr]. destruct Hc as [[E _]|[E _]]; exact Hr.
Defined.

Definition checked := check_request parse_addr parse_u64 parse_hook show_hook id [chain] None 3600000 public_only clock
  api0 request.

Lemma payments_since_covered_witness :
  match answered.1 with Ok (_, resp) => wr_start_block resp <= 20 | Err _ => False end.
Proof.
  destruct answered as [r st'] eqn:H. unfold answered in H. cbn [fst].
  assert (Hr : exists resp, r = Ok (201, resp)).
  { change r with ((r, st').1). rewrite <- H. eexists. vm_compute. reflexivity. }
  destruct Hr as [resp ->].
  refine (payments_since_covered parse_addr parse_u64 parse_hook show_hook show_u64 id [chain] None 3600000
    public_only clock (env 1) api0 st' request resp chain rt1
    (mkNewWatch 8453 usdc payee 100 "https://shop.example/hook" None 50 40) 40000 50 20 _ H _ _ _ _ _ _ _ _ _);
    vm_compute; first [reflexivity|congruence].
Defined.
