(* ===== verification/DemoLive.v ===== *)
(** * DemoLive: runs of the supervisors, the loops and the test kit

    Two instances contend for one chain; the first leads, is cancelled and stops, or loses its
    session to the second. Further: a sweeper's loop with a pending block, a dispatcher with two
    events, an outage of the socket, a configuration that loads, and a sweep behind the test kit's
    proxy. *)

From S2P Require Import Prelude Text Json Config Registry Load Cache Matcher Events Wire Health Rpc Telemetry Store Numeric Sweep.
From S2P Require Import Runtime Sweeper Source Outbox Target Webhook TxSpec Ledger LedgerTx System Leader LeaderSpec App.
From S2P Require Import Dispatch SweeperSpec Proxy Sign Sink Debt SweeperLive SourceSpec SourceRun Demo DemoTasks.

Module Cluster2.
Import Run.

(** A sequence of events, run by the definition. *)
Definition cruns (es : list Event) (c : Cluster) : option Cluster :=
  foldl (fun oc e => c ← oc; cstep [chain] e c) (Some c) es.

Lemma cruns_None es : foldl (fun oc e => c ← oc; cstep [chain] e c) None es = None.
Proof. by induction es. Qed.

Lemma cruns_lruns es c c' : cruns es c = Some c' -> lruns hist [chain] c (Some <$> es) c'.
Proof.
  revert c. induction es as [|e es IH]; intros c H; cbn in H; [injection H as <-; apply lruns_nil|].
  destruct (cstep [chain] e c) as [c1|] eqn:E; [|by rewrite cruns_None in H].
  eapply lruns_cons; [by apply l_event|by apply IH].
Qed.

Definition boot_event (k : nat * nat) : Event := EBootstrap k 0 (Ok 8453, []) (fun _ => (Ok (Some 6), [])) (Ok 50, []).
Definition arrive (k : nat * nat) : list Event := [EStart k; ELoop k; boot_event k; EConnect k None; ETryLock k None].

(** Both instances have tried the lock: the first leads, the second waits. *)
Definition contended : Cluster := default cluster_init (cruns (arrive (0, 0)%nat ++ arrive (1, 0)%nat) cluster_init).

Lemma contended_run : cruns (arrive (0, 0)%nat ++ arrive (1, 0)%nat) cluster_init = Some contended.
Proof. vm_compute. reflexivity. Qed.

Lemma contended_reachable : lreachable hist [chain] contended.
Proof. eexists. apply (cruns_lruns _ _ _ contended_run). Qed.

(** The first is told to stop. *)
Definition cancelled : Cluster := default cluster_init (cruns [ECancel (0, 0)%nat] contended).
Definition stop_events : list Event :=
  [ESelect (0, 0)%nat BCancelled; EDrained (0, 0)%nat; ERelease (0, 0)%nat true; EWake (0, 0)%nat; ELoop (0, 0)%nat].
Definition stopped : Cluster := default cluster_init (cruns stop_events cancelled).

Lemma cancelled_reachable : lreachable hist [chain] cancelled.
Proof.
  destruct contended_reachable as [ls H]. eexists. eapply (lruns_app hist [chain]); [exact H|].
  apply (cruns_lruns [ECancel (0, 0)%nat]). vm_compute. reflexivity.
Qed.

(** It leaves the [select], and then gives up waiting for its tasks. *)
Definition cancelled_leading : Cluster := default cluster_init (cruns [ESelect (0, 0)%nat BCancelled] cancelled).
Definition drained : Cluster := default cluster_init (cruns [EDrained (0, 0)%nat] cancelled_leading).

Lemma cancelled_leading_reachable : lreachable hist [chain] cancelled_leading.
Proof.
  destruct cancelled_reachable as [ls H]. eexists. eapply (lruns_app hist [chain]); [exact H|].
  apply (cruns_lruns [ESelect (0, 0)%nat BCancelled]). vm_compute. reflexivity.
Qed.

Lemma stop_run : lruns hist [chain] cancelled (Some <$> stop_events) stopped.
Proof. apply cruns_lruns. vm_compute. reflexivity. Qed.
End Cluster2.

Import Run Cluster2.

(** The first leads; after its cancellation its tasks do not end in time, and what they have in flight is
    stray; the second leads then. *)
Lemma one_leader_witness :
  c_locks contended !! leadership_key 8453 = Some 0
  /\ c_stray drained = [(0, 0)%nat; (0, 0)%nat]
  /\ exists s, c_sups cancelled_leading !! (0, 0)%nat = Some s /\ works (su_phase s) = true.
Proof.
  split; [|split; [vm_compute; reflexivity|]].
  - refine (proj2 (proj1 (one_leader hist [chain] contended specs contended_reachable) (0, 0)%nat (0, 0)%nat
      (mkSup (Leading 0 Running Running) 500 false) (mkSup (Leading 0 Running Running) 500 false) 0 0 chain chain
      _ _ _ _ _ _ _ _ _ _ _)); vm_compute; reflexivity.
  - destruct (proj2 (proj2 (one_leader hist [chain] cancelled_leading specs cancelled_leading_reachable))
      (Some (EDrained (0, 0)%nat)) drained (0, 0)%nat) as (s & Hs & Hw & _).
    + apply l_event. vm_compute. reflexivity.
    + assert (E : c_stray drained = [(0, 0)%nat; (0, 0)%nat]) by (vm_compute; reflexivity). rewrite E. apply list_elem_of_here.
    + assert (E : c_stray cancelled_leading = []) by (vm_compute; reflexivity). rewrite E. apply not_elem_of_nil.
    + exists s. split; [exact Hs|exact Hw].
Defined.

Lemma shutdown_completes_witness :
  (length (List.filter (progress (0, 0)%nat) (Some <$> stop_events)) <= 10)%nat
  /\ (exists s, c_sups stopped !! (0, 0)%nat = Some s /\ su_phase s = Stopped)
  /\ exists es c' s, lruns hist [chain] cancelled (Some <$> es) c' /\ c_sups c' !! (0, 0)%nat = Some s /\ su_phase s = Stopped.
Proof.
  pose proof (shutdown_completes hist [chain] cancelled (0, 0)%nat (mkSup (Leading 0 Running Running) 500 true)
    cancelled_reachable ltac:(vm_compute; reflexivity) eq_refl) as H.
  split; [exact (proj1 (H (Some <$> stop_events) stopped stop_run))|]. split; [eexists; split; vm_compute; reflexivity|].
  destruct (H [] cancelled (lruns_nil _ _ _)) as (_ & _ & es & c' & s & _ & Hr & Hs & Hp).
  exists es, c', s. split; [exact Hr|split; [exact Hs|exact Hp]].
Defined.

Lemma failover_witness : exists c',
  lruns hist [chain] contended [Some (ELost 0); Some (EWaited (1, 0)%nat false); Some (ETryLock (1, 0)%nat None)] c'
  /\ c_locks c' !! leadership_key 8453 = Some 1.
Proof.
  destruct (failover hist [chain] contended (1, 0)%nat (mkSup (WaitLock 1 false) 500 false) 1 0 chain
    contended_reachable eq_refl ltac:(vm_compute; reflexivity) eq_refl ltac:(vm_compute; reflexivity)
    ltac:(vm_compute; reflexivity) ltac:(lia) ltac:(vm_compute; reflexivity)) as (c' & H1 & H2 & _).
  by exists c'.
Defined.

(** ** Amounts *)

(** The largest value, and the amount 70000 as the driver reads it, as [7] with scale [-4]. *)
Lemma numeric_roundtrip_witness :
  from_numeric (to_numeric (2 ^ 256 - 1) : Z * Z) = Ok (2 ^ 256 - 1)
  /\ from_numeric (dec_new 7 (-4) : Z * Z) = Ok 70000
  /\ from_numeric (dec_new (-1) 0 : Z * Z) = Store.amount (-1).
Proof.
  destruct (@numeric_roundtrip (Z * Z) pair_decimal) as (H1 & H2 & H3 & _). split_and!.
  - apply H1. split; [lia|reflexivity].
  - apply (H2 70000); [split; [lia|reflexivity]|vm_compute; reflexivity].
  - apply H3. vm_compute. reflexivity.
Defined.

(** ** The sweeper *)

Module Loops.
Import Tasks.

(** The node serves everything, its head is block 52, and time goes on. *)
Definition serve (t : nat) (f : Filter) : Reply (list Log) := (Ok (List.filter (in_range f) [log1; log2]), []).
Definition world2 : World :=
  mkWorld serve (fun _ => (Ok 52, [])) (fun t => Z.of_nat t * 1000000) (fun t => env (10 + Z.of_nat t)) (fun _ p => p)
    (fun e => match e with RpcErrorF _ _ m => m | _ => EmptyString end) (fun _ => false).

Definition run2 := run_loop world2 chain 20 [TickElapsed] (loop_new world2 st0).
Definition loop2 : Loop := match run2 with Some (inl l) => l | _ => loop_new world2 st0 end.

Lemma run2_done : run2 = Some (inl loop2).
Proof. vm_compute. reflexivity. Qed.

Lemma debts_none : debts chain d3 = ∅.
Proof. vm_compute. reflexivity. Qed.

(** Another instance moves the cursor while the logs are being fetched. *)
Definition rival (t : nat) (p : DB * ChainRuntime) : DB * ChainRuntime :=
  if (t =? 4)%nat then (set_cursors (<[8453 := 51]>) p.1, p.2) else p.
Definition world_r : World :=
  mkWorld serve (fun _ => (Ok 55, [])) (fun t => Z.of_nat t * 1000000) (fun t => env (10 + Z.of_nat t)) rival
    (fun e => match e with RpcErrorF _ _ m => m | _ => EmptyString end) (fun _ => false).
Definition run_r := run_loop world_r chain 20 [TickElapsed] (loop_new world_r st0).
Definition loop_r : Loop := match run_r with Some (inl l) => l | _ => loop_new world_r st0 end.

Lemma run_r_done : run_r = Some (inl loop_r).
Proof. vm_compute. reflexivity. Qed.

Lemma rival_bounded : others_bounded world_r chain 100.
Proof. intros t d rt Hb. cbn. unfold rival. by destruct (t =? 4)%nat. Qed.

(** A chain whose provider serves ten blocks per call, with a watch that is owed the blocks 40 to 50. *)
Definition narrow : ChainSpec :=
  ChainSpec_new "base" (mkChainConfig true 8453 "http://b" "ws://b" Auto PollMode 500 5000 500 5000 16384 60000
    2000 30000 60000 3 2000 10 30000 10000 25 4 20 [Sample.usdc_base]).
Definition owing_db : DB :=
  (create_watch (env 1) d1 (mkNewWatch 8453 usdc payee 100 "https://shop.example/hook" None 50 10)).2.
Definition owing_st : St := mkSt (sweeper_new owing_db narrow 0) owing_db rt1 0 [].
Definition scanned := sweep world2 narrow 600 owing_st.
Definition scanned_st : St := match scanned with Some (_, st) => st | None => owing_st end.

Lemma scanned_done : exists again, scanned = Some (Ok again, scanned_st).
Proof.
  unfold scanned_st. destruct scanned as [[[again|e] st]|] eqn:H; [by exists again|..]; exfalso; vm_compute in H; discriminate H.
Qed.

Lemma narrow_range : 1 <= cc_max_log_range (ch_cfg narrow) < 2 ^ 63.
Proof. vm_compute. split; congruence. Qed.

Lemma owing_debts : debts narrow owing_db = {[100 := (40, 50)]}.
Proof. vm_compute. reflexivity. Qed.

Lemma owing_ids : ids_ok owing_db.
Proof.
  assert (H : bool_decide (map_Forall (fun i w => w_id w = i) (d_watches owing_db)) = true) by (vm_compute; reflexivity).
  apply bool_decide_eq_true in H. intros i w. apply H.
Qed.
End Loops.

Import Tasks Loops.

Lemma sweep_returns_witness :
  debts narrow (st_db owing_st) = {[100 := (40, 50)]}
  /\ (exists again, sweep world2 narrow 600 owing_st = Some (Ok again, scanned_st))
  /\ debts narrow (st_db scanned_st) = ∅.
Proof.
  destruct scanned_done as [again Hdone]. split; [exact owing_debts|]. split; [exists again; exact Hdone|].
  destruct (sweep_returns world2 narrow 55 600 owing_st) as (r & st' & H & _ & Hd).
  - exact narrow_range.
  - vm_compute. discriminate.
  - intros t d rt Hi. split; [exact Hi|reflexivity].
  - exact owing_ids.
  - intros i start to. change (st_db owing_st) with owing_db. rewrite owing_debts.
    intros [<- [= <- <-]]%lookup_singleton_Some. lia.
  - lia.
  - vm_compute. reflexivity.
  - intros t head [= <-]. lia.
  - apply sweeper_new_ok, narrow_range.
  - change (st_db owing_st) with owing_db. rewrite owing_debts. vm_compute. reflexivity.
  - unfold scanned in Hdone. rewrite Hdone in H. clear Hdone.
    pose proof (f_equal (fun o => default (r, st') o) H) as E. cbn [default from_option id] in E. rewrite (f_equal snd E : scanned_st = st').
    apply Hd; [intros t p; reflexivity|].
    by rewrite <- (f_equal fst E : Ok again = r).
Defined.

(** The sweeper has its timer when it is left alone, and none after a rival has moved the cursor; the
    safety tick is what it then waits for. *)
Lemma wakeups_not_lost_witness :
  (pending loop2 = {[51]} /\ (is_Some (lp_next loop2) \/ exists d, lp_due loop2 = Some d
     /\ d <= loop_now world2 loop2 + Z.max (depth_delay chain 3) (2 * 10 ^ 9)))
  /\ pending loop_r = {[51]} /\ lp_due loop_r = None /\ stalled world_r chain 20 loop_r.
Proof.
  split; [split; [vm_compute; reflexivity|]|split; [vm_compute; reflexivity|split; [vm_compute; reflexivity|]]].
  - refine (proj1 (proj2 (wakeups_not_lost world2 chain 100 20 [TickElapsed] st0 loop2 max_range _ _ _ _ _ _ _ _ run2_done _)) _).
    + split; vm_compute; [discriminate|reflexivity].
    + vm_compute. discriminate.
    + split; [lia|vm_compute; reflexivity].
    + intros t. cbn. lia.
    + intros t head [= <-]. lia.
    + intros t d rt Hb. exact Hb.
    + split; [exact d3_ids|]. intros i start to. change (st_db st0) with d3. rewrite debts_none, lookup_empty. discriminate.
    + reflexivity.
    + vm_compute. discriminate.
    + intros t p. reflexivity.
  - destruct (proj1 (wakeups_not_lost world_r chain 100 20 [TickElapsed] st0 loop_r max_range
      ltac:(split; vm_compute; [discriminate|reflexivity]) ltac:(vm_compute; discriminate)
      ltac:(split; [lia|vm_compute; reflexivity]) ltac:(intros t; cbn; lia) ltac:(intros t head [= <-]; lia)
      rival_bounded ltac:(split; [exact d3_ids|intros i start to; change (st_db st0) with d3; rewrite debts_none, lookup_empty; discriminate])
      eq_refl run_r_done ltac:(vm_compute; discriminate))) as [[[x Hn]|(d & Hd & _)]|Hs].
    + vm_compute in Hn. discriminate Hn.
    + vm_compute in Hd. discriminate Hd.
    + exact Hs.
Defined.

(** ** The dispatcher *)

Module Posts.
Definition cfg1 : WebhookConfig := mkWebhookConfig "s3cret" 3000 10000 2 1 1000 3600000 86400 5 30000 false [].
Definition one_host (_ : string) : string := "shop.example".
Definition low (a b : Z) : Z := a.
Definition lease_events : list DEvent :=
  [DLease 5 nobody false; DSpawn; DSpawn; DBegin 0 0 5 true; DBegin 1 0 5 true; DSlot 0].
Definition posting : Dispatch :=
  default (dispatcher_new cfg1 two_events) (druns cfg1 low one_host lease_events (dispatcher_new cfg1 two_events)).
End Posts.

Import Posts.

Lemma deliveries_bounded_witness :
  length (dp_running posting) = 2%nat /\ slots_used "shop.example" (dp_running posting) <= 1.
Proof.
  split; [vm_compute; reflexivity|].
  apply (proj1 (proj2 (proj2 (deliveries_bounded cfg1 low one_host two_events lease_events posting
    ltac:(vm_compute; reflexivity)))) "shop.example"%string).
Defined.

(** ** The head path *)

Module Heads.
Definition canon (b : Z) : list Log := if b =? 51 then [log1] else if b =? 52 then [log2] else [].
Definition no_logs (_ : Z) : Reply (list Log) := (Ok [], []).
(** A turn at time [now] in which the socket does not open. *)
Definition dark (now : Z) : TurnIO := mkIO false false false now now false [] no_logs (Ok 52, []).
Definition down : SourceSt := mkSource None (Some 0) 250 poller_new d2 rt2 0.
Definition envs (n : nat) : Env := env (20 + Z.of_nat n).
Definition no_clock (_ : nat) : Z := 0.
Definition after_dark : SourceSt :=
  match source_run always no_clock envs chain [dark 100; dark 400] down with inl s => s | inr _ => down end.
End Heads.

Import Heads.

Lemma outage_is_polled_witness : exists s2,
  source_turn always no_clock envs chain (dark 6000) after_dark = inl s2 /\ polled envs chain (dark 6000) after_dark s2.
Proof.
  refine (proj2 (proj2 (outage_is_polled always no_clock envs chain [dark 100; dark 400] (dark 6000) down after_dark 0
    _ eq_refl _ _ _)) eq_refl eq_refl eq_refl _ _).
  - split; [cbn; lia|vm_compute; reflexivity|by exists 0].
  - repeat (apply List.Forall_cons; [split; [intros from; reflexivity|reflexivity]|]). apply List.Forall_nil.
  - repeat (apply List.Forall_cons; [reflexivity|]). apply List.Forall_nil.
  - vm_compute. reflexivity.
  - vm_compute. reflexivity.
  - vm_compute. discriminate.
Defined.

(** The node's head stands still, a call fails, and then the head moves by one block at a time. *)
Definition replies : list PollReply :=
  [Answered 50; Refused (Timeout "eth_getLogs" 1000); Answered 51; Answered 52].
Definition polls : Poller * DB * ChainRuntime := poll_run envs chain canon replies 0 poller_new d2 rt2.

Lemma polls_exactly_once_witness :
  blocks canon 51 52 = [log1; log2]
  /\ size (d_transfers (handle_all envs chain 0 [log1; log2] d2 rt2).1) = 2%nat
  /\ polls.1.2 = (handle_all envs chain 0 [log1; log2] d2 rt2).1.
Proof.
  assert (E : blocks canon 51 52 = [log1; log2]) by (vm_compute; reflexivity).
  split; [exact E|]. split; [vm_compute; reflexivity|]. rewrite <- E.
  apply (polls_exactly_once envs chain canon replies 0 50 d2 rt2).
  - intros b l. unfold canon. destruct (Z.eqb_spec b 51) as [->|]; [|destruct (Z.eqb_spec b 52) as [->|]];
      intros Hl; [apply list_elem_of_singleton in Hl as ->; reflexivity..|by apply not_elem_of_nil in Hl].
  - vm_compute. reflexivity.
  - lia.
  - cbn. repeat (apply Sorted_cons; [|first [apply HdRel_nil|apply HdRel_cons; lia]]). apply Sorted_nil.
  - cbn. repeat (apply List.Forall_cons; [lia|]). apply List.Forall_nil.
  - repeat (apply List.Forall_cons; [intros e [= <-]; vm_compute; discriminate|]). apply List.Forall_nil.
Defined.

(** ** Configuration and start *)

Module Booted.
Definition raw_base : RawChain :=
  mkRawChain None 8453 (Some "http://b"%string) (Some "ws://b"%string) Auto PollMode None None None None None None
    2000 30000 60000 3 2000 10000 30000 None None None 20
    (Some [mkRawToken "USDC" usdc 6 None None None]).
Definition raw : RawConfig :=
  mkRawConfig None "::" 8080 None 20 604800 None
    (mkRawWebhook None 3000 10000 64 None 1000 3600000 86400 5 30000 false None) None [("base"%string, raw_base)].
Definition extract (_ : list Layer) : result unit RawConfig := Ok raw.
Definition join (a b : string) : string := a +:+ "/" +:+ b.
Definition getenv (name : string) : option string :=
  if String.eqb name "DATABASE_URL" then Some "postgres://gum"%string
  else if String.eqb name "PORT" then Some "9000"%string else None.
Definition loaded : Config := default Sample.config (result_ok (load extract join getenv "config")).

Lemma raw_ok : raw_typed raw.
Proof.
  repeat match goal with
  | |- raw_typed _ => split
  | |- raw_chain_typed _ => split
  | |- token_typed _ => split
  | |- Forall _ (_ :: _) => apply List.Forall_cons
  | |- Forall _ [] => apply List.Forall_nil
  | |- let _ := _ in _ => cbv zeta
  | |- _ /\ _ => split
  | |- in_width _ _ => split; vm_compute; (discriminate || reflexivity)
  | |- in_width_opt _ _ => cbn
  | |- True => exact I
  | |- _ => progress cbn
  end.
Qed.

Definition outside : Outside := mkOutside true (fun _ => Ok tt) true true (fun a => Some a).
Definition booted : App := default (mkApp EmptyString ∅ [] (api_settings loaded ∅)) (result_ok (start outside loaded).1).

Lemma loaded_ok : load extract join getenv "config" = Ok loaded.
Proof. vm_compute. reflexivity. Qed.
End Booted.

Import Booted.

Lemma load_well_formed_witness :
  cfg_port loaded = 9000 /\ cfg_database_url loaded = "postgres://gum"%string /\ Forall SpecOk (from_config loaded).
Proof.
  destruct (load_well_formed extract join ltac:(intros ls r [= <-]; exact raw_ok) getenv "config" loaded loaded_ok)
    as (_ & _ & Hs & _ & _ & Hu & _).
  split_and!; [vm_compute; reflexivity|by apply Hu|exact Hs].
Defined.

Lemma start_runs_chains_witness :
  ap_tasks booted = [RunChain 8453; NotifyListener; DispatcherTask; Server]
  /\ exists c', lruns hist (from_config loaded) cluster_init [Some (EStart (0, 0)%nat)] c'
     /\ System.reachable hist (from_config loaded) (c_sys c').
Proof.
  split; [vm_compute; reflexivity|].
  destruct (start_runs_chains hist outside loaded booted (start outside loaded).2 0 cluster_init) as (_ & _ & _ & _ & c' & H & Hr & _).
  - apply validate_config_ok. vm_compute. reflexivity.
  - vm_compute. reflexivity.
  - exists []. apply lruns_nil.
  - intros j. reflexivity.
  - exists c'. split; [exact H|exact Hr].
Defined.

(** ** Behind the test kit's proxy *)

Module Proxied.
Definition encode (f : Filter) : Value :=
  Object [("id"%string, Number 1); ("method"%string, Str "eth_getLogs");
          ("params"%string, Array [Object [("fromBlock"%string, Str ("0x" +:+ show_hex (f_from_block f)));
                                           ("toBlock"%string, Str ("0x" +:+ show_hex (f_to_block f)))]])].
Definition decode (r : Proxy.Response (list Log)) : CallResult (list Log) :=
  match r with
  | RpcErrorBody _ code message => CallErr (ErrorResp code message)
  | BareStatus status => CallErr (HttpError status EmptyString)
  | Relayed _ logs => CallOk logs
  end.
Definition render (e : TransportError) : string :=
  match e with
  | ErrorResp _ message => "server returned an error response: error code -32602: " +:+ message
  | _ => EmptyString
  end.
Definition ten (_ : Z) : string := "10s".
Definition upstream (_ : nat) (f : Filter) : option (Z * list Log) := Some (200, List.filter (in_range f) [log1; log2]).
Definition px : RpcProxyState := limit_log_range 1 proxy_new.
Definition through (_ : nat) (f : Filter) : Reply (list Log) :=
  ((run render (failure_display ten) "eth_getLogs" 10000
      (fun n => decode (respond (upstream n f) (encode f) (forward (encode f) px).1)) (fun _ => 0) 0 []).1, []).
Definition world3 : World :=
  mkWorld through (fun _ => (Ok 60, [])) (fun t => Z.of_nat t `mod` 1000) (fun t => env (10 + Z.of_nat t)) (fun _ p => p)
    (failure_display ten) (fun _ => false).
Definition chunk_st3 : St := match sweep_chunks world3 chain 20 54 50 st0 with Some (_, st) => st | None => st0 end.

Lemma library : client_library encode decode render.
Proof. split; reflexivity. Qed.

Lemma node_serves : unlimited_node encode decode upstream.
Proof. intros n f e H. discriminate H. Qed.

Lemma world3_behind : behind encode decode render upstream world3 1.
Proof.
  intros t f _ _. exists (fun _ => px), (failure_display ten), 10000, (fun _ => 0), [].
  split; [|reflexivity]. intros _. split; [reflexivity|]. intros k fault H. vm_compute in H. discriminate H.
Qed.

Lemma chunks3_done : exists r, sweep_chunks world3 chain 20 54 50 st0 = Some (r, chunk_st3).
Proof.
  unfold chunk_st3. destruct (sweep_chunks world3 chain 20 54 50 st0) as [[r st]|] eqn:H; [by exists r|vm_compute in H; discriminate H].
Qed.
End Proxied.

Import Proxied.

Lemma proxy_limit_learned_witness :
  exists new, st_trace chunk_st3 = new /\ (rejections new <= 1)%nat /\ rejections new = 1%nat.
Proof.
  destruct chunks3_done as [r Hr].
  destruct (proxy_limit_learned encode decode render ten upstream world3 chain 1 20 54 50 st0 chunk_st3 r library node_serves)
    as (new & E & Hn); [lia|split; lia|reflexivity|exact world3_behind|exact max_range|exact st0_span|lia
      |vm_compute; reflexivity|exact clock_bound|intros t; cbn; pose proof (Z.mod_pos_bound (Z.of_nat t) 1000); lia|exact Hr|].
  exists new. split_and!; [exact E|etransitivity; [exact Hn|destruct (decide _); lia]|].
  change (st_trace chunk_st3 = new) in E. rewrite <- E. vm_compute. reflexivity.
Defined.

(** ** A delivery to the test kit's sink *)

(** Texts for the library's types and for JSON values: decimals, and the bits of a value's number. *)
Module Texts.
Definition decimal (n : Z) : string := show_digits 80 n.
#[export] Instance decimals : Scalars :=
  mkScalars decimal (digits_value 0) decimal (digits_value 0) decimal (digits_value 0) decimal (digits_value 0)
    decimal (digits_value 0).

#[export] Instance decimals_ok : ScalarsOk decimals.
Proof.
  assert (Hd : forall n b, 0 <= n < b -> b <= 2 ^ 256 -> digits_value 0 (decimal n) = Some n).
  { intros n b [H1 H2] Hb. apply digits_value_show; [lia|]. split; [exact H1|].
    eapply Z.lt_le_trans; [exact H2|]. etransitivity; [exact Hb|]. vm_compute. discriminate. }
  split; intros n Hn; try (eapply Hd; [exact Hn|vm_compute; discriminate]).
  assert (E : digits_value 0 (decimal n) = Some n) by (eapply Hd; [exact Hn|vm_compute; discriminate]).
  split; [intros E0; change (decimal n = EmptyString) in E0; rewrite E0 in E; injection E as <-; vm_compute in E0; discriminate E0|].
  change (uuid_text n) with (decimal n). eapply all_chars_impl; [|by eapply digits_value_all_digits]. intros c Hc.
  destruct c as [[] [] [] [] [] [] [] []]; (reflexivity || discriminate Hc).
Qed.

Fixpoint tree (v : Value) : gen_tree (bool + Z + string) :=
  match v with
  | Null => GenNode 0 []
  | Bool b => GenLeaf (inl (inl b))
  | Number n => GenLeaf (inl (inr n))
  | Float n => GenNode 1 [GenLeaf (inl (inr n))]
  | Str s => GenLeaf (inr s)
  | Array l => GenNode 2 (map tree l)
  | Object m => GenNode 3 (map (fun kv => GenNode 4 [GenLeaf (inr kv.1); tree kv.2]) m)
  end.
Fixpoint untree (t : gen_tree (bool + Z + string)) : Value :=
  match t with
  | GenLeaf (inl (inl b)) => Bool b
  | GenLeaf (inl (inr n)) => Number n
  | GenLeaf (inr s) => Str s
  | GenNode 2 l => Array (map untree l)
  | GenNode 3 l =>
      Object (map (fun t => match t with GenNode _ [GenLeaf (inr k); t] => (k, untree t) | _ => (EmptyString, Null) end) l)
  | GenNode _ [GenLeaf (inl (inr n))] => Float n
  | GenNode _ _ => Null
  end.

Lemma untree_tree v : untree (tree v) = v.
Proof.
  revert v. fix IH 1. intros [|b|n|n|s|l|m]; [reflexivity..| |]; cbn [tree untree]; f_equal.
  - induction l as [|v l IHl]; [reflexivity|]. cbn. by rewrite IH, IHl.
  - induction m as [|[k v] m IHm]; [reflexivity|]. cbn. by rewrite IH, IHm.
Qed.

Fixpoint bits (p : positive) : string :=
  match p with xH => EmptyString | xO p => String Ascii.zero (bits p) | xI p => String Ascii.one (bits p) end.
Fixpoint unbits (s : string) : positive :=
  match s with EmptyString => xH | String c s => if Ascii.eqb c Ascii.zero then xO (unbits s) else xI (unbits s) end.

Lemma unbits_bits p : unbits (bits p) = p.
Proof. induction p; cbn; congruence. Qed.

Definition print (v : Value) : string := bits (countable.encode (tree v)).
Definition read (s : string) : option Value := untree <$> countable.decode (unbits s).

Lemma print_back v : exact v -> exists v', read (print v) = Some v' /\ stored v v'.
Proof.
  intros Hv. exists v. split; [|by apply stored_same]. unfold read, print.
  rewrite unbits_bits, decode_encode. cbn. by rewrite untree_tree.
Qed.
End Texts.

Module Delivered.
Import Texts.
Definition the_payload : EventPayload := o_payload (event 10).
Definition item : OutboxItem := mkItem 1 10 1 PaymentPending "https://shop.example/hook" the_payload 3 0.
Definition status_text (_ : Z) : string := "status".

Lemma fits : payload_fits the_payload.
Proof. vm_compute. intuition congruence. Qed.

Definition posted (s : Sink) : Z * Sink :=
  post_to_sink Hex.tag Hex.encode show_u64 read cfg1 0 item 1800000000 (event_body (fun v => v) print (i_payload item)) s.
End Delivered.

Import Texts Delivered.

Lemma delivery_recorded_witness :
  (exists r, sk_received (posted sink_new).2 = [r] /\ rc_payload r = the_payload /\ rc_attempt r = 3)
  /\ sk_received (posted (fail_next 1 sink_new)).2 = [].
Proof.
  pose proof (fun s (H : 0 <= sk_rejected s < u32_max) => delivery_recorded Hex.tag Hex.encode Hex.decode Hex.tag_bytes
    Hex.roundtrip Hex.alphabet show_u64 (fun v => v) stored_same Texts.print Texts.read Texts.print_back cfg1 low status_text
    (mkClocks 0 0 0 0) true "shop.example" 0 1800000000 item two_events ∅ s
    eq_refl fits ltac:(split; [done|reflexivity]) ltac:(split; [done|reflexivity]) H) as D.
  pose proof (D sink_new ltac:(split; [done|reflexivity])) as D1.
  pose proof (D (fail_next 1 sink_new) ltac:(split; [done|reflexivity])) as D2. clear D. cbv zeta in D1, D2.
  fold (posted sink_new) in D1. fold (posted (fail_next 1 sink_new)) in D2.
  destruct (posted sink_new) as [status s']. destruct (posted (fail_next 1 sink_new)) as [status2 s2].
  destruct (deliver _ _ _ _ _ _ _ (fun _ => Responded status (status_text status)) _ _ _) as [[d' hosts'] ?].
  destruct (deliver _ _ _ _ _ _ _ (fun _ => Responded status2 (status_text status2)) _ _ _) as [[d2' hosts2'] ?].
  destruct D1 as [_ [(r & E & Hp & Ha & _) _]]. destruct D2 as [_ [E2 _]]. cbn [snd].
  split; [exists r; split_and!; [exact E|exact Hp|exact Ha]|exact E2].
Defined.
