(* ===== verification/DemoPay.v ===== *)
(** * DemoPay: a pass that confirms a payment

    The run of [Demo] again: the database and the cache before the sweep keep the promise of the
    durable cursor; a pass against a node whose head is block 54 confirms the payment of block 51,
    and an instance that takes over starts from the same promise. *)

From S2P Require Import Prelude Text Config Registry Cache Matcher Events Health Rpc Store Sweep.
From S2P Require Import Runtime Sweeper TxSpec Ledger LedgerTx SweepSpec System SweeperSpec Debt.
From S2P Require Import Outbox Webhook Dispatch DispatchLive Stats Metrics Durable Payments SweeperLive Promise Demo DemoTasks.

Module Confirm.
Import Run Tasks.

(** The chain up to block 51: one payment. *)
Definition canon (b : Z) : list Log := if b =? 51 then [log1] else [].
Definition height (h : Z) : Z := if h =? block_hash be_value 51 0 then 51 else 0.
Definition never : Exceptions := mkExceptions no_watch no_watch.

Definition serve (t : nat) (f : Filter) : Reply (list Log) := (Ok (List.filter (in_range f) [log1]), []).
Definition world3 : World :=
  mkWorld serve (fun _ => (Ok 54, [])) (fun t => Z.of_nat t) (fun t => env (10 + Z.of_nat t)) (fun _ p => p)
    (fun _ => ""%string) (fun _ => false).
Definition paid := sweep world3 chain 20 st0.
Definition st3 : St := match paid with Some (_, st) => st | None => st0 end.

Lemma log1_chain : chain_log hist chain height 51 log1.
Proof.
  split_and!; [reflexivity|reflexivity| |split; vm_compute; congruence|exact log1_ok|split; vm_compute; congruence].
  exists (block_hash be_value 51 0). split; [reflexivity|vm_compute; reflexivity].
Qed.

Lemma elem_of_canon n l : l ∈ canon n -> n = 51 /\ l = log1.
Proof.
  unfold canon. destruct (Z.eqb_spec n 51) as [->|]; intros Hl; [|by apply not_elem_of_nil in Hl].
  by apply list_elem_of_singleton in Hl as ->.
Qed.

Lemma canon_ok : canonical hist chain canon height.
Proof. intros n l [-> ->]%elem_of_canon. exact log1_chain. Qed.

Lemma nobody_acts ex : peers_act hist chain canon height ex 51 world3.
Proof. intros t d rt _. apply rtc_refl. Qed.

Lemma serve_honest : answers_honestly hist chain canon height 51 world3.
Proof.
  intros t f logs _ H. change ((serve t f).1 = Ok logs) in H. unfold serve in H.
  assert (logs = List.filter (in_range f) [log1]) as -> by (cbn [fst] in H; congruence).
  split.
  - intros l [Hin _]%list_elem_of_In%List.filter_In _. destruct Hin as [<-|[]]. split; [exact log1_ok|].
    intros n bh [= <-] [= <-]. split; [vm_compute; reflexivity|split; vm_compute; congruence].
  - intros b l Hb [-> ->]%elem_of_canon _ _ _. apply list_elem_of_In, List.filter_In.
    split; [by left|]. unfold in_range. cbn. apply andb_true_intro. split; apply Z.leb_le; lia.
Qed.

Lemma d3_transfers : d_transfers d3 = {[key_of 51 0 := default (mkTransfer 0 0 0 0 0 Pending 0 None) (d_transfers d3 !! key_of 51 0)]}.
Proof. vm_compute. reflexivity. Qed.

Lemma d3_cursor : cursor d3 8453 = Ok 50.
Proof. vm_compute. reflexivity. Qed.

Lemma d3_good : Good hist chain canon height never 51 d3 (rt_cache rt2).
Proof.
  assert (HS : SpecOk chain) by (apply ChainSpec_new_ok, Sample.base_ok).
  split.
  - exact d3_inv.
  - apply (si_caches _ _ _ (reachable_SysInv hist [chain] specs before before_reachable) 0%nat 0%nat); reflexivity.
  - exact rt2_covers.
  - exists 50. split; [exact d3_cursor|lia].
  - intros key x. rewrite d3_transfers. intros [<- <-]%lookup_singleton_Some _. split; [vm_compute; reflexivity|split; vm_compute; congruence].
  - intros key x c. rewrite d3_transfers. intros [<- <-]%lookup_singleton_Some _ _ _. left. vm_compute. reflexivity.
  - intros i w b m c Hi Ha (l & key & ref & [-> ->]%elem_of_canon & _) Hc Hle. vm_compute in Hc. injection Hc as <-. lia.
  - intros i w. rewrite d3_watches. intros [<- <-]%lookup_singleton_Some _ [to Hto]. vm_compute in Hto. discriminate Hto.
  - intros i w to c. rewrite d3_watches. intros [<- <-]%lookup_singleton_Some _ Hto. vm_compute in Hto. discriminate Hto.
  - intros i w. rewrite d3_watches. intros [<- <-]%lookup_singleton_Some _. split_and!; [|split]; vm_compute; congruence.
  - intros i j w v. rewrite d3_watches. intros [<- <-]%lookup_singleton_Some [<- <-]%lookup_singleton_Some _ _. reflexivity.
  - vm_compute. congruence.
Qed.

Lemma settled_bound : 0 <= 51 < 2 ^ 62.
Proof. split; [lia|reflexivity]. Qed.

Lemma confirmations_nonneg : 0 <= cc_confirmations (ch_cfg chain).
Proof. vm_compute. congruence. Qed.

Lemma world3_heads : settled_heads chain 51 world3.
Proof. intros t h [= <-]. split; [lia|vm_compute; congruence]. Qed.

Lemma d3_debts : debts chain d3 = ∅.
Proof. vm_compute. reflexivity. Qed.

Definition pass_units : nat := Z.to_nat 1100000.

Lemma pass_units_enough : pass_fuel chain (51 + cc_confirmations (ch_cfg chain) + 1) (st_db st0) < Z.of_nat pass_units.
Proof. unfold pass_fuel, pass_units. change (st_db st0) with d3. rewrite d3_debts, Z2Nat.id by lia. vm_compute. reflexivity. Qed.

Lemma paid_done : exists again, paid = Some (Ok again, st3).
Proof.
  unfold st3. destruct paid as [[[again|e] st]|] eqn:H; [by exists again|..]; exfalso; vm_compute in H; discriminate H.
Qed.



Definition row3 : WatchRow := default d3_watch (d_watches (st_db st3) !! 100).
End Confirm.

Import Run Tasks Confirm.

Lemma payments_confirmed_witness :
  (exists r st', sweep world3 chain pass_units st0 = Some (r, st'))
  /\ w_status row3 = Active /\ w_confirmed_amount row3 = 60 /\ confirmed_at (st_db st3) (key_of 51 0).
Proof.
  assert (HS : SpecOk chain) by (apply ChainSpec_new_ok, Sample.base_ok).
  assert (HP := fun fuel => payments_confirmed hist chain canon height never 51 51 world3 fuel st0 canon_ok
    settled_bound max_range confirmations_nonneg eq_refl (nobody_acts never) serve_honest
    world3_heads st0_span d3_good).
  split; [|split; [vm_compute; reflexivity|split; [vm_compute; reflexivity|]]].
  - apply HP; [intros t d rt Hi; split; [exact Hi|reflexivity]|exact pass_units_enough].
  - destruct paid_done as [again Hp]. destruct (HP 20%nat) as [_ H].
    destruct (H (Ok again) st3 Hp) as [_ H1].
    destruct (H1 eq_refl) with (i := 100) (row := row3) (b := 51) (m := m1) as [Hc|[[] _]].
    + intros t h [= <-]. vm_compute. congruence.
    + intros (t & f & e & Hf & _). discriminate Hf.
    + vm_compute. reflexivity.
    + vm_compute. reflexivity.
    + exists log1, (WatchKey_new 0 payee), (mkWatchRef 100 1 51).
      split_and!; [apply list_elem_of_here|vm_compute; reflexivity|vm_compute; reflexivity].
    + lia.
    + intros (to & Hto & _). vm_compute in Hto. discriminate Hto.
    + intros [].
    + exact Hc.
Defined.



(** The instance that takes over reads the head 54, keeps the cursor and loads the watch. *)
Definition heir := bootstrap 0 chain (Ok 8453, []) (fun _ => (Ok (Some 6), [])) (Ok 54, []) d3 runtime_new.

Lemma takeover_keeps_promise_witness :
  cursor heir.1.2 8453 = Ok 50 /\ cache_get (rt_cache heir.2) (WatchKey_new 0 payee) = Some (mkWatchRef 100 1 51)
  /\ Good hist chain canon height never 51 heir.1.2 (rt_cache heir.2) /\ complete chain (rt_cache heir.2) heir.1.2.
Proof.
  split; [vm_compute; reflexivity|]. split; [vm_compute; reflexivity|].
  assert (HS : SpecOk chain) by (apply ChainSpec_new_ok, Sample.base_ok).
  apply (takeover_keeps_promise hist chain canon height never 51 0 (Ok 8453, []) (fun _ => (Ok (Some 6), [])) (Ok 54, []) d3).
  - vm_compute. reflexivity.
  - reflexivity.
  - vm_compute. congruence.
  - left. exists (rt_cache rt2). exact d3_good.
Defined.

(** ** The statistics and the metrics of the run *)

Lemma stats_exact_witness :
  let row := stats_row (sy_db final) (8453, usdc) in
  s_confirmed_count row = 2 /\ s_thresholds_reached row = 1 /\ s_confirmed_volume row = 130.
Proof.
  cbv zeta. destruct (stats_exact hist [chain] specs final 8453 usdc final_reachable) as (-> & -> & _ & _ & ->);
    [|vm_compute; reflexivity]. split; [|split]; vm_compute; reflexivity.
Defined.

Lemma sweep_reported_witness :
  total (in_phase "confirmed") (report chain out4 "poll" [log2; log1] 9000) = 2
  /\ total (counts "gum_thresholds_reached_total" "chain" (ch_name chain)) (report chain out4 "poll" [log2; log1] 9000) = 1.
Proof.
  destruct (sweep_reported (env 3) d3 chain (rt_cache rt2) 50 52 [log2; log1] out4 d4 swept.2 "poll" 9000 d3_ids
    swept_applied) as (-> & _ & _ & ->). vm_compute. split; reflexivity.
Defined.
