(* ===== verification/DemoKit.v ===== *)
(** * DemoKit: the service and the test kit at work

    The test client registers a watch over HTTP; a local chain takes a payment and loses it; the
    configurations of the test kit are read. *)

From S2P Require Import Prelude Text Json Config Registry Cache Matcher Events Wire Health Rpc Store Sweep.
From S2P Require Import Runtime Target Api Http Demo DemoTasks DemoLive Erc20 TestChain Toml Profiles Load Harness Devnet Bench.

Import Run Texts.

Definition noon : Moment := mkMoment clock (env 1) 0 true "metrics".
Definition registered :=
  client_create_watch print read parse_hook show_hook id [chain] None 3600000 public_only noon "base" "USDC" payee 100
    "https://shop.example/hook" api0.

Lemma service_is_handlers_witness :
  as_notified registered.2 = ["add:8453:100"] /\ (exists w, registered.1 = Some w /\ wr_id w = 100 /\ wr_start_block w = 51)
  /\ (serve print read parse_hook show_hook id [chain] None 3600000 public_only noon (mkHttp GET "/v1/chains" false "") api0).2 = api0.
Proof.
  destruct (service_is_handlers print read print_back parse_hook show_hook id [chain] None 3600000 public_only noon api0)
    as (Hcreate & _ & Hpure).
  split; [vm_compute; reflexivity|]. split; [|apply Hpure; discriminate].
  specialize (Hcreate "base"%string "USDC"%string payee 100 "https://shop.example/hook"%string ltac:(vm_compute; discriminate)).
  destruct (create_watch_raw _ _ _ _ _ _ _ _ _ _ _ _) as [resp st1].
  destruct (api_create_watch _ _ _ _ _ _ _ _ _ _ _ _ _ _) as [[[code w]|e] st2] eqn:H.
  2:{ exfalso. vm_compute in H. discriminate H. }
  destruct Hcreate as (_ & _ & Hw).
  assert (E : watch_response_fits w /\ wr_id w = 100 /\ wr_start_block w = 51).
  { vm_compute in H. injection H as _ <- _. vm_compute. intuition congruence. }
  destruct E as (Hf & E). exists w. split; [exact (Hw Hf)|exact E].
Defined.

(** ** A local chain

    A node as the list of its blocks, the newest first; a block has the contracts and the nonces after it. *)

Module Local.
Record Block := mkBlock { bl_tokens : gmap Z Erc20; bl_nonces : gmap Z Z; bl_logs : list Log }.

Definition height (n : list Block) : Z := Z.of_nat (length n) - 1.
Definition at_height (n : list Block) (b : Z) : option Block :=
  if bool_decide (0 <= b <= height n) then n !! Z.to_nat (height n - b) else None.
Definition nonce_of (n : list Block) (a : Z) : Z := from_option (fun b => default 0 (bl_nonces b !! a)) 0 (head n).
Definition token_of (n : list Block) (t : Z) : option Erc20 := head n ≫= fun b => bl_tokens b !! t.
Definition empty_on (b : Block) : Block := mkBlock (bl_tokens b) (bl_nonces b) [].

Definition send (sender nonce token : Z) (call : Call) (gas : option Z) (n : list Block) : option (Z * list Block) :=
  b ← head n;
  c ← bl_tokens b !! token;
  '(c', evs) ← execute sender call c;
  if nonce =? nonce_of n sender then
    let h := height n + 1 in
    Some (h, mkBlock (<[token := c']> (bl_tokens b)) (<[sender := nonce + 1]> (bl_nonces b)) (imap (event_log token h h h) evs) :: n)
  else None.
Definition deploy (sender nonce : Z) (name symbol : string) (decimals : Z) (n : list Block) : option (Z * list Block) :=
  b ← head n;
  let a := 1000 + height n in
  Some (a, mkBlock (<[a := erc20_new name symbol decimals]> (bl_tokens b)) (<[sender := nonce + 1]> (bl_nonces b)) [] :: n).
Definition receipt (tx : Z) (n : list Block) : option Receipt :=
  if bool_decide (0 <= tx <= height n) then Some (mkReceipt tx (Some tx) (Some tx)) else None.
Definition mine_blocks (k : Z) (n : list Block) : option (list Block) :=
  b ← head n; Some (replicate (Z.to_nat k) (empty_on b) ++ n).
Definition replace (d : Z) (n : list Block) : option (list Block) :=
  let kept := drop (Z.to_nat d) n in
  b ← head kept; Some (replicate (Z.to_nat d) (empty_on b) ++ kept).

Definition anvil : Anvil :=
  mkAnvil (list Block) (fun _ _ _ => Some [mkBlock ∅ ∅ []]) (fun _ => 7) (fun _ => "http://127.0.0.1:8545"%string)
    (fun _ => "ws://127.0.0.1:8545"%string) (fun _ => 8545) nonce_of deploy send (fun _ _ => true) receipt
    (fun t o n => (fun c => balance_of c o) <$> token_of n t) mine_blocks
    (fun n => match n with [] => None | _ => Some (height n) end) replace token_of
    (fun n b => from_option bl_logs [] (at_height n b)).

Lemma at_height_cons x n b :
  n ≠ [] -> from_option bl_logs [] (at_height (x :: n) b)
  = if decide (b = height n + 1) then bl_logs x else from_option bl_logs [] (at_height n b).
Proof.
  intros Hn. unfold at_height, height. cbn [length]. case_decide as Hb.
  - subst b. rewrite bool_decide_true by lia. by replace (Z.to_nat _) with 0%nat by lia.
  - repeat case_bool_decide; try lia; try done.
    replace (Z.to_nat (Z.of_nat (S (length n)) - 1 - b)) with (S (Z.to_nat (Z.of_nat (length n) - 1 - b))) by lia. done.
Qed.

Lemma replicate_logs k b n c :
  n ≠ [] -> bl_logs b = [] ->
  from_option bl_logs [] (at_height (replicate k b ++ n) c) = from_option bl_logs [] (at_height n c).
Proof.
  intros Hn Hb. induction k as [|k IH]; [done|]. cbn [replicate app]. rewrite at_height_cons by (by destruct k, n).
  case_decide as Hc; [|done]. rewrite Hb. unfold at_height. unfold height in *. rewrite length_app, length_replicate in Hc.
  rewrite bool_decide_false by lia. done.
Qed.

Lemma kept_logs d n b :
  0 <= d <= height n ->
  from_option bl_logs [] (at_height (drop (Z.to_nat d) n) b)
  = if b <=? height n - d then from_option bl_logs [] (at_height n b) else [].
Proof.
  intros Hd. unfold at_height, height in *. rewrite length_drop. destruct (Z.leb_spec b (Z.of_nat (length n) - 1 - d)).
  - repeat case_bool_decide; try lia; try done. rewrite lookup_drop.
    by replace (Z.to_nat d + Z.to_nat (Z.of_nat (length n - Z.to_nat d) - 1 - b))%nat with (Z.to_nat (Z.of_nat (length n) - 1 - b)) by lia.
  - by rewrite bool_decide_false by lia.
Qed.

Lemma head_drop d (n : list Block) : 0 <= d <= height n -> exists b, head (drop (Z.to_nat d) n) = Some b.
Proof.
  intros H. unfold height in H. destruct (drop (Z.to_nat d) n) as [|b l] eqn:E; [|by exists b].
  apply (f_equal length) in E. rewrite length_drop in E. cbn in E. lia.
Qed.

Lemma anvil_ok : @AnvilOk anvil.
Proof.
  split; cbn [an_affords an_token an_head an_send an_nonce an_receipt an_logs an_mine an_reorg anvil Node].
  - intros n sender token call gas c c' evs h _ Ht He Hh. destruct n as [|b n]; [done|]. injection Hh as <-.
    cbn in Ht. unfold send. cbn [head mbind option_bind]. rewrite Ht. cbn [mbind option_bind]. rewrite He. cbn [mbind option_bind].
    rewrite Z.eqb_refl. eexists _, (height (b :: n) + 1), _. split; [reflexivity|]. split_and!.
    + f_equal. unfold height. cbn [length]. lia.
    + unfold nonce_of at 1. cbn. by rewrite lookup_insert_eq.
    + unfold receipt. rewrite bool_decide_true by (unfold height; cbn [length]; lia). done.
    + unfold token_of. cbn. by rewrite lookup_insert_eq.
    + rewrite at_height_cons by done. by rewrite decide_True.
    + intros x Hx. rewrite at_height_cons by done. by rewrite decide_False.
  - intros n k h Hk Hh. destruct n as [|b n]; [done|]. injection Hh as <-. unfold mine_blocks. cbn [head mbind option_bind].
    eexists. split; [reflexivity|]. split_and!.
    + destruct (replicate (Z.to_nat k) (empty_on b) ++ b :: n) as [|x l] eqn:E; [by destruct (replicate _ _)|]. f_equal. rewrite <- E.
      unfold height. rewrite length_app, length_replicate. cbn [length]. lia.
    + intros a. unfold nonce_of. by destruct (Z.to_nat k).
    + intros t. unfold token_of. by destruct (Z.to_nat k).
    + intros c. by apply replicate_logs.
  - intros n d h Hd Hh. destruct n as [|b0 n0] eqn:En; [done|]. rewrite <- En in *. assert (height n = h) as <- by (subst n; by injection Hh).
    unfold replace. destruct (head_drop d n Hd) as [b Hb]. rewrite Hb. cbn [mbind option_bind]. eexists. split; [reflexivity|].
    assert (Hne : drop (Z.to_nat d) n ≠ []) by (intros E; by rewrite E in Hb).
    assert (Hl : height (replicate (Z.to_nat d) (empty_on b) ++ drop (Z.to_nat d) n) = height n).
    { unfold height in *. rewrite length_app, length_replicate, length_drop. lia. }
    split.
    + destruct (replicate (Z.to_nat d) (empty_on b) ++ drop (Z.to_nat d) n) as [|x l] eqn:E; [by destruct (replicate _ _), (drop _ n)|].
      by rewrite Hl.
    + intros c. rewrite replicate_logs by done. by apply kept_logs.
Qed.
End Local.

(** A payment on the local chain is matched, and a reorganization removes it. *)
Definition dollar : Z := t_address (nth 0 (ch_tokens chain) (mkTokenSpec 0 EmptyString 0 0 EmptyString 0 None)).
Definition genesis : Local.Block := Local.mkBlock {[dollar := erc20_new "USD Coin" "USDC" 6]} ∅ [].
Definition tchain : @TestChain Local.anvil := @mkTestChain Local.anvil 8453 7 None [genesis].
Definition till : WatchCache := (cache_insert cache_new (WatchKey_new 0 payee) (mkWatchRef 1 1 1)).2.

Lemma payment_and_reorg_witness :
  exists m tc1 tc2 tc3, @chain_mint Local.anvil dollar payee 60 tchain = Some (m, tc1) /\ mi_block_number m = 1
    /\ mine 3 tc1 = Some tc2 /\ reorg 4 tc2 = Some tc3 /\ chain_head tc3 = Some 4 /\ an_logs (tc_node tc3) 1 = [].
Proof.
  destruct (payment_and_reorg (HA := Local.anvil_ok) "base" Sample.base_cfg 0
    (nth 0 (ch_tokens chain) (mkTokenSpec 0 EmptyString 0 0 EmptyString 0 None)) till (mkWatchRef 1 1 1) tchain
    (erc20_new "USD Coin" "USDC" 6)
    (default (erc20_new "" "" 0) (fst <$> Erc20.mint payee 60 (erc20_new "USD Coin" "USDC" 6)))
    (default [] (snd <$> Erc20.mint payee 60 (erc20_new "USD Coin" "USDC" 6))) payee 60 3 0)
    as (m & tc1 & tc2 & tc3 & H1 & _ & H2 & H3 & H4 & H5 & _).
  - apply Sample.base_ok.
  - reflexivity.
  - reflexivity.
  - vm_compute. reflexivity.
  - cbn. lia.
  - split; vm_compute; congruence.
  - split; vm_compute; congruence.
  - vm_compute. congruence.
  - reflexivity.
  - reflexivity.
  - lia.
  - lia.
  - reflexivity.
  - vm_compute. reflexivity.
  - vm_compute. reflexivity.
  - assert (Hm : mi_block_number m = 1).
    { assert (E : (mi_block_number ∘ fst <$> @chain_mint Local.anvil dollar payee 60 tchain) = Some 1) by (vm_compute; reflexivity).
      change (t_address _) with dollar in H1. rewrite H1 in E. cbn in E. by injection E. }
    exists m, tc1, tc2, tc3. rewrite H4, Hm, (H5 1), Hm. split_and!; done.
Defined.

(** The first chain of the end-to-end tests: the harness's lines are read and pass the validation. *)
Definition e2e_params : ChainParams :=
  with_extra [Assign "ws_bucket_size" (Number 2)] (with_confirmations 3 (with_mode "ws_firehose"
    (params_new "alpha" 31337 "http://127.0.0.1:1" "ws://127.0.0.1:1" [("USDC"%string, 0xA); ("USDT"%string, 0xB)]))).

Example test_config_reads :
  (cfg ← @test_config hex_scalars [e2e_params; with_log_source "USDC" 0xE 18 (params_new "beta" 31338 "http://b" "ws://b" [("USDC"%string, 0xC)])];
   Some ((fun nc => (nc.1, cc_confirmations nc.2, cc_ws_bucket_size nc.2, (fun t => (tc_address t, log_address t, log_decimals t)) <$> cc_tokens nc.2))
         <$> enabled_chains cfg))
  = Some [("alpha", 3, 2, [(0xA, 0xA, 6); (0xB, 0xB, 6)]); ("beta", 2, 500, [(0xC, 0xE, 18)])]%string.
Proof. vm_compute. reflexivity. Qed.

(** The benchmark's default run, too. *)
Example bench_config_reads :
  (cfg ← @test_config hex_scalars [bench_params args_default "http://p" "ws://a" 0xA];
   Some ((fun nc => (nc.1, cc_chain_id nc.2, cc_large_scale_mode nc.2, cc_safety_sweep_interval_ms nc.2)) <$> enabled_chains cfg))
  = Some [("bench"%string, 31337, WsFirehose, 30000)].
Proof. vm_compute. reflexivity. Qed.

(** The development network on local nodes; the service's local profile then runs its chains with the
    tokens it deployed. *)
Definition devnet : option (Document * list (string * list (string * Z))) :=
  fst <$> @up_chains hex_scalars Local.anvil CHAINS.
Definition deployed_on (all : list (string * list (string * Z))) (chain : string) : string * list (string * Z) :=
  (chain, default [] (snd <$> find (fun kc => String.eqb kc.1 chain) all)).
Definition local_env (k : string) : option string := if String.eqb k "GUM_PROFILE" then Some "local"%string else None.

Example devnet_loads :
  exists d all, devnet = Some (d, all)
    /\ match Load.load (@extract_layers hex_scalars (file d) (URLS "postgres://x" "http://m" "ws://m" "http://a" "ws://a" "http://b" "ws://b"))
         Profiles.join local_env "config" with
       | Ok cfg => ((fun nc => (nc.1, (fun t => (tc_symbol t, tc_address t)) <$> cc_tokens nc.2)) <$> enabled_chains cfg)
                   = [deployed_on all "arbitrum"; deployed_on all "base"; deployed_on all "monad"]
       | Err _ => False
       end.
Proof.
  destruct devnet as [[d all]|] eqn:E; [|exfalso; vm_compute in E; discriminate E].
  exists d, all. split; [done|]. vm_compute in E. injection E as <- <-. vm_compute. reflexivity.
Qed.

Lemma shipped_profile_loads_witness :
  exists cfg,
    Load.load (@extract_layers hex_scalars (file [])
      (URLS "postgres://x" "http://m" "ws://m" "http://a" "ws://a" "http://b" "ws://b")) Profiles.join no_env "config" = Ok cfg
    /\ (fst <$> enabled_chains cfg) = ["arbitrum"; "base"; "monad"]%string.
Proof.
  destruct (shipped_profile_loads "postgres://x" "http://m" "ws://m" "http://a" "ws://a" "http://b" "ws://b")
    as (cfg & E & Hc & _); [repeat constructor; discriminate|].
  exists cfg. split; [exact E|]. apply (f_equal (fmap (M := list) (fun x => x.1.1))) in Hc.
  rewrite <- list_fmap_compose in Hc. exact Hc.
Defined.
