(* ===== verification/Findings.v ===== *)
(** * Findings: behaviours of the code the model exposes

    Concrete runs, computed by the definitions, in which the code does something its comments or
    its documentation rule out. Each is a closed theorem. *)

From S2P Require Import Prelude Config Registry Cache Matcher Events Health Rpc Store Sweep Runtime.
From S2P Require Import Outbox TxSpec Ledger LedgerTx SweepSpec RegisterSpec System Metrics Leader LeaderSpec Demo DemoLive.
Import Run.

(** ** A registration the delta load never repairs

    Two watches are registered; the leader hears of the second one only. [WatchCache::insert] raises
    [last_seq] to the second sequence number, so the delta load of the next sweep asks for later
    ones, and the first watch stays unknown: its payment is swept over. *)
Module LostNotification.

Definition payee2 : Z := 0xC3.
Definition new2 : NewWatch := mkNewWatch 8453 usdc payee2 100 "https://shop.example/hook" None 50 0.
Definition d3 : DB := (create_watch (env 2) d2 new2).2.
Definition rt3 : ChainRuntime := handle d3 chain NotifyAdd 200 rt1.
Definition swept := apply_sweep (env 3) d3 chain (rt_cache rt3) 50 52 [log1].
Definition d4 : DB := swept.1.2.

(** C39. A missed registration is not repaired: the sweep is applied and moves the cursor past block 51, where the log [log1] pays the first
    watch, active and started at 51; the log is neither counted nor stored, and the cache still does
    not know the watch. *)
Theorem lost_notification_not_repaired :
  (exists out, swept.1.1 = Ok (Applied out))
  /\ cursor d4 8453 = Ok 52
  /\ (exists w, d_watches d4 !! 100 = Some w /\ w_status w = Active /\ w_start_block w = 51
        /\ w_confirmed_amount w = 0 /\ hist (key_of 51 0) = Some (target w, 60))
  /\ d_transfers d4 !! key_of 51 0 = None
  /\ cache_get swept.2 (WatchKey_new 0 payee) = None
  /\ delta_load d4 chain (cache_last_seq swept.2) = [].
Proof.
  split_and!; try (vm_compute; reflexivity).
  - eexists. vm_compute. reflexivity.
  - eexists. split_and!; vm_compute; reflexivity.
Qed.
End LostNotification.

(** ** A confirmed transfer filed under a retired watch

    A payment is seen at the head for a watch that is then cancelled; the same target is registered
    again with a lookback. The sweep credits the new watch, but the stored row keeps the old one. *)
Module RetiredOwner.

Definition d4 : DB := (cancel_watch (env 4) d3 100).2.
Definition again : NewWatch := mkNewWatch 8453 usdc payee 100 "https://shop.example/hook" None 51 10.
Definition d5 : DB := (create_watch (env 5) d4 again).2.
Definition swept := apply_sweep (env 6) d5 chain cache_new 50 52 [log1].
Definition d6 : DB := swept.1.2.

(** The new watch is active and credited with the payment, while the confirmed row names the
    cancelled watch, so the new watch's list of transfers is empty. *)
Theorem confirmed_under_retired_watch :
  (exists w, d_watches d6 !! 100 = Some w /\ w_status w = Cancelled /\ w_confirmed_amount w = 0)
  /\ (exists w, d_watches d6 !! 500 = Some w /\ w_status w = Active /\ w_confirmed_amount w = 60)
  /\ (exists x, d_transfers d6 !! key_of 51 0 = Some x /\ x_status x = Confirmed /\ x_watch_id x = 100)
  /\ transfers_for_watch d6 500 100 = Ok [].
Proof.
  split_and!; try (vm_compute; reflexivity); eexists; split_and!; vm_compute; reflexivity.
Qed.
End RetiredOwner.

(** ** A canonical payment below the cursor is called orphaned

    A watch with a lookback is awaiting its backfill when a log at or below the cursor is recorded
    for it. The next sweep did not fetch that block, finds the row pending and orphans it; the
    backfill, which does fetch the block, then refuses to count it. *)
Module OrphanedBackfill.

Definition log0 : Log := transfer_log be_value usdc payer payee 40 45 1.
Definition new0 : NewWatch := mkNewWatch 8453 usdc payee 100 "https://shop.example/hook" None 50 10.
Definition d2 : DB := (create_watch (env 1) d1 new0).2.
Definition rt2 : ChainRuntime := handle d2 chain NotifyAdd 100 rt1.
Definition m0 : MatchedTransfer :=
  match match_log chain (rt_cache rt2) log0 with Ok m => m | Err _ => m1 end.
Definition d3 : DB := (record_pending (env 2) d2 chain m0).2.
Definition swept := apply_sweep (env 3) d3 chain (rt_cache rt2) 50 52 [].
Definition d4 : DB := swept.1.2.
Definition filled := apply_backfill (env 4) d4 chain swept.2 (pending_backfills d4 8453 100) [log0].
Definition d5 : DB := filled.1.2.

(** C40. A canonical payment inside the backfill range of an active watch ends orphaned and
    uncounted: the sweep after it orphans its row, and the backfill that fetches its block confirms
    nothing and is then marked done. *)
Theorem backfilled_payment_orphaned :
  (exists w, d_watches d3 !! 100 = Some w /\ w_start_block w = 40 /\ w_backfill_to w = Some 50)
  /\ match_log chain (rt_cache rt2) log0 = Ok m0
  /\ (exists x, d_transfers d4 !! key_of 45 1 = Some x /\ x_status x = Orphaned)
  /\ (exists out, filled.1.1 = Ok out /\ out_confirmed out = [])
  /\ (exists w, d_watches d5 !! 100 = Some w /\ w_status w = Active /\ w_confirmed_amount w = 0
        /\ w_backfill_to w = None).
Proof.
  split_and!; try (vm_compute; reflexivity); eexists; split_and!; vm_compute; reflexivity.
Qed.
End OrphanedBackfill.

(** ** A credited transfer is orphaned between two statements

    Transactions are single steps of the system, which is what they are to each other as long as one
    instance ingests a chain. With two of them ([TwoIngesters]) a sweep of one and a backfill of the
    other meet: the sweep holds the cursor's row, the backfill takes no lock on it, and the sweep updates
    the rows it has read as pending by their id alone. *)
Module TornSweep.
Import OrphanedBackfill.

(** [src/store/sweep.rs:333-371 apply_sweep (from the leftovers on)] *)
Definition sweep_rest (chain : ChainSpec) (to : Z) (matched : list MatchedTransfer) (logs : list Log)
    (rows : list (TransferKey * TransferRec)) (so : gmap Z StatsDelta * SweepOutcome) : Tx SweepOutcome :=
  so ← mfold (resolve_leftover chain (canonical_set matched) (all_canonical_set logs)) rows so;
  let '(stats, out) := so in
  _ ← write_stats chain stats;
  _ ← tx_mod (set_cursors (<[as_i64 (ch_chain_id chain) := as_i64 to]>));
  mret out.

Lemma sweep_account_rest chain cache to logs disc :
  sweep_account chain cache to logs disc =
  (so ← mfold (count_confirmed chain) (sweep_matched chain cache logs) (∅, out_set_discovered disc outcome_default);
   d ← tx_get;
   sweep_rest chain to (sweep_matched chain cache logs) logs (leftovers d (as_i64 (ch_chain_id chain)) (as_i64 to)) so).
Proof. reflexivity. Qed.

(** A sweep up to block 52 has read its leftovers in [d3]: the pending transfer of block 45. *)
Definition read_rows : list (TransferKey * TransferRec) := leftovers d3 8453 52.
(** The other instance's backfill of that block commits; then the sweep goes on. *)
Definition filled3 := apply_backfill (env 4) d3 chain (rt_cache rt2) (pending_backfills d3 8453 100) [log0].
Definition torn :=
  run_tx (env 5) filled3.1.2 (out ← sweep_rest chain 52 [] [] read_rows (∅, outcome_default); mret (Commit out)).

(** C18. A concrete interleaving of statements of two instances: one sweeps, the other's backfill commits
    between the sweep's reading of the leftovers and its update of them. The transfer was pending and is
    confirmed and credited by the backfill; the sweep commits too and leaves it orphaned, credited, and
    told both as confirmed and as orphaned. Had the sweep begun after the backfill, the transfer would have
    stayed confirmed. *)
Theorem torn_sweep_orphans_credited :
  (exists x, d_transfers d3 !! key_of 45 1 = Some x /\ x_status x = Pending)
  /\ read_rows.*1 = [key_of 45 1]
  /\ (exists out, filled3.1.1 = Ok out /\ m_amount <$> out_confirmed out = [40])
  /\ (exists x, d_transfers filled3.1.2 !! key_of 45 1 = Some x /\ x_status x = Confirmed)
  /\ (exists out, torn.1 = Ok out /\ out_orphaned out = 1)
  /\ (exists x, d_transfers torn.2 !! key_of 45 1 = Some x /\ x_status x = Orphaned)
  /\ (exists w, d_watches torn.2 !! 100 = Some w /\ w_confirmed_amount w = 40)
  /\ (o_event_type <$> sort_by o_seq (map_to_list (d_outbox torn.2)).*2) = [PaymentPending; PaymentConfirmed; PaymentOrphaned]
  /\ (exists x, d_transfers (apply_sweep (env 5) filled3.1.2 chain filled3.2 50 52 []).1.2 !! key_of 45 1 = Some x
        /\ x_status x = Confirmed).
Proof.
  split_and!; try (vm_compute; reflexivity); eexists; split; vm_compute; reflexivity.
Qed.
End TornSweep.

(** ** Pending transfers hidden from the statistics

    The pending count is joined from the group of active watches: with the only watch of a token
    cancelled, the transfer that is still pending is reported as none. *)
Theorem stats_hide_pending :
  (exists x, d_transfers RetiredOwner.d4 !! key_of 51 0 = Some x /\ x_status x = Pending)
  /\ stats (set_stats (<[(8453, usdc) := mkStats 0 0 0 0]>) RetiredOwner.d4)
     = Ok [mkStatsRow 8453 usdc 0 0 0 0 0 0].
Proof. split; [eexists; split; vm_compute; reflexivity|vm_compute; reflexivity]. Qed.

(** ** A watch discovered by a failed sweep is never announced to the head path

    A sweep's delta load finds a watch this instance did not know and inserts it in the shared
    cache; then the transaction fails (here on a duplicate key; a lost connection does the same).
    The retry no longer sees the key as new, so [discovered] is empty, the targeted session is not
    told to subscribe to it, and the head path stays blind to its payments until the buckets are
    rebuilt. *)
Module Unannounced.

Definition failed := apply_sweep (env 2) d3 chain cache_new 50 52 [log1].
Definition retried := apply_sweep (env 3) d3 chain failed.2 50 52 [log1].
Definition direct := apply_sweep (env 3) d3 chain cache_new 50 52 [log1].

Definition discovered_by (r : result StoreError SweepResult) : option (list WatchKey) :=
  match r with Ok (Applied out) => Some (out_discovered out) | _ => None end.

(** After the failed sweep the database is unchanged but the cache knows the watch; run
    directly the same sweep reports the key as discovered, run after the failure it reports none. *)
Theorem failed_sweep_not_announced :
  (exists e, failed.1.1 = Err e) /\ failed.1.2 = d3
  /\ is_Some (cache_get failed.2 (WatchKey_new 0 payee))
  /\ discovered_by direct.1.1 = Some [WatchKey_new 0 payee]
  /\ discovered_by retried.1.1 = Some [].
Proof.
  split_and!; try (vm_compute; reflexivity); eexists; vm_compute; reflexivity.
Qed.
End Unannounced.

(** ** Two instances ingest one chain

    The server has dropped the leader's session and given its lock to the instance that waited for
    it; until its next keepalive the former leader does not know and both run their tasks. *)
Module TwoIngesters.
Import Cluster2.

Definition split_events : list Event := [ELost 0; EWaited (1, 0)%nat false; ETryLock (1, 0)%nat None].
Definition both : Cluster := default cluster_init (cruns split_events contended).

Theorem two_ingest :
  lreachable hist [chain] both
  /\ (works <$> (su_phase <$> c_sups both !! (0, 0)%nat)) = Some true
  /\ (works <$> (su_phase <$> c_sups both !! (1, 0)%nat)) = Some true
  /\ c_locks both !! leadership_key 8453 = Some 1.
Proof.
  split; [|split_and!; vm_compute; reflexivity].
  destruct contended_reachable as [ls H]. eexists. eapply (lruns_app hist [chain]); [exact H|].
  apply (cruns_lruns split_events). vm_compute. reflexivity.
Qed.
End TwoIngesters.

(** ** Transport failures are billed

    The comment in [RpcClient::run] says that transport failures are free; a connection that is refused
    is a [TransportError] and its attempt adds the chain's credits to the estimate. Only a timeout and an
    authentication failure are not counted. *)
Module BilledTransport.
Theorem transport_failure_billed (spec : ChainSpec) (elapsed : Z) (text : string) :
  attempt (T := unit) (fun _ => text) "eth_blockNumber" 1000 (fun _ => CallErr OtherTransport) 0
    = Err (RpcErrorF "eth_blockNumber" Transient text)
  /\ total (credits spec) (attempt_metrics (T := unit) spec "eth_blockNumber" elapsed
       (Err (RpcErrorF "eth_blockNumber" Transient text))) = as_u64 (cc_credits_per_call (ch_cfg spec)).
Proof. split; [done|]. by apply (attempt_metrics_totals (T := unit) "eth_blockNumber" spec). Qed.
End BilledTransport.
